(* ===== verification/_CoqProject ===== *)
-Q . S2P
Prelude.v
Bytes.v
Double.v
RingBuffer.v
HashMap.v
Replay.v
Wire.v
PacketTracker.v
ReliableChannel.v
Channel.v
Fragment.v
Address.v
Socket.v
Rtt.v
Bandwidth.v
Ddos.v
Stats.v
RateLimiter.v
PacketCrypto.v
Aesgcm.v
ConnectToken.v
Connection.v
Receive.v
Send.v
Delivery.v
IndexSet.v
Group.v
Slots.v
Server.v
ConnSafety.v
ServerSafety.v
ServerApi.v
Client.v
ClientSafety.v
Handshake.v
Quantize.v
Schema.v
Replicate.v
Replication.v
Pipeline.v
Workers.v
NetSim.v
ServerSim.v
ServerIo.v
ClientIo.v
Simd.v
SimdPlatforms.v
Buffer.v
Pool.v
Compressor.v
Profiler.v
Api.v
Sdk.v
