(* ===== verification/Prelude.v ===== *)
(** * A verification library for netudp

    netudp is a client/server library for real-time messages over UDP: connections
    are opened with encrypted tokens, packets are encrypted with keys from the token,
    several messages share a packet, and channels offer unreliable, sequenced and
    reliable delivery.  This library models the C++ code under src/src as executable
    Rocq functions and proves what makes the parts correct, and that they work
    together.

    *** How the code is modelled

    A machine integer is a [Z] with its wrap-around written out ([u8] .. [u64], [i32]);
    bytes are a list of [Z]; [memcpy] and the little-endian images of integers are in
    Bytes.v; [double] and [float] are the executable IEEE 754 specification of the
    Standard Library (Double.v).  A struct is a [Record], an enum an [Inductive], a
    member function a [Definition] from state to state.  A function whose result is an
    [option] gives [None] exactly where the C++ code would leave an object, read past an
    array or otherwise be undefined; theorems that it returns [Some] are theorems of
    memory safety.  Loops are structural, or recurse on a bound that the theorems show
    to be enough (the number of frames of a payload, the 256 messages of a queue, the
    slots of a table); no theorem assumes that a loop ends.  What is outside the sources
    is a parameter: the ciphers and hashes ([Crypto.Aead], [blake2b_keyed],
    [crypto_aead_lock] and [unlock]), the system calls ([Socket.Kernel]) and the system's
    cryptography ([Aesgcm.BCrypt]), the allocator, the processors' instructions
    ([Simd.Intrinsics], [SimdPlatforms.Neon]) and the netc library ([Compressor.Netc]),
    each with its documented laws as a class or as hypotheses and with an instance that
    satisfies them.  Server and client are first given the packets that arrived and
    collect those they send (Server, Client); ServerIo and ClientIo then run them on
    sockets.

    *** Files

    Containers and basics: Prelude (this file: arrays, bits, tactics), Bytes, Double,
    RingBuffer (core/ring_buffer.h), HashMap (core/hash_map.h), Pool (core/pool.h),
    IndexSet and Slots (the compact slot lists of server.cpp and group.h), Simd and
    SimdPlatforms (simd/, crypto/crc32c.cpp), Buffer (the buffer functions of api.cpp).

    Protocol components, one file each, with the invariant and the specification of
    each: Replay (crypto/replay.h), Wire (wire/frame.h), PacketTracker and
    ReliableChannel (reliability/), Rtt, Channel (channel/channel.h), Fragment
    (fragment/fragment.h), Address (core/address.cpp), Bandwidth, Ddos, RateLimiter,
    Stats, PacketCrypto (crypto/packet_crypto.cpp, aead.cpp, xchacha.cpp), Aesgcm
    (crypto/aead_aesgcm.cpp), ConnectToken (connection/connect_token.cpp, api.cpp),
    Compressor (compress/compressor.h), Group, Socket (socket/socket.cpp).

    Connections: Connection (connection/connection.h) puts the components together;
    Receive and Send are the data paths of server.cpp and client.cpp for one
    connection; Delivery composes them across the wire.

    Server and client: Server (server.cpp: slots, handshake, dispatch, update, API),
    ConnSafety and ServerSafety (its invariant under every call), ServerApi (what calls
    return), Client (client.cpp) and ClientSafety (its state machine), Handshake (both
    sides from token to connection).

    Replication: Quantize and Replicate (replication/replicate.cpp), Schema
    (schema.h, entity.h), Replication (the replication API of server.cpp).

    Threads and simulation: Pipeline (the lock-free queues of server.cpp under every
    interleaving and every stale load of acquire/release atomics), Workers (the
    connection workers and their barrier), NetSim (sim/network_sim.cpp), ServerSim (the
    server behind it).

    On the system: ServerIo (creating and destroying the server's sockets, the receive
    loops, the pipeline's threads), ClientIo (the same for the client), Profiler
    (profiling/: one thread, and threads in a zone together), Api (initialisation, the
    choice of the cipher, random bytes, batched sends, statistics), Sdk (the C++ wrapper
    sdk/cpp/netudp.hpp).

    *** What the theorems show

    - End to end: a token leads to a connection on both sides with matching keys and
      counters ([handshake_connects]); messages queued on one side have their direct
      effect on the other ([client_messages_reach_server],
      [server_messages_reach_client]).
    - On sockets: an update over the system's sockets is the update of the models on the
      datagrams that wait: for a server with one socket all of them, in order, and for one
      with the pipeline those in its queue ([update_handles_waiting]), for a client those
      before the first empty one ([client_update_on_socket]); whichever way a batch is
      sent, the wire carries the same datagrams ([send_batch_on_wire]); no socket leaks
      ([server_sockets_balanced]); addresses survive the system's form, and names of the
      system all but the IPv6 flow label and scope ([address_survives_socket]).
    - Safety: between start and stop, sequences of calls and packets keep server and
      client inside their objects and their invariants, within the limits on packet
      lengths and on unchecked arguments that each theorem names ([server_stays_safe],
      [client_state_machine], [replication_stays_safe], [simulated_server_stays_safe]);
      parsing of tokens, payloads, fragments and updates is safe for any bytes.
    - Security of the protocol state: within a session the cipher is never called twice
      with the same key and nonce ([nonces_never_repeat]); no nonce is accepted twice, no
      token is accepted from a second address.  Up to the server's first key change what
      either side sends arrives decrypted ([session_intact]); the client does not follow
      the key change ([session_dies_after_rekey]), and a client that connects again with
      its token starts over with the same keys and nonces ([accept_first_nonce]).
    - Delivery: reliable channels hand over in order or exactly once; acknowledgements
      and retransmission buffers agree with unbounded logs; fragments reassemble.
    - Refinement of containers to lists, maps, sets, stacks and records.
    - Equivalences: the fast scheduler with the plain one, every SIMD table with the
      mathematical functions ([every_platform_agrees]), AES-GCM through cached handles
      with the cipher ([aesgcm_cache_transparent]).
    - Service: paced updates serve each connection once in a round
      ([pacing_serves_all]), a round of replication sends each due entity to its group
      ([replicate_round]), and the sending loop empties the channels its scheduler looks
      at ([send_pending_sends_queued]).
    - Round trips: tokens, addresses, frames, varints, buffers, typed packets of the
      wrapper, replicated entities.
    - Threads: the packet queues are first in first out and free of races and of
      waiting, and the socket threads carry packets through them unchanged
      ([pipeline_carries_packets]); the worker barrier keeps the game thread and the
      workers apart and the workers' slices of the connections disjoint
      ([workers_exclusive]), but not the workers from each other where they share a buffer
      ([send_buf_race]), and [workers_can_hang] exhibits the interleaving in which it
      never ends; the profiler's
      counters are exact whatever the interleaving of their compare-and-swap loops
      ([zone_statistics_exact]).

    Lemmas such as [lost_packet_desynchronises], [long_message_overflows],
    [wrap_loses_record], [fast_path_forgets_nagle], [refill_overflow_blocks],
    [remove_out_of_range], [copying_desynchronises], [additional_sockets_unread],
    [long_write_overflows], [negative_blob_leaves], [scope_lost], [send_buf_race],
    [rekey_not_followed], [uso_merges], [stats_after_stop] and [servers_share_key]
    evaluate the code on inputs where it does not do what its comments say; the limits in
    the hypotheses of the theorems (packets of at most 1215 bytes and a tag, checked client
    numbers and lengths, packets arriving in order, no empty datagrams) are there because
    of them.

    *** Not modelled

    The io_uring and RIO back ends (socket/socket_uring.cpp, socket_rio.cpp), which nothing
    in the library calls; socket_set_cpu_affinity; logging, the platform macros and the
    allocator's wrappers of malloc and free; of the C++ wrapper the members that only
    forward to the C API and the callbacks; benchmarks, tests and examples.  The kernel of
    the theorems that an update reads its sockets dry is one at which nothing arrives
    during the call ([Socket.Quiet]); [Socket.drain_lossless] says that otherwise nothing
    is lost or reordered.  A worker's turn on a connection is one step of its model: the
    connection is its own by [workers_exclusive], and what it shares with other workers,
    [server->send_buf], is modelled apart from it. *)

From stdpp Require Export base tactics list list_numbers option numbers.
From Stdlib Require Export ZArith Lia.

#[global] Open Scope Z_scope.
Declare Scope netudp_scope.
Delimit Scope netudp_scope with net.

(** [lia] with division and remainder by constants. *)
Ltac mlia := Z.to_euclidean_division_equations; lia.

(** * Machine integers *)

(** Unsigned and two's complement wrap-around at the widths the sources use. *)
Definition u8 (z : Z) : Z := z mod 2 ^ 8.
Definition u16 (z : Z) : Z := z mod 2 ^ 16.
Definition u32 (z : Z) : Z := z mod 2 ^ 32.
Definition u64 (z : Z) : Z := z mod 2 ^ 64.
Definition i16 (z : Z) : Z := (z + 2 ^ 15) mod 2 ^ 16 - 2 ^ 15.
Definition i32 (z : Z) : Z := (z + 2 ^ 31) mod 2 ^ 32 - 2 ^ 31.

(** A byte value, and a byte string. *)
Definition is_u8 (z : Z) : Prop := 0 <= z < 2 ^ 8.
Definition is_u16 (z : Z) : Prop := 0 <= z < 2 ^ 16.
Definition is_u32 (z : Z) : Prop := 0 <= z < 2 ^ 32.
Definition is_u64 (z : Z) : Prop := 0 <= z < 2 ^ 64.
Abbreviation bytes := (list Z).
Definition is_bytes (l : bytes) : Prop := Forall is_u8 l.

Lemma u8_range z : is_u8 (u8 z).
Proof. unfold is_u8, u8. mlia. Qed.
Lemma u16_range z : is_u16 (u16 z).
Proof. unfold is_u16, u16. mlia. Qed.
Lemma u32_range z : is_u32 (u32 z).
Proof. unfold is_u32, u32. mlia. Qed.
Lemma u64_range z : is_u64 (u64 z).
Proof. unfold is_u64, u64. mlia. Qed.
Lemma i16_range z : - 2 ^ 15 <= i16 z < 2 ^ 15.
Proof. unfold i16. mlia. Qed.

Lemma u8_small z : is_u8 z -> u8 z = z.
Proof. unfold is_u8, u8. mlia. Qed.
Lemma u16_small z : is_u16 z -> u16 z = z.
Proof. unfold is_u16, u16. mlia. Qed.
Lemma u32_small z : is_u32 z -> u32 z = z.
Proof. unfold is_u32, u32. mlia. Qed.
Lemma u64_small z : is_u64 z -> u64 z = z.
Proof. unfold is_u64, u64. mlia. Qed.
Lemma i16_small z : - 2 ^ 15 <= z < 2 ^ 15 -> i16 z = z.
Proof. unfold i16. mlia. Qed.

(** The signed 16-bit distance of two wrapped counters is the distance of the
    counters themselves when it fits: the comparison every sequence-numbered
    component of the library relies on. *)
Lemma i16_sub_u16 a b :
  - 2 ^ 15 <= a - b < 2 ^ 15 -> i16 (u16 a - u16 b) = a - b.
Proof.
  intros H. unfold i16, u16.
  replace (a mod 2 ^ 16 - b mod 2 ^ 16 + 2 ^ 15)
    with ((a - b + 2 ^ 15) + (b / 2 ^ 16 - a / 2 ^ 16) * 2 ^ 16) by mlia.
  rewrite Z.mod_add by lia. rewrite Z.mod_small by lia. lia.
Qed.

(** Two counters less than [2^16] apart that agree after wrapping are equal. *)
Lemma u16_inj a b : Z.abs (a - b) < 2 ^ 16 -> u16 a = u16 b -> a = b.
Proof. unfold u16. intros H E. mlia. Qed.

Lemma u16_succ a : u16 (u16 a + 1) = u16 (a + 1).
Proof. unfold u16. mlia. Qed.
Lemma u16_idemp a : u16 (u16 a) = u16 a.
Proof. unfold u16. mlia. Qed.

(** * Arrays *)

(** A fixed C array is a list; the index is the C expression's value.  [aget]
    and [aset] are for indices the code keeps in range by construction
    (a remainder or a mask); the checked [oget] is for the others. *)
Definition aget {A} `{Inhabited A} (l : list A) (i : Z) : A := l !!! Z.to_nat i.
Definition aset {A} (l : list A) (i : Z) (x : A) : list A := <[Z.to_nat i := x]> l.
Definition zlen {A} (l : list A) : Z := Z.of_nat (length l).

Notation "l .[ i ]" := (aget l i)
  (at level 1, i at level 200, left associativity, format "l .[ i ]") : netudp_scope.
Notation "l .[ i <- x ]" := (aset l i x)
  (at level 1, i at level 200, x at level 200, left associativity,
   format "l .[ i  <-  x ]") : netudp_scope.
#[global] Open Scope netudp_scope.

Section Arrays.
Context {A : Type}.
Implicit Types (l : list A) (i j : Z) (x : A).

Lemma zlen_nonneg l : 0 <= zlen l.
Proof. unfold zlen. lia. Qed.
Lemma zlen_nil : zlen (@nil A) = 0.
Proof. done. Qed.
Lemma zlen_cons x l : zlen (x :: l) = 1 + zlen l.
Proof. unfold zlen. simpl. lia. Qed.
Lemma zlen_app l l' : zlen (l ++ l') = zlen l + zlen l'.
Proof. unfold zlen. rewrite length_app. lia. Qed.
Lemma zlen_replicate n x : zlen (replicate n x) = Z.of_nat n.
Proof. unfold zlen. by rewrite length_replicate. Qed.
Lemma zlen_aset l i x : zlen (aset l i x) = zlen l.
Proof. unfold zlen, aset. by rewrite length_insert. Qed.
Lemma length_aset l i x : length (aset l i x) = length l.
Proof. unfold aset. by rewrite length_insert. Qed.

Context `{Inhabited A}.

Lemma aget_aset_eq l i x : 0 <= i < zlen l -> (aset l i x).[i] = x.
Proof.
  unfold zlen, aget, aset. intros Hi.
  rewrite list_lookup_total_insert_eq; [done | lia].
Qed.
Lemma aget_aset_ne l i j x : 0 <= i -> 0 <= j -> i <> j -> (aset l i x).[j] = l.[j].
Proof.
  unfold aget, aset. intros. rewrite list_lookup_total_insert_ne; [done | lia].
Qed.
Lemma aget_aset l i j x :
  0 <= i -> 0 <= j < zlen l ->
  (aset l i x).[j] = if decide (i = j) then x else l.[j].
Proof.
  intros Hi Hj. case_decide as E.
  - subst. apply aget_aset_eq. lia.
  - apply aget_aset_ne; lia.
Qed.
Lemma aget_replicate n x i : 0 <= i < Z.of_nat n -> (replicate n x).[i] = x.
Proof.
  unfold aget. intros Hi. rewrite list_lookup_total_alt, lookup_replicate_2; [done|lia].
Qed.
Lemma aget_Some l i x : 0 <= i -> l !! Z.to_nat i = Some x -> l.[i] = x.
Proof. unfold aget. intros _ E. by apply list_lookup_total_correct. Qed.
Lemma lookup_aget l i : 0 <= i < zlen l -> l !! Z.to_nat i = Some l.[i].
Proof. unfold aget, zlen. intros Hi. apply list_lookup_lookup_total_lt. lia. Qed.
Lemma aset_id l i : 0 <= i < zlen l -> aset l i l.[i] = l.
Proof. intros Hi. unfold aset. apply list_insert_id. by apply lookup_aget. Qed.
Lemma array_eq l l' :
  zlen l = zlen l' -> (forall i, 0 <= i < zlen l -> l.[i] = l'.[i]) -> l = l'.
Proof.
  intros Hlen Hget. apply list_eq_same_length with (length l').
  - done.
  - unfold zlen in Hlen. lia.
  - intros i x y Hi Hx Hy. unfold zlen in *.
    pose proof (Hget (Z.of_nat i) ltac:(lia)) as E. unfold aget in E.
    rewrite Nat2Z.id in E. apply list_lookup_total_correct in Hx, Hy. congruence.
Qed.
End Arrays.

(** * Undefined behaviour *)

(** A computation that touches memory outside its object has no defined result
    in C++; it is [None].  The library's safety theorems say that [None] is not
    reached from a well-formed state. *)
Definition guard_ub (b : bool) : option unit := if b then Some () else None.

Definition oget {A} (l : list A) (i : Z) : option A :=
  if (0 <=? i) then l !! Z.to_nat i else None.
Definition oset {A} (l : list A) (i : Z) (x : A) : option (list A) :=
  if (0 <=? i) && (i <? zlen l) then Some (aset l i x) else None.

Lemma oget_aget {A} `{Inhabited A} (l : list A) i :
  0 <= i < zlen l -> oget l i = Some l.[i].
Proof.
  intros Hi. unfold oget. rewrite (proj2 (Z.leb_le 0 i)) by lia. by apply lookup_aget.
Qed.
Lemma oset_aset {A} (l : list A) i x :
  0 <= i < zlen l -> oset l i x = Some (aset l i x).
Proof.
  intros Hi. unfold oset.
  by rewrite (proj2 (Z.leb_le 0 i)), (proj2 (Z.ltb_lt i (zlen l))) by lia.
Qed.

(** One step of a computation that went well.  (Rewriting with it, unlike [cbn],
    leaves the kernel no choice of what to unfold.) *)
Lemma Some_bind {A B} (f : A -> option B) (x : A) : (Some x ≫= f) = f x.
Proof. done. Qed.

Lemma oget_middle {A} (pre post : list A) x i :
  i = zlen pre -> oget (pre ++ x :: post) i = Some x.
Proof.
  intros ->. unfold oget, zlen. rewrite (proj2 (Z.leb_le 0 _)) by lia.
  by rewrite Nat2Z.id, lookup_app_r, Nat.sub_diag by done.
Qed.
Lemma oset_middle {A} (pre post : list A) x y i :
  i = zlen pre -> oset (pre ++ x :: post) i y = Some (pre ++ y :: post).
Proof.
  intros ->. unfold oset, aset, zlen. rewrite length_app. cbn [length].
  rewrite (proj2 (Z.leb_le 0 _)), (proj2 (Z.ltb_lt _ _)) by lia. cbn [andb].
  rewrite Nat2Z.id. f_equal. by rewrite insert_app_r_alt, Nat.sub_diag by lia.
Qed.

(** * Automation *)

Create HintDb netudp.
Create Rewrite HintDb zlen.
#[export] Hint Resolve u8_range u16_range u32_range u64_range zlen_nonneg : netudp.
#[export] Hint Rewrite @zlen_nil @zlen_cons @zlen_app @zlen_replicate @zlen_aset : zlen.

(** Turn the boolean comparisons of a hypothesis or of the goal into facts
    [lia] reads. *)
Ltac bool_facts :=
  repeat match goal with
  | H : (_ =? _) = true |- _ => apply Z.eqb_eq in H
  | H : (_ =? _) = false |- _ => apply Z.eqb_neq in H
  | H : (_ <? _) = true |- _ => apply Z.ltb_lt in H
  | H : (_ <? _) = false |- _ => apply Z.ltb_ge in H
  | H : (_ <=? _) = true |- _ => apply Z.leb_le in H
  | H : (_ <=? _) = false |- _ => apply Z.leb_gt in H
  | H : (_ >? _) = true |- _ => apply Z.gtb_lt in H
  | H : (_ >? _) = false |- _ => rewrite Z.gtb_ltb in H; apply Z.ltb_ge in H
  | H : (_ >=? _) = true |- _ => rewrite Z.geb_leb in H; apply Z.leb_le in H
  | H : (_ >=? _) = false |- _ => rewrite Z.geb_leb in H; apply Z.leb_gt in H
  | H : (_ && _) = true |- _ => apply andb_true_iff in H as [? ?]
  | H : (_ || _) = false |- _ => apply orb_false_iff in H as [? ?]
  | H : negb _ = true |- _ => apply negb_true_iff in H
  | H : negb _ = false |- _ => apply negb_false_iff in H
  end.

(** Case analysis on the next [if] of the goal, with its fact. *)
Ltac case_if :=
  match goal with
  | |- context [if ?b then _ else _] =>
      lazymatch type of b with
      | bool => let E := fresh "E" in destruct b eqn:E; bool_facts
      | _ => case_decide
      end
  end.
Ltac case_if_in H :=
  match type of H with
  | context [if ?b then _ else _] =>
      lazymatch type of b with
      | bool => let E := fresh "E" in destruct b eqn:E; bool_facts
      | _ => case_decide
      end
  end.

(** Lengths of compound lists. *)
Ltac zlen_simpl := autorewrite with zlen in *.

(** Close a goal about comparisons by arithmetic. *)
Ltac blia := bool_facts; unfold is_u8, is_u16, is_u32, is_u64 in *; zlen_simpl; lia.

(** * Bit tests *)

(** [(mask & (1 << i)) != 0], as the sources write it. *)
Definition bit_set (m i : Z) : bool := negb (Z.land m (Z.shiftl 1 i) =? 0).

Lemma bit_set_testbit m i : 0 <= i -> bit_set m i = Z.testbit m i.
Proof.
  intros Hi. unfold bit_set.
  replace (Z.shiftl 1 i) with (2 ^ i) by (rewrite Z.shiftl_1_l; done).
  assert (forall j, 0 <= j -> Z.testbit (Z.land m (2 ^ i)) j
            = Z.testbit m i && (j =? i)) as Hb.
  { intros j Hj. rewrite Z.land_spec. destruct (j =? i) eqn:E; bool_facts.
    - subst. by rewrite Z.pow2_bits_true, !andb_true_r by lia.
    - by rewrite Z.pow2_bits_false, !andb_false_r by lia. }
  destruct (Z.testbit m i) eqn:E.
  - apply negb_true_iff, Z.eqb_neq. intros H0.
    pose proof (Hb i Hi) as H1. rewrite H0, Z.bits_0, Z.eqb_refl in H1. done.
  - apply negb_false_iff, Z.eqb_eq. apply Z.bits_inj_0. intros j.
    destruct (Z_lt_le_dec j 0); [by apply Z.testbit_neg_r|]. by rewrite Hb.
Qed.

Lemma testbit_setbit_lor m i j :
  0 <= i -> 0 <= j ->
  Z.testbit (Z.lor m (Z.shiftl 1 i)) j = Z.testbit m j || (j =? i).
Proof.
  intros Hi Hj. rewrite Z.lor_spec, Z.shiftl_1_l. f_equal.
  destruct (j =? i) eqn:E; bool_facts; subst.
  - by apply Z.pow2_bits_true.
  - by apply Z.pow2_bits_false.
Qed.

Lemma testbit_mod_pow2 m n j :
  0 <= j -> 0 <= n -> Z.testbit (m mod 2 ^ n) j = (j <? n) && Z.testbit m j.
Proof.
  intros Hj Hn. destruct (j <? n) eqn:E; bool_facts.
  - by rewrite Z.mod_pow2_bits_low by lia.
  - by rewrite Z.mod_pow2_bits_high by lia.
Qed.

Lemma lor_range n a b : 0 <= n -> 0 <= a < 2 ^ n -> 0 <= b < 2 ^ n -> 0 <= Z.lor a b < 2 ^ n.
Proof.
  intros Hn Ha Hb. split; [apply Z.lor_nonneg; lia|].
  rewrite <- (Z.mod_small a (2 ^ n)), <- (Z.mod_small b (2 ^ n)) by lia.
  rewrite <- !Z.land_ones, <- Z.land_lor_distr_l, Z.land_ones by lia.
  apply Z.mod_pos_bound. lia.
Qed.
Lemma land_range n a b : 0 <= n -> 0 <= a < 2 ^ n -> 0 <= Z.land a b < 2 ^ n.
Proof.
  intros Hn Ha. split; [apply Z.land_nonneg; lia|].
  rewrite <- (Z.mod_small a (2 ^ n)) by lia.
  rewrite <- Z.land_ones, <- Z.land_assoc, (Z.land_comm (Z.ones n)), Z.land_assoc,
    Z.land_ones by lia.
  apply Z.mod_pos_bound. lia.
Qed.

(** Two fields of a word, from the bottom and from the top. *)
Lemma lor_shift a b n : 0 <= n -> 0 <= a < 2 ^ n -> Z.lor a (Z.shiftl b n) = a + b * 2 ^ n.
Proof.
  intros Hn Ha. rewrite Z.shiftl_mul_pow2 by done.
  assert (Z.land a (b * 2 ^ n) = 0) as E.
  { apply Z.bits_inj'. intros i Hi. rewrite Z.land_spec, Z.bits_0, <- Z.shiftl_mul_pow2 by done.
    destruct (Z_lt_le_dec i n).
    - rewrite (Z.shiftl_spec_low b n i) by done. apply andb_false_r.
    - rewrite <- (Z.mod_small a (2 ^ n)) by done. by rewrite Z.mod_pow2_bits_high by lia. }
  rewrite <- Z.lxor_lor by done. symmetry. by apply Z.add_nocarry_lxor.
Qed.
Lemma lor_high a b n : 0 <= n -> 0 <= b < 2 ^ n -> Z.lor (a * 2 ^ n) b = a * 2 ^ n + b.
Proof. intros Hn Hb. rewrite Z.lor_comm, <- Z.shiftl_mul_pow2, lor_shift, Z.shiftl_mul_pow2 by done. lia. Qed.

Lemma lxor_u32 a b : is_u32 a -> is_u32 b -> is_u32 (Z.lxor a b).
Proof.
  intros Ha Hb. rewrite <- (u32_small a Ha), <- (u32_small b Hb). unfold u32.
  enough (Z.lxor (a mod 2 ^ 32) (b mod 2 ^ 32) = Z.lxor a b mod 2 ^ 32) as -> by apply u32_range.
  symmetry. apply Z.bits_inj'. intros i Hi. rewrite Z.lxor_spec, !testbit_mod_pow2, Z.lxor_spec by lia.
  by destruct (i <? 32).
Qed.
Lemma shr_u32 s k : 0 <= k -> is_u32 s -> is_u32 (Z.shiftr s k).
Proof.
  intros Hk [Hs Hl]. rewrite Z.shiftr_div_pow2 by done. pose proof (Z.pow_pos_nonneg 2 k ltac:(lia) Hk).
  split; [by apply Z.div_pos|]. apply Z.le_lt_trans with s; [|done]. by apply Z.div_le_upper_bound; [|nia].
Qed.

(** [x & (N - 1)] for a power of two [N]. *)
Lemma land_mask N x : (exists k, 0 <= k /\ N = 2 ^ k) -> Z.land x (N - 1) = x mod N.
Proof.
  intros (k & Hk & ->). rewrite <- Z.land_ones by done. by rewrite Z.ones_equiv.
Qed.

(** Integer intervals as lists. *)
Lemma seqZ_snoc m n : 0 <= n -> seqZ m (n + 1) = seqZ m n ++ [m + n].
Proof.
  intros Hn. by rewrite seqZ_app by lia.
Qed.
Lemma fmap_seqZ_shift {A} (f : Z -> A) m n k :
  f <$> seqZ (m + k) n = (fun i => f (i + k)) <$> seqZ m n.
Proof.
  unfold seqZ. rewrite <- !list_fmap_compose. apply list_fmap_ext. intros i x _.
  simpl. by f_equal; lia.
Qed.
Lemma fmap_seqZ_ext {A} (f g : Z -> A) m n :
  (forall i, m <= i < m + n -> f i = g i) -> f <$> seqZ m n = g <$> seqZ m n.
Proof.
  intros H. apply list_fmap_ext. intros i x Hx.
  apply lookup_seqZ in Hx as [-> ?]. apply H. lia.
Qed.

(** * Loops *)

(** A [while] loop with a bound on its iterations: [step] either continues
    ([inl]) or leaves the loop ([inr]).  The bound is a binary number, so it can
    be larger than any run and costs nothing; [loop_done] turns a decreasing
    measure into termination within it. *)
Fixpoint loop {S R} (fuel : positive) (step : S -> S + R) (s : S) : S + R :=
  match fuel with
  | xH => step s
  | xO p => match loop p step s with inl s' => loop p step s' | r => r end
  | xI p => match step s with
            | inl s' => match loop p step s' with
                        | inl s'' => loop p step s''
                        | r => r end
            | r => r end
  end.

Section Loop.
Context {S R : Type} (step : S -> S + R).
Implicit Types (s : S) (r : R).

(** [n] unconditional unfoldings of the loop. *)
Fixpoint loop_nat (n : nat) (s : S) : S + R :=
  match n with
  | O => inl s
  | Datatypes.S n => match step s with inl s' => loop_nat n s' | r => r end
  end.

Lemma loop_nat_add n m s :
  loop_nat (n + m) s
  = match loop_nat n s with inl s' => loop_nat m s' | r => r end.
Proof. revert s; induction n; intros s; simpl; [done|]. by destruct (step s). Qed.

Lemma loop_loop_nat p s : loop p step s = loop_nat (Pos.to_nat p) s.
Proof.
  revert s; induction p as [p IH|p IH|]; intros s; cbn [loop].
  - rewrite Pos2Nat.inj_xI. cbn [loop_nat]. destruct (step s) as [s'|]; [|done].
    replace (2 * Pos.to_nat p)%nat
      with (Pos.to_nat p + Pos.to_nat p)%nat by lia.
    rewrite loop_nat_add, IH. by destruct (loop_nat _ s').
  - rewrite Pos2Nat.inj_xO.
    replace (2 * Pos.to_nat p)%nat with (Pos.to_nat p + Pos.to_nat p)%nat by lia.
    rewrite loop_nat_add, IH. by destruct (loop_nat _ s).
  - change (Pos.to_nat 1) with 1%nat. simpl. by destruct (step s).
Qed.

(** Total correctness: an invariant indexed by a measure that every iteration
    decreases, and a bound above the measure, give a result that satisfies what
    every exit satisfies. *)
Lemma loop_done (I : Z -> S -> Prop) (P : R -> Prop) p n s :
  (forall n s, I n s -> 0 <= n) ->
  (forall n s s', I n s -> step s = inl s' -> exists n', n' < n /\ I n' s') ->
  (forall n s r, I n s -> step s = inr r -> P r) ->
  I n s -> n < Z.pos p -> exists r, loop p step s = inr r /\ P r.
Proof.
  intros Hpos Hstep Hexit. rewrite loop_loop_nat.
  replace (Z.pos p) with (Z.of_nat (Pos.to_nat p)) by lia.
  generalize (Pos.to_nat p) as f. clear p. intros f. revert n s.
  induction f as [|f IH]; intros n s Hs Hm.
  - pose proof (Hpos n s Hs). lia.
  - simpl. destruct (step s) as [s'|r] eqn:E.
    + destruct (Hstep n s s' Hs E) as (n' & Hn & Hs'). apply (IH n'); [done|lia].
    + eauto.
Qed.

(** What every turn keeps holds at the exit. *)
Lemma loop_inv (I : S -> Prop) (P : R -> Prop) p s r :
  (forall s, I s -> match step s with inl s' => I s' | inr r => P r end) ->
  I s -> loop p step s = inr r -> P r.
Proof.
  intros Hstep. rewrite loop_loop_nat. generalize (Pos.to_nat p) as f. clear p.
  intros f. revert s. induction f as [|f IH]; intros s Hs E; simpl in E; [done|].
  pose proof (Hstep s Hs) as H. destruct (step s) as [s'|r']; [by apply (IH s')|].
  by injection E as <-.
Qed.
End Loop.
Arguments loop : simpl never.

(** * Sums over an array *)

Fixpoint sumZ (l : list Z) : Z := match l with [] => 0 | x :: l => x + sumZ l end.

Lemma sumZ_app l l' : sumZ (l ++ l') = sumZ l + sumZ l'.
Proof. induction l; simpl; lia. Qed.
Lemma sumZ_insert l i x y :
  l !! i = Some y -> sumZ (<[i := x]> l) = sumZ l - y + x.
Proof.
  revert i; induction l as [|a l IH]; intros [|i] E; simplify_eq/=; [lia|].
  rewrite (IH i E). lia.
Qed.
Lemma sumZ_nonneg l : Forall (fun x => 0 <= x) l -> 0 <= sumZ l.
Proof. induction 1; simpl; lia. Qed.
Lemma sumZ_bound l b : Forall (fun x => x <= b) l -> sumZ l <= b * zlen l.
Proof. induction 1; [unfold zlen; simpl; lia|]. rewrite zlen_cons. simpl. lia. Qed.

(** Changing the summand at one index changes the sum by the difference. *)
Lemma sumZ_seqZ_update (f g : Z -> Z) n i :
  0 <= i < n -> (forall j, 0 <= j < n -> j <> i -> f j = g j) ->
  sumZ (f <$> seqZ 0 n) = sumZ (g <$> seqZ 0 n) - g i + f i.
Proof.
  intros Hi Hfg.
  assert (f <$> seqZ 0 n = <[Z.to_nat i := f i]> (g <$> seqZ 0 n)) as ->.
  { apply list_eq. intros j.
    destruct (decide (Z.of_nat j < n)) as [Hj|Hj].
    - destruct (decide (j = Z.to_nat i)) as [->|Hne].
      + rewrite list_lookup_insert_eq by (rewrite length_fmap, length_seqZ; lia).
        rewrite list_lookup_fmap, lookup_seqZ_lt by lia. simpl. do 2 f_equal. lia.
      + rewrite list_lookup_insert_ne by lia.
        rewrite !list_lookup_fmap, lookup_seqZ_lt by lia. simpl. f_equal.
        apply Hfg; lia.
    - rewrite !lookup_ge_None_2; [done| |].
      + rewrite length_insert, length_fmap, length_seqZ. lia.
      + rewrite length_fmap, length_seqZ. lia. }
  apply sumZ_insert. rewrite list_lookup_fmap, lookup_seqZ_lt by lia. simpl.
  do 2 f_equal. lia.
Qed.
