(* ===== verification/Bytes.v ===== *)
(** Little-endian memory images and [memcpy].

    The sources serialise every integer with [std::memcpy] from its object
    representation; the targets of the library (x86-64, ARM64) are little-endian.
    [le_bytes n z] is the [n]-byte image of [z]; [le_value] reads one back.
    [mread]/[mwrite] are [memcpy] from and into a buffer: [None] when the range
    leaves the buffer. *)

From S2P Require Import Prelude.

Fixpoint le_bytes (n : nat) (z : Z) : bytes :=
  match n with
  | O => []
  | S n => z mod 256 :: le_bytes n (z / 256)
  end.

Fixpoint le_value (l : bytes) : Z :=
  match l with
  | [] => 0
  | b :: l => b + 256 * le_value l
  end.

(** [memcpy(dst, buf + off, n)]. *)
Definition mread (buf : bytes) (off n : Z) : option bytes :=
  if (0 <=? off) && (0 <=? n) && (off + n <=? zlen buf)
  then Some (take (Z.to_nat n) (drop (Z.to_nat off) buf)) else None.

(** [memcpy(buf + off, data, len)]. *)
Definition mwrite (buf : bytes) (off : Z) (data : bytes) : option bytes :=
  if (0 <=? off) && (off + zlen data <=? zlen buf)
  then Some (take (Z.to_nat off) buf ++ data
               ++ drop (Z.to_nat off + length data) buf)
  else None.

(** Reading an [n]-byte unsigned integer. *)
Definition mread_u (buf : bytes) (off : Z) (n : nat) : option Z :=
  le_value <$> mread buf off (Z.of_nat n).

Section LittleEndian.
Implicit Types (l : bytes) (n : nat) (z : Z).

Lemma length_le_bytes n z : length (le_bytes n z) = n.
Proof. revert z; induction n; intros; simpl; [done | by rewrite IHn]. Qed.
Lemma zlen_le_bytes n z : zlen (le_bytes n z) = Z.of_nat n.
Proof. unfold zlen. by rewrite length_le_bytes. Qed.

Lemma le_bytes_is_bytes n z : is_bytes (le_bytes n z).
Proof.
  revert z; induction n; intros; simpl; constructor; [|apply IHn].
  unfold is_u8. apply Z.mod_pos_bound. lia.
Qed.

Lemma le_value_bytes n z : le_value (le_bytes n z) = z mod 2 ^ (8 * Z.of_nat n).
Proof.
  revert z; induction n as [|n IH]; intros z; simpl le_bytes; simpl le_value.
  - by rewrite Z.mod_1_r.
  - rewrite IH. replace (8 * Z.of_nat (S n)) with (8 + 8 * Z.of_nat n) by lia.
    rewrite Z.pow_add_r by lia. change (2 ^ 8) with 256.
    rewrite Z.rem_mul_r; lia.
Qed.

Lemma le_value_bytes_small n z :
  0 <= z < 2 ^ (8 * Z.of_nat n) -> le_value (le_bytes n z) = z.
Proof. intros. rewrite le_value_bytes. by apply Z.mod_small. Qed.

Lemma le_value_range l : is_bytes l -> 0 <= le_value l < 2 ^ (8 * zlen l).
Proof.
  induction 1 as [|b l Hb Hl IH].
  - by vm_compute.
  - rewrite zlen_cons. simpl. unfold is_u8 in Hb. change (2 ^ 8) with 256 in Hb.
    replace (8 * (1 + zlen l)) with (8 + 8 * zlen l) by lia.
    pose proof (zlen_nonneg l).
    rewrite Z.pow_add_r by lia. change (2 ^ 8) with 256. nia.
Qed.

Lemma le_bytes_value l : is_bytes l -> le_bytes (length l) (le_value l) = l.
Proof.
  induction 1 as [|b l Hb Hl IH]; simpl; [done|].
  unfold is_u8 in Hb. change (2 ^ 8) with 256 in Hb. f_equal.
  - rewrite Z.mul_comm, Z.mod_add by lia. by apply Z.mod_small.
  - rewrite Z.mul_comm, Z.div_add by lia. by rewrite Z.div_small.
Qed.

Lemma le_bytes_inj n z z' :
  0 <= z < 2 ^ (8 * Z.of_nat n) -> 0 <= z' < 2 ^ (8 * Z.of_nat n) ->
  le_bytes n z = le_bytes n z' -> z = z'.
Proof.
  intros Hz Hz' E. apply (f_equal le_value) in E.
  by rewrite !le_value_bytes_small in E.
Qed.

Lemma le_bytes_mod n z : le_bytes n (z mod 2 ^ (8 * Z.of_nat n)) = le_bytes n z.
Proof.
  rewrite <- le_value_bytes.
  pose proof (le_bytes_value _ (le_bytes_is_bytes n z)) as E.
  by rewrite length_le_bytes in E.
Qed.
End LittleEndian.

Arguments le_bytes : simpl never.
#[export] Hint Rewrite zlen_le_bytes : zlen.
#[export] Hint Resolve le_bytes_is_bytes : netudp.

Section Memcpy.
Implicit Types (buf data a b c : bytes) (off n : Z).

Lemma mread_app a b c :
  mread (a ++ b ++ c) (zlen a) (zlen b) = Some b.
Proof.
  unfold mread.
  replace ((0 <=? zlen a) && (0 <=? zlen b) && _) with true.
  - unfold zlen. by rewrite !Nat2Z.id, drop_app_length, take_app_length.
  - symmetry. pose proof (zlen_nonneg a). pose proof (zlen_nonneg b).
    pose proof (zlen_nonneg c). rewrite !andb_true_iff, !Z.leb_le, !zlen_app. lia.
Qed.

(** Reading at the position where a known prefix ends. *)
Lemma mread_at buf off n a b c :
  buf = a ++ b ++ c -> off = zlen a -> n = zlen b -> mread buf off n = Some b.
Proof. intros -> -> ->. apply mread_app. Qed.

Lemma mread_Some buf off n :
  0 <= off -> 0 <= n -> off + n <= zlen buf ->
  mread buf off n = Some (take (Z.to_nat n) (drop (Z.to_nat off) buf)).
Proof.
  intros. unfold mread.
  rewrite (proj2 (Z.leb_le 0 off)), (proj2 (Z.leb_le 0 n)),
    (proj2 (Z.leb_le (off + n) (zlen buf))) by lia. done.
Qed.

Lemma mread_inv buf off n d :
  mread buf off n = Some d ->
  0 <= off /\ 0 <= n /\ off + n <= zlen buf /\ zlen d = n /\
  d = take (Z.to_nat n) (drop (Z.to_nat off) buf).
Proof.
  unfold mread. intros H. case_if_in H; [|done]. simplify_eq.
  split_and!; try lia; [|done].
  unfold zlen in *. rewrite length_take, length_drop. lia.
Qed.

Lemma mwrite_app a b c data :
  zlen b = zlen data -> mwrite (a ++ b ++ c) (zlen a) data = Some (a ++ data ++ c).
Proof.
  intros Hb. unfold mwrite. pose proof (zlen_nonneg a). pose proof (zlen_nonneg c).
  replace ((0 <=? zlen a) && _) with true.
  - unfold zlen in *. rewrite Nat2Z.id, take_app_length. f_equal. f_equal. f_equal.
    rewrite <- drop_drop, drop_app_length.
    replace (length data) with (length b) by lia. by rewrite drop_app_length.
  - symmetry. rewrite !andb_true_iff, !Z.leb_le, !zlen_app. lia.
Qed.

Lemma mwrite_at buf off data a b c :
  buf = a ++ b ++ c -> off = zlen a -> zlen b = zlen data ->
  mwrite buf off data = Some (a ++ data ++ c).
Proof. intros -> -> ?. by apply mwrite_app. Qed.

Lemma mwrite_Some buf off data :
  0 <= off -> off + zlen data <= zlen buf ->
  mwrite buf off data = Some (take (Z.to_nat off) buf ++ data
             ++ drop (Z.to_nat off + length data) buf).
Proof.
  intros. unfold mwrite.
  by rewrite (proj2 (Z.leb_le 0 off)), (proj2 (Z.leb_le _ (zlen buf))) by lia.
Qed.

Lemma mwrite_None buf off data :
  off < 0 \/ zlen buf < off + zlen data -> mwrite buf off data = None.
Proof.
  intros H. unfold mwrite. case_if; [|done]. lia.
Qed.

Lemma mwrite_zlen buf off data buf' :
  mwrite buf off data = Some buf' -> zlen buf' = zlen buf.
Proof.
  unfold mwrite. intros H. case_if_in H; [|done]. simplify_eq.
  unfold zlen in *. rewrite !length_app, length_take, length_drop. lia.
Qed.

Lemma mwrite_bytes buf off data buf' :
  is_bytes buf -> is_bytes data -> mwrite buf off data = Some buf' -> is_bytes buf'.
Proof.
  unfold mwrite. intros Hb Hd H. case_if_in H; [|done]. simplify_eq.
  unfold is_bytes in *. rewrite !Forall_app. auto using Forall_take, Forall_drop.
Qed.

(** What a write leaves at each byte. *)
Lemma mwrite_lookup buf off data buf' i :
  mwrite buf off data = Some buf' -> 0 <= i < zlen buf ->
  buf'.[i] = if (off <=? i) && (i <? off + zlen data) then data.[i - off] else buf.[i].
Proof.
  unfold mwrite, aget, zlen. intros H Hi. case_if_in H; [|done]. simplify_eq.
  rewrite !list_lookup_total_alt. destruct (off <=? i) eqn:E1; bool_facts; simpl.
  - rewrite lookup_app_r by (rewrite length_take; lia). rewrite length_take.
    destruct (i <? _) eqn:E2; bool_facts.
    + rewrite lookup_app_l by lia. do 2 f_equal. lia.
    + rewrite lookup_app_r by lia. rewrite lookup_drop. do 2 f_equal. lia.
  - rewrite lookup_app_l by (rewrite length_take; lia).
    by rewrite lookup_take_lt by lia.
Qed.

(** [memcpy] back what [memcpy] stored. *)
Lemma mread_mwrite_same buf off data buf' :
  mwrite buf off data = Some buf' -> mread buf' off (zlen data) = Some data.
Proof.
  unfold mwrite. intros H. case_if_in H; [|done]. simplify_eq.
  apply mread_at with (take (Z.to_nat off) buf)
    (drop (Z.to_nat off + length data) buf); [done| |done].
  unfold zlen in *. rewrite length_take. lia.
Qed.
(** A store leaves what is before it and after it. *)
Lemma mread_mwrite_disjoint buf off data buf' pos n :
  mwrite buf off data = Some buf' -> pos + n <= off \/ off + zlen data <= pos ->
  mread buf' pos n = mread buf pos n.
Proof.
  intros Hw Hd. unfold mread. rewrite (mwrite_zlen _ _ _ _ Hw). case_if; [|done]. f_equal.
  unfold mwrite in Hw. case_if_in Hw; [|done]. simplify_eq. unfold zlen in *. apply list_eq. intros i.
  destruct (decide (i < Z.to_nat n)%nat); [|by rewrite !lookup_take_ge by lia].
  rewrite !lookup_take_lt, !lookup_drop by lia. destruct Hd.
  - by rewrite lookup_app_l, lookup_take_lt by (rewrite ?length_take; lia).
  - rewrite lookup_app_r by (rewrite length_take; lia). rewrite length_take.
    rewrite lookup_app_r by lia. rewrite lookup_drop. f_equal. lia.
Qed.
(** A store over the front of a range. *)
Lemma mread_mwrite_front buf off data buf' n old :
  mwrite buf off data = Some buf' -> mread buf off n = Some old -> zlen data <= n ->
  mread buf' off n = Some (data ++ drop (length data) old).
Proof.
  intros Hw Hr Hn. destruct (mread_inv _ _ _ _ Hr) as (H1 & H2 & H3 & H4 & ->). unfold mwrite in Hw.
  case_if_in Hw; [|done]. simplify_eq.
  rewrite (mread_at _ _ _ (take (Z.to_nat off) buf) (data ++ drop (length data) (take (Z.to_nat n) (drop (Z.to_nat off) buf)))
    (drop (Z.to_nat (off + n)) buf)); [done| | |].
  - rewrite <- app_assoc. do 2 f_equal. rewrite skipn_firstn_comm, drop_drop.
    rewrite <- (take_drop (Z.to_nat n - length data) (drop (Z.to_nat off + length data) buf)) at 1. f_equal.
    rewrite drop_drop. f_equal. unfold zlen in *. lia.
  - unfold zlen in *. rewrite length_take. lia.
  - unfold zlen in *. rewrite length_app, length_drop, length_take, length_drop. lia.
Qed.
Lemma mread_front buf off n m old :
  mread buf off n = Some old -> 0 <= m <= n -> mread buf off m = Some (take (Z.to_nat m) old).
Proof.
  intros Hr Hm. destruct (mread_inv _ _ _ _ Hr) as (H1 & H2 & H3 & H4 & ->).
  rewrite mread_Some by lia. by rewrite take_take, Nat.min_l by lia.
Qed.
Lemma mread_rest buf off n m old :
  mread buf off n = Some old -> 0 <= m <= n -> mread buf (off + m) (n - m) = Some (drop (Z.to_nat m) old).
Proof.
  intros Hr Hm. destruct (mread_inv _ _ _ _ Hr) as (H1 & H2 & H3 & H4 & ->).
  rewrite mread_Some by lia. f_equal. rewrite skipn_firstn_comm, drop_drop. do 2 f_equal; lia.
Qed.
(** Two adjacent stores are one. *)
Lemma mwrite_mwrite buf pos d e :
  0 <= pos -> pos + zlen d + zlen e <= zlen buf ->
  (b ← mwrite buf pos d; mwrite b (pos + zlen d) e) = mwrite buf pos (d ++ e).
Proof.
  intros Hp Hl. pose proof (zlen_nonneg d). pose proof (zlen_nonneg e).
  rewrite !mwrite_Some by (zlen_simpl; lia). simpl.
  set (c := drop (Z.to_nat pos + length d) buf).
  rewrite (mwrite_at _ _ e (take (Z.to_nat pos) buf ++ d) (take (length e) c)
    (drop (length e) c)).
  - unfold c. by rewrite drop_drop, length_app, Nat.add_assoc, <- !app_assoc.
  - by rewrite take_drop, <- app_assoc.
  - unfold zlen in *. rewrite length_app, length_take. lia.
  - unfold c, zlen in *. rewrite length_take, length_drop. lia.
Qed.

(** A chain of adjacent stores is the store of the concatenation. *)
Lemma mwrite_chain {A} buf pos off d e (k : bytes -> option A) :
  0 <= pos -> off = pos + zlen d -> pos + zlen d + zlen e <= zlen buf ->
  (b ← mwrite buf pos d; b ← mwrite b off e; k b)
  = (b ← mwrite buf pos (d ++ e); k b).
Proof.
  intros Hp -> Hl. rewrite <- mwrite_mwrite by done. by destruct (mwrite buf pos d).
Qed.

(** Stores that append to an image at the front of a zeroed buffer. *)
Lemma mwrite_tail img k pos data :
  pos = zlen img -> (length data <= k)%nat ->
  mwrite (img ++ replicate k 0) pos data
  = Some ((img ++ data) ++ replicate (k - length data) 0).
Proof.
  intros -> Hk. rewrite (mwrite_at _ _ data img (replicate (length data) 0)
    (replicate (k - length data) 0)); [by rewrite <- app_assoc|by rewrite <- replicate_add; do 2 f_equal; lia|done|].
  unfold zlen. by rewrite length_replicate.
Qed.

(** [holds buf pos l]: the bytes of [buf] from [pos] on start with [l]. *)
Definition holds buf (pos : Z) (l : bytes) : Prop :=
  exists a c, buf = a ++ l ++ c /\ pos = zlen a.

Lemma holds_app buf pos l l' :
  holds buf pos (l ++ l') -> holds buf pos l /\ holds buf (pos + zlen l) l'.
Proof.
  intros (a & c & -> & ->). split.
  - exists a, (l' ++ c). by rewrite <- app_assoc.
  - exists (a ++ l), c. rewrite zlen_app. by rewrite <- !app_assoc.
Qed.
Lemma holds_mread buf pos l n : holds buf pos l -> n = zlen l -> mread buf pos n = Some l.
Proof. intros (a & c & -> & ->) ->. apply mread_app. Qed.
Lemma holds_mread_u buf pos (n : nat) z :
  holds buf pos (le_bytes n z) -> 0 <= z < 2 ^ (8 * Z.of_nat n) -> mread_u buf pos n = Some z.
Proof.
  intros H Hz. unfold mread_u. rewrite (holds_mread _ _ _ _ H) by by rewrite zlen_le_bytes.
  cbn. by rewrite le_value_bytes_small.
Qed.
Lemma holds_oget buf pos x : holds buf pos [x] -> oget buf pos = Some x.
Proof.
  intros (a & c & -> & ->). unfold oget, zlen. rewrite (proj2 (Z.leb_le 0 _)) by lia.
  rewrite Nat2Z.id, lookup_app_r, Nat.sub_diag by done. done.
Qed.
Lemma holds_bound buf pos l : holds buf pos l -> 0 <= pos /\ pos + zlen l <= zlen buf.
Proof.
  intros (a & c & -> & ->). zlen_simpl. pose proof (zlen_nonneg a). pose proof (zlen_nonneg c).
  lia.
Qed.
Lemma holds_here l c : holds (l ++ c) 0 l.
Proof. by exists [], c. Qed.
End Memcpy.
