(* ===== verification/Double.v ===== *)
(** The C++ types [double] and [float].

    Values are the [spec_float]s of the Standard Library's executable IEEE 754
    specification, with the operations rounded to nearest even at binary64 and
    binary32: the arithmetic the sources compute with, evaluated exactly and
    without axioms.  The lemmas give the order facts the components need (with
    NaN, for which every comparison is false, kept explicit) and that sums,
    products and quotients of finite numbers are never NaN. *)

From Stdlib Require Export SpecFloat.
From S2P Require Import Prelude.

Abbreviation double := spec_float.

Definition dadd : double -> double -> double := SFadd 53 1024.
Definition dsub : double -> double -> double := SFsub 53 1024.
Definition dmul : double -> double -> double := SFmul 53 1024.
Definition ddiv : double -> double -> double := SFdiv 53 1024.
Definition dabs : double -> double := SFabs.
Definition dlt : double -> double -> bool := SFltb.
Definition dle : double -> double -> bool := SFleb.
Definition deq : double -> double -> bool := SFeqb.
Definition dgt (a b : double) : bool := dlt b a.
Definition dge (a b : double) : bool := dle b a.

(** [static_cast<double>(n)] of an integer, and the nearest double of [n/d]:
    the value of a decimal literal. *)
Definition d_of_Z (n : Z) : double := binary_normalize 53 1024 n 0 false.
Definition dlit (n d : Z) : double := ddiv (d_of_Z n) (d_of_Z d).
Definition d0 : double := S754_zero false.

(** binary32, for the [float] fields and constants. *)
Definition fmul : spec_float -> spec_float -> spec_float := SFmul 24 128.
Definition fadd : spec_float -> spec_float -> spec_float := SFadd 24 128.
Definition fsub : spec_float -> spec_float -> spec_float := SFsub 24 128.
Definition fdiv : spec_float -> spec_float -> spec_float := SFdiv 24 128.
Definition f_of_Z (n : Z) : spec_float := binary_normalize 24 128 n 0 false.
Definition flit (n d : Z) : spec_float := fdiv (f_of_Z n) (f_of_Z d).

(** [static_cast<double>(f)]: exact, renormalised to 53 bits. *)
Definition d_of_f (f : spec_float) : double :=
  match f with
  | S754_finite s m e =>
      binary_normalize 53 1024 (if s then Z.neg m else Z.pos m) e s
  | _ => f
  end.

(** Truncation towards zero; [None] for infinities and NaN. *)
Definition d_trunc (d : double) : option Z :=
  match d with
  | S754_zero _ => Some 0
  | S754_finite s m e =>
      let a := if 0 <=? e then Z.pos m * 2 ^ e else Z.pos m / 2 ^ (- e) in
      Some (if s then - a else a)
  | _ => None
  end.

(** Conversion to an integer type.  In range it is truncation; out of range C++
    leaves it undefined and the model gives the x86-64 result (a 64-bit
    [cvttsd2si], of which the unsigned 32-bit cast keeps the low half; a 32-bit
    [cvttsd2si] for the signed one). *)
Definition d_to_u32 (d : double) : Z :=
  match d_trunc d with
  | Some z => if (- 2 ^ 63 <=? z) && (z <? 2 ^ 63) then u32 z else 0
  | None => 0
  end.
Definition d_to_i32 (d : double) : Z :=
  match d_trunc d with
  | Some z => if (- 2 ^ 31 <=? z) && (z <? 2 ^ 31) then z else - 2 ^ 31
  | None => - 2 ^ 31
  end.
Definition d_to_u64 (d : double) : Z :=
  match d_trunc d with
  | Some z => if (0 <=? z) && (z <? 2 ^ 64) then z else 2 ^ 63
  | None => 2 ^ 63
  end.

(** [std::min], [std::max] and [std::clamp], with their argument order. *)
Definition dmin (a b : double) : double := if dlt b a then b else a.
Definition dmax (a b : double) : double := if dlt a b then b else a.
Definition dclamp (v lo hi : double) : double :=
  if dlt v lo then lo else if dlt hi v then hi else v.

Definition is_nan (d : double) : bool := match d with S754_nan => true | _ => false end.
Definition is_fin (d : double) : bool :=
  match d with S754_zero _ | S754_finite _ _ _ => true | _ => false end.

(** * Order *)

Lemma SFcompare_swap a b :
  SFcompare b a = match SFcompare a b with Some c => Some (CompOpp c) | None => None end.
Proof.
  destruct a as [sa|sa| |sa ma ea], b as [sb|sb| |sb mb eb]; simpl;
    try destruct sa; try destruct sb; try done;
    rewrite (Z.compare_antisym ea eb); destruct (ea ?= eb); simpl; try done;
    change (Pos.compare_cont Eq ?x ?y) with (Pos.compare x y);
    by rewrite (Pos.compare_antisym ma mb).
Qed.

Lemma SFcompare_None a b : SFcompare a b = None <-> is_nan a = true \/ is_nan b = true.
Proof.
  split.
  - destruct a, b; simpl; intros; try done; by auto.
  - destruct a, b; simpl; intros [|]; done.
Qed.

Lemma SFcompare_refl a : is_nan a = false -> SFcompare a a = Some Eq.
Proof.
  destruct a as [s|s| |s m e]; simpl; try done; destruct s; try done;
    intros _; rewrite Z.compare_refl; f_equal;
    change (Pos.compare_cont Eq m m) with (Pos.compare m m); by rewrite Pos.compare_refl.
Qed.

Lemma dlt_irrefl a : dlt a a = false.
Proof.
  unfold dlt, SFltb. destruct (is_nan a) eqn:E.
  - by destruct a.
  - by rewrite SFcompare_refl.
Qed.
Lemma dle_refl a : is_nan a = false -> dle a a = true.
Proof. intros. unfold dle, SFleb. by rewrite SFcompare_refl. Qed.
Lemma dlt_le a b : dlt a b = true -> dle a b = true.
Proof. unfold dlt, dle, SFltb, SFleb. by destruct (SFcompare a b) as [[]|]. Qed.

Lemma dlt_false_le a b :
  is_nan a = false -> is_nan b = false -> dlt a b = false -> dle b a = true.
Proof.
  intros Ha Hb. unfold dlt, dle, SFltb, SFleb. rewrite (SFcompare_swap a b).
  destruct (SFcompare a b) as [[]|] eqn:E; try done.
  apply SFcompare_None in E as []; congruence.
Qed.
Lemma dle_false_lt a b :
  is_nan a = false -> is_nan b = false -> dle a b = false -> dlt b a = true.
Proof.
  intros Ha Hb. unfold dlt, dle, SFltb, SFleb. rewrite (SFcompare_swap a b).
  destruct (SFcompare a b) as [[]|] eqn:E; try done.
  apply SFcompare_None in E as []; congruence.
Qed.
Lemma dle_lt_false a b : dle a b = true -> dlt b a = false.
Proof.
  unfold dlt, dle, SFltb, SFleb. rewrite (SFcompare_swap a b).
  by destruct (SFcompare a b) as [[]|].
Qed.
Lemma dlt_le_false a b : dlt a b = true -> dle b a = false.
Proof.
  unfold dlt, dle, SFltb, SFleb. rewrite (SFcompare_swap a b).
  by destruct (SFcompare a b) as [[]|].
Qed.
Lemma dle_nan a b : dle a b = true -> is_nan a = false /\ is_nan b = false.
Proof. unfold dle, SFleb. by destruct a, b. Qed.

(** A numeric key for transitivity: sign class, then exponent and mantissa. *)
Lemma dle_trans a b c : dle a b = true -> dle b c = true -> dle a c = true.
Proof.
  unfold dle, SFleb.
  destruct a as [sa|sa| |sa ma ea], b as [sb|sb| |sb mb eb], c as [sc|sc| |sc mc ec];
    simpl; try destruct sa; try destruct sb; try destruct sc; try done;
  change (Pos.compare_cont Eq ?x ?y) with (Pos.compare x y);
  destruct (Z.compare_spec ea eb), (Z.compare_spec eb ec), (Z.compare_spec ea ec);
    try done; try lia;
  destruct (Pos.compare_spec ma mb), (Pos.compare_spec mb mc), (Pos.compare_spec ma mc);
    simpl; try done; try lia.
Qed.

(** * Clamping and minima *)

Lemma dclamp_range v lo hi :
  is_nan v = false -> dle lo hi = true ->
  dle lo (dclamp v lo hi) = true /\ dle (dclamp v lo hi) hi = true.
Proof.
  intros Hv Hlh. destruct (dle_nan _ _ Hlh) as [Hlo Hhi]. unfold dclamp.
  destruct (dlt v lo) eqn:E1; [by split; [apply dle_refl|]|].
  destruct (dlt hi v) eqn:E2; [by split; [|apply dle_refl]|].
  split; by apply dlt_false_le.
Qed.

Lemma dmin_le_r a b : is_nan a = false -> is_nan b = false -> dle (dmin a b) b = true.
Proof.
  intros Ha Hb. unfold dmin. destruct (dlt b a) eqn:E.
  - by apply dle_refl.
  - by apply dlt_false_le.
Qed.
Lemma dmin_le_l a b : is_nan a = false -> is_nan b = false -> dle (dmin a b) a = true.
Proof.
  intros Ha Hb. unfold dmin. destruct (dlt b a) eqn:E.
  - by apply dlt_le.
  - by apply dle_refl.
Qed.
Lemma dmin_nan a b : is_nan a = false -> is_nan b = false -> is_nan (dmin a b) = false.
Proof. unfold dmin. by destruct (dlt b a). Qed.

(** * Finite arithmetic is never NaN *)

Lemma shr_1_nonneg r : 0 <= shr_m r -> 0 <= shr_m (shr_1 r).
Proof. destruct r as [[|[]|[]] ? ?]; simpl; lia. Qed.

Lemma iter_shr_nonneg p r : 0 <= shr_m r -> 0 <= shr_m (SpecFloat.iter_pos shr_1 p r).
Proof. revert r; induction p; simpl; intros; auto using shr_1_nonneg. Qed.

Lemma shr_fexp_nonneg prec emax m e l :
  0 <= m -> 0 <= shr_m (fst (shr_fexp prec emax m e l)).
Proof.
  intros Hm. unfold shr_fexp, shr.
  assert (0 <= shr_m (shr_record_of_loc m l)) by (by destruct l as [|[]]).
  destruct (fexp _ _ _ - e); simpl; auto using iter_shr_nonneg.
Qed.

Lemma round_nonneg m l : 0 <= m -> 0 <= round_nearest_even m l.
Proof. intros. destruct l as [|[]]; simpl; try lia. case_match; lia. Qed.

Lemma binary_round_aux_nan prec emax s m e l :
  0 <= m -> is_nan (binary_round_aux prec emax s m e l) = false.
Proof.
  intros Hm. unfold binary_round_aux.
  pose proof (shr_fexp_nonneg prec emax m e l Hm) as H1.
  destruct (shr_fexp prec emax m e l) as [r1 e1]. simpl in H1.
  pose proof (shr_fexp_nonneg prec emax _ e1 loc_Exact
    (round_nonneg _ (loc_of_shr_record r1) H1)) as H2.
  destruct (shr_fexp _ _ _ e1 loc_Exact) as [r2 e2]. simpl in H2.
  destruct (shr_m r2); [done| |lia]. by case_match.
Qed.

Lemma binary_normalize_nan prec emax m e s :
  is_nan (binary_normalize prec emax m e s) = false.
Proof.
  unfold binary_normalize, binary_round. destruct m; [done| |];
    destruct (shl_align _ _ _); by apply binary_round_aux_nan.
Qed.

Lemma dadd_nan a b : is_fin a = true -> is_fin b = true -> is_nan (dadd a b) = false.
Proof.
  destruct a as [sa|sa| |sa ma ea], b as [sb|sb| |sb mb eb]; simpl; try done; intros _ _.
  - by destruct sa, sb.
  - apply binary_normalize_nan.
Qed.
Lemma dsub_nan a b : is_fin a = true -> is_fin b = true -> is_nan (dsub a b) = false.
Proof.
  destruct a as [sa|sa| |sa ma ea], b as [sb|sb| |sb mb eb]; simpl; try done; intros _ _.
  - by destruct sa, sb.
  - apply binary_normalize_nan.
Qed.
Lemma dmul_nan a b : is_fin a = true -> is_fin b = true -> is_nan (dmul a b) = false.
Proof.
  destruct a as [sa|sa| |sa ma ea], b as [sb|sb| |sb mb eb]; simpl; try done; intros _ _.
  by apply binary_round_aux_nan.
Qed.
Lemma d_of_Z_nan n : is_nan (d_of_Z n) = false.
Proof. apply binary_normalize_nan. Qed.
Lemma is_fin_nan a : is_fin a = true -> is_nan a = false.
Proof. by destruct a. Qed.

#[export] Hint Resolve dle_refl dlt_le d_of_Z_nan is_fin_nan dadd_nan dsub_nan dmul_nan
  : netudp.

(** A finite value squeezed between two finite ones is finite. *)
Lemma dle_between_fin a b c :
  is_fin a = true -> is_fin c = true -> dle a b = true -> dle b c = true -> is_fin b = true.
Proof.
  unfold dle, SFleb. destruct a as [sa|sa| |sa ma ea], b as [sb|sb| |sb mb eb],
    c as [sc|sc| |sc mc ec]; simpl; try done; destruct sb; done.
Qed.
