(* ===== verification/RingBuffer.v ===== *)
(** [FixedRingBuffer<T, N>] (src/src/core/ring_buffer.h) and the queue interface
    its clients rely on.

    [Fifo] is what a bounded first-in first-out queue promises; the ring buffer
    and the pipeline queues of the server are instances of it, and a trace of
    operations on any instance gives the results of the reference queue
    [ref_run], a plain list with a capacity. *)

From S2P Require Import Prelude.

(** * The interface *)

Inductive fifo_op (T : Type) : Type := Push (x : T) | Pop.
Arguments Push {T}. Arguments Pop {T}.
(** The result of an operation: [push]'s boolean, or what [pop] took out. *)
Inductive fifo_out (T : Type) : Type := Pushed (ok : bool) | Popped (o : option T).
Arguments Pushed {T}. Arguments Popped {T}.

Class Fifo (Q T : Type) := {
  fifo_inv : Q -> Prop;
  fifo_list : Q -> list T;
  fifo_cap : Z;
  fifo_push : T -> Q -> bool * Q;
  fifo_pop : Q -> option T * Q;
  fifo_bounded q : fifo_inv q -> zlen (fifo_list q) <= fifo_cap;
  fifo_push_ok q x : fifo_inv q -> zlen (fifo_list q) < fifo_cap ->
    exists q', fifo_push x q = (true, q') /\ fifo_inv q' /\
      fifo_list q' = fifo_list q ++ [x];
  fifo_push_full q x : fifo_inv q -> zlen (fifo_list q) = fifo_cap ->
    fifo_push x q = (false, q);
  fifo_pop_nil q : fifo_inv q -> fifo_list q = [] -> fifo_pop q = (None, q);
  fifo_pop_cons q x l : fifo_inv q -> fifo_list q = x :: l ->
    exists q', fifo_pop q = (Some x, q') /\ fifo_inv q' /\ fifo_list q' = l
}.

Section FifoTraces.
Context {Q T : Type} `{Fifo Q T}.

Definition fifo_step (o : fifo_op T) (q : Q) : fifo_out T * Q :=
  match o with
  | Push x => let '(b, q') := fifo_push x q in (Pushed b, q')
  | Pop => let '(r, q') := fifo_pop q in (Popped r, q')
  end.
Fixpoint fifo_run (ops : list (fifo_op T)) (q : Q) : list (fifo_out T) * Q :=
  match ops with
  | [] => ([], q)
  | o :: ops => let '(r, q1) := fifo_step o q in
                let '(rs, q2) := fifo_run ops q1 in (r :: rs, q2)
  end.

(** The reference: a list of at most [cap] elements. *)
Definition ref_step (cap : Z) (o : fifo_op T) (l : list T) : fifo_out T * list T :=
  match o with
  | Push x => if zlen l <? cap then (Pushed true, l ++ [x]) else (Pushed false, l)
  | Pop => match l with [] => (Popped None, []) | x :: l => (Popped (Some x), l) end
  end.
Fixpoint ref_run (cap : Z) (ops : list (fifo_op T)) (l : list T)
    : list (fifo_out T) * list T :=
  match ops with
  | [] => ([], l)
  | o :: ops => let '(r, l1) := ref_step cap o l in
                let '(rs, l2) := ref_run cap ops l1 in (r :: rs, l2)
  end.

Lemma fifo_step_ref o q :
  fifo_inv q ->
  exists q', fifo_step o q = (fst (ref_step fifo_cap o (fifo_list q)), q') /\
    fifo_inv q' /\ fifo_list q' = snd (ref_step fifo_cap o (fifo_list q)).
Proof.
  intros Hq. destruct o as [x|]; simpl.
  - case_if.
    + destruct (fifo_push_ok q x Hq E) as (q' & -> & ? & ?). eauto.
    + pose proof (fifo_bounded q Hq).
      rewrite (fifo_push_full q x Hq) by lia. eauto.
  - destruct (fifo_list q) as [|x l] eqn:E.
    + rewrite (fifo_pop_nil q Hq E). eauto.
    + destruct (fifo_pop_cons q x l Hq E) as (q' & -> & ? & ?). eauto.
Qed.

Lemma fifo_run_ref ops q :
  fifo_inv q ->
  exists q', fifo_run ops q = (fst (ref_run fifo_cap ops (fifo_list q)), q') /\
    fifo_inv q' /\ fifo_list q' = snd (ref_run fifo_cap ops (fifo_list q)).
Proof.
  revert q; induction ops as [|o ops IH]; intros q Hq; simpl; [eauto|].
  destruct (fifo_step_ref o q Hq) as (q1 & -> & Hq1 & Hl1).
  destruct (ref_step _ o _) as [r l1] eqn:E1. simpl in *. subst l1.
  destruct (IH q1 Hq1) as (q2 & -> & Hq2 & Hl2).
  destruct (ref_run _ ops _) as [rs l2]. simpl in *. eauto.
Qed.
End FifoTraces.

(** * The ring buffer *)

Record ring (T : Type) : Type := Ring { data_ : list T; head_ : Z; size_ : Z }.
Arguments Ring {T}. Arguments data_ {T}. Arguments head_ {T}. Arguments size_ {T}.

Module RingBuffer.
Section Ring.
(** [T{}] is [inhabitant]; [N] is the template's capacity. *)
Context {T : Type} `{Inhabited T} (N : Z).
Implicit Types (rb : ring T) (x : T).

Definition MASK : Z := N - 1.

Definition empty : ring T := Ring (replicate (Z.to_nat N) inhabitant) 0 0.

Definition push_back (x : T) rb : bool * ring T :=
  if size_ rb =? N then (false, rb)
  else (true, Ring (aset (data_ rb) (Z.land (head_ rb + size_ rb) MASK) x)
                   (head_ rb) (size_ rb + 1)).

(** [pop_front(T* out)]: the popped value is [*out]. *)
Definition pop_front rb : option T * ring T :=
  if size_ rb =? 0 then (None, rb)
  else (Some (data_ rb).[head_ rb],
        Ring (aset (data_ rb) (head_ rb) inhabitant)
             (Z.land (head_ rb + 1) MASK) (size_ rb - 1)).

(** [operator[]], read and assignment through the returned reference. *)
Definition index rb (i : Z) : T := (data_ rb).[Z.land (head_ rb + i) MASK].
Definition index_set rb (i : Z) x : ring T :=
  Ring (aset (data_ rb) (Z.land (head_ rb + i) MASK) x) (head_ rb) (size_ rb).

Definition front rb : T := (data_ rb).[head_ rb].
Definition back rb : T := (data_ rb).[Z.land (head_ rb + size_ rb - 1) MASK].
Definition at_seq rb (seq : Z) : T := (data_ rb).[Z.land seq MASK].

Definition size rb : Z := size_ rb.
Definition full rb : bool := size_ rb =? N.
Definition is_empty rb : bool := size_ rb =? 0.
Definition clear rb : ring T := Ring (replicate (length (data_ rb)) inhabitant) 0 0.

(** The queue a buffer holds, oldest first. *)
Definition contents rb : list T := index rb <$> seqZ 0 (size_ rb).

Definition wf rb : Prop :=
  zlen (data_ rb) = N /\ 0 <= head_ rb < N /\ 0 <= size_ rb <= N.

(** [static_assert(N > 0 && (N & (N - 1)) == 0)]. *)
Context (HN : exists k, 0 <= k /\ N = 2 ^ k).

Lemma rb_N_pos : 0 < N.
Proof. destruct HN as (k & Hk & ->). lia. Qed.
Lemma rb_mask_mod i : Z.land i MASK = i mod N.
Proof. unfold MASK. by apply land_mask. Qed.
Lemma mask_range i : 0 <= Z.land i MASK < N.
Proof. rewrite rb_mask_mod. apply Z.mod_pos_bound, rb_N_pos. Qed.
Lemma mask_ne i j : i <> j -> Z.abs (i - j) < N -> Z.land i MASK <> Z.land j MASK.
Proof.
  intros Hne Hd. rewrite !rb_mask_mod. intros E. pose proof rb_N_pos.
  rewrite (Z.div_mod i N), (Z.div_mod j N) in Hne, Hd by lia. rewrite E in Hne, Hd.
  assert (i / N = j / N \/ i / N - j / N <= -1 \/ 1 <= i / N - j / N) as [?|[?|?]] by lia;
    nia.
Qed.

Lemma contents_length rb : wf rb -> zlen (contents rb) = size_ rb.
Proof.
  intros (_ & _ & ?). unfold contents, zlen. rewrite length_fmap, length_seqZ. lia.
Qed.

Lemma rb_empty_wf : wf empty.
Proof. pose proof rb_N_pos. unfold wf. simpl. rewrite zlen_replicate. lia. Qed.
Lemma empty_contents : contents empty = [].
Proof. done. Qed.
Lemma clear_wf rb : wf rb -> wf (clear rb).
Proof.
  intros (Hl & _ & _). unfold wf. simpl. rewrite zlen_replicate.
  pose proof rb_N_pos. unfold zlen in Hl. lia.
Qed.

Lemma push_back_spec rb x :
  wf rb -> size_ rb < N ->
  exists rb', push_back x rb = (true, rb') /\ wf rb' /\
    contents rb' = contents rb ++ [x].
Proof.
  intros (Hl & Hh & Hs) Hlt. unfold push_back. rewrite (proj2 (Z.eqb_neq _ N)) by lia.
  eexists. split; [done|]. pose proof (mask_range (head_ rb + size_ rb)) as Hm.
  split; [unfold wf; simpl; rewrite zlen_aset; lia|].
  unfold contents; simpl. rewrite seqZ_snoc, fmap_app by lia. f_equal.
  - apply fmap_seqZ_ext. intros i Hi. unfold index; simpl.
    apply aget_aset_ne; try apply mask_range; try lia. apply mask_ne; lia.
  - simpl. unfold index; simpl. rewrite Z.add_0_l, aget_aset_eq; [done|lia].
Qed.

Lemma push_back_full rb x : size_ rb = N -> push_back x rb = (false, rb).
Proof. intros E. unfold push_back. by rewrite E, Z.eqb_refl. Qed.

Lemma pop_front_empty rb : size_ rb = 0 -> pop_front rb = (None, rb).
Proof. intros E. unfold pop_front. by rewrite E. Qed.

Lemma contents_cons rb :
  wf rb -> 0 < size_ rb ->
  contents rb = (data_ rb).[head_ rb] :: (index rb <$> seqZ 1 (size_ rb - 1)).
Proof.
  intros (Hl & Hh & Hs) Hp. unfold contents. rewrite seqZ_cons by lia. simpl. f_equal.
  unfold index. by rewrite Z.add_0_r, rb_mask_mod, Z.mod_small by lia.
Qed.

Lemma pop_front_spec rb :
  wf rb -> 0 < size_ rb ->
  exists x rb', pop_front rb = (Some x, rb') /\ wf rb' /\
    contents rb = x :: contents rb'.
Proof.
  intros Hwf Hp. pose proof Hwf as (Hl & Hh & Hs). unfold pop_front.
  rewrite (proj2 (Z.eqb_neq _ 0)) by lia. do 2 eexists. split; [done|].
  pose proof (mask_range (head_ rb + 1)).
  split; [unfold wf; simpl; rewrite zlen_aset; lia|].
  rewrite contents_cons by done. f_equal. unfold contents; simpl.
  change 1 with (0 + 1) at 1. rewrite fmap_seqZ_shift. apply fmap_seqZ_ext.
  intros i Hi. unfold index; simpl.
  assert (Z.land (Z.land (head_ rb + 1) MASK + i) MASK
          = Z.land (head_ rb + (i + 1)) MASK) as ->.
  { rewrite !rb_mask_mod, Zplus_mod_idemp_l. f_equal. lia. }
  symmetry. apply aget_aset_ne; try apply mask_range; try lia.
  replace (head_ rb) with (Z.land (head_ rb) MASK) at 1
    by (rewrite rb_mask_mod; apply Z.mod_small; lia).
  apply mask_ne; lia.
Qed.

(** Element [i] of the buffer is element [i] of its queue, and assigning
    through [operator[]] updates that element only. *)
Lemma contents_lookup rb i :
  wf rb -> 0 <= i < size_ rb -> contents rb !! Z.to_nat i = Some (index rb i).
Proof.
  intros (_ & _ & Hs) Hi. unfold contents. rewrite list_lookup_fmap.
  rewrite lookup_seqZ_lt by lia. simpl. do 2 f_equal. lia.
Qed.
Lemma index_set_spec rb i x :
  wf rb -> 0 <= i < size_ rb ->
  wf (index_set rb i x) /\ contents (index_set rb i x) = <[Z.to_nat i := x]> (contents rb).
Proof.
  intros Hwf Hi. pose proof Hwf as (Hl & Hh & Hs). split.
  { unfold wf. simpl. rewrite zlen_aset. lia. }
  apply list_eq. intros j.
  pose proof (contents_length rb Hwf) as Hlen. unfold zlen in Hlen.
  destruct (decide (j < length (contents rb))%nat) as [Hj|Hj].
  - rewrite <- (Nat2Z.id j).
    rewrite (contents_lookup (index_set rb i x))
      by (unfold wf; simpl; rewrite ?zlen_aset; lia).
    destruct (decide (Z.of_nat j = i)) as [<-|Hne].
    + rewrite list_lookup_insert_eq by lia. f_equal. unfold index; simpl.
      apply aget_aset_eq. rewrite Hl. apply mask_range.
    + rewrite list_lookup_insert_ne, contents_lookup by (done || lia). f_equal.
      unfold index; simpl. apply aget_aset_ne; try apply mask_range.
      apply mask_ne; lia.
  - rewrite !lookup_ge_None_2; [done| |].
    + rewrite length_insert. lia.
    + unfold contents. rewrite length_fmap, length_seqZ. simpl. lia.
Qed.
End Ring.

(** Every ring buffer with a power-of-two capacity is a bounded queue. *)
Program Definition ring_fifo {T} `{Inhabited T} (N : Z)
    (HN : exists k, 0 <= k /\ N = 2 ^ k) : Fifo (ring T) T := {|
  fifo_inv := wf N; fifo_list := contents N; fifo_cap := N;
  fifo_push := push_back N; fifo_pop := pop_front N |}.
Next Obligation. intros. rewrite contents_length by done. by destruct H0 as (_ & _ & ?); lia. Qed.
Next Obligation.
  intros T ? N HN q x Hq Hlt. rewrite contents_length in Hlt by done.
  by apply push_back_spec.
Qed.
Next Obligation.
  intros T ? N HN q x Hq E. rewrite contents_length in E by done. by apply push_back_full.
Qed.
Next Obligation.
  intros T ? N HN q Hq E. apply pop_front_empty.
  rewrite <- (contents_length N q Hq). by rewrite E.
Qed.
Next Obligation.
  intros T ? N HN q x l Hq E. pose proof (contents_length N q Hq) as Hlen. rewrite E in Hlen.
  rewrite zlen_cons in Hlen. pose proof (zlen_nonneg l).
  destruct (pop_front_spec N HN q Hq) as (y & q' & Hp & Hw & Hc); [lia|].
  rewrite E in Hc. simplify_eq. eauto.
Qed.

(** A sequence of calls, with their results in order. *)
Fixpoint run {T} `{Inhabited T} (N : Z) (ops : list (fifo_op T)) (rb : ring T)
    : list (fifo_out T) * ring T :=
  match ops with
  | [] => ([], rb)
  | Push x :: ops =>
      let '(b, rb1) := push_back N x rb in
      let '(rs, rb2) := run N ops rb1 in (Pushed b :: rs, rb2)
  | Pop :: ops =>
      let '(r, rb1) := pop_front N rb in
      let '(rs, rb2) := run N ops rb1 in (Popped r :: rs, rb2)
  end.

Lemma run_fifo_run {T} `{Inhabited T} N HN (ops : list (fifo_op T)) rb :
  run N ops rb = fifo_run (H := ring_fifo N HN) ops rb.
Proof.
  revert rb; induction ops as [|[x|] ops IH]; intros rb; simpl; [done| |].
  - destruct (push_back N x rb) as [b rb1]. by rewrite IH.
  - destruct (pop_front N rb) as [r rb1]. by rewrite IH.
Qed.

(** A sequence of [push_back] and [pop_front] calls on a fresh ring buffer
    returns what the same sequence returns on a first-in first-out list of at
    most [N] elements: elements come out in the order they went in, none is lost,
    duplicated or overwritten, a push fails exactly when [N] elements are held
    and a pop exactly when none is. *)
Theorem ring_buffer_refines_fifo {T} `{Inhabited T} (k : Z) (ops : list (fifo_op T)) :
  0 <= k ->
  exists rb, run (2 ^ k) ops (empty (2 ^ k)) = (fst (ref_run (2 ^ k) ops []), rb) /\
    wf (2 ^ k) rb /\ contents (2 ^ k) rb = snd (ref_run (2 ^ k) ops []).
Proof.
  intros Hk.
  assert (exists j, 0 <= j /\ 2 ^ k = 2 ^ j) as HN by (by exists k).
  destruct (fifo_run_ref (H := ring_fifo (T := T) (2 ^ k) HN) ops (empty (2 ^ k)))
    as (rb & Hrun & Hwf & Hc); [by apply rb_empty_wf|].
  exists rb. rewrite (run_fifo_run _ HN). split_and!; [exact Hrun|exact Hwf|exact Hc].
Qed.

Lemma ring_buffer_refines_fifo_witness :
  let ops := [Push 1; Push 2; Pop; Push 3; Push 4; Pop; Push 5; Pop; Pop; Pop; Pop] in
  exists rb, run 2 ops (empty 2)
    = ([Pushed true; Pushed true; Popped (Some 1); Pushed true; Pushed false;
        Popped (Some 2); Pushed true; Popped (Some 3); Popped (Some 5); Popped None;
        Popped None], rb) /\ wf 2 rb /\ contents 2 rb = [].
Proof.
  apply (ring_buffer_refines_fifo (T := Z) 1
    [Push 1; Push 2; Pop; Push 3; Push 4; Pop; Push 5; Pop; Pop; Pop; Pop]).
  lia.
Defined.
End RingBuffer.
