(* ===== verification/HashMap.v ===== *)
(** [FixedHashMap<K, V, N, Hash>] (src/src/core/hash_map.h): open addressing with
    linear probing and re-insertion on delete.

    The map refines a finite map: [find], [insert] and [remove] on a well-formed
    table are lookup, insertion and deletion in the [gmap] its occupied slots
    denote; [insert] fails exactly on a new key in a full table; and the
    re-insertion loop of [remove] terminates, also when the table was full and
    the probe cluster is the whole ring. *)

From stdpp Require Import gmap.
From S2P Require Import Prelude.

(** [FNV1aHash::hash] over the bytes of the key. *)
Definition fnv1a (l : bytes) : Z :=
  fold_left (fun h b => u32 (Z.lxor h b * 16777619)) l 2166136261.

Record Slot (K V : Type) : Type := mkSlot { key : K; value : V; occupied : bool }.
Arguments mkSlot {K V}. Arguments key {K V}. Arguments value {K V}.
Arguments occupied {K V}.

#[export] Instance slot_inhabited {K V} `{Inhabited K, Inhabited V} : Inhabited (Slot K V) :=
  populate (mkSlot inhabitant inhabitant false).

Record hash_map (K V : Type) : Type := HashMap { slots_ : list (Slot K V); size_ : Z }.
Arguments HashMap {K V}. Arguments slots_ {K V}. Arguments size_ {K V}.

(** Outcome of the probe loop that [insert], [find] and [remove] share: a free
    slot, a slot holding the key, or [N] probes without either. *)
Inductive probed := Free (slot : Z) | Hit (slot : Z) | Exhausted.

Module FixedHashMap.
Section Ops.
Context {K V : Type} `{Inhabited K, Inhabited V, EqDecision K}.
(** The template arguments: the capacity and the hash policy.  [memcmp] of two
    keys is equality of their representations. *)
Context (N : Z) (hash : K -> Z).
Implicit Types (m : hash_map K V) (k : K) (v : V).

Definition MASK : Z := N - 1.
Definition home k : Z := Z.land (hash k) MASK.

Definition empty : hash_map K V :=
  HashMap (replicate (Z.to_nat N) inhabitant) 0.

(** [for (probe = 0; probe < N; ++probe)] from [probe], [n] iterations left. *)
Fixpoint probe_from (n : nat) (probe : Z) k m : probed :=
  match n with
  | O => Exhausted
  | S n =>
      let slot := Z.land (home k + probe) MASK in
      if negb (occupied (slots_ m).[slot]) then Free slot
      else if decide (key (slots_ m).[slot] = k) then Hit slot
      else probe_from n (probe + 1) k m
  end.
Definition probe k m : probed := probe_from (Z.to_nat N) 0 k m.

(** The result is the slot whose [value] the returned pointer addresses. *)
Definition insert k v m : option Z * hash_map K V :=
  match probe k m with
  | Free s => (Some s, HashMap (aset (slots_ m) s (mkSlot k v true)) (size_ m + 1))
  | Hit s => (Some s, HashMap (aset (slots_ m) s
                (mkSlot (key (slots_ m).[s]) v true)) (size_ m))
  | Exhausted => (None, m)
  end.

Definition find_slot k m : option Z :=
  match probe k m with Hit s => Some s | _ => None end.
Definition find k m : option V := (fun s => value (slots_ m).[s]) <$> find_slot k m.

(** Assignment through the pointer [find] returns. *)
Definition set_value k v m : hash_map K V :=
  match find_slot k m with
  | Some s => HashMap (aset (slots_ m) s
                (mkSlot (key (slots_ m).[s]) v (occupied (slots_ m).[s]))) (size_ m)
  | None => m
  end.

(** One iteration of the loop of [rehash_after_delete]. *)
Definition rehash_step (st : Z * hash_map K V) : (Z * hash_map K V) + hash_map K V :=
  let '(slot, m) := st in
  let e := (slots_ m).[slot] in
  if occupied e then
    let m1 := HashMap (aset (slots_ m) slot (mkSlot (key e) (value e) false))
                      (size_ m - 1) in
    inl (Z.land (slot + 1) MASK, snd (insert (key e) (value e) m1))
  else inr m.
(** Above the number of iterations any run on a well-formed table makes
    ([rehash_spec]); a run that makes more is one that does not return. *)
Definition rehash_bound : positive := Z.to_pos (N * N * N + N + 1).
Definition rehash_after_delete (deleted : Z) m : option (hash_map K V) :=
  match loop rehash_bound rehash_step (Z.land (deleted + 1) MASK, m) with
  | inr m' => Some m'
  | inl _ => None
  end.

Definition remove k m : option (bool * hash_map K V) :=
  match probe k m with
  | Hit s =>
      let m1 := HashMap (aset (slots_ m) s inhabitant) (size_ m - 1) in
      m2 ← rehash_after_delete s m1; Some (true, m2)
  | _ => Some (false, m)
  end.

Definition size m : Z := size_ m.
Definition full m : bool := size_ m =? N.
Definition is_empty m : bool := size_ m =? 0.
Definition clear m : hash_map K V :=
  HashMap (replicate (length (slots_ m)) inhabitant) 0.

(** [for_each] with a callback that updates a state and may stop. *)
Fixpoint for_each_from {St} (fn : K -> V -> St -> bool * St) (l : list (Slot K V)) (s : St)
    : St :=
  match l with
  | [] => s
  | e :: l =>
      if occupied e then
        let '(continue, s') := fn (key e) (value e) s in
        if continue then for_each_from fn l s' else s'
      else for_each_from fn l s
  end.
Definition for_each {St} (fn : K -> V -> St -> bool * St) m (s : St) : St :=
  for_each_from fn (slots_ m) s.
End Ops.

(** * Well-formed tables *)

Section Wf.
Context {K V : Type} `{Inhabited K, Inhabited V, Countable K}.
Context (N : Z) (hash : K -> Z) (HN : exists k, 0 <= k /\ N = 2 ^ k).
Implicit Types (m : hash_map K V) (k : K) (v : V) (p q s h : Z).

Abbreviation home := (home N hash).

(** Forward distance on the ring of slots. *)
Definition dist a b : Z := (b - a) mod N.

Definition occ m p : bool := occupied (slots_ m).[p].
Definition inr_ p : Prop := 0 <= p < N.
Definition count_occ (l : list (Slot K V)) : Z :=
  sumZ ((fun e => if occupied e then 1 else 0) <$> l).

(** Every occupied slot is reachable by the probe sequence of its key, except
    through the slots [hole] allows. *)
Definition reach (hole : Z -> Z -> Prop) m : Prop :=
  forall p q, inr_ p -> inr_ q -> occ m p = true ->
    dist (home (key (slots_ m).[p])) q < dist (home (key (slots_ m).[p])) p ->
    occ m q = true \/ hole q p.
Definition distinct m : Prop :=
  forall p q, inr_ p -> inr_ q -> occ m p = true -> occ m q = true ->
    key (slots_ m).[p] = key (slots_ m).[q] -> p = q.
Definition shape m : Prop :=
  zlen (slots_ m) = N /\ size_ m = count_occ (slots_ m) /\ distinct m.

Definition wf m : Prop := shape m /\ reach (fun _ _ => False) m.

(** The finite map a table denotes. *)
Definition entries m : list (K * V) :=
  (fun e => (key e, value e)) <$> filter (fun e => occupied e = true) (slots_ m).
Definition to_map m : gmap K V := list_to_map (entries m).

Lemma hm_N_pos : 0 < N.
Proof. destruct HN as (k & Hk & ->). lia. Qed.
Lemma hm_mask_mod i : Z.land i (MASK N) = i mod N.
Proof. unfold MASK. by apply land_mask. Qed.
Lemma home_range k : inr_ (home k).
Proof. unfold inr_, FixedHashMap.home. rewrite hm_mask_mod. apply Z.mod_pos_bound, hm_N_pos. Qed.
Lemma slot_range i : inr_ (Z.land i (MASK N)).
Proof. unfold inr_. rewrite hm_mask_mod. apply Z.mod_pos_bound, hm_N_pos. Qed.

Lemma dist_range a b : 0 <= dist a b < N.
Proof. unfold dist. apply Z.mod_pos_bound, hm_N_pos. Qed.
(** Distances of slots are differences, up to one turn. *)
Lemma dist_cases a b :
  inr_ a -> inr_ b -> (a <= b /\ dist a b = b - a) \/ (b < a /\ dist a b = b - a + N).
Proof.
  unfold inr_, dist. intros Ha Hb. destruct (Z_le_gt_dec a b).
  - left. rewrite Z.mod_small; lia.
  - right. split; [lia|]. rewrite <- (Z.mod_add (b - a) 1 N), Z.mod_small; lia.
Qed.
Lemma slot_dist a j : inr_ a -> 0 <= j < N -> dist a (Z.land (a + j) (MASK N)) = j.
Proof.
  intros Ha Hj. unfold dist. rewrite hm_mask_mod.
  rewrite Zminus_mod_idemp_l. rewrite Z.mod_small; lia.
Qed.
Lemma slot_of_dist a p : inr_ a -> inr_ p -> Z.land (a + dist a p) (MASK N) = p.
Proof.
  intros Ha Hp. rewrite hm_mask_mod. unfold inr_ in *.
  destruct (dist_cases a p Ha Hp) as [[? ->]|[? ->]].
  - rewrite Z.mod_small; lia.
  - replace (a + (p - a + N)) with (p + 1 * N) by lia.
    rewrite Z.mod_add, Z.mod_small; lia.
Qed.

Lemma occ_lookup m p :
  zlen (slots_ m) = N -> inr_ p -> slots_ m !! Z.to_nat p = Some (slots_ m).[p].
Proof. intros Hl Hp. apply lookup_aget. unfold inr_ in Hp. lia. Qed.

Lemma entries_elem m k v :
  zlen (slots_ m) = N ->
  (k, v) ∈ entries m <->
  exists p, inr_ p /\ occ m p = true /\ key (slots_ m).[p] = k /\ value (slots_ m).[p] = v.
Proof.
  intros Hl. unfold entries. rewrite list_elem_of_fmap. split.
  - intros (e & ? & (Ho & He)%list_elem_of_filter). simplify_eq.
    apply list_elem_of_lookup in He as (i & Hi).
    pose proof (lookup_lt_Some _ _ _ Hi).
    exists (Z.of_nat i). unfold occ, inr_, aget, zlen in *.
    rewrite Nat2Z.id. apply list_lookup_total_correct in Hi. rewrite Hi.
    split_and!; try done; lia.
  - intros (p & Hp & Ho & <- & <-). exists ((slots_ m).[p]). split; [done|].
    apply list_elem_of_filter. split; [done|].
    apply list_elem_of_lookup_2 with (Z.to_nat p). by apply occ_lookup.
Qed.

Lemma NoDup_filter_keys (l : list (Slot K V)) :
  (forall i j e e', l !! i = Some e -> l !! j = Some e' -> occupied e = true ->
     occupied e' = true -> key e = key e' -> i = j) ->
  NoDup ((fun e => key e) <$> filter (fun e => occupied e = true) l).
Proof.
  induction l as [|e l IH]; intros Hd; [constructor|].
  assert (NoDup ((fun e => key e) <$> filter (fun e => occupied e = true) l)) as Hl.
  { apply IH. intros i j ? ? Hi Hj Ho Ho' Hk.
    pose proof (Hd (S i) (S j) _ _ Hi Hj Ho Ho' Hk). lia. }
  rewrite filter_cons. case_decide as Ho; [|done]. simpl. constructor; [|done].
  intros (e' & Hk & (Ho' & He')%list_elem_of_filter)%list_elem_of_fmap.
  apply list_elem_of_lookup in He' as (j & Hj).
  pose proof (Hd O (S j) e e' eq_refl Hj Ho Ho' Hk). lia.
Qed.

Lemma entries_NoDup m : zlen (slots_ m) = N -> distinct m -> NoDup (entries m).*1.
Proof.
  intros Hl Hd. unfold entries. rewrite <- list_fmap_compose.
  apply NoDup_filter_keys. intros i j e e' Hi Hj Ho Ho' Hk.
  pose proof (lookup_lt_Some _ _ _ Hi). pose proof (lookup_lt_Some _ _ _ Hj).
  unfold zlen in Hl. apply list_lookup_total_correct in Hi, Hj.
  assert (Z.of_nat i = Z.of_nat j) as ?; [|lia].
  apply Hd; unfold inr_, occ, aget in *; rewrite ?Nat2Z.id, ?Hi, ?Hj; try done; lia.
Qed.

Lemma to_map_lookup m k v :
  zlen (slots_ m) = N -> distinct m ->
  to_map m !! k = Some v <->
  exists p, inr_ p /\ occ m p = true /\ key (slots_ m).[p] = k /\ value (slots_ m).[p] = v.
Proof.
  intros Hl Hd. unfold to_map.
  rewrite <- elem_of_list_to_map by (by apply entries_NoDup). by apply entries_elem.
Qed.

(** ** Probing *)

Lemma dist_inj a p q : inr_ a -> inr_ p -> inr_ q -> dist a p = dist a q -> p = q.
Proof.
  intros Ha Hp Hq E. unfold inr_ in *.
  destruct (dist_cases a p Ha Hp), (dist_cases a q Ha Hq); lia.
Qed.
(** Going past [h] on the way to [p]. *)
Lemma dist_via a h p :
  inr_ a -> inr_ h -> inr_ p -> dist a h <= dist a p ->
  dist a p = dist a h + dist h p.
Proof.
  intros Ha Hh Hp. unfold inr_ in *.
  destruct (dist_cases a p Ha Hp), (dist_cases a h Ha Hh), (dist_cases h p Hh Hp); lia.
Qed.

Definition skipped k m q : Prop := occ m q = true /\ key (slots_ m).[q] <> k.

Lemma probe_from_spec n i k m :
  0 <= i -> i + Z.of_nat n = N ->
  let slot j := Z.land (home k + j) (MASK N) in
  match probe_from N hash n i k m with
  | Free s => exists j, i <= j < N /\ s = slot j /\ occ m s = false /\
                forall j', i <= j' < j -> skipped k m (slot j')
  | Hit s => exists j, i <= j < N /\ s = slot j /\ occ m s = true /\
                key (slots_ m).[s] = k /\ forall j', i <= j' < j -> skipped k m (slot j')
  | Exhausted => forall j', i <= j' < N -> skipped k m (slot j')
  end.
Proof.
  revert i; induction n as [|n IH]; intros i Hi HiN slot; simpl.
  { intros j' Hj'. lia. }
  fold (slot i). destruct (occupied (slots_ m).[slot i]) eqn:Eo; simpl.
  2: { exists i. split_and!; try done; lia. }
  case_decide as Ek.
  { exists i. split_and!; try done; lia. }
  specialize (IH (i + 1) ltac:(lia) ltac:(lia)). simpl in IH.
  assert (forall j', i <= j' -> (i + 1 <= j' -> skipped k m (slot j')) ->
            skipped k m (slot j')) as Hfirst.
  { intros j' Hj' Hs. destruct (decide (j' = i)) as [->|]; [done|]. apply Hs. lia. }
  destruct (probe_from N hash n (i + 1) k m) as [s|s|].
  - destruct IH as (j & Hj & Hs & Ho & Hsk). exists j.
    split; [lia|]. do 2 (split; [done|]).
    intros. apply Hfirst; [lia|]. intros. apply Hsk. lia.
  - destruct IH as (j & Hj & Hs & Ho & Hk & Hsk). exists j.
    split; [lia|]. do 3 (split; [done|]).
    intros. apply Hfirst; [lia|]. intros. apply Hsk. lia.
  - intros. apply Hfirst; [lia|]. intros. apply IH. lia.
Qed.

Lemma probe_spec k m :
  match probe N hash k m with
  | Free s => inr_ s /\ occ m s = false /\
      forall q, inr_ q -> dist (home k) q < dist (home k) s -> skipped k m q
  | Hit s => inr_ s /\ occ m s = true /\ key (slots_ m).[s] = k /\
      forall q, inr_ q -> dist (home k) q < dist (home k) s -> skipped k m q
  | Exhausted => forall q, inr_ q -> skipped k m q
  end.
Proof.
  pose proof hm_N_pos. pose proof (home_range k) as Hh.
  pose proof (probe_from_spec (Z.to_nat N) 0 k m ltac:(lia) ltac:(lia)) as Hp.
  simpl in Hp. unfold probe.
  assert (forall j, 0 <= j < N ->
    (forall j', 0 <= j' < j -> skipped k m (Z.land (home k + j') (MASK N))) ->
    forall q, inr_ q -> dist (home k) q < dist (home k) (Z.land (home k + j) (MASK N)) ->
      skipped k m q) as Hq.
  { intros j Hj Hs q Hq Hd. rewrite slot_dist in Hd by done.
    rewrite <- (slot_of_dist (home k) q Hh Hq). apply Hs.
    pose proof (dist_range (home k) q). lia. }
  destruct (probe_from N hash (Z.to_nat N) 0 k m) as [s|s|].
  - destruct Hp as (j & Hj & -> & Ho & Hs).
    split; [apply slot_range|]. split; [done|]. by apply Hq.
  - destruct Hp as (j & Hj & -> & Ho & Hk & Hs).
    split; [apply slot_range|]. do 2 (split; [done|]). by apply Hq.
  - intros q Hq'. rewrite <- (slot_of_dist (home k) q Hh Hq'). apply Hp.
    apply dist_range.
Qed.

(** The first slot of the probe sequence that is free decides the outcome. *)
Lemma probe_Free k m s :
  inr_ s -> occ m s = false ->
  (forall q, inr_ q -> dist (home k) q < dist (home k) s -> skipped k m q) ->
  probe N hash k m = Free s.
Proof.
  intros Hs Ho Hsk. pose proof (home_range k) as Hh.
  pose proof (probe_spec k m) as Hp. destruct (probe N hash k m) as [s'|s'|].
  - destruct Hp as (Hs' & Ho' & Hsk'). f_equal. apply (dist_inj (home k)); try done.
    destruct (Z.lt_trichotomy (dist (home k) s') (dist (home k) s)) as [Hl|[Hl|Hl]].
    + destruct (Hsk s' Hs' Hl). congruence.
    + done.
    + destruct (Hsk' s Hs Hl). congruence.
  - destruct Hp as (Hs' & Ho' & Hk' & Hsk').
    destruct (Z.lt_trichotomy (dist (home k) s') (dist (home k) s)) as [Hl|[Hl|Hl]].
    + destruct (Hsk s' Hs' Hl). congruence.
    + apply dist_inj in Hl; try done. congruence.
    + destruct (Hsk' s Hs Hl). congruence.
  - destruct (Hp s Hs). congruence.
Qed.

(** In a well-formed table the probe finds a key exactly when a slot holds it. *)
Lemma probe_wf k m p :
  wf m -> inr_ p -> occ m p = true -> key (slots_ m).[p] = k ->
  probe N hash k m = Hit p.
Proof.
  intros [(Hl & Hsz & Hd) Hr] Hp Ho Hk. pose proof (home_range k) as Hh.
  pose proof (probe_spec k m) as Hs. destruct (probe N hash k m) as [s|s|].
  - exfalso. destruct Hs as (Hs & Ho' & Hsk).
    destruct (Z.lt_trichotomy (dist (home k) p) (dist (home k) s)) as [Hlt|[E|Hlt]].
    + destruct (Hsk p Hp Hlt). congruence.
    + apply dist_inj in E; try done. congruence.
    + destruct (Hr p s Hp Hs Ho) as [?|[]]; [by rewrite Hk|congruence].
  - destruct Hs as (Hs & Ho' & Hk' & _). f_equal. apply Hd; try done. congruence.
  - destruct (Hs p Hp). congruence.
Qed.

(** ** Updates of one slot *)

Lemma slot_aset m s e z q :
  zlen (slots_ m) = N -> inr_ s -> inr_ q ->
  (slots_ (HashMap (aset (slots_ m) s e) z)).[q]
  = if decide (s = q) then e else (slots_ m).[q].
Proof. intros Hl Hs Hq. simpl. unfold inr_ in *. apply aget_aset; lia. Qed.

Lemma count_occ_aset (l : list (Slot K V)) s e :
  0 <= s < zlen l ->
  count_occ (aset l s e) = count_occ l
    - (if occupied l.[s] then 1 else 0) + (if occupied e then 1 else 0).
Proof.
  intros Hs. unfold count_occ, aset. rewrite list_fmap_insert.
  apply sumZ_insert. rewrite list_lookup_fmap, lookup_aget by done. done.
Qed.

(** Writing a fresh key into a free slot, or clearing a slot. *)
Lemma shape_fill m s k v :
  shape m -> inr_ s -> occ m s = false ->
  (forall p, inr_ p -> occ m p = true -> key (slots_ m).[p] <> k) ->
  shape (HashMap (aset (slots_ m) s (mkSlot k v true)) (size_ m + 1)).
Proof.
  intros (Hl & Hsz & Hd) Hs Ho Hk. unfold inr_ in Hs. split; [simpl; by rewrite zlen_aset|].
  split.
  { simpl. rewrite count_occ_aset by lia. unfold occ in Ho. rewrite Ho. simpl. lia. }
  intros p q Hp Hq. unfold occ. rewrite !slot_aset by done.
  repeat case_decide; subst; try done; simpl; intros Hop Hoq Hkk.
  - by destruct (Hk q Hq Hoq).
  - by destruct (Hk p Hp Hop).
  - by apply Hd.
Qed.
Lemma shape_clear m s e :
  shape m -> inr_ s -> occ m s = true -> occupied e = false ->
  shape (HashMap (aset (slots_ m) s e) (size_ m - 1)).
Proof.
  intros (Hl & Hsz & Hd) Hs Ho He. unfold inr_ in Hs. split; [simpl; by rewrite zlen_aset|].
  split.
  { simpl. rewrite count_occ_aset by lia. unfold occ in Ho. rewrite Ho, He. lia. }
  intros p q Hp Hq. unfold occ. rewrite !slot_aset by done.
  repeat case_decide; subst; try done; simpl; intros Hop Hoq Hkk; try congruence.
  by apply Hd.
Qed.

Lemma to_map_None m k :
  shape m -> to_map m !! k = None <->
  forall p, inr_ p -> occ m p = true -> key (slots_ m).[p] <> k.
Proof.
  intros (Hl & _ & Hd). split.
  - intros E p Hp Ho Hk.
    assert (to_map m !! k = Some (value (slots_ m).[p])) as E';
      [apply to_map_lookup; eauto|congruence].
  - intros Hn. destruct (to_map m !! k) as [v|] eqn:E; [|done].
    apply to_map_lookup in E as (p & Hp & Ho & Hk & _); try done. by destruct (Hn p Hp Ho).
Qed.

Lemma to_map_fill m s k v :
  shape m -> inr_ s -> occ m s = false -> to_map m !! k = None ->
  to_map (HashMap (aset (slots_ m) s (mkSlot k v true)) (size_ m + 1))
  = <[k := v]> (to_map m).
Proof.
  intros Hsh Hs Ho Hk. pose proof Hsh as (Hl & _ & Hd).
  pose proof (shape_fill m s k v Hsh Hs Ho (proj1 (to_map_None m k Hsh) Hk))
    as (Hl' & _ & Hd').
  apply map_eq. intros k'. apply option_eq. intros v'.
  rewrite to_map_lookup by done. rewrite lookup_insert. split.
  - intros (p & Hp & Hop & Hkp & Hvp). revert Hop Hkp Hvp. unfold occ.
    rewrite slot_aset by done. case_decide as E.
    + simpl. intros _ <- <-. by rewrite decide_True.
    + intros Hop Hkp Hvp. rewrite decide_False.
      * apply to_map_lookup; eauto.
      * intros ->. by destruct (proj1 (to_map_None m k' Hsh) Hk p Hp Hop).
  - case_decide as E; intros Hv; simplify_eq.
    + exists s. unfold occ. rewrite slot_aset, decide_True by done. done.
    + apply to_map_lookup in Hv as (p & Hp & Hop & Hkp & Hvp); try done.
      exists p. unfold occ. rewrite slot_aset by done.
      rewrite decide_False by (intros ->; unfold occ in *; congruence). done.
Qed.

Lemma to_map_clear m s e :
  shape m -> inr_ s -> occ m s = true -> occupied e = false ->
  to_map (HashMap (aset (slots_ m) s e) (size_ m - 1))
  = delete (key (slots_ m).[s]) (to_map m).
Proof.
  intros Hsh Hs Ho He. pose proof Hsh as (Hl & _ & Hd).
  pose proof (shape_clear m s e Hsh Hs Ho He) as (Hl' & _ & Hd').
  apply map_eq. intros k'. apply option_eq. intros v'.
  rewrite to_map_lookup by done. rewrite lookup_delete. split.
  - intros (p & Hp & Hop & Hkp & Hvp). revert Hop Hkp Hvp. unfold occ.
    rewrite slot_aset by done. case_decide as E; [congruence|].
    intros Hop Hkp Hvp. rewrite decide_False; [apply to_map_lookup; eauto|].
    intros Hk. apply E. apply Hd; try done. by rewrite Hk, Hkp.
  - case_decide as E; [done|]. intros Hv.
    apply to_map_lookup in Hv as (p & Hp & Hop & Hkp & Hvp); try done.
    exists p. unfold occ. rewrite slot_aset, decide_False by (done || congruence). done.
Qed.

Lemma size_full m : shape m -> size_ m = N <-> forall p, inr_ p -> occ m p = true.
Proof.
  intros (Hl & Hsz & _). rewrite Hsz. unfold count_occ, occ, inr_.
  assert (forall (l : list (Slot K V)),
    sumZ ((fun e => if occupied e then 1 else 0) <$> l) <= zlen l /\
    (sumZ ((fun e => if occupied e then 1 else 0) <$> l) = zlen l
     <-> Forall (fun e => occupied e = true) l)) as Hc.
  { induction l as [|e l [IH1 IH2]]; [by split|].
    rewrite zlen_cons, fmap_cons. cbn [sumZ].
    rewrite Forall_cons_iff, <- IH2. destruct (occupied e).
    - split; [lia|]. split; [intros; split; [done|lia] | intros [_ ?]; lia].
    - split; [lia|]. split; [lia | by intros [? _]]. }
  rewrite <- Hl. etransitivity; [apply (proj2 (Hc (slots_ m)))|].
  rewrite Forall_lookup. split.
  - intros Hf p Hp. apply (Hf (Z.to_nat p)). by apply lookup_aget.
  - intros Hf i e Hi. pose proof (lookup_lt_Some _ _ _ Hi) as Hlt.
    specialize (Hf (Z.of_nat i)). unfold aget, zlen in Hf. rewrite Nat2Z.id in Hf.
    apply list_lookup_total_correct in Hi. rewrite Hi in Hf. apply Hf. lia.
Qed.

(** ** find and insert *)

Lemma find_spec m k : wf m -> find N hash k m = to_map m !! k.
Proof.
  intros Hwf. pose proof Hwf as [Hsh _]. pose proof Hsh as (Hl & _ & Hd).
  unfold find, find_slot. apply option_eq. intros v. rewrite to_map_lookup by done. split.
  - pose proof (probe_spec k m) as Hp. destruct (probe N hash k m) as [|s|]; try done.
    destruct Hp as (Hs & Ho & Hk & _). intros Hv. simplify_eq/=. eauto.
  - intros (p & Hp & Ho & Hk & Hv). by rewrite (probe_wf k m p), <- Hv by done.
Qed.

(** Overwriting the value of a present key. *)
Section Update.
Context m s k v (Hwf : wf m) (Hs : inr_ s) (Ho : occ m s = true)
  (Hk : key (slots_ m).[s] = k).
Local Abbreviation m' := (HashMap (aset (slots_ m) s (mkSlot k v true)) (size_ m)).

Lemma update_same q : inr_ q -> occ m' q = occ m q /\
  key (slots_ m').[q] = key (slots_ m).[q].
Proof.
  intros Hq. destruct Hwf as [(Hl & _) _]. unfold occ. rewrite slot_aset by done.
  case_decide; subst; done.
Qed.
Lemma update_wf : wf m'.
Proof.
  destruct Hwf as [(Hl & Hsz & Hd) Hr]. split.
  - split; [simpl; by rewrite zlen_aset|]. split.
    + simpl. rewrite count_occ_aset by (unfold inr_ in *; lia).
      unfold occ in Ho. rewrite Ho. simpl. lia.
    + intros p q Hp Hq.
      destruct (update_same p Hp) as [-> ->], (update_same q Hq) as [-> ->].
      by apply Hd.
  - intros p q Hp Hq.
    destruct (update_same p Hp) as [-> ->], (update_same q Hq) as [-> _]. by apply Hr.
Qed.
Lemma update_map : to_map m' = <[k := v]> (to_map m).
Proof.
  destruct Hwf as [(Hl & Hsz & Hd) Hr]. destruct update_wf as [(Hl' & _ & Hd') _].
  apply map_eq. intros k'. apply option_eq. intros v'.
  rewrite to_map_lookup by done. rewrite lookup_insert. split.
  - intros (p & Hp & Hop & Hkp & Hvp).
    destruct (update_same p Hp) as [Ho' Hk'']. rewrite Ho' in Hop. rewrite Hk'' in Hkp.
    revert Hvp. rewrite slot_aset by done. case_decide as E; intros <-.
    + subst p. rewrite Hk in Hkp. by rewrite decide_True.
    + rewrite decide_False; [apply to_map_lookup; eauto|].
      intros Hkk. apply E. apply Hd; congruence.
  - case_decide as E; intros Hv.
    + injection Hv as <-. subst k'. exists s. destruct (update_same s Hs) as [-> ->].
      rewrite slot_aset, decide_True by done. done.
    + apply to_map_lookup in Hv as (p & Hp & Hop & Hkp & Hvp); try done.
      exists p. destruct (update_same p Hp) as [-> ->].
      rewrite slot_aset, decide_False by (done || congruence). done.
Qed.
End Update.

Lemma insert_spec m k v :
  wf m ->
  (is_Some (to_map m !! k) \/ size_ m < N ->
    exists s m', insert N hash k v m = (Some s, m') /\ wf m' /\
      to_map m' = <[k := v]> (to_map m) /\ (slots_ m').[s] = mkSlot k v true) /\
  (to_map m !! k = None -> size_ m = N -> insert N hash k v m = (None, m)).
Proof.
  intros Hwf. pose proof Hwf as [Hsh Hr]. pose proof Hsh as (Hl & Hsz & Hd).
  unfold insert. pose proof (probe_spec k m) as Hp.
  destruct (probe N hash k m) as [s|s|] eqn:Eprobe.
  - destruct Hp as (Hs & Ho & Hsk).
    assert (to_map m !! k = None) as Hk.
    { apply to_map_None; [done|]. intros p Hp' Hop Hkp.
      pose proof (probe_wf k m p Hwf Hp' Hop Hkp). congruence. }
    split.
    + intros _. do 2 eexists. split; [done|]. split; [split|split].
      * apply shape_fill; try done. by apply to_map_None.
      * intros p q Hp' Hq. unfold occ. rewrite !slot_aset by done.
        repeat case_decide; subst; simpl; auto; intros Hop Hdist.
        -- left. by apply Hsk.
        -- by apply (Hr p q).
      * by apply to_map_fill.
      * rewrite slot_aset, decide_True by done. done.
    + intros _ E. exfalso. pose proof (proj1 (size_full m Hsh) E s Hs). congruence.
  - destruct Hp as (Hs & Ho & Hk & _).
    assert (to_map m !! k = Some (value (slots_ m).[s])) as Hk'
      by (apply to_map_lookup; eauto).
    split; [|congruence]. intros _. rewrite Hk. do 2 eexists. split; [done|].
    split; [|split].
    + by apply update_wf.
    + by apply update_map.
    + rewrite slot_aset, decide_True by done. done.
  - split; [|done]. intros [Hsome|Hlt]; exfalso.
    + destruct Hsome as [v' Hv']. apply to_map_lookup in Hv' as (p & Hp' & Hop & Hkp & _);
        try done. by destruct (Hp p Hp').
    + assert (size_ m = N); [|lia]. apply size_full; [done|]. intros p Hp'.
      by destruct (Hp p Hp').
Qed.

Lemma size_le m : shape m -> size_ m <= N.
Proof.
  intros (Hl & -> & _). rewrite <- Hl.
  unfold count_occ, zlen. clear. induction (slots_ m) as [|e l IH]; [done|].
  rewrite fmap_cons. cbn [sumZ]. simpl length. destruct (occupied e); lia.
Qed.
(** The table after an insertion, whether or not there was room. *)
Lemma insert_cases m k v :
  wf m -> wf (snd (insert N hash k v m)) /\
    (to_map (snd (insert N hash k v m)) = <[k := v]> (to_map m) \/
     snd (insert N hash k v m) = m /\ to_map m !! k = None /\ size_ m = N).
Proof.
  intros Hwf. destruct (insert_spec m k v Hwf) as [Hok Hfull].
  destruct (decide (is_Some (to_map m !! k) \/ size_ m < N)) as [Hy|Hn].
  - destruct (Hok Hy) as (s & m' & -> & Hm' & E & _). cbn [snd]. by eauto.
  - pose proof (size_le m (proj1 Hwf)).
    assert (to_map m !! k = None) as Hk by (destruct (to_map m !! k); [exfalso; apply Hn; left|]; done).
    assert (size_ m = N) as Hs by lia. rewrite (Hfull Hk Hs). cbn [snd]. by eauto.
Qed.

(** ** remove *)

(** Total displacement of the entries from their home slots; moving an entry
    back into the hole lowers it. *)
Definition disp m p : Z :=
  if occ m p then dist (home (key (slots_ m).[p])) p else 0.
Definition total_disp m : Z := sumZ (disp m <$> seqZ 0 N).

Lemma disp_range m p : 0 <= disp m p <= N.
Proof.
  unfold disp. pose proof hm_N_pos. pose proof (dist_range (home (key (slots_ m).[p])) p).
  destruct (occ m p); lia.
Qed.
Lemma total_disp_range m : 0 <= total_disp m <= N * N.
Proof.
  pose proof hm_N_pos. unfold total_disp. split.
  - apply sumZ_nonneg. apply Forall_fmap, Forall_true. intros. apply disp_range.
  - pose proof (sumZ_bound (disp m <$> seqZ 0 N) N) as Hb.
    assert (zlen (disp m <$> seqZ 0 N) = N) as Hlen.
    { unfold zlen. rewrite length_fmap, length_seqZ. lia. }
    rewrite Hlen in Hb. apply Hb. apply Forall_fmap, Forall_true.
    intros. apply disp_range.
Qed.

(** The state of the re-insertion loop: [h] is the hole the deletion left or the
    last move made, the pointer is [t] slots past it, and only entries the
    pointer has not met yet may still have the hole on their probe path. *)
Record rehashing (M : gmap K V) (h t : Z) m : Prop := {
  rh_shape : shape m;
  rh_hole : inr_ h;
  rh_free : occ m h = false;
  rh_t : 1 <= t <= N;
  rh_reach : reach (fun q p => q = h /\ t <= dist h p) m;
  rh_map : to_map m = M }.

Definition rh_inv M (n : Z) (st : Z * hash_map K V) : Prop :=
  exists h t, rehashing M h t (snd st) /\
    fst st = Z.land (h + t) (MASK N) /\ n = total_disp (snd st) * N + (N - t).

Lemma rh_pointer h t : inr_ h -> 1 <= t < N -> dist h (Z.land (h + t) (MASK N)) = t.
Proof. intros. apply slot_dist; [done|lia]. Qed.

(** Leaving the loop: the pointer met a free slot, so nothing is cut off. *)
Lemma rh_exit M h t m :
  rehashing M h t m -> occ m (Z.land (h + t) (MASK N)) = false -> wf m.
Proof.
  intros [Hsh Hh Hf Ht Hr HM] Ho. split; [done|]. intros p q Hp Hq Hop Hd.
  destruct (Hr p q Hp Hq Hop Hd) as [?|[-> Htp]]; [by left|]. exfalso.
  set (a := home (key (slots_ m).[p])) in *. pose proof (home_range (key (slots_ m).[p])) as Ha.
  pose proof (dist_range h p). set (s := Z.land (h + t) (MASK N)) in *.
  pose proof (slot_range (h + t) : inr_ s) as Hs.
  pose proof (rh_pointer h t Hh ltac:(lia) : dist h s = t) as Hds.
  assert (s <> p) by congruence.
  assert (t <> dist h p) by (intros E; assert (s = p) by
    (apply (dist_inj h); congruence); done).
  pose proof (dist_via a h p Ha Hh Hp ltac:(fold a in Hd; lia)).
  assert (dist a s = dist a h + t) as Has.
  { destruct (dist_cases a s Ha Hs), (dist_cases a h Ha Hh), (dist_cases h s Hh Hs);
      pose proof (dist_range a p); unfold inr_ in *; lia. }
  destruct (Hr p s Hp Hs Hop) as [?|[-> _]]; [fold a; lia|congruence|].
  unfold dist in Hds. rewrite Z.sub_diag, Zmod_0_l in Hds. lia.
Qed.

(** One iteration, at an occupied slot [s] holding [k] with home [a]. *)
Section Step.
Context M h t m (Hrh : rehashing M h t m).
Local Abbreviation s := (Z.land (h + t) (MASK N)).
Local Abbreviation e := ((slots_ m).[s]).
Local Abbreviation a := (home (key e)).
Local Abbreviation m1 := (HashMap (aset (slots_ m) s (mkSlot (key e) (value e) false))
                            (size_ m - 1)).
Context (Ho : occ m s = true).

Lemma rs_t : t < N.
Proof.
  destruct Hrh as [_ Hh Hf Ht _ _]. destruct (decide (t = N)) as [E|]; [exfalso|lia].
  revert Hf. replace h with s; [by rewrite Ho|]. rewrite hm_mask_mod, E.
  replace (h + N) with (h + 1 * N) by lia. pose proof hm_N_pos. unfold inr_ in Hh.
  rewrite Z.mod_add, Z.mod_small; lia.
Qed.
Lemma rs_dist : dist h s = t.
Proof. pose proof rs_t. destruct Hrh as [_ Hh _ Ht _ _]. apply rh_pointer; [done|lia]. Qed.
Lemma rs_ne : s <> h.
Proof. destruct Hrh as [_ _ Hf _ _ _]. intros E. congruence. Qed.

Lemma rs_shape1 : shape m1.
Proof. destruct Hrh as [Hsh _ _ _ _ _]. apply shape_clear; try done. apply slot_range. Qed.
Lemma rs_occ1 q : inr_ q -> q <> s -> (slots_ m1).[q] = (slots_ m).[q].
Proof.
  intros Hq Hne. destruct Hrh as [(Hl & _) _ _ _ _ _].
  rewrite slot_aset, decide_False by (done || apply slot_range). done.
Qed.
Lemma rs_occ_s : occ m1 s = false.
Proof.
  destruct Hrh as [(Hl & _) _ _ _ _ _]. unfold occ.
  by rewrite slot_aset, decide_True by (done || apply slot_range).
Qed.

(** Slots before both [s] and the hole on the path of [k] hold other keys. *)
Lemma rs_skipped q :
  inr_ q -> dist a q < dist a s -> q <> h -> skipped (key e) m1 q.
Proof.
  intros Hq Hd Hqh. destruct Hrh as [(Hl & _ & Hdis) Hh Hf Ht Hr _].
  assert (q <> s) as Hqs by (intros ->; lia).
  destruct (Hr s q (slot_range _) Hq Ho Hd) as [Hoq|[-> _]]; [|done].
  unfold skipped, occ. rewrite rs_occ1 by done. split; [done|].
  intros Hk. apply Hqs. apply Hdis; try done. apply slot_range.
Qed.

(** The hole is not on the path: the entry goes back where it was. *)
Lemma rs_stay :
  dist a s <= dist a h ->
  snd (insert N hash (key e) (value e) m1) = m /\ rehashing M h (t + 1) m.
Proof.
  intros Hd. pose proof rs_t. pose proof rs_dist.
  pose proof Hrh as [(Hl & Hsz & Hdis) Hh Hf Ht Hr HM]. split.
  - unfold insert. rewrite (probe_Free (key e) m1 s (slot_range _) rs_occ_s).
    + destruct m as [sl sz]. simpl in *. f_equal; [|lia].
      unfold aset at 1 2. rewrite list_insert_insert_eq.
      change (aset sl s (mkSlot (key sl.[s]) (value sl.[s]) true) = sl).
      replace (mkSlot _ _ true) with sl.[s]
        by (unfold occ in Ho; simpl in Ho; by destruct sl.[s]; simpl in *; subst).
      apply aset_id. pose proof (slot_range (h + t)). unfold inr_ in *. lia.
    + intros q Hq Hlt. apply rs_skipped; try done. intros ->. lia.
  - split; try done; [lia|]. intros p q Hp Hq Hop Hpq.
    destruct (Hr p q Hp Hq Hop Hpq) as [?|[-> Hle]]; [by left|]. right. split; [done|].
    assert (dist h p <> t); [|lia]. intros E. rewrite <- rs_dist in E.
    apply dist_inj in E; try done; [|apply slot_range]. subst p. lia.
Qed.

Local Abbreviation m2 := (HashMap (aset (slots_ m1) h (mkSlot (key e) (value e) true))
                            (size_ m1 + 1)).

Lemma rs_m2 q : inr_ q ->
  (slots_ m2).[q] = if decide (h = q) then mkSlot (key e) (value e) true
                    else (slots_ m1).[q].
Proof.
  intros Hq. destruct rs_shape1 as (Hl & _). destruct Hrh as [_ Hh _ _ _ _].
  by apply slot_aset.
Qed.

Lemma rs_map2 : to_map m2 = M.
Proof.
  destruct Hrh as [Hsh Hh Hf Ht Hr HM]. pose proof Hsh as (Hl & _ & Hd).
  rewrite to_map_fill; try done.
  - rewrite to_map_clear by (done || apply slot_range). rewrite HM, insert_delete_eq.
    apply insert_id. rewrite <- HM. apply to_map_lookup; try done.
    exists s. split; [apply slot_range|done].
  - apply rs_shape1.
  - unfold occ. rewrite rs_occ1; [done|done|]. intros E. symmetry in E. by apply rs_ne.
  - rewrite to_map_clear by (done || apply slot_range). apply lookup_delete_eq.
Qed.

(** The hole is on the path: the entry moves into it and leaves a new hole. *)
Lemma rs_move :
  dist a h < dist a s ->
  snd (insert N hash (key e) (value e) m1) = m2 /\ rehashing M s 1 m2.
Proof.
  intros Hd. pose proof rs_ne as Hne.
  pose proof Hrh as [Hsh Hh Hf Ht Hr HM]. pose proof Hsh as (Hl & Hsz & Hdis).
  assert (occ m1 h = false) as Hf1 by (unfold occ; by rewrite rs_occ1).
  split.
  { unfold insert. rewrite (probe_Free (key e) m1 h Hh Hf1); [done|].
    intros q Hq Hlt. apply rs_skipped; [done|lia|]. intros ->. lia. }
  split; try done.
  - apply shape_fill; try done; [apply rs_shape1|]. apply to_map_None; [apply rs_shape1|].
    rewrite to_map_clear by (done || apply slot_range). apply lookup_delete_eq.
  - apply slot_range.
  - unfold occ. rewrite rs_m2, decide_False by (apply slot_range || done).
    apply rs_occ_s.
  - pose proof hm_N_pos. lia.
  - intros p q Hp Hq. unfold occ. rewrite !rs_m2 by done.
    assert (forall x, inr_ x -> x <> h -> x <> s -> occ m x = true -> occ m1 x = true)
      as Hkeep by (intros; unfold occ in *; by rewrite rs_occ1).
    destruct (decide (h = q)) as [<-|Hhq]; [by left|].
    destruct (decide (q = s)) as [->|Hqs].
    { intros Hop _. right. split; [done|]. pose proof (dist_range s p).
      assert (dist s p <> 0); [|lia]. intros E.
      assert (s = p) as <-.
      { apply (dist_inj s); [apply slot_range..|done|].
        rewrite E. unfold dist. by rewrite Z.sub_diag, Zmod_0_l. }
      rewrite decide_False in Hop by done.
      pose proof rs_occ_s as Hos. unfold occ in Hos. congruence. }
    destruct (decide (h = p)) as [<-|Hhp]; cbv beta iota; intros Hop Hpq; left.
    + cbn [key] in Hpq. apply rs_skipped; [done|lia|done].
    + assert (p <> s)
        by (intros ->; pose proof rs_occ_s as Hos; unfold occ in Hos; congruence).
      rewrite rs_occ1 in Hop, Hpq by done. apply Hkeep; try done.
      destruct (Hr p q Hp Hq Hop Hpq) as [?|[-> _]]; done.
  - apply rs_map2.
Qed.

Lemma rs_disp2 : dist a h < dist a s -> total_disp m2 = total_disp m - t.
Proof.
  intros Hd. pose proof rs_ne as Hne. pose proof (slot_range (h + t)) as Hs.
  destruct Hrh as [Hsh Hh Hf Ht Hr HM]. pose proof rs_dist.
  assert (dist a s = dist a h + dist h s) by (apply dist_via; try done;
    [apply home_range | lia]).
  unfold total_disp.
  rewrite (sumZ_seqZ_update (disp m2) (disp m1) N h).
  2: { done. }
  2: { intros j Hj Hjh. unfold disp, occ. by rewrite rs_m2, decide_False by done. }
  rewrite (sumZ_seqZ_update (disp m1) (disp m) N s).
  2: { done. }
  2: { intros j Hj Hjs. unfold disp, occ. by rewrite rs_occ1 by done. }
  assert (disp m2 h = dist a h) as ->
    by (unfold disp, occ; by rewrite rs_m2, decide_True by done).
  assert (disp m1 h = 0) as -> by (unfold disp, occ; rewrite rs_occ1 by done;
    unfold occ in Hf; by rewrite Hf).
  assert (disp m1 s = 0) as -> by (unfold disp; by rewrite rs_occ_s).
  assert (disp m s = dist a s) as -> by (unfold disp; by rewrite Ho).
  lia.
Qed.
End Step.

Lemma rh_step M n st st' :
  rh_inv M n st -> rehash_step N hash st = inl st' ->
  exists n', n' < n /\ rh_inv M n' st'.
Proof.
  intros (h & t & Hrh & Hs & ->) Hstep. destruct st as [s m]. simpl in Hs, Hrh. subst s.
  unfold rehash_step in Hstep. case_if_in Hstep; [|done]. simplify_eq.
  pose proof (rs_t M h t m Hrh E). pose proof (rh_t _ _ _ _ Hrh). pose proof hm_N_pos.
  set (a := home (key (slots_ m).[Z.land (h + t) (MASK N)])).
  destruct (Z_le_gt_dec (dist a (Z.land (h + t) (MASK N))) (dist a h)) as [Hd|Hd].
  - destruct (rs_stay M h t m Hrh E Hd) as [-> Hrh'].
    exists (total_disp m * N + (N - (t + 1))). split; [simpl; lia|].
    exists h, (t + 1). split; [done|]. split; [|done]. simpl.
    rewrite !hm_mask_mod, Zplus_mod_idemp_l. f_equal. lia.
  - destruct (rs_move M h t m Hrh E ltac:(fold a; lia)) as [-> Hrh'].
    pose proof (rs_disp2 M h t m Hrh E ltac:(fold a; lia)) as HD.
    exists ((total_disp m - t) * N + (N - 1)). split; [cbn [snd]; nia|].
    exists (Z.land (h + t) (MASK N)), 1. split; [exact Hrh'|]. split; [done|].
    by rewrite <- HD.
Qed.

Lemma rehash_spec M s m :
  rehashing M s 1 m ->
  exists m', rehash_after_delete N hash s m = Some m' /\ wf m' /\ to_map m' = M.
Proof.
  intros Hrh. unfold rehash_after_delete. pose proof hm_N_pos.
  destruct (loop_done (rehash_step N hash) (rh_inv M) (fun r => wf r /\ to_map r = M)
    (rehash_bound N) (total_disp m * N + (N - 1)) (Z.land (s + 1) (MASK N), m))
    as (r & -> & ?); [..|by exists r].
  - intros n st (h & t & Hr & _ & ->). pose proof (rh_t _ _ _ _ Hr).
    pose proof (total_disp_range (snd st)). nia.
  - apply rh_step.
  - intros n [p m'] r (h & t & Hr & Hp & _) Hstep. simpl in Hp, Hr. subst p.
    unfold rehash_step in Hstep. case_if_in Hstep; simplify_eq.
    split; [by eapply rh_exit|]. by destruct Hr.
  - exists s, 1. done.
  - pose proof (total_disp_range m). unfold rehash_bound. rewrite Z2Pos.id; nia.
Qed.

Lemma remove_start m k s :
  wf m -> inr_ s -> occ m s = true -> key (slots_ m).[s] = k ->
  rehashing (delete k (to_map m)) s 1 (HashMap (aset (slots_ m) s inhabitant) (size_ m - 1)).
Proof.
  intros [Hsh Hr] Hs Ho Hk. pose proof Hsh as (Hl & _ & Hd). split; try done.
  - by apply shape_clear.
  - unfold occ. by rewrite slot_aset, decide_True.
  - pose proof hm_N_pos. lia.
  - intros p q Hp Hq. unfold occ. rewrite !slot_aset by done.
    destruct (decide (s = p)) as [<-|Hsp]; [done|]. intros Hop Hpq.
    destruct (decide (s = q)) as [<-|Hsq].
    + right. split; [done|]. pose proof (dist_range s p).
      assert (dist s p <> 0); [|lia]. intros E. apply Hsp. apply (dist_inj s); try done.
      rewrite E. unfold dist. by rewrite Z.sub_diag, Zmod_0_l.
    + left. by destruct (Hr p q Hp Hq Hop Hpq).
  - rewrite to_map_clear by done. by rewrite Hk.
Qed.

Lemma remove_spec m k :
  wf m -> exists m', remove N hash k m = Some (bool_decide (is_Some (to_map m !! k)), m') /\
    wf m' /\ to_map m' = delete k (to_map m).
Proof.
  intros Hwf. pose proof Hwf as [Hsh Hr]. pose proof Hsh as (Hl & _ & Hd).
  unfold remove. pose proof (probe_spec k m) as Hp.
  assert ((forall s, probe N hash k m <> Hit s) -> to_map m !! k = None) as Hmiss.
  { intros Hn. apply to_map_None; [done|]. intros p Hp' Hop Hkp.
    apply (Hn p). by apply probe_wf. }
  destruct (probe N hash k m) as [s|s|].
  - exists m. rewrite Hmiss by done. split; [done|]. split; [done|].
    by rewrite delete_id by (by apply Hmiss).
  - destruct Hp as (Hs & Ho & Hk & _).
    destruct (rehash_spec _ s _ (remove_start m k s Hwf Hs Ho Hk)) as (m' & -> & Hwf' & HM).
    exists m'. split; [|by split]. simpl. do 2 f_equal. symmetry. apply bool_decide_eq_true.
    exists (value (slots_ m).[s]). apply to_map_lookup; eauto.
  - exists m. rewrite Hmiss by done. split; [done|]. split; [done|].
    by rewrite delete_id by (by apply Hmiss).
Qed.

Lemma hm_empty_wf : wf (empty N) /\ to_map (empty N : hash_map K V) = ∅.
Proof.
  pose proof hm_N_pos.
  assert (forall p, inr_ p -> occ (empty N : hash_map K V) p = false) as Ho.
  { intros p Hp. unfold occ, empty, inr_ in *. simpl. rewrite aget_replicate by lia. done. }
  assert (shape (empty N : hash_map K V)) as Hsh.
  { split; [simpl; rewrite zlen_replicate; lia|]. split.
    - simpl. unfold count_occ. generalize (Z.to_nat N).
      induction n as [|n IH]; [done|]. cbn [replicate]. rewrite fmap_cons. cbn [sumZ].
      rewrite <- IH. done.
    - intros p q Hp Hq Hop. rewrite Ho in Hop; done. }
  split; [split; [done|]|].
  - intros p q Hp Hq Hop. rewrite Ho in Hop; done.
  - apply map_eq. intros k. rewrite lookup_empty. apply to_map_None; [done|].
    intros p Hp Hop. rewrite Ho in Hop; done.
Qed.

Lemma size_to_map m : shape m -> size_ m = Z.of_nat (base.size (to_map m)).
Proof.
  intros (Hl & -> & Hd). unfold to_map.
  rewrite map_size_list_to_map by (by apply entries_NoDup).
  unfold entries, count_occ. rewrite length_fmap. generalize (slots_ m). clear.
  induction l as [|e l IH]; [done|]. rewrite fmap_cons, filter_cons. cbn [sumZ].
  rewrite IH. destruct (occupied e); simpl; lia.
Qed.
End Wf.

(** * Traces *)

Inductive op (K V : Type) : Type := Insert (k : K) (v : V) | Find (k : K) | Remove (k : K).
Arguments Insert {K V}. Arguments Find {K V}. Arguments Remove {K V}.
Inductive out (V : Type) : Type := Inserted (ok : bool) | Found (o : option V) | Removed (b : bool).
Arguments Inserted {V}. Arguments Found {V}. Arguments Removed {V}.

Section Traces.
Context {K V : Type} `{Inhabited K, Inhabited V, Countable K}.
Context (N : Z) (hash : K -> Z).

(** [None] when a call does not return. *)
Definition step (o : op K V) (m : hash_map K V) : option (out V * hash_map K V) :=
  match o with
  | Insert k v => let '(r, m') := insert N hash k v m in
      Some (Inserted (match r with Some _ => true | None => false end), m')
  | Find k => Some (Found (find N hash k m), m)
  | Remove k => '(b, m') ← remove N hash k m; Some (Removed b, m')
  end.
Fixpoint run (ops : list (op K V)) (m : hash_map K V) : option (list (out V) * hash_map K V) :=
  match ops with
  | [] => Some ([], m)
  | o :: ops => '(r, m1) ← step o m; '(rs, m2) ← run ops m1; Some (r :: rs, m2)
  end.

(** The reference: a finite map of at most [N] keys. *)
Definition ref_step (o : op K V) (M : gmap K V) : out V * gmap K V :=
  match o with
  | Insert k v =>
      if bool_decide (is_Some (M !! k)) || (Z.of_nat (base.size M) <? N)
      then (Inserted true, <[k := v]> M) else (Inserted false, M)
  | Find k => (Found (M !! k), M)
  | Remove k => (Removed (bool_decide (is_Some (M !! k))), delete k M)
  end.
Fixpoint ref_run (ops : list (op K V)) (M : gmap K V) : list (out V) * gmap K V :=
  match ops with
  | [] => ([], M)
  | o :: ops => let '(r, M1) := ref_step o M in
                let '(rs, M2) := ref_run ops M1 in (r :: rs, M2)
  end.

Context (HN : exists k, 0 <= k /\ N = 2 ^ k).

Lemma step_refines o m :
  wf N hash m -> exists m', step o m = Some (fst (ref_step o (to_map m)), m') /\
    wf N hash m' /\ to_map m' = snd (ref_step o (to_map m)).
Proof.
  intros Hwf. destruct o as [k v|k|k]; simpl.
  - destruct (insert_spec N hash HN m k v Hwf) as [Hok Hfull].
    pose proof (size_to_map N m (proj1 Hwf)) as Hsz.
    pose proof Hwf as [Hsh _]. destruct (bool_decide _ || _) eqn:E.
    + destruct Hok as (s & m' & -> & Hwf' & HM & _); [|by eauto].
      apply orb_true_iff in E as [E|E]; [left; by apply bool_decide_eq_true in E|].
      right. bool_facts. lia.
    + bool_facts. rewrite Hfull; [by eauto| |].
      * apply eq_None_not_Some. by apply bool_decide_eq_false in H2.
      * pose proof (size_le N m Hsh). lia.
  - rewrite find_spec by done. eauto.
  - destruct (remove_spec N hash HN m k Hwf) as (m' & -> & Hwf' & HM). eauto.
Qed.

Lemma run_refines ops m :
  wf N hash m -> exists m', run ops m = Some (fst (ref_run ops (to_map m)), m') /\
    wf N hash m' /\ to_map m' = snd (ref_run ops (to_map m)).
Proof.
  revert m; induction ops as [|o ops IH]; intros m Hwf; simpl; [eauto|].
  destruct (step_refines o m Hwf) as (m1 & -> & Hwf1 & HM1).
  destruct (ref_step o _) as [r M1]. simpl in *. subst M1.
  destruct (IH m1 Hwf1) as (m2 & -> & Hwf2 & HM2).
  destruct (ref_run ops _) as [rs M2]. simpl in *. eauto.
Qed.
End Traces.

(** Assigning through the pointer of a present key is updating its binding. *)
Lemma set_value_spec {K V} `{Inhabited K, Inhabited V, Countable K} N (hash : K -> Z)
    (HN : exists k, 0 <= k /\ N = 2 ^ k) m k (v : V) :
  wf N hash m -> is_Some (to_map m !! k) ->
  wf N hash (set_value N hash k v m) /\
  to_map (set_value N hash k v m) = <[k := v]> (to_map m).
Proof.
  intros Hwf Hk. destruct (insert_spec N hash HN m k v Hwf) as [Hok _].
  destruct (Hok (or_introl Hk)) as (s & m' & E & Hwf' & HM & _).
  assert (set_value N hash k v m = m') as ->; [|done].
  rewrite <- (find_spec N hash HN m k Hwf) in Hk. revert E Hk.
  unfold set_value, find, find_slot, insert.
  pose proof (probe_spec N hash HN k m) as Hp.
  destruct (probe N hash k m) as [s'|s'|]; cbn; [by intros _ [? ?]| |by intros _ [? ?]].
  destruct Hp as (_ & Ho & _). unfold occ in Ho. intros [= <- <-] _. by rewrite Ho.
Qed.

(** C33. A fixed-capacity hash map behaves as a finite map of at most [N] keys:
    for every capacity that is a power of two, every hash function and every
    sequence of [insert], [find] and [remove] calls on a fresh table, the results
    are those of the same operations on a finite map ([insert] refuses exactly a
    new key when [N] keys are held).  Every call returns: [remove]'s re-insertion of
    the probe cluster ends within its bound ([run] is [Some]) and loses no entry. *)
Theorem hash_map_refines_map {K V} `{Inhabited K, Inhabited V, Countable K}
    (k : Z) (hash : K -> Z) (ops : list (op K V)) :
  0 <= k ->
  exists m, run (2 ^ k) hash ops (empty (2 ^ k)) = Some (fst (ref_run (2 ^ k) ops ∅), m) /\
    wf (2 ^ k) hash m /\ to_map m = snd (ref_run (2 ^ k) ops ∅).
Proof.
  intros Hk.
  assert (exists j, 0 <= j /\ 2 ^ k = 2 ^ j) as HN by (by exists k).
  destruct (hm_empty_wf (K := K) (V := V) (2 ^ k) hash HN) as [Hwf HM].
  destruct (run_refines (2 ^ k) hash HN ops _ Hwf) as (m & Hrun & Hwf' & HM').
  rewrite HM in Hrun, HM'. eauto.
Qed.

(** All keys hash to the same slot of a table of four; the table fills up, a
    delete in the middle of the full ring re-inserts the cluster. *)
Lemma hash_map_refines_map_witness :
  let ops := [Insert 10 1; Insert 20 2; Insert 30 3; Insert 40 4; Insert 50 5; Remove 20;
              Find 10; Find 20; Find 40; Insert 50 5; Find 50; Find 30] in
  exists m, run 4 (fun _ => 3) ops (empty 4)
    = Some ([Inserted true; Inserted true; Inserted true; Inserted true; Inserted false;
        Removed true; Found (Some 1); Found None; Found (Some 4); Inserted true;
        Found (Some 5); Found (Some 3)], m)
    /\ wf 4 (fun _ => 3) m /\ base.size (to_map m) = 4%nat.
Proof.
  destruct (hash_map_refines_map (K := Z) (V := Z) 2 (fun _ => 3)
    [Insert 10 1; Insert 20 2; Insert 30 3; Insert 40 4; Insert 50 5; Remove 20;
     Find 10; Find 20; Find 40; Insert 50 5; Find 50; Find 30]) as (m & Hrun & Hwf & HM);
    [lia|].
  exists m. split; [exact Hrun|]. split; [exact Hwf|]. rewrite HM. vm_compute. reflexivity.
Defined.
End FixedHashMap.
