(* ===== verification/Replay.v ===== *)
(** Replay protection (src/src/crypto/replay.h).

    [ReplayProtection] remembers the last 256 nonce counters of a key epoch, one
    slot per residue.  Theorems: over any sequence of arrivals no counter is
    accepted twice, and the window accepts exactly what a receiver that
    remembers every accepted counter would accept inside the window. *)

From S2P Require Import Prelude.

Module Replay.

Definition WINDOW_SIZE : Z := 256.
Definition EMPTY_SLOT : Z := 2 ^ 64 - 1.

Record ReplayProtection : Type := mkReplay {
  most_recent : Z;
  received : list Z
}.

(** [reset]; the constructor calls it. *)
Definition reset : ReplayProtection :=
  mkReplay 0 (replicate (Z.to_nat WINDOW_SIZE) EMPTY_SLOT).

Definition is_duplicate (rp : ReplayProtection) (nonce : Z) : bool :=
  if (WINDOW_SIZE <=? most_recent rp)
     && (u64 (nonce + WINDOW_SIZE) <=? most_recent rp)
  then true
  else
    let slot_val := (received rp).[nonce mod WINDOW_SIZE] in
    negb (slot_val =? EMPTY_SLOT) && (slot_val =? nonce).

Definition advance (rp : ReplayProtection) (nonce : Z) : ReplayProtection :=
  mkReplay (if most_recent rp <? nonce then nonce else most_recent rp)
           (aset (received rp) (nonce mod WINDOW_SIZE) nonce).

(** One authenticated arrival: the order [packet_decrypt] uses, the check first
    and [advance] only after the tag verified. *)
Definition arrive (rp : ReplayProtection) (nonce : Z) : bool * ReplayProtection :=
  if is_duplicate rp nonce then (false, rp) else (true, advance rp nonce).

(** The accepted counters of a sequence of arrivals. *)
Fixpoint accepted (rp : ReplayProtection) (ns : list Z) : list Z :=
  match ns with
  | [] => []
  | n :: ns => let '(b, rp') := arrive rp n in
               if b then n :: accepted rp' ns else accepted rp' ns
  end.

(** The reference receiver: it remembers every counter it accepted. *)
Definition ref_ok (seen : list Z) (n : Z) : bool :=
  let top := foldr Z.max 0 seen in
  negb (bool_decide (n ∈ seen)) && ((top <? WINDOW_SIZE) || (top <? n + WINDOW_SIZE)).
Fixpoint ref_accepted (seen ns : list Z) : list Z :=
  match ns with
  | [] => []
  | n :: ns => if ref_ok seen n then n :: ref_accepted (n :: seen) ns
               else ref_accepted seen ns
  end.

(** ** The window invariant *)

(** [seen] is the list of counters accepted so far. *)
Record inv (rp : ReplayProtection) (seen : list Z) : Prop := {
  inv_len : zlen (received rp) = WINDOW_SIZE;
  inv_top : most_recent rp = foldr Z.max 0 seen;
  inv_u64 : Forall is_u64 seen;
  inv_seen : forall n, n ∈ seen -> is_duplicate rp n = true;
  inv_slot : forall i, 0 <= i < WINDOW_SIZE ->
    (received rp).[i] = EMPTY_SLOT \/ (received rp).[i] ∈ seen
}.

Lemma foldr_max_in l n : n ∈ l -> n <= foldr Z.max 0 l.
Proof. induction 1; simpl; lia. Qed.
Lemma foldr_max_range l : Forall is_u64 l -> is_u64 (foldr Z.max 0 l).
Proof. induction 1; unfold is_u64 in *; simpl; lia. Qed.

Lemma nonce_slot_range n : is_u64 n -> 0 <= n mod WINDOW_SIZE < WINDOW_SIZE.
Proof. intros _. apply Z.mod_pos_bound. done. Qed.

Lemma is_duplicate_true rp n :
  is_duplicate rp n = true <->
  (WINDOW_SIZE <= most_recent rp /\ u64 (n + WINDOW_SIZE) <= most_recent rp) \/
  ((received rp).[n mod WINDOW_SIZE] = n /\ n <> EMPTY_SLOT).
Proof.
  unfold is_duplicate. case_if.
  - split; [intros _; left; lia | done].
  - rewrite andb_true_iff, negb_true_iff, Z.eqb_eq, Z.eqb_neq.
    rewrite andb_false_iff, !Z.leb_gt in E. intuition lia.
Qed.

Lemma inv_reset : inv reset [].
Proof.
  split; try done.
  - intros n Hn. by apply not_elem_of_nil in Hn.
  - intros i Hi. left. by apply aget_replicate.
Qed.

(** A counter that shares a slot with a newly accepted one is now too old. *)
Lemma slot_clash rp seen n m :
  inv rp seen -> is_u64 m -> n ∈ seen -> is_duplicate rp m = false ->
  n <> m -> n mod WINDOW_SIZE = m mod WINDOW_SIZE -> n + WINDOW_SIZE <= m.
Proof.
  intros [_ Htop Hu _ _] Hm Hn Hdup Hne Hmod.
  pose proof (proj1 (list.Forall_forall _ _) Hu n Hn) as Hn64.
  pose proof (foldr_max_in _ _ Hn) as Hle. rewrite <- Htop in Hle.
  pose proof (foldr_max_range _ Hu) as Htop64. rewrite <- Htop in Htop64.
  unfold is_u64, WINDOW_SIZE in *.
  destruct (Z.lt_ge_cases n m) as [Hlt|Hge]; [mlia|].
  assert (m + 256 <= n) as Hold by mlia.
  assert (is_duplicate rp m = true) as Hd; [|congruence].
  apply is_duplicate_true. left. unfold u64, WINDOW_SIZE.
  rewrite Z.mod_small; lia.
Qed.

Lemma advance_keeps rp seen n m :
  inv rp seen -> is_u64 m -> n ∈ seen -> is_duplicate rp m = false ->
  is_duplicate (advance rp m) n = true.
Proof.
  intros Hinv Hm Hn Hdup. pose proof Hinv as [Hlen Htop Hu Hseen _].
  pose proof (proj1 (list.Forall_forall _ _) Hu n Hn) as Hn64.
  destruct (decide (n = m)) as [->|Hne].
  { specialize (Hseen m Hn). congruence. }
  pose proof (nonce_slot_range n Hn64). pose proof (nonce_slot_range m Hm).
  apply is_duplicate_true. pose proof (Hseen n Hn) as Hd.
  apply is_duplicate_true in Hd as [[Hw Hold]|[Hs He]].
  - left. simpl. case_if; lia.
  - destruct (decide (n mod WINDOW_SIZE = m mod WINDOW_SIZE)) as [Heq|Hneq].
    + pose proof (slot_clash rp seen n m Hinv Hm Hn Hdup Hne Heq) as Hclash.
      left. unfold u64, is_u64, WINDOW_SIZE in *. simpl.
      rewrite (Z.mod_small (n + 256)) by lia. case_if; lia.
    + right. simpl. rewrite aget_aset_ne by (congruence || lia). done.
Qed.

Lemma advance_duplicate rp m :
  zlen (received rp) = WINDOW_SIZE -> is_u64 m -> is_duplicate (advance rp m) m = true.
Proof.
  intros Hlen Hm. pose proof (nonce_slot_range m Hm). apply is_duplicate_true.
  destruct (decide (m = EMPTY_SLOT)) as [->|Hne].
  - left. simpl. unfold u64, EMPTY_SLOT, WINDOW_SIZE in *. case_if.
    + split; [lia|]. by vm_compute.
    + split; [lia|]. transitivity 255; [by vm_compute|lia].
  - right. simpl. rewrite aget_aset_eq by lia. done.
Qed.

Lemma inv_advance rp seen m :
  inv rp seen -> is_u64 m -> is_duplicate rp m = false ->
  inv (advance rp m) (m :: seen).
Proof.
  intros Hinv Hm Hdup. pose proof Hinv as [Hlen Htop Hu Hseen Hslot].
  pose proof (nonce_slot_range m Hm). split.
  - simpl. by rewrite zlen_aset.
  - simpl. rewrite <- Htop. case_if; lia.
  - by constructor.
  - intros n [->|Hn]%elem_of_cons; [by apply advance_duplicate|].
    by apply advance_keeps with seen.
  - intros i Hi. simpl. rewrite aget_aset by lia. case_decide.
    + right. left.
    + destruct (Hslot i Hi); [by left | right; by right].
Qed.

Lemma accepted_fresh rp seen ns :
  inv rp seen -> Forall is_u64 ns ->
  NoDup (accepted rp ns) /\ forall n, n ∈ accepted rp ns -> n ∉ seen.
Proof.
  intros Hinv Hns. revert rp seen Hinv.
  induction Hns as [|n ns Hn Hns IH]; intros rp seen Hinv; simpl.
  { split; [constructor|]. intros n Hn. by apply not_elem_of_nil in Hn. }
  unfold arrive. destruct (is_duplicate rp n) eqn:Hd; [by apply IH|].
  destruct (IH _ _ (inv_advance rp seen n Hinv Hn Hd)) as [Hnd Hfresh]. split.
  - constructor; [|done]. intros Hin. apply (Hfresh n Hin). left.
  - intros k [->|Hk]%elem_of_cons.
    + intros Hin. rewrite (inv_seen _ _ Hinv n Hin) in Hd. done.
    + intros Hin. apply (Hfresh k Hk). by right.
Qed.

(** Inside the range where [nonce + 256] does not wrap, the check is exact. *)
Lemma is_duplicate_ref rp seen n :
  inv rp seen -> 0 <= n < 2 ^ 64 - WINDOW_SIZE ->
  is_duplicate rp n = negb (ref_ok seen n).
Proof.
  intros Hinv Hn. unfold ref_ok. rewrite <- (inv_top _ _ Hinv).
  pose proof (nonce_slot_range n ltac:(unfold is_u64, WINDOW_SIZE in *; lia)) as Hr.
  case_bool_decide as Hin; [by apply (inv_seen _ _ Hinv)|].
  apply eq_true_iff_eq. rewrite is_duplicate_true. simpl.
  rewrite negb_true_iff, orb_false_iff, !Z.ltb_ge.
  unfold u64, WINDOW_SIZE in *. rewrite (Z.mod_small (n + 256)) by lia. split.
  - intros [?|[Hs Hne]]; [lia|]. destruct (inv_slot _ _ Hinv (n mod 256) Hr) as [E|E].
    + unfold WINDOW_SIZE in *. congruence.
    + rewrite Hs in E. done.
  - intros. left. lia.
Qed.

(** C9.  Anti-replay: over any sequence of arrivals of 64-bit nonce counters at
    a fresh window, no counter is accepted twice (wrap-around of [nonce + 256]
    and the counter [UINT64_MAX] that marks an empty slot included). *)
Theorem replay_never_accepts_twice (ns : list Z) :
  Forall is_u64 ns -> NoDup (accepted reset ns).
Proof. intros Hns. apply (accepted_fresh reset [] ns inv_reset Hns). Qed.

Lemma replay_never_accepts_twice_witness :
  NoDup (accepted reset [5; 300; 5; 2 ^ 64 - 1; 44; 300]) /\
  accepted reset [5; 300; 5; 44; 300; 45] = [5; 300; 45].
Proof.
  split; [|by vm_compute].
  apply replay_never_accepts_twice. repeat constructor; by vm_compute.
Defined.

(** The 256-slot window refines a receiver with unbounded memory: on every
    sequence of arrivals it accepts exactly the counters that were not accepted
    before and are less than 256 behind the highest accepted one. *)
Theorem replay_window_refines (ns : list Z) :
  Forall (fun n => 0 <= n < 2 ^ 64 - WINDOW_SIZE) ns ->
  accepted reset ns = ref_accepted [] ns.
Proof.
  intros Hns. generalize inv_reset. generalize reset. generalize (@nil Z).
  induction Hns as [|n ns Hn Hns IH]; intros seen rp Hinv; simpl; [done|].
  unfold arrive. pose proof (is_duplicate_ref rp seen n Hinv Hn) as Hd.
  destruct (ref_ok seen n); rewrite Hd; simpl; [|by apply IH]. f_equal.
  apply IH, inv_advance; try done. unfold is_u64, WINDOW_SIZE in *. lia.
Qed.

Lemma replay_window_refines_witness :
  accepted reset [0; 7; 0; 300; 44; 45; 300; 299] = [0; 7; 300; 45; 299] /\
  accepted reset [0; 7; 0; 300; 44; 45; 300; 299]
  = ref_accepted [] [0; 7; 0; 300; 44; 45; 300; 299].
Proof.
  split; [by vm_compute|].
  apply replay_window_refines. repeat constructor; by vm_compute.
Defined.

End Replay.
