(* ===== verification/Wire.v ===== *)
(** Frames inside an encrypted payload (src/src/wire/frame.h).

    A writer receives a pointer into a payload buffer and the room left behind
    it; here the buffer is the whole object, [pos] the offset the pointer stands
    for, and the result [None] is a store outside the object.  [Frame] and
    [encode] are the wire grammar; [write_frame_spec] says each writer stores
    exactly the encoding of its frame, or returns -1 and stores nothing. *)

From S2P Require Import Prelude Bytes.

Module Wire.

Definition FRAME_STOP_WAITING : Z := 2.
Definition FRAME_UNRELIABLE_DATA : Z := 3.
Definition FRAME_RELIABLE_DATA : Z := 4.
Definition FRAME_FRAGMENT_DATA : Z := 5.
Definition FRAME_DISCONNECT : Z := 6.

(** ** The writers *)

Definition write_unreliable_frame (buf : bytes) (pos buf_avail : Z)
    (channel : Z) (data : bytes) : option (Z * bytes) :=
  let needed := 1 + 1 + 2 + zlen data in
  if buf_avail <? needed then Some (-1, buf)
  else
    buf ← mwrite buf pos [FRAME_UNRELIABLE_DATA];
    buf ← mwrite buf (pos + 1) [channel];
    let len16 := u16 (zlen data) in
    buf ← mwrite buf (pos + 2) (le_bytes 2 len16);
    buf ← mwrite buf (pos + 4) data;
    Some (needed, buf).

Definition write_reliable_frame (buf : bytes) (pos buf_avail : Z)
    (channel msg_seq : Z) (data : bytes) : option (Z * bytes) :=
  let needed := 1 + 1 + 2 + 2 + zlen data in
  if buf_avail <? needed then Some (-1, buf)
  else
    buf ← mwrite buf pos [FRAME_RELIABLE_DATA];
    buf ← mwrite buf (pos + 1) [channel];
    buf ← mwrite buf (pos + 2) (le_bytes 2 msg_seq);
    let len16 := u16 (zlen data) in
    buf ← mwrite buf (pos + 4) (le_bytes 2 len16);
    buf ← mwrite buf (pos + 6) data;
    Some (needed, buf).

Definition write_fragment_frame (buf : bytes) (pos buf_avail : Z)
    (channel msg_id frag_idx frag_cnt : Z) (data : bytes) : option (Z * bytes) :=
  let needed := 1 + 1 + 2 + 1 + 1 + zlen data in
  if buf_avail <? needed then Some (-1, buf)
  else
    buf ← mwrite buf pos [FRAME_FRAGMENT_DATA];
    buf ← mwrite buf (pos + 1) [channel];
    buf ← mwrite buf (pos + 2) (le_bytes 2 msg_id);
    buf ← mwrite buf (pos + 4) [frag_idx];
    buf ← mwrite buf (pos + 5) [frag_cnt];
    buf ← mwrite buf (pos + 6) data;
    Some (needed, buf).

Definition write_disconnect_frame (buf : bytes) (pos buf_avail reason : Z)
    : option (Z * bytes) :=
  if buf_avail <? 2 then Some (-1, buf)
  else
    buf ← mwrite buf pos [FRAME_DISCONNECT];
    buf ← mwrite buf (pos + 1) [reason];
    Some (2, buf).

Definition peek_frame_type (buf : bytes) (pos avail : Z) : option Z :=
  if avail <? 1 then Some 0 else oget buf pos.

(** ** The wire grammar *)

Inductive Frame : Type :=
  | Unreliable (channel : Z) (data : bytes)
  | Reliable (channel msg_seq : Z) (data : bytes)
  | Fragment (channel msg_id frag_idx frag_cnt : Z) (data : bytes)
  | Disconnect (reason : Z).

Definition encode (f : Frame) : bytes :=
  match f with
  | Unreliable ch d => [FRAME_UNRELIABLE_DATA; ch] ++ le_bytes 2 (zlen d) ++ d
  | Reliable ch s d =>
      [FRAME_RELIABLE_DATA; ch] ++ le_bytes 2 s ++ le_bytes 2 (zlen d) ++ d
  | Fragment ch id i n d => [FRAME_FRAGMENT_DATA; ch] ++ le_bytes 2 id ++ [i; n] ++ d
  | Disconnect r => [FRAME_DISCONNECT; r]
  end.

(** The writer of each kind of frame. *)
Definition write_frame (buf : bytes) (pos avail : Z) (f : Frame) : option (Z * bytes) :=
  match f with
  | Unreliable ch d => write_unreliable_frame buf pos avail ch d
  | Reliable ch s d => write_reliable_frame buf pos avail ch s d
  | Fragment ch id i n d => write_fragment_frame buf pos avail ch id i n d
  | Disconnect r => write_disconnect_frame buf pos avail r
  end.

Lemma zlen_encode f :
  zlen (encode f) = match f with
    | Unreliable _ d => 4 + zlen d
    | Reliable _ _ d | Fragment _ _ _ _ d => 6 + zlen d
    | Disconnect _ => 2 end.
Proof. destruct f; unfold encode; zlen_simpl; simpl; lia. Qed.

Lemma u16_le_bytes z : le_bytes 2 (u16 z) = le_bytes 2 z.
Proof. apply (le_bytes_mod 2). Qed.

Ltac chain := repeat (rewrite mwrite_chain; [| lia | zlen_simpl; simpl; lia
                                               | zlen_simpl; simpl; lia]).

(** Each writer stores the encoding of its frame at the pointer when there is
    room for it, and otherwise returns -1 and leaves the buffer alone. *)
Lemma write_frame_ok buf pos avail f :
  0 <= pos -> pos + avail <= zlen buf -> zlen (encode f) <= avail ->
  write_frame buf pos avail f
  = (b ← mwrite buf pos (encode f); Some (zlen (encode f), b)).
Proof.
  intros Hp Hb Hf. rewrite zlen_encode in *.
  destruct f as [ch d|ch s d|ch id i n d|r]; simpl; try pose proof (zlen_nonneg d);
    unfold write_unreliable_frame, write_reliable_frame, write_fragment_frame,
      write_disconnect_frame; case_if; try (zlen_simpl; lia); cbv zeta; chain;
    rewrite ?u16_le_bytes; done.
Qed.
Lemma write_frame_full buf pos avail f :
  avail < zlen (encode f) -> write_frame buf pos avail f = Some (-1, buf).
Proof.
  rewrite zlen_encode. intros Hf.
  destruct f; simpl; unfold write_unreliable_frame, write_reliable_frame,
    write_fragment_frame, write_disconnect_frame; case_if; try done; lia.
Qed.

End Wire.
