(* ===== verification/PacketTracker.v ===== *)
(** Packet sequence numbers and acknowledgements
    (src/src/reliability/packet_tracker.h).

    The receiving half turns the sequence numbers it sees into an
    [ack]/[ack_bits] pair; the sending half turns such a pair back into the set
    of delivered packets.  Sequence numbers are 16 bits wide and wrap; the
    theorems number packets by unbounded integers, of which the code sees the
    low 16 bits. *)

From S2P Require Import Prelude Bytes Double.

Module PacketTracker.

Definition PACKET_WINDOW_SIZE : Z := 33.

Record AckFields : Type := mkAckFields {
  ack : Z; ack_bits : Z; ack_delay_us : Z }.
Record SentPacketRecord : Type := mkSent {
  send_time : double; sequence : Z; acked : bool }.

(** [SentPacketRecord{}]. *)
#[global] Instance sent_inhabited : Inhabited SentPacketRecord :=
  populate (mkSent d0 0 false).

Record tracker : Type := mkTracker {
  send_sequence_ : Z;
  oldest_unacked_ : Z;
  recv_ack_ : Z;
  recv_ack_bits_ : Z;
  recv_time_ : double;
  received_any_ : bool;
  sent_ : list SentPacketRecord
}.

Definition reset : tracker :=
  mkTracker 0 0 0 0 d0 false (replicate (Z.to_nat PACKET_WINDOW_SIZE) inhabitant).

Definition set_sent (t : tracker) (s : list SentPacketRecord) : tracker :=
  mkTracker (send_sequence_ t) (oldest_unacked_ t) (recv_ack_ t) (recv_ack_bits_ t)
            (recv_time_ t) (received_any_ t) s.
Definition set_recv (t : tracker) (a bits : Z) (time : double) (any : bool) : tracker :=
  mkTracker (send_sequence_ t) (oldest_unacked_ t) a bits time any (sent_ t).

(** ** Sending *)

Definition send_packet (t : tracker) (time : double) : Z * tracker :=
  let seq := send_sequence_ t in
  let idx := seq mod PACKET_WINDOW_SIZE in
  (seq, mkTracker (u16 (seq + 1)) (oldest_unacked_ t) (recv_ack_ t) (recv_ack_bits_ t)
          (recv_time_ t) (received_any_ t) (aset (sent_ t) idx (mkSent time seq false))).

Definition is_window_full (t : tracker) : bool :=
  PACKET_WINDOW_SIZE <=? u16 (send_sequence_ t - oldest_unacked_ t).

(** ** Receiving *)

Definition on_packet_received (t : tracker) (seq : Z) (time : double) : tracker :=
  if negb (received_any_ t) then set_recv t seq (recv_ack_bits_ t) time true
  else
    let diff := i16 (seq - recv_ack_ t) in
    if 0 <? diff then
      let shift := u16 diff in
      let bits := if shift <? 32
                  then Z.lor (u32 (Z.shiftl (recv_ack_bits_ t) shift))
                             (Z.shiftl 1 (shift - 1))
                  else 0 in
      set_recv t seq bits time true
    else if (diff <? 0) && (-32 <? diff) then
      let bit := - diff - 1 in
      set_recv t (recv_ack_ t) (Z.lor (recv_ack_bits_ t) (Z.shiftl 1 bit))
               (recv_time_ t) true
    else t.

Definition build_ack_fields (t : tracker) (now : double) : AckFields :=
  let delay_us :=
    if received_any_ t then
      let delay := dsub now (recv_time_ t) in
      let delay := if dlt delay d0 then d0 else delay in
      let delay_us := d_to_u32 (dmul delay (d_of_Z 1000000)) in
      if 65535 <? delay_us then 65535 else u16 delay_us
    else 0 in
  mkAckFields (recv_ack_ t) (recv_ack_bits_ t) delay_us.

(** ** Processing received acks *)

Definition mark_acked (t : tracker) (seq : Z) : bool * tracker :=
  let idx := seq mod PACKET_WINDOW_SIZE in
  let r := (sent_ t).[idx] in
  if (sequence r =? seq) && negb (acked r)
  then (true, set_sent t (aset (sent_ t) idx (mkSent (send_time r) (sequence r) true)))
  else (false, t).

Definition mark_count (s : Z * tracker) (seq : Z) : Z * tracker :=
  let '(n, t) := s in
  let '(b, t) := mark_acked t seq in
  (if b then n + 1 else n, t).

(** The body of the loop over [ack_bits]. *)
Definition ack_bit_step (fields : AckFields) (s : Z * tracker) (i : Z) : Z * tracker :=
  if bit_set (ack_bits fields) i
  then mark_count s (u16 (ack fields - u16 i - 1)) else s.

(** One turn of the loop that advances [oldest_unacked_]. *)
Definition advance_step (t : tracker) : tracker + tracker :=
  if oldest_unacked_ t =? send_sequence_ t then inr t
  else
    let r := (sent_ t).[oldest_unacked_ t mod PACKET_WINDOW_SIZE] in
    if negb (acked r) || negb (sequence r =? oldest_unacked_ t) then inr t
    else inl (mkTracker (send_sequence_ t) (u16 (oldest_unacked_ t + 1)) (recv_ack_ t)
                (recv_ack_bits_ t) (recv_time_ t) (received_any_ t) (sent_ t)).

(** The loop turns at most once per sequence number. *)
Definition advance_oldest (t : tracker) : option tracker :=
  match loop 65536 advance_step t with inr t => Some t | inl _ => None end.

Definition process_acks (t : tracker) (fields : AckFields) : option (Z * tracker) :=
  let s := mark_count (0, t) (ack fields) in
  let '(newly_acked, t) := foldl (ack_bit_step fields) s (seqZ 0 32) in
  t ← advance_oldest t;
  Some (newly_acked, t).

Definition is_acked (t : tracker) (seq : Z) : bool :=
  let r := (sent_ t).[seq mod PACKET_WINDOW_SIZE] in
  acked r && (sequence r =? seq).

Definition get_send_time (t : tracker) (seq : Z) : double :=
  let r := (sent_ t).[seq mod PACKET_WINDOW_SIZE] in
  if sequence r =? seq then send_time r else d_of_Z (-1).

(** ** Serialisation of AckFields *)

Definition write_ack_fields (f : AckFields) (buf : bytes) (pos : Z) : option (Z * bytes) :=
  buf ← mwrite buf pos (le_bytes 2 (ack f));
  buf ← mwrite buf (pos + 2) (le_bytes 4 (ack_bits f));
  buf ← mwrite buf (pos + 6) (le_bytes 2 (ack_delay_us f));
  Some (8, buf).

Definition read_ack_fields (buf : bytes) (pos : Z) : option AckFields :=
  a ← mread_u buf pos 2;
  b ← mread_u buf (pos + 2) 4;
  d ← mread_u buf (pos + 6) 2;
  Some (mkAckFields a b d).

(** * The receiving half *)

(** Arrivals are numbered by unbounded integers; each one is less than [2^15]
    away from the highest seen, which is what 16-bit wrapped numbers can tell
    apart. *)
Fixpoint near (top : Z) (l : list Z) : Prop :=
  match l with
  | [] => True
  | k :: l => - 2 ^ 15 <= k - top < 2 ^ 15 /\ near (Z.max top k) l
  end.

Definition receive_all (t : tracker) (l : list (Z * double)) : tracker :=
  foldl (fun t '(k, time) => on_packet_received t (u16 k) time) t l.

(** What the ack fields promise: bit [i] below 31 says exactly whether packet
    [top - i - 1] arrived, bit 31 only ever tells the truth. *)
Record ack_state (t : tracker) (top : Z) (seen : list Z) : Prop := {
  as_any : received_any_ t = true;
  as_ack : recv_ack_ t = u16 top;
  as_bits : 0 <= recv_ack_bits_ t < 2 ^ 32;
  as_top : forall k, k ∈ seen -> k <= top;
  as_top_in : top ∈ seen;
  as_exact : forall i, 0 <= i < 31 ->
    Z.testbit (recv_ack_bits_ t) i = true <-> top - i - 1 ∈ seen;
  as_sound : Z.testbit (recv_ack_bits_ t) 31 = true -> top - 32 ∈ seen
}.

Lemma ack_state_first t k time :
  received_any_ t = false -> recv_ack_bits_ t = 0 ->
  ack_state (on_packet_received t (u16 k) time) k [k].
Proof.
  intros Ha Hb. unfold on_packet_received. rewrite Ha. simpl. rewrite Hb.
  split; cbn [set_recv recv_ack_ recv_ack_bits_ received_any_]; try done.
  - intros j Hj. apply list_elem_of_singleton in Hj. lia.
  - by left.
  - intros i Hi. rewrite Z.bits_0. split; [done|].
    intros Hj%list_elem_of_singleton. lia.
Qed.

(** A newer packet shifts the bits by its distance and records the old [ack]. *)
Lemma shifted_bits bits shift i :
  0 <= bits -> 0 < shift < 32 -> 0 <= i < 32 ->
  Z.testbit (Z.lor (u32 (Z.shiftl bits shift)) (Z.shiftl 1 (shift - 1))) i
  = if decide (i = shift - 1) then true
    else if decide (shift <= i) then Z.testbit bits (i - shift) else false.
Proof.
  intros Hb Hs Hi. rewrite testbit_setbit_lor by lia. unfold u32.
  rewrite testbit_mod_pow2, (proj2 (Z.ltb_lt i 32)), Z.shiftl_spec by lia. simpl.
  case_decide.
  - by rewrite (proj2 (Z.eqb_eq i (shift - 1))), orb_true_r.
  - rewrite (proj2 (Z.eqb_neq i (shift - 1))), orb_false_r by lia.
    case_decide; [done|]. rewrite Z.testbit_neg_r; [done|lia].
Qed.

Lemma ack_state_newer t top seen k time :
  ack_state t top seen -> 0 < k - top < 2 ^ 15 ->
  ack_state (on_packet_received t (u16 k) time) k (k :: seen).
Proof.
  intros [Hany Hack Hbits Htop Hin Hex Hso] Hd. unfold on_packet_received.
  rewrite Hany, Hack, i16_sub_u16 by lia. simpl negb. cbv iota.
  rewrite (proj2 (Z.ltb_lt 0 (k - top))) by lia.
  rewrite (u16_small (k - top)) by (unfold is_u16; lia).
  assert (forall j, 0 <= j < 32 -> Z.testbit (recv_ack_bits_ t) j = true ->
            top - j - 1 ∈ seen) as Hsound.
  { intros j Hj Hb. destruct (decide (j = 31)) as [->|].
    - replace (top - 31 - 1) with (top - 32) by lia. by apply Hso.
    - apply Hex; [lia|done]. }
  assert (forall j, j ∈ k :: seen -> j <= k) as Hmax.
  { intros j [->|Hj]%elem_of_cons; [lia|]. apply Htop in Hj. lia. }
  destruct (decide (k - top < 32)) as [Hs|Hs].
  - rewrite (proj2 (Z.ltb_lt (k - top) 32)) by done. split; cbn [set_recv recv_ack_ recv_ack_bits_ received_any_]; try done.
    + apply lor_range; [lia|apply u32_range|]. rewrite Z.shiftl_1_l.
      split; [lia|]. apply Z.pow_lt_mono_r; lia.
    + by left.
    + intros i Hi. rewrite shifted_bits, elem_of_cons by lia. case_decide.
      { split; [intros _; right | done]. by replace (k - i - 1) with top by lia. }
      case_decide.
      * replace (k - i - 1) with (top - (i - (k - top)) - 1) by lia.
        rewrite Hex by lia. split; [by right | intros [?|?]; [lia|done]].
      * split; [done|]. intros [?|Hj]; [lia|]. apply Htop in Hj. lia.
    + rewrite shifted_bits by lia. intros Hb. right. case_decide.
      { by replace (k - 32) with top by lia. }
      case_decide; [|done]. replace (k - 32) with (top - (31 - (k - top)) - 1) by lia.
      apply Hsound; [lia|done].
  - rewrite (proj2 (Z.ltb_ge (k - top) 32)) by lia. split; cbn [set_recv recv_ack_ recv_ack_bits_ received_any_]; try done.
    + by left.
    + intros i Hi. rewrite Z.bits_0, elem_of_cons. split; [done|].
      intros [?|Hj]; [lia|]. apply Htop in Hj. lia.
Qed.

Lemma ack_state_older t top seen k time :
  ack_state t top seen -> - 2 ^ 15 <= k - top <= 0 ->
  ack_state (on_packet_received t (u16 k) time) top (k :: seen).
Proof.
  intros [Hany Hack Hbits Htop Hin Hex Hso] Hd. unfold on_packet_received.
  rewrite Hany, Hack, i16_sub_u16 by lia. simpl negb. cbv iota.
  rewrite (proj2 (Z.ltb_ge 0 (k - top))) by lia.
  assert (forall j, j ∈ k :: seen -> j <= top) as Hmax.
  { intros j [->|Hj]%elem_of_cons; [lia|]. by apply Htop. }
  case_if.
  - split; cbn [set_recv recv_ack_ recv_ack_bits_ received_any_]; try done.
    + apply lor_range; [lia|done|]. rewrite Z.shiftl_1_l.
      split; [lia|]. apply Z.pow_lt_mono_r; lia.
    + by right.
    + intros i Hi. rewrite testbit_setbit_lor by lia.
      rewrite orb_true_iff, Z.eqb_eq, elem_of_cons, Hex by lia. intuition lia.
    + rewrite testbit_setbit_lor by lia. rewrite orb_true_iff, Z.eqb_eq.
      intros [Hb|?]; [right; by apply Hso | lia].
  - apply andb_false_iff in E. rewrite !Z.ltb_ge in E. split; cbn [set_recv recv_ack_ recv_ack_bits_ received_any_]; try done.
    + by right.
    + intros i Hi. rewrite Hex, elem_of_cons by lia. split; [by right|].
      intros [Heq|?]; [|done]. assert (k = top) by lia. lia.
    + intros Hb. right. by apply Hso.
Qed.

Lemma ack_state_all t top seen l :
  ack_state t top seen -> near top (fst <$> l) ->
  ack_state (receive_all t l) (foldl Z.max top (fst <$> l)) (rev (fst <$> l) ++ seen).
Proof.
  revert t top seen. induction l as [|[k time] l IH]; intros t top seen Ht Hn; [done|].
  rewrite fmap_cons in *. cbn [fst near foldl rev] in *. destruct Hn as [Hk Hn].
  rewrite <- app_assoc. cbn [app]. cbn [receive_all foldl].
  change (foldl _ ?t l) with (receive_all t l).
  apply IH; [|done]. destruct (decide (top < k)).
  - rewrite Z.max_r by lia. apply ack_state_newer with top; [done|lia].
  - rewrite Z.max_l by lia. apply ack_state_older; [done|lia].
Qed.

(** C17.  Acknowledgement bits: after any sequence of arrivals (any order,
    duplicates, losses, wrap-around of the 16-bit numbers), each less than 2^15
    from the highest before it as the 16-bit comparison needs, the outgoing ack
    fields name the highest packet received, bits 0..30 say exactly which of the
    31 packets before it arrived, and bit 31 never reports a packet that did not
    arrive. *)
Theorem ack_fields_exact k0 t0 (l : list (Z * double)) now :
  near k0 (fst <$> l) ->
  let seen := k0 :: (fst <$> l) in
  let top := foldl Z.max k0 (fst <$> l) in
  let f := build_ack_fields (receive_all reset ((k0, t0) :: l)) now in
  ack f = u16 top /\ top ∈ seen /\ (forall k, k ∈ seen -> k <= top) /\
  (forall i, 0 <= i < 31 -> Z.testbit (ack_bits f) i = true <-> top - i - 1 ∈ seen) /\
  (Z.testbit (ack_bits f) 31 = true -> top - 32 ∈ seen).
Proof.
  intros Hn seen top f.
  pose proof (ack_state_first reset k0 t0 eq_refl eq_refl) as H0.
  pose proof (ack_state_all _ _ _ l H0 Hn) as [_ Ha _ Ht Hi He Hs].
  assert (forall k, k ∈ rev (fst <$> l) ++ [k0] <-> k ∈ seen) as Hseen.
  { intros k. unfold seen. rewrite elem_of_app, !elem_of_cons.
    rewrite !list_elem_of_In, <- in_rev. simpl. tauto. }
  split_and!.
  - exact Ha.
  - by apply Hseen.
  - intros k Hk. apply Ht. by apply Hseen.
  - intros i Hik. rewrite <- Hseen. by apply He.
  - intros Hb. apply Hseen. by apply Hs.
Qed.

Lemma ack_fields_exact_witness :
  let f := build_ack_fields
    (receive_all reset ((65534, d0) :: [(65537, d0); (65536, d0); (65530, d0)])) d0 in
  ack f = 1 /\ Z.testbit (ack_bits f) 0 = true /\
  (Z.testbit (ack_bits f) 2 = true <-> 65537 - 2 - 1 ∈ [65534; 65537; 65536; 65530]).
Proof.
  split; [by vm_compute|]. split; [by vm_compute|].
  destruct (ack_fields_exact 65534 d0 [(65537, d0); (65536, d0); (65530, d0)] d0)
    as (_ & _ & _ & He & _); [simpl; lia|]. apply He. lia.
Defined.

(** * The sending half *)

Definition wf (t : tracker) : Prop :=
  zlen (sent_ t) = PACKET_WINDOW_SIZE /\ is_u16 (send_sequence_ t) /\
  is_u16 (oldest_unacked_ t).

(** The sequence numbers an ack report names. *)
Definition reported (f : AckFields) : list Z :=
  ack f :: ((fun i => u16 (ack f - u16 i - 1))
              <$> filter (fun i => bit_set (ack_bits f) i = true) (seqZ 0 32)).

Definition recorded (t : tracker) (seq : Z) : bool :=
  sequence (sent_ t).[seq mod PACKET_WINDOW_SIZE] =? seq.
Definition count_acked (t : tracker) : Z :=
  sumZ ((fun r => if acked r then 1 else 0) <$> sent_ t).

Lemma idx_range seq : 0 <= seq mod PACKET_WINDOW_SIZE < PACKET_WINDOW_SIZE.
Proof. apply Z.mod_pos_bound. done. Qed.

Lemma sumZ_aset (l : list SentPacketRecord) (g : SentPacketRecord -> Z) i x :
  0 <= i < zlen l -> sumZ (g <$> aset l i x) = sumZ (g <$> l) - g l.[i] + g x.
Proof.
  intros Hi. unfold aset. rewrite list_fmap_insert. apply sumZ_insert.
  by rewrite list_lookup_fmap, lookup_aget.
Qed.

(** [mark_acked] acknowledges its own record and leaves the rest alone. *)
Lemma mark_acked_spec t q :
  wf t ->
  let '(b, t') := mark_acked t q in
  wf t' /\ send_sequence_ t' = send_sequence_ t /\ oldest_unacked_ t' = oldest_unacked_ t /\
  (forall seq, recorded t' seq = recorded t seq) /\
  (forall seq, get_send_time t' seq = get_send_time t seq) /\
  (forall seq, is_acked t' seq = is_acked t seq || (recorded t seq && (seq =? q))) /\
  count_acked t' = count_acked t + (if b then 1 else 0).
Proof.
  intros (Hl & Hs & Ho). unfold mark_acked. pose proof (idx_range q) as Hq.
  destruct ((sequence _ =? q) && _) eqn:E; bool_facts.
  - assert (forall i, 0 <= i < PACKET_WINDOW_SIZE ->
      let r := (sent_ t).[i] in
      (aset (sent_ t) (q mod PACKET_WINDOW_SIZE)
        (mkSent (send_time (sent_ t).[q mod PACKET_WINDOW_SIZE])
           (sequence (sent_ t).[q mod PACKET_WINDOW_SIZE]) true)).[i]
      = mkSent (send_time r) (sequence r)
          (acked r || bool_decide (i = q mod PACKET_WINDOW_SIZE))) as Hget.
    { intros i Hi. cbn zeta. rewrite aget_aset by lia. case_decide; subst.
      - by rewrite bool_decide_true, orb_true_r.
      - rewrite bool_decide_false, orb_false_r by done. by destruct (sent_ t).[i]. }
    split; [unfold wf; simpl; by rewrite zlen_aset|]. split_and!; try done.
    + intros seq. unfold recorded; simpl. by rewrite Hget by apply idx_range.
    + intros seq. unfold get_send_time; simpl. by rewrite Hget by apply idx_range.
    + intros seq. unfold is_acked, recorded; simpl. rewrite Hget by apply idx_range.
      simpl. destruct (seq =? q) eqn:Eq; bool_facts; subst.
      * rewrite bool_decide_true, orb_true_r by done. simpl.
        by destruct (sequence _ =? _), (acked _).
      * rewrite andb_false_r, orb_false_r.
        case_bool_decide as Ei; [|by rewrite orb_false_r].
        rewrite orb_true_r, Ei. rewrite (proj2 (Z.eqb_neq _ seq)) by congruence.
        by rewrite !andb_false_r.
    + unfold count_acked; simpl. rewrite sumZ_aset by lia. simpl.
      match goal with H : acked _ = false |- _ => rewrite H end. lia.
  - split_and!; try done; [|lia].
    intros seq. destruct (seq =? q) eqn:Eq; bool_facts; subst.
    + unfold is_acked, recorded in *. apply andb_false_iff in E as [E|E].
      * by rewrite E, !andb_false_r.
      * apply negb_false_iff in E. rewrite E. by destruct (sequence _ =? _).
    + by rewrite andb_false_r, orb_false_r.
Qed.

(** Marking a list of reported numbers. *)
Lemma mark_count_fold qs n t :
  wf t ->
  let '(n', t') := foldl mark_count (n, t) qs in
  wf t' /\ send_sequence_ t' = send_sequence_ t /\ oldest_unacked_ t' = oldest_unacked_ t /\
  (forall seq, recorded t' seq = recorded t seq) /\
  (forall seq, get_send_time t' seq = get_send_time t seq) /\
  (forall seq, is_acked t' seq = is_acked t seq || (recorded t seq && bool_decide (seq ∈ qs))) /\
  n' - n = count_acked t' - count_acked t.
Proof.
  revert n t. induction qs as [|q qs IH]; intros n t Ht; simpl.
  - split_and!; try done; [|lia]. intros seq.
    by rewrite andb_false_r, orb_false_r.
  - pose proof (mark_acked_spec t q Ht) as Hm. destruct (mark_acked t q) as [b t1].
    destruct Hm as (Ht1 & Hs & Ho & Hr & Hg & Ha & Hc).
    specialize (IH (if b then n + 1 else n) t1 Ht1).
    destruct (foldl _ _ qs) as [n' t'].
    destruct IH as (Ht' & Hs' & Ho' & Hr' & Hg' & Ha' & Hc').
    split_and!; try done; try congruence.
    + intros seq. rewrite Ha', Ha, Hr. destruct (seq =? q) eqn:Eq; bool_facts.
      * subst. rewrite (bool_decide_true (q ∈ q :: qs)) by left.
        by destruct (is_acked t q), (recorded t q), (bool_decide (q ∈ qs)).
      * rewrite andb_false_r, orb_false_r. do 2 f_equal. apply bool_decide_ext.
        rewrite elem_of_cons. tauto.
    + destruct b; lia.
Qed.

(** The ack field and the loop over [ack_bits] mark the reported numbers. *)
Lemma ack_bits_fold f s idxs :
  foldl (ack_bit_step f) s idxs
  = foldl mark_count s ((fun i => u16 (ack f - u16 i - 1))
                          <$> filter (fun i => bit_set (ack_bits f) i = true) idxs).
Proof.
  revert s. induction idxs as [|i idxs IH]; intros s; [done|].
  cbn [foldl]. unfold ack_bit_step at 2. rewrite filter_cons.
  destruct (bit_set (ack_bits f) i); simpl; by rewrite IH.
Qed.

(** The loop that advances [oldest_unacked_] stops at the first packet that is
    not acknowledged, or at the next one to send. *)
Lemma advance_oldest_spec t :
  wf t -> exists t' j, advance_oldest t = Some t' /\ wf t' /\
    sent_ t' = sent_ t /\ send_sequence_ t' = send_sequence_ t /\
    0 <= j <= u16 (send_sequence_ t - oldest_unacked_ t) /\
    oldest_unacked_ t' = u16 (oldest_unacked_ t + j) /\
    (forall i, 0 <= i < j -> is_acked t (u16 (oldest_unacked_ t + i)) = true) /\
    (oldest_unacked_ t' = send_sequence_ t \/ is_acked t (oldest_unacked_ t') = false).
Proof.
  intros Ht. set (d := u16 (send_sequence_ t - oldest_unacked_ t)).
  pose (I := fun (m : Z) (x : tracker) => wf x /\ sent_ x = sent_ t /\
    send_sequence_ x = send_sequence_ t /\ 0 <= m <= d /\
    oldest_unacked_ x = u16 (oldest_unacked_ t + (d - m)) /\
    (forall i, 0 <= i < d - m -> is_acked t (u16 (oldest_unacked_ t + i)) = true)).
  assert (0 <= d < 2 ^ 16) as Hd by apply u16_range.
  destruct (loop_done advance_step I (fun x => exists m, I m x /\
    (oldest_unacked_ x = send_sequence_ t \/ is_acked t (oldest_unacked_ x) = false))
    65536 d t) as (x & Hx & m & (Hw & Hse & Hs & Hm & Ho & Ha) & Hex).
  - intros m x (_ & _ & _ & ? & _). lia.
  - intros m x x' (Hw & Hse & Hs & Hm & Ho & Ha). unfold advance_step.
    case_if; [done|]. case_if; [done|]. intros [= <-]. exists (m - 1).
    assert (m <> 0) as Hm0.
    { intros ->. apply E. rewrite Ho, Hs. unfold d, u16 in *.
      destruct Ht as (_ & Hts & Hto). unfold is_u16 in *. mlia. }
    split; [lia|]. destruct Hw as (? & ? & ?). unfold I. simpl.
    split_and!; try done; try lia.
    + split_and!; try done. apply u16_range.
    + rewrite Ho, u16_succ. f_equal. lia.
    + intros i Hi. destruct (decide (i = d - m)) as [->|]; [|apply Ha; lia].
      rewrite <- Ho. unfold is_acked. rewrite <- Hse. by rewrite H, H0, Z.eqb_refl.
  - intros m x r HI. pose proof HI as (Hw & Hse & Hs & Hm & Ho & Ha). unfold advance_step.
    case_if; [intros [= <-]; exists m; split; [done|left; lia]|].
    destruct (negb _ || _) eqn:E2; [|done]. intros [= <-]. exists m. split; [done|right].
    unfold is_acked. rewrite <- Hse.
    destruct (acked _), (sequence _ =? _); simpl in *; done.
  - unfold I. split_and!; try done; try lia; intros; try lia.
    destruct Ht as (_ & _ & Hto). unfold u16, is_u16 in *. mlia.
  - lia.
  - exists x, (d - m). unfold advance_oldest. rewrite Hx.
    split_and!; try done; try lia; apply Hw.
Qed.

Lemma process_acks_ok t f :
  wf t -> exists n t', process_acks t f = Some (n, t') /\ wf t' /\
  send_sequence_ t' = send_sequence_ t /\
  (forall seq, recorded t' seq = recorded t seq) /\
  (forall seq, get_send_time t' seq = get_send_time t seq) /\
  (forall seq, is_acked t' seq
     = is_acked t seq || (recorded t seq && bool_decide (seq ∈ reported f))) /\
  n = count_acked t' - count_acked t /\
  exists j, 0 <= j <= u16 (send_sequence_ t - oldest_unacked_ t) /\
    oldest_unacked_ t' = u16 (oldest_unacked_ t + j) /\
    (forall i, 0 <= i < j -> is_acked t' (u16 (oldest_unacked_ t + i)) = true) /\
    (oldest_unacked_ t' = send_sequence_ t \/ is_acked t' (oldest_unacked_ t') = false).
Proof.
  intros Ht. unfold process_acks. rewrite ack_bits_fold.
  change (foldl mark_count (mark_count (0, t) (ack f)) ?l)
    with (foldl mark_count (0, t) (ack f :: l)).
  change (ack f :: _) with (reported f).
  pose proof (mark_count_fold (reported f) 0 t Ht) as Hm.
  destruct (foldl mark_count (0, t) (reported f)) as [n t1].
  destruct Hm as (Ht1 & Hs & Ho & Hr & Hg & Ha & Hc).
  destruct (advance_oldest_spec t1 Ht1)
    as (t' & j & -> & Ht' & Hse & Hs' & Hj & Ho' & Hall & Hex).
  assert (forall seq, is_acked t' seq = is_acked t1 seq) as Hia
    by (intros; unfold is_acked; by rewrite Hse).
  exists n, t'. rewrite Hs, Ho in *. split_and!; try done; try congruence.
  - intros seq. rewrite <- Hr. unfold recorded. by rewrite Hse.
  - intros seq. rewrite <- Hg. unfold get_send_time. by rewrite Hse.
  - unfold count_acked in *. rewrite Hse. lia.
  - exists j. split_and!; try done; try lia.
    + intros i Hi. rewrite Hia. by apply Hall.
    + destruct Hex as [Hex|Hex]; [by left | right; by rewrite Hia].
Qed.

(** [process_acks] marks exactly the recorded packets the report names,
    counts each newly acknowledged packet once, and moves [oldest_unacked_]
    forward over acknowledged packets only, to the first one that is not (the
    loop terminates: at most one turn per outstanding number). *)
Theorem process_acks_exact t f :
  wf t -> exists n t', process_acks t f = Some (n, t') /\ wf t' /\
  (forall seq, is_acked t' seq
     = is_acked t seq || (recorded t seq && bool_decide (seq ∈ reported f))) /\
  n = count_acked t' - count_acked t /\
  exists j, 0 <= j <= u16 (send_sequence_ t - oldest_unacked_ t) /\
    oldest_unacked_ t' = u16 (oldest_unacked_ t + j) /\
    (forall i, 0 <= i < j -> is_acked t' (u16 (oldest_unacked_ t + i)) = true) /\
    (oldest_unacked_ t' = send_sequence_ t \/ is_acked t' (oldest_unacked_ t') = false).
Proof.
  intros Ht. destruct (process_acks_ok t f Ht)
    as (n & t' & -> & Ht' & _ & _ & _ & Ha & Hn & Hj). exists n, t'. by split_and!.
Qed.

(** ** Traces of the sender *)

Inductive event : Type := Send (time : double) | Acks (f : AckFields).

Definition step (t : tracker) (e : event) : option tracker :=
  match e with
  | Send time => Some (snd (send_packet t time))
  | Acks f => r ← process_acks t f; Some (snd r)
  end.
Fixpoint run (t : tracker) (es : list event) : option tracker :=
  match es with [] => Some t | e :: es => t' ← step t e; run t' es end.

(** The log an ideal sender keeps: packet [k] is entry [k], with its send time
    and whether a report named it since it was sent. *)
Definition log_step (log : list (double * bool)) (e : event) : list (double * bool) :=
  match e with
  | Send time => log ++ [(time, false)]
  | Acks f => imap (fun k '(time, a) =>
      (time, a || bool_decide (u16 (Z.of_nat k) ∈ reported f))) log
  end.

(** The window holds the newest 31 packets of the log.  Across the wrap from
    65535 to 0 the slot index [seq % 33] jumps by two, which is why it is 31
    and not 33: see [wrap_loses_record]. *)
Definition SAFE_WINDOW : Z := 31.

Definition tracks (t : tracker) (log : list (double * bool)) : Prop :=
  wf t /\ send_sequence_ t = u16 (zlen log) /\
  forall k time a, zlen log - SAFE_WINDOW <= Z.of_nat k -> log !! k = Some (time, a) ->
    (sent_ t).[u16 (Z.of_nat k) mod PACKET_WINDOW_SIZE]
    = mkSent time (u16 (Z.of_nat k)) a.

Lemma slot_distinct k d :
  0 < d < SAFE_WINDOW ->
  u16 k mod PACKET_WINDOW_SIZE <> u16 (k + d) mod PACKET_WINDOW_SIZE.
Proof.
  unfold SAFE_WINDOW, PACKET_WINDOW_SIZE, u16. intros Hd E.
  assert ((k + d) / 2 ^ 16 = k / 2 ^ 16 \/ (k + d) / 2 ^ 16 = k / 2 ^ 16 + 1)
    as [Hq|Hq] by mlia; mlia.
Qed.

Lemma tracks_lookup t log k time a :
  tracks t log -> zlen log - SAFE_WINDOW <= Z.of_nat k -> log !! k = Some (time, a) ->
  recorded t (u16 (Z.of_nat k)) = true /\ is_acked t (u16 (Z.of_nat k)) = a /\
  get_send_time t (u16 (Z.of_nat k)) = time.
Proof.
  intros (_ & _ & Ht) Hk Hl. specialize (Ht k time a Hk Hl).
  unfold recorded, is_acked, get_send_time. rewrite Ht. simpl.
  by rewrite Z.eqb_refl, andb_true_r.
Qed.

Lemma tracks_send t log time :
  tracks t log -> tracks (snd (send_packet t time)) (log ++ [(time, false)]).
Proof.
  intros ((Hl & Hs & Ho) & Hseq & Ht). unfold send_packet. split; [|split].
  - unfold wf. cbn. rewrite zlen_aset. split_and!; try done; apply u16_range.
  - cbn. rewrite Hseq, u16_succ. zlen_simpl. f_equal.
  - intros k tm a Hk Hlk. cbn. rewrite Hseq. zlen_simpl.
    pose proof (idx_range (u16 (zlen log))).
    apply lookup_app_Some in Hlk as [Hlk|[Hge Hlk]].
    + pose proof (lookup_lt_Some _ _ _ Hlk) as Hlt.
      rewrite aget_aset_ne; [apply Ht; [lia|done] | lia | apply idx_range |].
      replace (zlen log) with (Z.of_nat k + (zlen log - Z.of_nat k)) by lia.
      apply not_eq_sym, slot_distinct. unfold zlen, SAFE_WINDOW in *. lia.
    + apply list_lookup_singleton_Some in Hlk as [Hk0 [= <- <-]].
      replace (Z.of_nat k) with (zlen log) by (unfold zlen; lia).
      by rewrite aget_aset_eq by (rewrite Hl; apply idx_range).
Qed.

Lemma record_eq t seq time a :
  recorded t seq = true -> is_acked t seq = a -> get_send_time t seq = time ->
  (sent_ t).[seq mod PACKET_WINDOW_SIZE] = mkSent time seq a.
Proof.
  unfold recorded, is_acked, get_send_time. intros Hr. rewrite Hr, andb_true_r.
  apply Z.eqb_eq in Hr. destruct (sent_ t).[seq mod _]; simpl in *. by intros <- <-; subst.
Qed.

Lemma tracks_acks t log f :
  tracks t log -> exists n t', process_acks t f = Some (n, t') /\
    tracks t' (log_step log (Acks f)).
Proof.
  intros Ht. pose proof Ht as (Hw & Hseq & _).
  destruct (process_acks_ok t f Hw) as (n & t' & E & Hw' & Hs & Hr & Hg & Ha & _).
  exists n, t'. split; [done|]. split; [done|]. cbn [log_step].
  assert (forall g : nat -> double * bool -> double * bool, zlen (imap g log) = zlen log)
    as Hlen by (intros; unfold zlen; by rewrite length_imap).
  rewrite !Hlen. split; [congruence|]. intros k time a Hk Hl.
  rewrite list_lookup_imap in Hl.
  destruct (log !! k) as [[tm a0]|] eqn:Ek; simplify_eq/=.
  destruct (tracks_lookup t log k time a0 Ht Hk Ek) as (Hr0 & Ha0 & Ht0).
  apply record_eq; [by rewrite Hr | | by rewrite Hg]. by rewrite Ha, Ha0, Hr0.
Qed.

Lemma tracks_run t log es :
  tracks t log -> exists t', run t es = Some t' /\ tracks t' (foldl log_step log es).
Proof.
  revert t log. induction es as [|[time|f] es IH]; intros t log Ht; cbn [run step].
  - by exists t.
  - apply IH. by apply tracks_send.
  - destruct (tracks_acks t log f Ht) as (n & t' & -> & Ht'). simpl. by apply IH.
Qed.

Lemma tracks_reset : tracks reset [].
Proof. by split_and!. Qed.

(** C34.  The sender's ring of 33 records refines an unbounded log: after any
    sequence of sends and ack reports, each of the newest 31 packets is known as
    acknowledged exactly when some report named it after it was sent, and its
    send time (for the RTT) is the one recorded; also across 16-bit wrap-around. *)
Theorem tracker_refines_log es k time a :
  let log := foldl log_step [] es in
  zlen log - SAFE_WINDOW <= Z.of_nat k -> log !! k = Some (time, a) ->
  exists t, run reset es = Some t /\ send_sequence_ t = u16 (zlen log) /\
    is_acked t (u16 (Z.of_nat k)) = a /\ get_send_time t (u16 (Z.of_nat k)) = time.
Proof.
  intros log Hk Hl. destruct (tracks_run reset [] es tracks_reset) as (t & Hr & Ht).
  exists t. destruct (tracks_lookup t log k time a Ht Hk Hl) as (_ & Ha & Htm).
  destruct Ht as (_ & Hs & _). by split_and!.
Qed.

Definition ev_example : list event :=
  [Send d0; Send (d_of_Z 1); Acks (mkAckFields 1 0 0); Send (d_of_Z 2)].
Lemma tracker_refines_log_witness :
  exists t, run reset ev_example = Some t /\ is_acked t (u16 (Z.of_nat 1)) = true /\
    get_send_time t (u16 (Z.of_nat 1)) = d_of_Z 1.
Proof.
  destruct (tracker_refines_log ev_example 1 (d_of_Z 1) true) as (t & ? & _ & ? & ?);
    [by vm_compute | by vm_compute | by exists t].
Defined.

Lemma process_acks_exact_witness :
  wf (snd (send_packet reset d0)) /\
  exists n t', process_acks (snd (send_packet reset d0)) (mkAckFields 0 0 0) = Some (n, t') /\
    is_acked t' 0 = true.
Proof.
  split; [by vm_compute|].
  destruct (process_acks_exact (snd (send_packet reset d0)) (mkAckFields 0 0 0))
    as (n & t' & E & _ & Ha & _); [by vm_compute|].
  exists n, t'. split; [done|]. rewrite Ha. by vm_compute.
Defined.

(** 33 does not divide [2^16]: across the wrap a record is overwritten two packets
    early.  With numbers 65505..65535 and 0 outstanding (32 packets, the window is
    not reported full) the report of 65505 is ignored and [oldest_unacked_] stays
    behind it. *)
Definition before_wrap : tracker :=
  mkTracker 65505 65505 0 0 d0 false (sent_ reset).
Definition after_wrap : tracker :=
  Nat.iter 32 (fun t => snd (send_packet t d0)) before_wrap.
Lemma wrap_loses_record :
  is_window_full after_wrap = false /\
  exists t', process_acks after_wrap (mkAckFields 65505 0 0) = Some (0, t') /\
    is_acked t' 65505 = false /\ oldest_unacked_ t' = 65505.
Proof. split; [by vm_compute|]. eexists. split; [by vm_compute|]. by vm_compute. Qed.

(** ** Ack fields on the wire *)

(** The eight bytes [write_ack_fields] stores read back as the same ack
    fields; both stay inside any buffer with eight bytes left, and nothing
    outside those eight bytes changes. *)
Theorem ack_fields_roundtrip f buf pos :
  is_u16 (ack f) -> is_u32 (ack_bits f) -> is_u16 (ack_delay_us f) ->
  0 <= pos -> pos + 8 <= zlen buf ->
  exists buf', write_ack_fields f buf pos = Some (8, buf') /\
    read_ack_fields buf' pos = Some f /\ zlen buf' = zlen buf /\
    forall i, 0 <= i < zlen buf -> i < pos \/ pos + 8 <= i -> buf'.[i] = buf.[i].
Proof.
  intros Ha Hb Hd Hp Hl. unfold write_ack_fields.
  rewrite !mwrite_chain by (zlen_simpl; simpl; lia).
  set (d := (_ ++ _) ++ _).
  assert (zlen d = 8) as Hd8 by (unfold d; zlen_simpl; lia).
  rewrite mwrite_Some by lia. eexists. split; [done|].
  set (a := take (Z.to_nat pos) buf). set (c := drop _ buf).
  assert (zlen a = pos) as Hza by (unfold a, zlen in *; rewrite length_take; lia).
  unfold read_ack_fields, mread_u. unfold d. rewrite <- !app_assoc.
  rewrite (mread_at _ pos 2 a (le_bytes 2 (ack f)) _ eq_refl) by (zlen_simpl; lia).
  rewrite (mread_at _ (pos + 2) 4 (a ++ le_bytes 2 (ack f)) (le_bytes 4 (ack_bits f))
    (le_bytes 2 (ack_delay_us f) ++ c)) by first [by rewrite <- !app_assoc | zlen_simpl; lia].
  rewrite (mread_at _ (pos + 6) 2 (a ++ le_bytes 2 (ack f) ++ le_bytes 4 (ack_bits f))
    (le_bytes 2 (ack_delay_us f)) c) by first [by rewrite <- !app_assoc | zlen_simpl; lia].
  cbn [fmap option_fmap option_map mbind option_bind]. rewrite !le_value_bytes_small by done. split_and!.
  - by destruct f.
  - zlen_simpl. unfold c, zlen in *. rewrite length_drop. lia.
  - intros i Hi Hout.
    rewrite (mwrite_lookup buf pos d) by first [by rewrite mwrite_Some by lia | lia].
    case_if; [lia|done].
Qed.

Lemma ack_fields_roundtrip_witness :
  exists buf', write_ack_fields (mkAckFields 65535 3 17) (replicate 10 0) 1 = Some (8, buf') /\
    read_ack_fields buf' 1 = Some (mkAckFields 65535 3 17).
Proof.
  destruct (ack_fields_roundtrip (mkAckFields 65535 3 17) (replicate 10 0) 1)
    as (b & ? & ? & _); [by vm_compute .. | by exists b].
Defined.

End PacketTracker.
