(* ===== verification/ReliableChannel.v ===== *)
(** Reliable channels (src/src/reliability/reliable_channel.h).

    [ReliableChannelState] keeps the messages sent and not yet acknowledged, and
    the messages received ahead of their turn.  A [data]/[data_len] pair of the
    code is the list of its first [data_len] bytes.  Messages are numbered by
    unbounded integers in the theorems; the code sees the low 16 bits. *)

From S2P Require Import Prelude Double.

Module Reliable.

Definition RELIABLE_BUFFER_SIZE : Z := 64.
Definition MAX_RETRIES : Z := 10.

Record SentMessage : Type := mkSent {
  s_sequence : Z;
  s_packet_sequence : Z;
  s_send_time : double;
  s_retry_count : Z;
  s_data : bytes;
  s_acked : bool;
  s_valid : bool
}.
Record ReceivedMessage : Type := mkRecv {
  r_sequence : Z;
  r_data : bytes;
  r_valid : bool
}.
#[global] Instance sent_message_inhabited : Inhabited SentMessage :=
  populate (mkSent 0 0 d0 0 [] false false).
#[global] Instance received_message_inhabited : Inhabited ReceivedMessage :=
  populate (mkRecv 0 [] false).

Record state : Type := mkState {
  send_seq : Z;
  recv_seq : Z;
  oldest_unacked : Z;
  sent_buffer_ : list SentMessage;
  recv_buffer_ : list ReceivedMessage;
  messages_dropped_ : Z
}.

Definition reset : state :=
  mkState 0 0 0 (replicate (Z.to_nat RELIABLE_BUFFER_SIZE) inhabitant)
          (replicate (Z.to_nat RELIABLE_BUFFER_SIZE) inhabitant) 0.

Definition set_sent (st : state) (b : list SentMessage) : state :=
  mkState (send_seq st) (recv_seq st) (oldest_unacked st) b (recv_buffer_ st)
          (messages_dropped_ st).
Definition set_recv (st : state) (q : Z) (b : list ReceivedMessage) : state :=
  mkState (send_seq st) q (oldest_unacked st) (sent_buffer_ st) b (messages_dropped_ st).

(** ** Sending *)

Definition record_send (st : state) (data : bytes) (packet_seq : Z) (time : double)
    : bool * state :=
  if (zlen data <=? 0) || (1200 <? zlen data) then (false, st)
  else
    let idx := send_seq st mod RELIABLE_BUFFER_SIZE in
    let msg := mkSent (send_seq st) packet_seq time 0 data false true in
    (true, mkState (u16 (send_seq st + 1)) (recv_seq st) (oldest_unacked st)
             (aset (sent_buffer_ st) idx msg) (recv_buffer_ st) (messages_dropped_ st)).

Definition with_acked (m : SentMessage) (b : bool) : SentMessage :=
  mkSent (s_sequence m) (s_packet_sequence m) (s_send_time m) (s_retry_count m)
         (s_data m) b (s_valid m).
Definition with_valid (m : SentMessage) (b : bool) : SentMessage :=
  mkSent (s_sequence m) (s_packet_sequence m) (s_send_time m) (s_retry_count m)
         (s_data m) (s_acked m) b.

(** One turn of the loop that advances [oldest_unacked]. *)
Definition advance_step (st : state) : state + state :=
  if oldest_unacked st =? send_seq st then inr st
  else
    let oidx := oldest_unacked st mod RELIABLE_BUFFER_SIZE in
    let m := (sent_buffer_ st).[oidx] in
    if negb (s_acked m) || negb (s_sequence m =? oldest_unacked st) then inr st
    else inl (mkState (send_seq st) (recv_seq st) (u16 (oldest_unacked st + 1))
                (aset (sent_buffer_ st) oidx (with_valid m false)) (recv_buffer_ st)
                (messages_dropped_ st)).

Definition mark_acked (st : state) (msg_seq : Z) : option state :=
  let idx := msg_seq mod RELIABLE_BUFFER_SIZE in
  let m := (sent_buffer_ st).[idx] in
  let st := if s_valid m && (s_sequence m =? msg_seq)
            then set_sent st (aset (sent_buffer_ st) idx (with_acked m true)) else st in
  match loop 65536 advance_step st with inr st => Some st | inl _ => None end.

Definition get_for_retransmit (st : state) (msg_seq : Z) : option SentMessage :=
  let msg := (sent_buffer_ st).[msg_seq mod RELIABLE_BUFFER_SIZE] in
  if s_valid msg && (s_sequence msg =? msg_seq) && negb (s_acked msg)
  then Some msg else None.

(** [now - send_time >= rto * (1 << min(retry_count, 5))]. *)
Definition timed_out (now rto : double) (m : SentMessage) : bool :=
  let effective_rto := dmul rto (d_of_Z (Z.shiftl 1 (Z.min (s_retry_count m) 5))) in
  dge (dsub now (s_send_time m)) effective_rto.

Record scan : Type := mkScan { sc_seq : Z; sc_out : list Z; sc_st : state }.

(** One turn of the [for] loop of [find_retransmits]; [sc_out] is [out_seqs]. *)
Definition retransmit_step (now rto : double) (max_count : Z) (s : scan) : scan + scan :=
  let seq := sc_seq s in let st := sc_st s in
  if (seq =? send_seq st) || (max_count <=? zlen (sc_out s)) then inr s
  else
    let idx := seq mod RELIABLE_BUFFER_SIZE in
    let msg := (sent_buffer_ st).[idx] in
    let next := u16 (seq + 1) in
    if negb (s_valid msg) || negb (s_sequence msg =? seq) || s_acked msg
    then inl (mkScan next (sc_out s) st)
    else if timed_out now rto msg then
      if MAX_RETRIES <=? s_retry_count msg
      then inl (mkScan next (sc_out s)
             (mkState (send_seq st) (recv_seq st) (oldest_unacked st)
                (aset (sent_buffer_ st) idx (with_valid msg false)) (recv_buffer_ st)
                (u32 (messages_dropped_ st + 1))))
      else inl (mkScan next (sc_out s ++ [seq]) st)
    else inl (mkScan next (sc_out s) st).

Definition find_retransmits (st : state) (now rto : double) (max_count : Z)
    : option (list Z * state) :=
  match loop 65536 (retransmit_step now rto max_count)
          (mkScan (oldest_unacked st) [] st) with
  | inr s => Some (sc_out s, sc_st s)
  | inl _ => None
  end.

(** ** Receiving, ordered *)

Definition buffer_received_ordered (st : state) (msg_seq : Z) (data : bytes)
    : bool * state :=
  let diff := i16 (msg_seq - recv_seq st) in
  if diff <? 0 then (false, st)
  else if RELIABLE_BUFFER_SIZE <=? diff then (false, st)
  else
    let idx := msg_seq mod RELIABLE_BUFFER_SIZE in
    let r := (recv_buffer_ st).[idx] in
    if r_valid r && (r_sequence r =? msg_seq) then (false, st)
    else
      let data_len := Z.min (zlen data) 1200 in
      (true, set_recv st (recv_seq st)
               (aset (recv_buffer_ st) idx
                  (mkRecv msg_seq (take (Z.to_nat data_len) data) true))).

Section Deliver.
Context {S : Type} (callback : S -> bytes -> Z -> S).

(** One turn of [while (true)]: the callback threads its own state. *)
Definition deliver_step (s : S * Z * state) : (S * Z * state) + (S * Z * state) :=
  let '(c, delivered, st) := s in
  let idx := recv_seq st mod RELIABLE_BUFFER_SIZE in
  let r := (recv_buffer_ st).[idx] in
  if negb (r_valid r) || negb (r_sequence r =? recv_seq st) then inr s
  else inl (callback c (r_data r) (recv_seq st), delivered + 1,
            set_recv st (u16 (recv_seq st + 1))
              (aset (recv_buffer_ st) idx (mkRecv (r_sequence r) (r_data r) false))).

(** Each turn clears one of the 64 slots. *)
Definition deliver_ordered (c : S) (st : state) : option (S * Z * state) :=
  match loop 65 deliver_step (c, 0, st) with inr s => Some s | inl _ => None end.
End Deliver.

(** ** Receiving, unordered *)

Definition is_received_unordered (st : state) (msg_seq : Z) : bool :=
  let r := (recv_buffer_ st).[msg_seq mod RELIABLE_BUFFER_SIZE] in
  r_valid r && (r_sequence r =? msg_seq).

Definition mark_received_unordered (st : state) (msg_seq : Z) : state :=
  let idx := msg_seq mod RELIABLE_BUFFER_SIZE in
  let r := (recv_buffer_ st).[idx] in
  set_recv st (recv_seq st) (aset (recv_buffer_ st) idx (mkRecv msg_seq (r_data r) true)).

(** * Ordered delivery *)

Lemma idx64_range k : 0 <= k mod RELIABLE_BUFFER_SIZE < RELIABLE_BUFFER_SIZE.
Proof. by apply Z.mod_pos_bound. Qed.
(** 64 divides [2^16]: the slot of a wrapped number is the slot of the number. *)
Lemma u16_mod64 k : u16 k mod RELIABLE_BUFFER_SIZE = k mod RELIABLE_BUFFER_SIZE.
Proof. unfold u16, RELIABLE_BUFFER_SIZE. mlia. Qed.
Lemma mod64_inj k j :
  k mod RELIABLE_BUFFER_SIZE = j mod RELIABLE_BUFFER_SIZE -> Z.abs (k - j) < 64 -> k = j.
Proof. unfold RELIABLE_BUFFER_SIZE. mlia. Qed.

Section Ordered.
(** [msg k] is the [k]-th message of the sender. *)
Context (msg : Z -> bytes) (Hmsg : forall k, zlen (msg k) <= 1200).
Implicit Types (st : state) (R k : Z).

Definition slot st k : ReceivedMessage := (recv_buffer_ st).[k mod RELIABLE_BUFFER_SIZE].

(** The receive window starts at [R]; a valid slot holds the message of the
    window that belongs there. *)
Definition window st R : Prop :=
  recv_seq st = u16 R /\ zlen (recv_buffer_ st) = RELIABLE_BUFFER_SIZE /\
  forall k, R <= k < R + 64 -> r_valid (slot st k) = true ->
    r_sequence (slot st k) = u16 k /\ r_data (slot st k) = msg k.

Lemma rslot_aset st q k j r :
  zlen (recv_buffer_ st) = RELIABLE_BUFFER_SIZE ->
  slot (set_recv st q (aset (recv_buffer_ st) (k mod RELIABLE_BUFFER_SIZE) r)) j
  = if decide (k mod RELIABLE_BUFFER_SIZE = j mod RELIABLE_BUFFER_SIZE)
    then r else slot st j.
Proof.
  intros Hl. unfold slot, set_recv; cbn [recv_buffer_].
  pose proof (idx64_range k). pose proof (idx64_range j).
  rewrite aget_aset by lia. done.
Qed.

Definition in_window R k : Prop := R <= k < R + 64.

(** Buffering: accepted exactly when the message is in the window and not there
    yet; afterwards it is there, and nothing else changed. *)
Lemma buffer_spec st R k :
  window st R -> - 2 ^ 15 <= k - R < 2 ^ 15 ->
  let '(b, st') := buffer_received_ordered st (u16 k) (msg k) in
  window st' R /\
  (b = false -> st' = st /\ (k < R \/ R + 64 <= k \/ r_valid (slot st k) = true)) /\
  (b = true -> in_window R k /\ r_valid (slot st' k) = true /\
     forall j, in_window R j -> j <> k -> slot st' j = slot st j).
Proof.
  intros Hwin Hk. pose proof Hwin as (Hr & Hl & Hw). unfold buffer_received_ordered.
  rewrite Hr, i16_sub_u16 by done. unfold RELIABLE_BUFFER_SIZE at 1.
  case_if; [split; [done|split; [intros _; split; [done|lia]|done]]|].
  case_if; [split; [done|split; [intros _; split; [done|lia]|done]]|].
  rewrite u16_mod64. change (recv_buffer_ st).[k mod _] with (slot st k).
  destruct (r_valid (slot st k)) eqn:Hv.
  - destruct (Hw k ltac:(lia) Hv) as [-> _]. rewrite Z.eqb_refl.
    split; [done|]. split; [intros _; split; [done|lia]|done].
  - cbn [andb]. split; [|split; [done|intros _]].
    + split; [done|]. split; [cbn; by rewrite zlen_aset|]. intros j Hj.
      rewrite rslot_aset by done. case_decide as E1; [|by apply Hw]. intros _. cbn.
      apply mod64_inj in E1 as <-; [|lia]. split; [done|].
      rewrite take_ge; [done|]. pose proof (Hmsg k). unfold zlen in *. lia.
    + split; [unfold in_window; lia|]. split.
      * rewrite rslot_aset by done. by rewrite decide_True.
      * intros j Hj Hne. rewrite rslot_aset by done. rewrite decide_False; [done|].
        intros E1%mod64_inj; [done|]. unfold in_window in *. lia.
Qed.

Definition count_valid st : Z :=
  sumZ ((fun r => if r_valid r then 1 else 0) <$> recv_buffer_ st).
Lemma count_valid_range st :
  zlen (recv_buffer_ st) = RELIABLE_BUFFER_SIZE -> 0 <= count_valid st <= 64.
Proof.
  intros Hl. unfold count_valid. split.
  - apply sumZ_nonneg, Forall_fmap, Forall_true. intros x. simpl. destruct (r_valid x); lia.
  - replace 64 with (1 * zlen ((fun r => if r_valid r then 1 else 0) <$> recv_buffer_ st))
      by (unfold zlen in *; rewrite length_fmap; unfold RELIABLE_BUFFER_SIZE in *; lia).
    apply sumZ_bound, Forall_fmap, Forall_true. intros x. simpl. destruct (r_valid x); lia.
Qed.

(** The delivery callback used by the theorems: append message and number. *)
Definition collect (out : list (bytes * Z)) (d : bytes) (seq : Z) : list (bytes * Z) :=
  out ++ [(d, seq)].
Definition messages (a n : Z) : list (bytes * Z) := (fun k => (msg k, u16 k)) <$> seqZ a n.

Lemma deliver_one st R :
  window st R -> r_valid (slot st R) = true ->
  let st' := set_recv st (u16 (recv_seq st + 1))
    (aset (recv_buffer_ st) (recv_seq st mod RELIABLE_BUFFER_SIZE)
       (mkRecv (r_sequence (slot st R)) (r_data (slot st R)) false)) in
  window st' (R + 1) /\ count_valid st' = count_valid st - 1 /\
  forall k, in_window (R + 1) k ->
    r_valid (slot st' k) = if decide (k = R + 64) then false else r_valid (slot st k).
Proof.
  intros (Hr & Hl & Hw) Hv st'. unfold st'. rewrite Hr, u16_mod64, u16_succ.
  split_and!.
  - split; [done|]. split; [cbn; by rewrite zlen_aset|].
    intros k Hk. rewrite rslot_aset by done. case_decide; [done|].
    intros Hvk. apply Hw; [|done].
    destruct (decide (k = R + 64)) as [->|]; [|lia]. exfalso.
    apply H. unfold RELIABLE_BUFFER_SIZE. mlia.
  - unfold count_valid, set_recv; cbn [recv_buffer_]. unfold aset.
    rewrite list_fmap_insert. erewrite sumZ_insert.
    2:{ rewrite list_lookup_fmap, lookup_aget; [done|]. rewrite Hl. apply idx64_range. }
    change (recv_buffer_ st).[R mod _] with (slot st R). rewrite Hv. cbn. lia.
  - intros k Hk. rewrite rslot_aset by done. unfold in_window in *. case_decide as E.
    + rewrite decide_True; [done|]. revert E. unfold RELIABLE_BUFFER_SIZE. mlia.
    + rewrite decide_False; [done|]. intros ->. apply E.
      unfold RELIABLE_BUFFER_SIZE. mlia.
Qed.

(** Delivery hands over messages [R..R'-1] in order and stops at the first gap. *)
Lemma deliver_spec st R out :
  window st R -> exists R' st', deliver_ordered collect out st
    = Some (out ++ messages R (R' - R), R' - R, st') /\
  R <= R' /\ window st' R' /\ r_valid (slot st' R') = false /\
  (forall k, R <= k < R' -> in_window R k -> r_valid (slot st k) = true) /\
  (forall k, in_window R k -> R' <= k -> r_valid (slot st' k) = r_valid (slot st k)).
Proof.
  intros Hwin.
  pose (I := fun (m : Z) (s : list (bytes * Z) * Z * state) => exists R',
    s.1.1 = out ++ messages R (R' - R) /\ s.1.2 = R' - R /\ R <= R' /\ window s.2 R' /\
    m = count_valid s.2 /\
    (forall k, R <= k < R' -> in_window R k -> r_valid (slot st k) = true) /\
    (forall k, in_window R k -> R' <= k -> r_valid (slot s.2 k) = r_valid (slot st k))).
  destruct (loop_done (deliver_step collect) I (fun s => exists m, I m s /\
     exists R', s.1.2 = R' - R /\ r_valid (slot s.2 R') = false)
    65 (count_valid st) (out, 0, st))
    as ([[o d] st'] & Hx & m & (R' & Ho & Hd & HR & Hw' & _ & H1 & H2) & R2 & HR2 & Hv).
  - intros m s (R' & _ & _ & _ & (_ & Hl & _) & -> & _). by apply count_valid_range.
  - intros m [[o d] x] s' (R' & Ho & Hd & HR & Hw & Hm & H1 & H2) E. cbn in *.
    destruct Hw as (Hr & Hl & Hw). rewrite Hr, u16_mod64 in E.
    change (recv_buffer_ x).[R' mod _] with (slot x R') in E.
    destruct (r_valid (slot x R')) eqn:Hv; [|done].
    destruct (Hw R' ltac:(lia) Hv) as [Hseq Hdat]. rewrite Hseq, Z.eqb_refl in E.
    cbn [negb orb] in E. injection E as <-.
    pose proof (deliver_one x R' (conj Hr (conj Hl Hw)) Hv) as (Hw' & Hc & Hvk).
    rewrite Hr, u16_mod64, Hseq in Hw', Hc, Hvk.
    exists (m - 1). split; [lia|]. exists (R' + 1). cbn [fst snd]. split_and!.
    + unfold collect. rewrite Ho, Hdat. rewrite <- app_assoc. f_equal. unfold messages.
      replace (R' + 1 - R) with (R' - R + 1) by lia.
      rewrite seqZ_snoc, fmap_app by lia. simpl. do 3 f_equal; f_equal; lia.
    + lia.
    + lia.
    + exact Hw'.
    + lia.
    + intros k Hk Hin. destruct (decide (k = R')) as [->|]; [|apply H1; [lia|done]].
      rewrite <- Hv. symmetry. apply H2; [done|lia].
    + intros k Hin Hk. rewrite <- H2 by (done || lia). unfold in_window in *.
      rewrite Hvk by (unfold in_window; lia). rewrite decide_False; [done|]. lia.
  - intros m [[o d] x] r HI E. exists m. pose proof HI as (R' & Ho & Hd & HR & Hw & Hm & H1 & H2).
    cbn in *. destruct Hw as (Hr & Hl & Hw). rewrite Hr, u16_mod64 in E.
    change (recv_buffer_ x).[R' mod _] with (slot x R') in E.
    destruct (r_valid (slot x R')) eqn:Hv.
    + destruct (Hw R' ltac:(lia) Hv) as [Hseq _]. rewrite Hseq, Z.eqb_refl in E. done.
    + injection E as <-. split; [done|]. exists R'. done.
  - exists R. cbn. replace (R - R) with 0 by lia. split_and!; try done; try lia.
    unfold messages. simpl. by rewrite app_nil_r.
  - destruct Hwin as (_ & Hl & _). pose proof (count_valid_range st Hl). lia.
  - cbn [fst snd] in *. assert (R2 = R') as -> by lia. exists R', st'. unfold deliver_ordered.
    rewrite Hx. subst o d. split_and!; try done; apply Hw'.
Qed.

(** One arriving message on a reliable-ordered channel, as the packet handlers
    process it: buffer, and deliver when it was new. *)
Definition on_ordered (s : list (bytes * Z) * state) k : option (list (bytes * Z) * state) :=
  let '(out, st) := s in
  let '(b, st) := buffer_received_ordered st (u16 k) (msg k) in
  if b then r ← deliver_ordered collect out st; Some (r.1.1, r.2) else Some (out, st).
Fixpoint run_ordered (s : list (bytes * Z) * state) (ks : list Z)
    : option (list (bytes * Z) * state) :=
  match ks with [] => Some s | k :: ks => s' ← on_ordered s k; run_ordered s' ks end.

(** The number of messages handed over. *)
Definition handed (ks : list Z) : Z :=
  match run_ordered ([], reset) ks with Some (out, _) => zlen out | None => 0 end.

(** After the arrivals [ks]: the first [R] messages were delivered, the next one
    is missing, and every message of [got] is delivered or buffered. *)
Definition receiver (got : Z -> Prop) R (s : list (bytes * Z) * state) : Prop :=
  s.1 = messages 0 R /\ 0 <= R /\ window s.2 R /\ r_valid (slot s.2 R) = false /\
  forall k, got k -> k < R \/ (in_window R k /\ r_valid (slot s.2 k) = true).

Lemma messages_app a n m : 0 <= n -> 0 <= m ->
  messages a n ++ messages (a + n) m = messages a (n + m).
Proof. intros. unfold messages. by rewrite <- fmap_app, <- seqZ_app. Qed.

Lemma on_ordered_spec got R s k :
  receiver got R s -> - 2 ^ 15 <= k - R < 2 ^ 15 ->
  exists R' s', on_ordered s k = Some s' /\ R <= R' /\
    receiver (fun j => got j \/ (j = k /\ k < R + 64)) R' s'.
Proof.
  intros (Ho & HR & Hw & Hv & Hgot) Hk. destruct s as [out st]. cbn [fst snd] in *.
  unfold on_ordered. pose proof (buffer_spec st R k Hw Hk) as Hb.
  destruct (buffer_received_ordered st (u16 k) (msg k)) as [b st1].
  destruct Hb as (Hw1 & Hf & Ht). destruct b.
  - destruct (Ht eq_refl) as (Hin & Hvk & Hsame).
    destruct (deliver_spec st1 R out Hw1) as (R' & st' & -> & HRR & Hw' & Hv' & _ & Hkeep).
    exists R', (out ++ messages R (R' - R), st'). split; [done|]. split; [done|].
    split_and!; cbn [fst snd]; try done; try lia.
    { rewrite Ho. replace R with (0 + R) at 2 by lia. rewrite messages_app by lia.
      f_equal. lia. }
    assert (forall j, in_window R j -> r_valid (slot st1 j) = true ->
              j < R' \/ in_window R' j /\ r_valid (slot st' j) = true) as Hall.
    { intros j Hj Hvj. destruct (decide (j < R')); [by left|right]. split.
      - unfold in_window in *. lia.
      - rewrite Hkeep; [done|done|lia]. }
    intros j [Hj|[-> _]]; [|by apply Hall].
    destruct (Hgot j Hj) as [?|[Hij Hvj]]; [left; lia|].
    destruct (decide (j = k)) as [->|Hne]; [by apply Hall|].
    apply Hall; [done|]. by rewrite Hsame.
  - destruct (Hf eq_refl) as [-> Hcase]. exists R, (out, st). split; [done|].
    split; [lia|]. split_and!; cbn [fst snd]; try done.
    intros j [Hj|[-> Hlt]]; [by apply Hgot|].
    destruct Hcase as [?|[?|?]]; [by left | lia |].
    destruct (decide (k < R)); [by left|right]. split; [unfold in_window; lia|done].
Qed.

Lemma receiver_reset : receiver (fun _ => False) 0 ([], reset).
Proof.
  split_and!; try done. split; [done|]. split; [done|]. intros k Hk Hv. exfalso.
  revert Hv. unfold slot. change (recv_buffer_ (@nil (bytes * Z), reset).2)
    with (replicate (Z.to_nat RELIABLE_BUFFER_SIZE) (@inhabitant ReceivedMessage _)).
  by rewrite aget_replicate by apply idx64_range.
Qed.

Lemma receiver_weaken (got got' : Z -> Prop) R s :
  (forall k, got' k -> got k) -> receiver got R s -> receiver got' R s.
Proof. intros Hi (H1 & H2 & H3 & H4 & H5). split_and!; try done. eauto. Qed.

Lemma run_ordered_snoc s ks k :
  run_ordered s (ks ++ [k]) = (s' ← run_ordered s ks; on_ordered s' k).
Proof.
  revert s. induction ks as [|j ks IH]; intros s; simpl.
  - by destruct (on_ordered s k).
  - destruct (on_ordered s j); simpl; [apply IH|done].
Qed.

(** Every arrival of the trace is less than [2^15] away from the message the
    receiver waits for. *)
Definition near_window (ks : list Z) : Prop :=
  forall l1 k l2, ks = l1 ++ k :: l2 -> - 2 ^ 15 <= k - handed l1 < 2 ^ 15.
(** Message [k] arrived while it was less than 64 ahead. *)
Definition arrived (ks : list Z) (k : Z) : Prop :=
  exists l1 l2, ks = l1 ++ k :: l2 /\ k < handed l1 + 64.

Lemma run_receiver ks :
  near_window ks -> exists R s, run_ordered ([], reset) ks = Some s /\
    receiver (arrived ks) R s /\ handed ks = R.
Proof.
  induction ks as [|k ks IH] using rev_ind; intros Hn.
  - exists 0, ([], reset). split; [done|]. split; [|done].
    apply receiver_weaken with (fun _ => False), receiver_reset.
    intros k (l1 & l2 & E & _). by destruct l1.
  - destruct IH as (R & s & Hrun & Hrec & HR).
    { intros l1 j l2 ->. apply (Hn l1 j (l2 ++ [k])). by rewrite <- app_assoc. }
    destruct (on_ordered_spec _ R s k Hrec) as (R' & s' & Hon & _ & Hrec').
    { rewrite <- HR. by apply (Hn ks k []). }
    exists R', s'. unfold handed. rewrite run_ordered_snoc, Hrun. cbn [mbind option_bind].
    rewrite Hon. split_and!; [done| |].
    + eapply receiver_weaken; [|done]. intros j (l1 & l2 & E & Hlt).
      destruct l2 as [|x l2 _] using rev_ind.
      * apply app_inj_tail in E as [<- ->]. right. rewrite HR in Hlt. done.
      * rewrite app_comm_cons, app_assoc in E. apply app_inj_tail in E as [-> ->].
        left. by exists l1, l2.
    + destruct s' as [out st']. destruct Hrec' as (Ho & H0 & _). cbn [fst] in Ho.
      rewrite Ho. unfold messages, zlen. rewrite length_fmap, length_seqZ. lia.
Qed.
End Ordered.

(** ** Delivery for any callback *)

(** [deliver_ordered] stops, from any state: every turn clears a valid slot. *)
Lemma deliver_total st out :
  zlen (recv_buffer_ st) = RELIABLE_BUFFER_SIZE ->
  exists out' n st', deliver_ordered collect out st = Some (out', n, st') /\
    zlen (recv_buffer_ st') = RELIABLE_BUFFER_SIZE.
Proof.
  intros Hl. destruct (loop_done (deliver_step collect)
    (fun m s => zlen (recv_buffer_ s.2) = RELIABLE_BUFFER_SIZE /\ m = count_valid s.2)
    (fun s => zlen (recv_buffer_ s.2) = RELIABLE_BUFFER_SIZE)
    65 (count_valid st) (out, 0, st)) as ([[o n] st'] & Hx & Hr).
  - intros m s [H ->]. by apply count_valid_range.
  - intros m [[o n] x] s' [H ->] E. cbn in *. case_if_in E; [done|]. injection E as <-. cbn.
    exists (count_valid x - 1). rewrite zlen_aset. split; [lia|]. split; [done|].
    unfold count_valid, set_recv; cbn [recv_buffer_]. unfold aset. rewrite list_fmap_insert.
    erewrite sumZ_insert.
    2:{ rewrite list_lookup_fmap, lookup_aget; [done|]. rewrite H. apply idx64_range. }
    cbn. destruct (r_valid _); [lia|done].
  - intros m [[o n] x] r [H _] E. cbn in *. case_if_in E; [|done]. by injection E as <-.
  - done.
  - pose proof (count_valid_range st Hl). lia.
  - exists o, n, st'. unfold deliver_ordered. by rewrite Hx.
Qed.

(** A callback sees the messages the collecting one lists, in the same order. *)
Lemma deliver_step_fold {S} (f : S -> bytes -> Z -> S) c n out k st :
  let g s (m : bytes * Z) := f s m.1 m.2 in
  loop_nat (deliver_step f) n (foldl g c out, k, st)
  = match loop_nat (deliver_step collect) n (out, k, st) with
    | inl (o, k, st) => inl (foldl g c o, k, st)
    | inr (o, k, st) => inr (foldl g c o, k, st)
    end.
Proof.
  intros g. revert out k st. induction n as [|n IH]; intros out k st; [done|]. cbn [loop_nat].
  cbn [deliver_step].
  destruct (negb _ || negb _); [done|].
  replace (f (foldl g c out) _ _) with (foldl g c (collect out
    (r_data (recv_buffer_ st).[recv_seq st mod RELIABLE_BUFFER_SIZE]) (recv_seq st)))
    by (unfold collect; by rewrite foldl_app).
  by rewrite IH.
Qed.
Lemma deliver_fold {S} (f : S -> bytes -> Z -> S) c st out n st' :
  deliver_ordered collect [] st = Some (out, n, st') ->
  deliver_ordered f c st = Some (foldl (fun s m => f s m.1 m.2) c out, n, st').
Proof.
  unfold deliver_ordered. rewrite !loop_loop_nat.
  change c with (foldl (fun s (m : bytes * Z) => f s m.1 m.2) c []) at 1.
  rewrite (deliver_step_fold f c (Pos.to_nat 65) [] 0 st).
  destruct (loop_nat _ _ _) as [|[[o k] x]]; [done|]. by intros [= -> -> ->].
Qed.

(** C31.  Reliable-ordered delivery is in order and exactly once: whatever order
    the messages arrive in, with any duplicates and losses and across 16-bit
    wrap-around, what the application has been handed is messages 0..R-1, each
    once, in order, with its own bytes and number; and as soon as each of the
    messages 0..n-1 has arrived at least once inside the 64-message window, all n
    of them have been handed over. *)
Theorem ordered_exactly_once (msg : Z -> bytes) (ks : list Z) (n : Z) :
  (forall k, zlen (msg k) <= 1200) -> near_window msg ks ->
  exists st R, run_ordered msg ([], reset) ks
    = Some ((fun k => (msg k, u16 k)) <$> seqZ 0 R, st) /\
  ((forall k, 0 <= k < n -> arrived msg ks k) -> n <= R).
Proof.
  intros Hm Hn.
  destruct (run_receiver msg Hm ks Hn) as (R & [out st] & Hrun & (Ho & H0 & _ & Hv & Hg) & _).
  cbn [fst snd] in *. exists st, R. rewrite Hrun, Ho. split; [done|].
  intros Hall. destruct (decide (n <= R)) as [|Hgt]; [done|exfalso].
  destruct (Hg R (Hall R ltac:(lia))) as [?|[_ Hv']]; [lia|congruence].
Qed.

Definition demo_msg (k : Z) : bytes := [k mod 256].
Lemma ordered_exactly_once_witness :
  exists st R, run_ordered demo_msg ([], reset) [2; 0; 0; 1; 2]
    = Some ((fun k => (demo_msg k, u16 k)) <$> seqZ 0 R, st) /\ 3 <= R.
Proof.
  destruct (ordered_exactly_once demo_msg [2; 0; 0; 1; 2] 3) as (st & R & E & H).
  - intros k. by vm_compute.
  - intros l1 k l2 E.
    do 5 (destruct l1 as [|? l1]; simplify_eq/=; [by vm_compute|]). by destruct l1.
  - exists st, R. split; [done|]. apply H. intros k Hk.
    assert (k = 0 \/ k = 1 \/ k = 2) as [->|[->| ->]] by lia.
    + by exists [2], [0; 1; 2].
    + by exists [2; 0; 0], [2].
    + by exists [], [0; 0; 1; 2].
Defined.

(** * Unordered delivery *)

Section Unordered.
Implicit Types (st : state) (k : Z).

(** One arriving message on a reliable-unordered channel. *)
Definition on_unordered st k : bool * state :=
  if is_received_unordered st (u16 k) then (false, st)
  else (true, mark_received_unordered st (u16 k)).
Fixpoint run_unordered st (ks : list Z) : list Z :=
  match ks with
  | [] => []
  | k :: ks => let '(b, st) := on_unordered st k in
               if b then k :: run_unordered st ks else run_unordered st ks
  end.

(** The slot of a residue holds the last arrival of that residue. *)
Definition remembers st (past : list Z) : Prop :=
  zlen (recv_buffer_ st) = RELIABLE_BUFFER_SIZE /\
  (forall i, 0 <= i < RELIABLE_BUFFER_SIZE -> r_valid (recv_buffer_ st).[i] = true ->
     exists k, k ∈ past /\ k mod RELIABLE_BUFFER_SIZE = i /\
       r_sequence (recv_buffer_ st).[i] = u16 k) /\
  (forall l1 k l2, past = l1 ++ k :: l2 -> (forall j, j ∈ l1 -> Z.abs (j - k) < 64) ->
     r_valid (slot st k) = true /\ r_sequence (slot st k) = u16 k).

Lemma on_unordered_remembers st past k :
  remembers st past -> remembers (snd (on_unordered st k)) (k :: past).
Proof.
  intros (Hl & Hs & Hp). unfold on_unordered, is_received_unordered.
  rewrite u16_mod64. change (recv_buffer_ st).[k mod _] with (slot st k).
  destruct (r_valid (slot st k) && _) eqn:E; bool_facts; cbn [snd].
  - split; [done|]. split.
    + intros i Hi Hv. destruct (Hs i Hi Hv) as (j & ? & ? & ?). exists j.
      split; [by right|done].
    + intros [|x l1] j l2 [= -> ->] Hnear; [done|].
      apply (Hp l1 j l2 eq_refl). intros y Hy. apply Hnear. by right.
  - unfold mark_received_unordered. rewrite u16_mod64.
    split; [cbn; by rewrite zlen_aset|]. split.
    + intros i Hi. unfold set_recv; cbn [recv_buffer_].
      pose proof (idx64_range k). rewrite aget_aset by lia. case_decide.
      * intros _. exists k. split; [by left|done].
      * intros Hv. destruct (Hs i Hi Hv) as (j & ? & ? & ?). exists j.
        split; [by right|done].
    + intros [|x l1] j l2 [= -> ->] Hnear.
      * rewrite rslot_aset by done. by rewrite decide_True.
      * rewrite rslot_aset by done. case_decide as Eq.
        { apply mod64_inj in Eq as ->; [done|]. apply Hnear. by left. }
        apply (Hp l1 j l2 eq_refl). intros y Hy. apply Hnear. by right.
Qed.

(** A repeated message arrives while the arrivals since its last copy are less
    than 64 away from it, and numbers in flight are less than [2^16] apart. *)
Definition close_copies (ks : list Z) : Prop :=
  (forall l1 k l2 l3, ks = l1 ++ k :: l2 ++ k :: l3 ->
     forall j, j ∈ l2 -> Z.abs (j - k) < 64) /\
  (forall j k, j ∈ ks -> k ∈ ks -> Z.abs (j - k) < 2 ^ 16).

Lemma elem_of_split_first (l : list Z) k :
  k ∈ l -> exists l1 l2, l = l1 ++ k :: l2 /\ k ∉ l1.
Proof.
  induction l as [|x l IH]; intros H; [by apply not_elem_of_nil in H|].
  destruct (decide (k = x)) as [<-|Hne].
  - exists [], l. split; [done|]. apply not_elem_of_nil.
  - apply elem_of_cons in H as [?|H]; [done|]. destruct (IH H) as (l1 & l2 & -> & Hn).
    exists (x :: l1), l2. split; [done|]. rewrite elem_of_cons. tauto.
Qed.

(** The check answers "seen" exactly for the arrivals of the past. *)
Lemma is_received_exact st past k :
  remembers st past ->
  (forall l1 l2, past = l1 ++ k :: l2 -> k ∉ l1 -> forall j, j ∈ l1 -> Z.abs (j - k) < 64) ->
  (forall j, j ∈ past -> Z.abs (j - k) < 2 ^ 16) ->
  is_received_unordered st (u16 k) = bool_decide (k ∈ past).
Proof.
  intros (Hl & Hs & Hp) Hnear Hw. unfold is_received_unordered. rewrite u16_mod64.
  case_bool_decide as Hin.
  - destruct (elem_of_split_first past k Hin) as (l1 & l2 & E & Hn).
    destruct (Hp l1 k l2 E (Hnear l1 l2 E Hn)) as [Hv Hq].
    change (recv_buffer_ st).[k mod _] with (slot st k). by rewrite Hv, Hq, Z.eqb_refl.
  - apply andb_false_iff. destruct (r_valid _) eqn:Hv; [right|by left].
    apply Z.eqb_neq. intros Hq.
    destruct (Hs _ (idx64_range k) Hv) as (j & Hj & _ & Hjq).
    rewrite Hq in Hjq. apply u16_inj in Hjq as ->; [done|]. rewrite <- Z.abs_opp.
    replace (- (k - j)) with (j - k) by lia. by apply Hw.
Qed.

Lemma run_unordered_spec st past ks :
  remembers st past -> close_copies (rev past ++ ks) ->
  NoDup (run_unordered st ks) /\
  forall k, k ∈ run_unordered st ks <-> k ∈ ks /\ k ∉ past.
Proof.
  revert st past. induction ks as [|k ks IH]; intros st past Hr Hc; cbn [run_unordered].
  { split; [constructor|]. intros k. rewrite elem_of_nil. tauto. }
  assert (is_received_unordered st (u16 k) = bool_decide (k ∈ past)) as Hex.
  { destruct Hc as [Hc1 Hc2]. apply is_received_exact; [done| |].
    - intros l1 l2 -> Hn j Hj. apply (Hc1 (rev l2) k (rev l1) ks).
      + rewrite rev_app_distr. cbn [rev]. by rewrite <- !app_assoc.
      + apply list_elem_of_In. rewrite <- in_rev. by apply list_elem_of_In.
    - intros j Hj. apply Hc2; rewrite elem_of_app.
      + left. apply list_elem_of_In. rewrite <- in_rev. by apply list_elem_of_In.
      + right. by left. }
  pose proof (on_unordered_remembers st past k Hr) as Hr'.
  assert (close_copies (rev (k :: past) ++ ks)) as Hc'
    by (cbn [rev]; rewrite <- app_assoc; done).
  destruct (IH _ _ Hr' Hc') as [Hnd Hiff]. revert Hnd Hiff. unfold on_unordered.
  rewrite Hex. case_bool_decide as Hin; cbn [snd]; intros Hnd Hiff.
  - split; [done|]. intros j. rewrite Hiff, !elem_of_cons.
    split; [tauto|]. intros [[->|?] ?]; [done|]. split; [done|].
    intros [->|?]; done.
  - split.
    + constructor; [|done]. rewrite Hiff. intros [_ Hk]. apply Hk. by left.
    + intros j. rewrite !elem_of_cons, Hiff, elem_of_cons.
      destruct (decide (j = k)) as [->|]; tauto.
Qed.
End Unordered.

(** Reliable-unordered delivery: when copies of a message arrive within the
    64-message memory of the duplicate filter, every message that arrives is
    handed over exactly once. *)
Theorem unordered_exactly_once (ks : list Z) :
  close_copies ks ->
  NoDup (run_unordered reset ks) /\ forall k, k ∈ run_unordered reset ks <-> k ∈ ks.
Proof.
  intros Hc. destruct (run_unordered_spec reset [] ks) as [Hnd Hiff]; [|done|].
  - split; [done|]. split.
    + intros i Hi. cbn [reset recv_buffer_]. by rewrite aget_replicate.
    + intros l1 k l2 E. by destruct l1.
  - split; [done|]. intros k. rewrite Hiff. split; [tauto|].
    intros ?. split; [done|]. apply not_elem_of_nil.
Qed.

Lemma unordered_exactly_once_witness :
  run_unordered reset [5; 3; 5; 65; 3] = [5; 3; 65] /\
  NoDup (run_unordered reset [5; 3; 5; 65; 3]).
Proof.
  split; [by vm_compute|]. apply unordered_exactly_once. split.
  - intros l1 k l2 l3 E j Hj.
    assert (forall x, x ∈ l2 -> x ∈ [5; 3; 5; 65; 3]) as Hsub.
    { intros x Hx. rewrite E, !elem_of_app, elem_of_cons, elem_of_app. tauto. }
    assert (k ∈ [5; 3; 5; 65; 3]) as Hk by (rewrite E, elem_of_app, elem_of_cons; tauto).
    apply Hsub in Hj. revert Hj Hk. rewrite !elem_of_cons, !elem_of_nil. intros.
    lia.
  - intros j k. rewrite !elem_of_cons, !elem_of_nil. intros. lia.
Defined.

(** * The sending half *)

Section Sender.
Implicit Types (st : state) (m : SentMessage).

Definition sslot st k : SentMessage := (sent_buffer_ st).[k mod RELIABLE_BUFFER_SIZE].
Definition swf st : Prop :=
  zlen (sent_buffer_ st) = RELIABLE_BUFFER_SIZE /\ is_u16 (send_seq st) /\
  is_u16 (oldest_unacked st).

Lemma sslot_aset st k j m :
  zlen (sent_buffer_ st) = RELIABLE_BUFFER_SIZE ->
  sslot (set_sent st (aset (sent_buffer_ st) (k mod RELIABLE_BUFFER_SIZE) m)) j
  = if decide (k mod RELIABLE_BUFFER_SIZE = j mod RELIABLE_BUFFER_SIZE)
    then m else sslot st j.
Proof.
  intros Hl. unfold sslot, set_sent; cbn [sent_buffer_].
  pose proof (idx64_range k). pose proof (idx64_range j). by rewrite aget_aset by lia.
Qed.

(** The fields of a record that acknowledging never changes. *)
Definition same_msg m m' : Prop :=
  s_sequence m' = s_sequence m /\ s_data m' = s_data m /\
  s_packet_sequence m' = s_packet_sequence m /\ s_send_time m' = s_send_time m /\
  s_retry_count m' = s_retry_count m.

(** The advancing loop only retires acknowledged records, and terminates. *)
Definition retired st st' : Prop :=
  swf st' /\ send_seq st' = send_seq st /\ recv_seq st' = recv_seq st /\
  recv_buffer_ st' = recv_buffer_ st /\ messages_dropped_ st' = messages_dropped_ st /\
  forall i, 0 <= i < RELIABLE_BUFFER_SIZE ->
    let m := (sent_buffer_ st).[i] in let m' := (sent_buffer_ st').[i] in
    same_msg m m' /\ s_acked m' = s_acked m /\
    (s_valid m' = s_valid m \/ (s_acked m = true /\ s_valid m' = false)).

Lemma retired_step st x x' :
  retired st x -> advance_step x = inl x' -> retired st x' /\
    u16 (send_seq x' - oldest_unacked x') = u16 (send_seq x - oldest_unacked x) - 1.
Proof.
  intros ((Hl & Hs & Ho) & E1 & E2 & E3 & E4 & Hb). unfold advance_step.
  case_if; [done|]. case_if; [done|]. intros [= <-].
  pose proof (idx64_range (oldest_unacked x)) as Hi. split.
  - split_and!; cbn; try done; try congruence.
    { unfold swf. cbn. rewrite zlen_aset. split_and!; try done. apply u16_range. }
    intros i Hj. rewrite aget_aset by lia. case_decide; [subst|by apply Hb].
    destruct (Hb _ Hj) as (Hsame & Hack & Hval). unfold same_msg in *. cbn.
    split_and!; try tauto. right. split; [congruence|done].
  - cbn. unfold u16, is_u16 in *. mlia.
Qed.

Lemma advance_retires st :
  swf st -> exists st', loop 65536 advance_step st = inr st' /\ retired st st' /\
    (oldest_unacked st' = send_seq st \/ s_acked (sslot st (oldest_unacked st')) = false \/
     s_sequence (sslot st (oldest_unacked st')) <> oldest_unacked st').
Proof.
  intros Hw.
  pose (I := fun (n : Z) x => n = u16 (send_seq x - oldest_unacked x) /\ retired st x).
  destruct (loop_done advance_step I (fun x => retired st x /\
      (oldest_unacked x = send_seq st \/ s_acked (sslot st (oldest_unacked x)) = false \/
       s_sequence (sslot st (oldest_unacked x)) <> oldest_unacked x))
    65536 (u16 (send_seq st - oldest_unacked st)) st) as (x & Hx & Hr).
  - intros n x [-> _]. apply u16_range.
  - intros n x x' [-> Hr] E. destruct (retired_step st x x' Hr E) as [Hr' Hd].
    exists (u16 (send_seq x' - oldest_unacked x')). split; [lia|done].
  - intros n x r [-> Hr] E. pose proof Hr as (Hwx & Hs & _ & _ & _ & Hb).
    unfold advance_step in E. case_if_in E; [injection E as <-; split; [done|left; lia]|].
    destruct (negb _ || _) eqn:E2; [|done]. injection E as <-. split; [done|right].
    destruct (Hb _ (idx64_range (oldest_unacked x))) as ((Hq & _) & Ha & _).
    unfold sslot. rewrite <- Ha, <- Hq. apply orb_true_iff in E2 as [E2|E2]; bool_facts.
    + by left.
    + by right.
  - split; [done|]. split_and!; try done. intros i Hi. cbn zeta. unfold same_msg.
    split_and!; try done. by left.
  - pose proof (u16_range (send_seq st - oldest_unacked st)). unfold is_u16 in *. lia.
  - by exists x.
Qed.

Lemma mark_acked_ok st seq :
  swf st -> exists st', mark_acked st seq = Some st' /\ swf st' /\
    send_seq st' = send_seq st /\
    forall k, same_msg (sslot st k) (sslot st' k) /\
      let hit := s_valid (sslot st k) && (s_sequence (sslot st k) =? seq)
                 && bool_decide (k mod RELIABLE_BUFFER_SIZE = seq mod RELIABLE_BUFFER_SIZE) in
      s_acked (sslot st' k) = s_acked (sslot st k) || hit /\
      (s_valid (sslot st' k) = s_valid (sslot st k) \/ s_acked (sslot st' k) = true).
Proof.
  intros Hw. unfold mark_acked. change (sent_buffer_ st).[seq mod _] with (sslot st seq).
  set (st1 := if s_valid (sslot st seq) && _ then _ else st).
  assert (swf st1 /\ send_seq st1 = send_seq st) as [Hw1 Hs1].
  { unfold st1. case_if; [|done]. unfold swf. cbn. rewrite zlen_aset. done. }
  destruct (advance_retires st1 Hw1) as (st' & -> & (Hw' & Hs & _ & _ & _ & Hb) & _).
  exists st'. split; [done|]. split; [done|]. split; [congruence|]. intros k.
  destruct (Hb _ (idx64_range k)) as (Hsame & Ha & Hv).
  change (sent_buffer_ ?x).[k mod _] with (sslot x k) in Hsame, Ha, Hv.
  assert (same_msg (sslot st k) (sslot st1 k) /\
    s_acked (sslot st1 k) = s_acked (sslot st k) ||
      (s_valid (sslot st k) && (s_sequence (sslot st k) =? seq)
       && bool_decide (k mod RELIABLE_BUFFER_SIZE = seq mod RELIABLE_BUFFER_SIZE)) /\
    s_valid (sslot st1 k) = s_valid (sslot st k)) as (Hsame1 & Ha1 & Hv1).
  { pose proof (idx64_range seq). pose proof (idx64_range k). destruct Hw as (Hl & _).
    unfold st1. destruct (s_valid (sslot st seq) && _) eqn:E; bool_facts.
    - rewrite !sslot_aset by done. case_decide as Ek.
      + assert (sslot st k = sslot st seq) as -> by (unfold sslot; by rewrite Ek).
        rewrite bool_decide_true by done. unfold same_msg; cbn.
        rewrite H1, H2, Z.eqb_refl, orb_true_r. done.
      + rewrite bool_decide_false, andb_false_r, orb_false_r by congruence. done.
    - assert (s_valid (sslot st k) && (s_sequence (sslot st k) =? seq) &&
        bool_decide (k mod RELIABLE_BUFFER_SIZE = seq mod RELIABLE_BUFFER_SIZE) = false) as ->.
      { case_bool_decide as Ek; [|by rewrite andb_false_r].
        assert (sslot st k = sslot st seq) as -> by (unfold sslot; by rewrite Ek).
        by rewrite E. }
      by rewrite orb_false_r. }
  unfold same_msg in *. cbn zeta. split_and!; try intuition congruence.
Qed.

(** ** Traces of the sender *)

Inductive sender_event : Type :=
  | RecordSend (data : bytes) (packet_seq : Z) (time : double)
  | MarkAcked (k : Z).

Definition sender_step st (e : sender_event) : option state :=
  match e with
  | RecordSend d p t => Some (snd (record_send st d p t))
  | MarkAcked k => mark_acked st (u16 k)
  end.
Fixpoint sender_run st (es : list sender_event) : option state :=
  match es with [] => Some st | e :: es => st' ← sender_step st e; sender_run st' es end.

(** The ideal sender: message [k] is entry [k], with its bytes and whether an
    acknowledgement named it. *)
Definition sender_log (log : list (bytes * bool)) (e : sender_event)
    : list (bytes * bool) :=
  match e with
  | RecordSend d _ _ =>
      if (zlen d <=? 0) || (1200 <? zlen d) then log else log ++ [(d, false)]
  | MarkAcked k => imap (fun j '(d, a) => (d, a || (Z.of_nat j =? k))) log
  end.
(** Acknowledgements name messages of the newest 64. *)
Definition ack_recent (log : list (bytes * bool)) (e : sender_event) : Prop :=
  match e with
  | RecordSend _ _ _ => True
  | MarkAcked k => zlen log - 64 <= k < zlen log
  end.
Fixpoint acks_recent (log : list (bytes * bool)) (es : list sender_event) : Prop :=
  match es with
  | [] => True
  | e :: es => ack_recent log e /\ acks_recent (sender_log log e) es
  end.

Definition stracks st (log : list (bytes * bool)) : Prop :=
  swf st /\ send_seq st = u16 (zlen log) /\
  forall k d a, zlen log - 64 <= Z.of_nat k -> log !! k = Some (d, a) ->
    let m := sslot st (Z.of_nat k) in
    s_sequence m = u16 (Z.of_nat k) /\ s_data m = d /\ s_acked m = a /\
    (a = false -> s_valid m = true).

Lemma stracks_send st log d p t :
  stracks st log -> stracks (snd (record_send st d p t)) (sender_log log (RecordSend d p t)).
Proof.
  intros ((Hl & Hs & Ho) & Hq & Hk). unfold record_send, sender_log.
  destruct ((zlen d <=? 0) || (1200 <? zlen d)); [by split_and!|]. cbn [snd].
  split; [|split].
  - unfold swf. cbn. rewrite zlen_aset. split_and!; try done; apply u16_range.
  - cbn. rewrite Hq, u16_succ. zlen_simpl. done.
  - intros k d' a Hge Hlk. cbn zeta. unfold sslot. cbn [sent_buffer_].
    rewrite Hq, u16_mod64. pose proof (idx64_range (zlen log)).
    zlen_simpl. apply lookup_app_Some in Hlk as [Hlk|[Hge' Hlk]].
    + pose proof (lookup_lt_Some _ _ _ Hlk). rewrite aget_aset_ne.
      * apply Hk; [lia|done].
      * lia.
      * apply idx64_range.
      * intros E%mod64_inj; unfold zlen in *; lia.
    + apply list_lookup_singleton_Some in Hlk as [Hk0 [= <- <-]].
      replace (Z.of_nat k) with (zlen log) by (unfold zlen; lia).
      rewrite aget_aset_eq by (rewrite Hl; apply idx64_range). by cbn.
Qed.

Lemma stracks_ack st log k :
  stracks st log -> zlen log - 64 <= k < zlen log ->
  exists st', mark_acked st (u16 k) = Some st' /\ stracks st' (sender_log log (MarkAcked k)).
Proof.
  intros (Hw & Hq & Hk) Hr.
  destruct (mark_acked_ok st (u16 k) Hw) as (st' & E & Hw' & Hs & Hm).
  exists st'. split; [done|]. split; [done|].
  assert (zlen (sender_log log (MarkAcked k)) = zlen log) as Hlen
    by (cbn; unfold zlen; by rewrite length_imap).
  rewrite Hlen. split; [congruence|]. intros j d a Hge Hlk.
  cbn [sender_log] in Hlk. rewrite list_lookup_imap in Hlk.
  destruct (log !! j) as [[d0' a0]|] eqn:Ej; simplify_eq/=.
  destruct (Hk j d a0 Hge Ej) as (Hseq & Hd & Ha & Hv).
  destruct (Hm (Z.of_nat j)) as ((Hs1 & Hd1 & _) & Ha1 & Hv1). cbn zeta in Ha1.
  pose proof (lookup_lt_Some _ _ _ Ej).
  assert ((s_sequence (sslot st (Z.of_nat j)) =? u16 k) = (Z.of_nat j =? k)) as Hex.
  { rewrite Hseq. destruct (Z.of_nat j =? k) eqn:Ek; bool_facts.
    - subst. by rewrite Z.eqb_refl.
    - apply Z.eqb_neq. intros Hu. apply u16_inj in Hu; unfold zlen in *; lia. }
  rewrite Hex in Ha1. split_and!; [congruence|congruence| |].
  - rewrite Ha1, Ha. destruct (Z.of_nat j =? k) eqn:Ek; bool_facts.
    + subst k. rewrite u16_mod64, bool_decide_true, !andb_true_r by done.
      destruct a0; [done|]. by rewrite Hv.
    + by rewrite andb_false_r.
  - intros Hf. apply orb_false_iff in Hf as [-> Hne].
    rewrite Hne, andb_false_r, Ha in Ha1. cbn in Ha1.
    destruct Hv1 as [->|Hv1]; [by apply Hv|congruence].
Qed.

Lemma stracks_run st log es :
  stracks st log -> acks_recent log es ->
  exists st', sender_run st es = Some st' /\ stracks st' (foldl sender_log log es).
Proof.
  revert st log. induction es as [|e es IH]; intros st log Ht Ha; [by exists st|].
  cbn [acks_recent] in Ha. destruct Ha as [Ha0 Ha].
  cbn [sender_run foldl]. destruct e as [d p t|k].
  - apply IH; [by apply stracks_send|done].
  - destruct (stracks_ack st log k Ht Ha0) as (st' & E & Ht'). cbn [sender_step].
    rewrite E. by apply IH.
Qed.
End Sender.

(** The retransmission buffer refines an unbounded log of messages: after
    any sequence of sends and acknowledgements, each of the newest 64 messages is
    available for retransmission with its own bytes exactly as long as it has not
    been acknowledged. *)
Theorem retransmit_buffer_refines_log es k (d : bytes) (a : bool) :
  let log := foldl sender_log [] es in
  acks_recent [] es -> zlen log - 64 <= Z.of_nat k -> log !! k = Some (d, a) ->
  exists st, sender_run reset es = Some st /\
    s_data <$> get_for_retransmit st (u16 (Z.of_nat k)) = if a then None else Some d.
Proof.
  intros log Ha Hk Hl.
  destruct (stracks_run reset [] es) as (st & Hrun & (_ & _ & Ht)); [by split_and!|done|].
  exists st. split; [done|]. destruct (Ht k d a Hk Hl) as (Hs & Hd & Hack & Hv).
  unfold get_for_retransmit. rewrite u16_mod64.
  change (sent_buffer_ st).[_ mod _] with (sslot st (Z.of_nat k)).
  rewrite Hs, Z.eqb_refl, Hack. destruct a.
  - by rewrite andb_false_r.
  - rewrite Hv by done. cbn. by rewrite Hd.
Qed.

Definition sender_demo : list sender_event :=
  [RecordSend [1] 0 d0; RecordSend [2; 3] 0 d0; MarkAcked 0].
Lemma retransmit_buffer_refines_log_witness :
  exists st, sender_run reset sender_demo = Some st /\
    s_data <$> get_for_retransmit st (u16 (Z.of_nat 1)) = Some [2; 3].
Proof.
  apply (retransmit_buffer_refines_log sender_demo 1 [2; 3] false); [|done|done].
  vm_compute. repeat split; discriminate.
Defined.

(** ** Finding retransmissions *)

Section Retransmit.
Context (now rto : double) (max_count : Z) (st0 : state).
Context (Hw0 : swf st0) (Hmax : 0 <= max_count).
Implicit Types (st : state) (m : SentMessage).

Definition expired m : bool := timed_out now rto m && (MAX_RETRIES <=? s_retry_count m).
(** Message [seq] is outstanding, timed out, and has retries left. *)
Definition due st (seq : Z) : bool :=
  let m := sslot st seq in
  s_valid m && (s_sequence m =? seq) && negb (s_acked m) && timed_out now rto m
  && (s_retry_count m <? MAX_RETRIES).
(** The outstanding numbers in the order of the scan. *)
Definition outstanding (n : Z) : list Z := (fun i => u16 (oldest_unacked st0 + i)) <$> seqZ 0 n.
Definition dues (n : Z) : list Z := filter (fun q => due st0 q = true) (outstanding n).

Definition total : Z := u16 (send_seq st0 - oldest_unacked st0).

(** After visiting [i] numbers. *)
Record scanned (i : Z) (s : scan) : Prop := {
  sd_i : 0 <= i <= total;
  sd_seq : sc_seq s = u16 (oldest_unacked st0 + i);
  sd_out : sc_out s = dues i;
  sd_len : zlen (sc_out s) <= max_count;
  sd_buf : zlen (sent_buffer_ (sc_st s)) = RELIABLE_BUFFER_SIZE;
  sd_send : send_seq (sc_st s) = send_seq st0;
  sd_slot : forall p, 0 <= p < RELIABLE_BUFFER_SIZE ->
    let m := (sent_buffer_ st0).[p] in let m' := (sent_buffer_ (sc_st s)).[p] in
    m' = m \/ (m' = with_valid m false /\ expired m = true /\
               exists j, 0 <= j < i /\ s_sequence m = u16 (oldest_unacked st0 + j))
}.

Lemma dues_snoc i :
  0 <= i -> dues (i + 1) = dues i ++
    (if due st0 (u16 (oldest_unacked st0 + i)) then [u16 (oldest_unacked st0 + i)] else []).
Proof.
  intros Hi. unfold dues, outstanding. rewrite seqZ_snoc, fmap_app, list.filter_app by lia.
  f_equal. rewrite fmap_cons. rewrite Z.add_0_l, filter_cons.
  destruct (due st0 _); [by rewrite decide_True|by rewrite decide_False].
Qed.

(** An unvisited record still has its original contents, or cannot be due. *)
Lemma scanned_slot i s :
  scanned i s -> i < total ->
  let m := sslot st0 (sc_seq s) in let m' := sslot (sc_st s) (sc_seq s) in
  m' = m \/ s_sequence m <> sc_seq s /\ s_sequence m' <> sc_seq s.
Proof.
  intros [Hi Hq _ _ _ _ Hs] Hlt. cbn zeta. unfold sslot.
  destruct (Hs _ (idx64_range (sc_seq s))) as [->|(-> & _ & j & Hj & Hsq)]; [by left|right].
  cbn. rewrite Hsq, Hq. pose proof (u16_range (send_seq st0 - oldest_unacked st0)).
  unfold total, is_u16 in *. split; intros E; apply u16_inj in E; lia.
Qed.

Lemma scan_advance i s :
  scanned i s -> i < total -> zlen (sc_out s) < max_count ->
  exists s', retransmit_step now rto max_count s = inl s' /\ scanned (i + 1) s'.
Proof.
  intros Hsc Hi Ho. pose proof (scanned_slot i s Hsc Hi) as Hslot.
  pose proof Hsc as [Hr Hq Hout Hlen Hbuf Hsend Hs]. unfold retransmit_step.
  assert (sc_seq s <> send_seq (sc_st s)) as Hne.
  { rewrite Hq, Hsend. destruct Hw0 as (_ & H1 & H2). unfold total, u16, is_u16 in *. mlia. }
  rewrite (proj2 (Z.eqb_neq _ _) Hne), (proj2 (Z.leb_gt _ _)) by lia. cbn [orb].
  change (sent_buffer_ (sc_st s)).[sc_seq s mod _] with (sslot (sc_st s) (sc_seq s)).
  assert (forall st' out', out' = dues (i + 1) -> zlen out' <= max_count ->
    zlen (sent_buffer_ st') = RELIABLE_BUFFER_SIZE -> send_seq st' = send_seq st0 ->
    (forall p, 0 <= p < RELIABLE_BUFFER_SIZE ->
       (sent_buffer_ st').[p] = (sent_buffer_ (sc_st s)).[p] \/
       (sent_buffer_ st').[p] = with_valid (sent_buffer_ st0).[p] false /\
       expired (sent_buffer_ st0).[p] = true /\
       s_sequence (sent_buffer_ st0).[p] = u16 (oldest_unacked st0 + i)) ->
    scanned (i + 1) (mkScan (u16 (sc_seq s + 1)) out' st')) as Hmk.
  { intros st' out' E1 E2 E3 E4 E5. split; cbn; try done; try lia.
    - rewrite Hq, u16_succ. f_equal. lia.
    - intros p Hp. destruct (E5 p Hp) as [->|(E & Hex & Hsq)].
      + destruct (Hs p Hp) as [?|(? & ? & j & ? & ?)]; [by left|right].
        split_and!; try done. exists j. split; [lia|done].
      + right. split_and!; try done. exists i. split; [lia|done]. }
  assert (due st0 (sc_seq s) = due (sc_st s) (sc_seq s)) as Hdue.
  { unfold due. destruct Hslot as [->|[H1 H2]]; [done|].
    by rewrite (proj2 (Z.eqb_neq _ _) H1), (proj2 (Z.eqb_neq _ _) H2), !andb_false_r. }
  pose proof (dues_snoc i ltac:(lia)) as Hsnoc. rewrite <- Hq, Hdue, <- Hout in Hsnoc.
  unfold due in Hsnoc. set (m := sslot (sc_st s) (sc_seq s)) in *.
  destruct (s_valid m) eqn:Ev, (s_sequence m =? sc_seq s) eqn:Eq, (s_acked m) eqn:Ea,
    (timed_out now rto m) eqn:Et; cbn in Hsnoc |- *; rewrite ?app_nil_r in Hsnoc;
    try (eexists; split; [done|]; apply Hmk; auto; done).
  case_if.
  - rewrite (proj2 (Z.ltb_ge _ _)), app_nil_r in Hsnoc by lia.
    destruct Hslot as [Em|[_ ?]]; [|bool_facts; done].
    eexists; split; [done|]. apply Hmk; cbn; auto.
    + by rewrite zlen_aset.
    + intros p Hp. rewrite aget_aset by (try apply idx64_range; lia).
      case_decide; [subst p|by left]. right. fold m in Em. rewrite Em in *.
      unfold expired. change (sent_buffer_ st0).[_ mod _] with (sslot st0 (sc_seq s)).
      rewrite Et, (proj2 (Z.leb_le _ _)) by lia. bool_facts. rewrite <- Hq. done.
  - rewrite (proj2 (Z.ltb_lt _ _)) in Hsnoc by lia.
    eexists; split; [done|]. apply Hmk; auto. zlen_simpl. lia.
Qed.

Lemma dues_mono i n : 0 <= i <= n -> exists l, dues n = dues i ++ l.
Proof.
  intros Hi. unfold dues, outstanding.
  replace n with (i + (n - i)) by lia. rewrite seqZ_app by lia.
  rewrite fmap_app, list.filter_app. eauto.
Qed.

Lemma find_retransmits_ok :
  exists out st', find_retransmits st0 now rto max_count = Some (out, st') /\
    out = take (Z.to_nat max_count) (dues total) /\
    forall p, 0 <= p < RELIABLE_BUFFER_SIZE ->
      let m := (sent_buffer_ st0).[p] in let m' := (sent_buffer_ st').[p] in
      m' = m \/ (m' = with_valid m false /\ expired m = true).
Proof.
  pose (I := fun (n : Z) (s : scan) => scanned (total - n) s).
  destruct (loop_done (retransmit_step now rto max_count) I
    (fun s => sc_out s = take (Z.to_nat max_count) (dues total) /\ exists i, scanned i s)
    65536 total (mkScan (oldest_unacked st0) [] st0)) as (s & Hs & Hout & i & Hsc).
  - intros n s [Hi _ _ _ _ _ _]. lia.
  - intros n s s' Hsc E. unfold retransmit_step in E. pose proof Hsc as [Hi Hq _ Hl _ Hsend _].
    case_if_in E; [done|].
    assert (total - n < total) as Hlt.
    { destruct (decide (n = 0)) as [->|]; [|lia]. exfalso. apply H. rewrite Hq, Hsend.
      destruct Hw0 as (_ & ? & ?). unfold total, u16, is_u16 in *. mlia. }
    fold (retransmit_step now rto max_count s) in E.
    destruct (scan_advance _ s Hsc Hlt ltac:(lia)) as (s1 & E1 & Hs1).
    unfold retransmit_step in E1. rewrite (proj2 (Z.eqb_neq _ _) H), (proj2 (Z.leb_gt _ _)) in E1 by lia.
    cbn [orb] in E1. rewrite E in E1. injection E1 as <-.
    exists (n - 1). split; [lia|]. unfold I. by replace (total - (n - 1)) with (total - n + 1) by lia.
  - intros n s r Hsc E. pose proof Hsc as [Hi Hq Ho Hl _ Hsend _].
    destruct (decide (zlen (sc_out s) < max_count)) as [Hlt|Hge].
    + destruct (decide (n = 0)) as [->|].
      * unfold retransmit_step in E. case_if_in E; [|repeat (case_if_in E; try done)].
        injection E as <-. split; [|eauto]. rewrite Ho, Z.sub_0_r.
        rewrite take_ge; [done|]. rewrite Ho, Z.sub_0_r in Hlt. unfold zlen in Hlt. lia.
      * destruct (scan_advance _ s Hsc ltac:(lia) Hlt) as (s1 & E1 & _). congruence.
    + assert (r = s) as ->.
      { unfold retransmit_step in E. rewrite (proj2 (Z.leb_le max_count _)), orb_true_r in E by lia.
        by injection E. }
      split; [|eauto]. destruct (dues_mono (total - n) total ltac:(lia)) as [l ->].
      rewrite take_app_le, take_ge; [done| |]; rewrite Ho in *; unfold zlen in *; lia.
  - unfold I. replace (total - total) with 0 by lia. split; cbn; try done; try lia.
    + pose proof (u16_range (send_seq st0 - oldest_unacked st0)). unfold total, is_u16 in *. lia.
    + destruct Hw0 as (_ & _ & ?). by rewrite Z.add_0_r, u16_small.
    + apply Hw0.
    + by left.
  - pose proof (u16_range (send_seq st0 - oldest_unacked st0)). unfold total, is_u16 in *. lia.
  - exists (sc_out s), (sc_st s). unfold find_retransmits. rewrite Hs. split; [done|].
    split; [done|]. intros p Hp. destruct Hsc as [_ _ _ _ _ _ Hslot].
    destruct (Hslot p Hp) as [?|(? & ? & _)]; auto.
Qed.
End Retransmit.

(** [find_retransmits] terminates and returns, oldest first and at most
    [max_count] of them, exactly the outstanding messages whose backed-off timeout
    has passed and whose retries are not used up; the only records it changes are
    timed-out ones with all retries used, which it drops. *)
Theorem find_retransmits_exact st now rto max_count :
  swf st -> 0 <= max_count ->
  exists out st', find_retransmits st now rto max_count = Some (out, st') /\
    out = take (Z.to_nat max_count) (dues now rto st (total st)) /\
    forall p, 0 <= p < RELIABLE_BUFFER_SIZE ->
      let m := (sent_buffer_ st).[p] in let m' := (sent_buffer_ st').[p] in
      m' = m \/ (m' = with_valid m false /\ expired now rto m = true).
Proof. intros Hw Hm. by apply find_retransmits_ok. Qed.

Definition sender_demo_state : state :=
  match sender_run reset sender_demo with Some st => st | None => reset end.
Lemma find_retransmits_exact_witness :
  swf sender_demo_state /\ exists out st',
    find_retransmits sender_demo_state (d_of_Z 5) (d_of_Z 1) 8 = Some (out, st') /\ out = [1].
Proof.
  split; [by vm_compute|].
  destruct (find_retransmits_exact sender_demo_state (d_of_Z 5) (d_of_Z 1) 8)
    as (out & st' & E & Ho & _); [by vm_compute | lia |].
  exists out, st'. split; [exact E|]. rewrite Ho. by vm_compute.
Defined.

End Reliable.
