(* ===== verification/Channel.v ===== *)
(** Channels and their scheduler (src/src/channel/channel.h).

    A channel queues messages in a ring buffer of 256; a state update replaces
    the pending update of the same entity in place.  The scheduler picks the
    pending channel of highest priority, either by asking every channel or, on
    the fast path, only those of a mask. *)

From S2P Require Import Prelude Double RingBuffer.

Definition NETUDP_MTU : Z := 1200.
Definition NETUDP_SEND_NO_NAGLE : Z := 2.
Definition NETUDP_SEND_NO_DELAY : Z := 4.
Definition NETUDP_SEND_STATE : Z := 8.
Definition NETUDP_CHANNEL_UNRELIABLE : Z := 0.
Definition NETUDP_CHANNEL_UNRELIABLE_SEQUENCED : Z := 1.
Definition NETUDP_CHANNEL_RELIABLE_ORDERED : Z := 2.
Definition NETUDP_CHANNEL_RELIABLE_UNORDERED : Z := 3.

(** [flags & f] as a condition. *)
Definition has_flag (flags f : Z) : bool := negb (Z.land flags f =? 0).

Record channel_config : Type := mkChannelConfig {
  cfg_type : Z; cfg_priority : Z; cfg_weight : Z; cfg_nagle_ms : Z }.

Module Channel.

(** [data]/[size] of the code is the list of the first [size] bytes. *)
Record QueuedMessage : Type := mkQueued {
  q_data : bytes; q_sequence : Z; q_entity_id : Z; q_flags : Z; q_valid : bool }.
#[global] Instance queued_inhabited : Inhabited QueuedMessage :=
  populate (mkQueued [] 0 0 0 false).
Record ChannelStats : Type := mkStats {
  messages_sent : Z; messages_received : Z; messages_dropped : Z;
  bytes_sent : Z; bytes_received : Z }.

Definition QUEUE_SIZE : Z := 256.

Record channel : Type := mkChannel {
  index_ : Z;
  config_ : channel_config;
  send_seq_ : Z;
  recv_seq_ : Z;
  last_delivered_seq_ : Z;
  nagle_accumulate_time_ : double;
  nagle_threshold_sec_ : double;
  nagle_ready_ : bool;
  stats_ : ChannelStats;
  send_queue_ : ring QueuedMessage
}.
(** [Channel{}]. *)
#[global] Instance channel_inhabited : Inhabited channel :=
  populate (mkChannel 0 (mkChannelConfig 0 0 0 0) 0 0 0 d0 d0 false
              (mkStats 0 0 0 0 0) (RingBuffer.empty QUEUE_SIZE)).

(** [init] leaves [nagle_ready_] as it is. *)
Definition init (ch : channel) (index : Z) (config : channel_config) : channel :=
  mkChannel index config 0 0 0 d0 (ddiv (d_of_Z (cfg_nagle_ms config)) (d_of_Z 1000))
    (nagle_ready_ ch) (mkStats 0 0 0 0 0) (RingBuffer.clear (send_queue_ ch)).

Definition set_queue (ch : channel) (seq : Z) (ready : bool) (stats : ChannelStats)
    (q : ring QueuedMessage) : channel :=
  mkChannel (index_ ch) (config_ ch) seq (recv_seq_ ch) (last_delivered_seq_ ch)
    (nagle_accumulate_time_ ch) (nagle_threshold_sec_ ch) ready stats q.
Definition set_nagle (ch : channel) (time : double) (ready : bool)
    (q : ring QueuedMessage) : channel :=
  mkChannel (index_ ch) (config_ ch) (send_seq_ ch) (recv_seq_ ch) (last_delivered_seq_ ch)
    time (nagle_threshold_sec_ ch) ready (stats_ ch) q.

Definition no_nagle (flags : Z) : bool :=
  has_flag flags NETUDP_SEND_NO_NAGLE || has_flag flags NETUDP_SEND_NO_DELAY.

(** [existing.entity_id == eid && (existing.flags & NETUDP_SEND_STATE) != 0]. *)
Definition state_of (eid : Z) (m : QueuedMessage) : bool :=
  (q_entity_id m =? eid) && has_flag (q_flags m) NETUDP_SEND_STATE.

(** The scan from the newest entry; [n] entries remain. *)
Fixpoint find_state (q : ring QueuedMessage) (eid : Z) (n : nat) : option Z :=
  match n with
  | O => None
  | S i => if state_of eid (RingBuffer.index QUEUE_SIZE q (Z.of_nat i))
           then Some (Z.of_nat i) else find_state q eid i
  end.

Definition overwrite (data : bytes) (flags : Z) (m : QueuedMessage) : QueuedMessage :=
  mkQueued data (q_sequence m) (q_entity_id m) flags (q_valid m).

(** The tail of [queue_send_impl]: append a new message. *)
Definition queue_append (ch : channel) (data : bytes) (flags eid : Z) : bool * channel :=
  let q := send_queue_ ch in
  if RingBuffer.full QUEUE_SIZE q then (false, ch)
  else
    let msg := mkQueued data (send_seq_ ch) eid flags true in
    let s := stats_ ch in
    (true, set_queue ch (u16 (send_seq_ ch + 1)) (no_nagle flags || nagle_ready_ ch)
             (mkStats (u32 (messages_sent s + 1)) (messages_received s)
                (messages_dropped s) (u32 (bytes_sent s + u32 (zlen data)))
                (bytes_received s))
             (snd (RingBuffer.push_back QUEUE_SIZE msg q))).

Definition queue_send_impl (ch : channel) (data : bytes) (flags eid : Z)
    : bool * channel :=
  let size := zlen data in
  let q := send_queue_ ch in
  if (size <=? 0) || (NETUDP_MTU <? size) then (false, ch)
  else
    let found := if has_flag flags NETUDP_SEND_STATE && negb (eid =? 0)
                 then find_state q eid (Z.to_nat (RingBuffer.size q)) else None in
    match found with
    | Some i =>
        let existing := RingBuffer.index QUEUE_SIZE q i in
        (true, set_queue ch (send_seq_ ch) (no_nagle flags || nagle_ready_ ch) (stats_ ch)
                 (RingBuffer.index_set QUEUE_SIZE q i (overwrite data flags existing)))
    | None => queue_append ch data flags eid
    end.

Definition queue_send (ch : channel) (data : bytes) (flags : Z) : bool * channel :=
  queue_send_impl ch data flags 0.
Definition queue_send_state (ch : channel) (data : bytes) (flags eid : Z) : bool * channel :=
  queue_send_impl ch data (Z.lor flags NETUDP_SEND_STATE) eid.

Definition has_pending (ch : channel) (now : double) : bool :=
  if RingBuffer.is_empty (send_queue_ ch) then false
  else if nagle_ready_ ch then true
  else if dle (nagle_threshold_sec_ ch) d0 then true
  else dge (dsub now (nagle_accumulate_time_ ch)) (nagle_threshold_sec_ ch).

Definition dequeue_send (ch : channel) : option QueuedMessage * channel :=
  if RingBuffer.is_empty (send_queue_ ch) then (None, ch)
  else
    let '(out, q) := RingBuffer.pop_front QUEUE_SIZE (send_queue_ ch) in
    (out, set_nagle ch d0 false q).

Definition start_nagle (ch : channel) (now : double) : channel :=
  if deq (nagle_accumulate_time_ ch) d0
  then set_nagle ch now (nagle_ready_ ch) (send_queue_ ch) else ch.
Definition flush (ch : channel) : channel :=
  set_nagle ch (nagle_accumulate_time_ ch) true (send_queue_ ch).

(** ** Receiving *)

Definition count_received (ch : channel) (last : Z) : channel :=
  let s := stats_ ch in
  mkChannel (index_ ch) (config_ ch) (send_seq_ ch) (recv_seq_ ch) last
    (nagle_accumulate_time_ ch) (nagle_threshold_sec_ ch) (nagle_ready_ ch)
    (mkStats (messages_sent s) (u32 (messages_received s + 1)) (messages_dropped s)
       (bytes_sent s) (bytes_received s)) (send_queue_ ch).

Definition on_recv_unreliable (ch : channel) (sequence : Z) : bool * channel :=
  (true, count_received ch (last_delivered_seq_ ch)).

Definition on_recv_unreliable_sequenced (ch : channel) (sequence : Z) : bool * channel :=
  let diff := i16 (sequence - last_delivered_seq_ ch) in
  if (diff <=? 0) && negb (last_delivered_seq_ ch =? 0)
  then (false, count_received ch (last_delivered_seq_ ch))
  else (true, count_received ch sequence).

Definition type (ch : channel) : Z := cfg_type (config_ ch).
Definition priority (ch : channel) : Z := cfg_priority (config_ ch).
Definition weight (ch : channel) : Z := cfg_weight (config_ ch).
Definition send_queue_size (ch : channel) : Z := RingBuffer.size (send_queue_ ch).

(** ** Scheduler *)

(** The choice made at one channel: [(best, best_priority)]. *)
Definition pick (channels : list channel) (b : Z * Z) (i : Z) : Z * Z :=
  let '(best, best_priority) := b in
  let p := priority channels.[i] in
  if (best <? 0) || (best_priority <? p) then (i, p) else b.

Definition next_channel (channels : list channel) (num_channels : Z) (now : double) : Z :=
  fst (foldl (fun b i => if has_pending channels.[i] now then pick channels b i else b)
         (-1, 0) (seqZ 0 num_channels)).

Definition fast_step (channels : list channel) (now : double) (pending_mask : Z)
    (s : (Z * Z) * Z) (i : Z) : (Z * Z) * Z :=
  let '(b, new_mask) := s in
  if negb (bit_set pending_mask i) then s
  else if has_pending channels.[i] now
  then (pick channels b i, Z.lor new_mask (u8 (Z.shiftl 1 i)))
  else s.

(** The chosen channel and the new [pending_mask]. *)
Definition next_channel_fast (channels : list channel) (num_channels : Z) (now : double)
    (pending_mask : Z) : Z * Z :=
  if pending_mask =? 0 then (-1, pending_mask)
  else
    let '(b, new_mask) := foldl (fast_step channels now pending_mask) ((-1, 0), 0)
                            (seqZ 0 (Z.min num_channels 8)) in
    (fst b, new_mask).

(** * The queue *)

Lemma queue_pow2 : exists k, 0 <= k /\ QUEUE_SIZE = 2 ^ k.
Proof. by exists 8. Qed.

Definition qlist (ch : channel) : list QueuedMessage :=
  RingBuffer.contents QUEUE_SIZE (send_queue_ ch).

(** No two pending entries are state updates of one entity. *)
Definition unique_state (q : list QueuedMessage) : Prop :=
  forall i j m m' eid, q !! i = Some m -> q !! j = Some m' -> eid <> 0 ->
    state_of eid m = true -> state_of eid m' = true -> i = j.

Definition wf (ch : channel) : Prop :=
  RingBuffer.wf QUEUE_SIZE (send_queue_ ch) /\ is_u16 (send_seq_ ch) /\
  unique_state (qlist ch).

(** The reference: a list of at most 256 messages and a message counter.  A
    state update replaces every pending update of its entity; any other message
    is appended under the next number, or refused when 256 are pending. *)
Inductive queue_op : Type :=
  | QSend (data : bytes) (flags : Z)
  | QState (data : bytes) (flags eid : Z)
  | QDequeue.
Inductive queue_out : Type := QBool (b : bool) | QMsg (m : option QueuedMessage).

Definition ref_append (s : list QueuedMessage * Z) (data : bytes) (flags eid : Z)
    : bool * (list QueuedMessage * Z) :=
  let '(q, n) := s in
  if QUEUE_SIZE <=? zlen q then (false, s)
  else (true, (q ++ [mkQueued data (u16 n) eid flags true], n + 1)).
Definition ref_send (s : list QueuedMessage * Z) (data : bytes) (flags eid : Z)
    : bool * (list QueuedMessage * Z) :=
  let '(q, n) := s in
  if (zlen data <=? 0) || (NETUDP_MTU <? zlen data) then (false, s)
  else if has_flag flags NETUDP_SEND_STATE && negb (eid =? 0) && existsb (state_of eid) q
  then (true, ((fun m => if state_of eid m then overwrite data flags m else m) <$> q, n))
  else ref_append s data flags eid.

Definition ref_op (s : list QueuedMessage * Z) (o : queue_op)
    : queue_out * (list QueuedMessage * Z) :=
  match o with
  | QSend d f => let '(b, s) := ref_send s d f 0 in (QBool b, s)
  | QState d f e => let '(b, s) := ref_send s d (Z.lor f NETUDP_SEND_STATE) e in (QBool b, s)
  | QDequeue => match s with
                | ([], n) => (QMsg None, s)
                | (m :: q, n) => (QMsg (Some m), (q, n))
                end
  end.
Definition chan_op (ch : channel) (o : queue_op) : queue_out * channel :=
  match o with
  | QSend d f => let '(b, ch) := queue_send ch d f in (QBool b, ch)
  | QState d f e => let '(b, ch) := queue_send_state ch d f e in (QBool b, ch)
  | QDequeue => let '(m, ch) := dequeue_send ch in (QMsg m, ch)
  end.
Fixpoint chan_run (ch : channel) (os : list queue_op) : list queue_out * channel :=
  match os with
  | [] => ([], ch)
  | o :: os => let '(r, ch) := chan_op ch o in
               let '(rs, ch) := chan_run ch os in (r :: rs, ch)
  end.
Fixpoint ref_run (s : list QueuedMessage * Z) (os : list queue_op)
    : list queue_out * (list QueuedMessage * Z) :=
  match os with
  | [] => ([], s)
  | o :: os => let '(r, s) := ref_op s o in
               let '(rs, s) := ref_run s os in (r :: rs, s)
  end.

Definition refines (ch : channel) (s : list QueuedMessage * Z) : Prop :=
  wf ch /\ qlist ch = s.1 /\ send_seq_ ch = u16 s.2.

(** The scan finds the pending update of the entity when there is one. *)
Lemma find_state_spec q eid n :
  RingBuffer.wf QUEUE_SIZE q -> (Z.of_nat n <= size_ q) ->
  match find_state q eid n with
  | Some i => 0 <= i < Z.of_nat n /\ state_of eid (RingBuffer.index QUEUE_SIZE q i) = true
  | None => forall i, 0 <= i < Z.of_nat n ->
              state_of eid (RingBuffer.index QUEUE_SIZE q i) = false
  end.
Proof.
  intros Hq. induction n as [|i IH]; intros Hn; cbn [find_state]; [intros; lia|].
  destruct (state_of eid (RingBuffer.index QUEUE_SIZE q (Z.of_nat i))) eqn:E.
  - split; [lia|done].
  - specialize (IH ltac:(lia)). destruct (find_state q eid i).
    + destruct IH. split; [lia|done].
    + intros j Hj. destruct (decide (j = Z.of_nat i)) as [->|]; [done|]. apply IH. lia.
Qed.

Lemma unique_overwrite q eid data flags :
  unique_state q -> has_flag flags NETUDP_SEND_STATE = true ->
  unique_state ((fun m => if state_of eid m then overwrite data flags m else m) <$> q).
Proof.
  intros Hu Hf i j m m' e Hi Hj He Hm Hm'.
  rewrite list_lookup_fmap in Hi, Hj.
  destruct (q !! i) as [a|] eqn:Ei, (q !! j) as [b|] eqn:Ej; simplify_eq/=.
  assert (forall x, state_of e (if state_of eid x then overwrite data flags x else x) = true ->
            state_of e x = true) as Hsame.
  { intros x. destruct (state_of eid x) eqn:Ex; [|done]. unfold state_of in *; cbn.
    bool_facts. intros Hx. bool_facts. rewrite (proj2 (Z.eqb_eq _ _)) by done. cbn.
    done. }
  apply (Hu i j a b e); auto.
Qed.

Lemma unique_snoc q eid data seq flags :
  unique_state q ->
  (has_flag flags NETUDP_SEND_STATE = true -> eid <> 0 -> existsb (state_of eid) q = false) ->
  unique_state (q ++ [mkQueued data seq eid flags true]).
Proof.
  intros Hu Hn. set (x := mkQueued data seq eid flags true).
  assert (forall i j m e, q !! i = Some m -> [x] !! j = Some x -> e <> 0 ->
    state_of e m = true -> state_of e x = true -> False) as Hno.
  { intros i j m e Hi _ He Hm Hx. unfold state_of in Hx; cbn in Hx. bool_facts. subst e.
    assert (existsb (state_of eid) q = true) as Hex; [|rewrite Hn in Hex; done].
    apply existsb_exists. exists m. split; [|done].
    apply list_elem_of_In. by eapply list_elem_of_lookup_2. }
  intros i j m m' e Hi Hj He Hm Hm'.
  apply lookup_app_Some in Hi as [Hi|[Hi1 Hi]]; apply lookup_app_Some in Hj as [Hj|[Hj1 Hj]].
  - by apply (Hu i j m m' e).
  - apply list_lookup_singleton_Some in Hj as [Hj ->]. exfalso.
    by apply (Hno i (j - length q)%nat m e); rewrite ?Hj.
  - apply list_lookup_singleton_Some in Hi as [Hi ->]. exfalso.
    by apply (Hno j (i - length q)%nat m' e); rewrite ?Hi.
  - apply list_lookup_singleton_Some in Hi as [Hi _], Hj as [Hj _]. lia.
Qed.

Lemma unique_tail m q : unique_state (m :: q) -> unique_state q.
Proof.
  intros Hu i j a b e Hi Hj He Ha Hb.
  by injection (Hu (S i) (S j) a b e Hi Hj He Ha Hb).
Qed.

(** Replacing the unique matching entry is mapping over the list. *)
Lemma overwrite_unique q eid (f : QueuedMessage -> QueuedMessage) i m :
  unique_state q -> eid <> 0 -> q !! i = Some m -> state_of eid m = true ->
  (fun m => if state_of eid m then f m else m) <$> q = <[i := f m]> q.
Proof.
  intros Hu He Hi Hm. apply list_eq. intros j. rewrite list_lookup_fmap.
  destruct (decide (i = j)) as [<-|Hne].
  - rewrite Hi, list_lookup_insert_eq by (by eapply lookup_lt_Some). cbn. by rewrite Hm.
  - rewrite list_lookup_insert_ne by done. destruct (q !! j) as [b|] eqn:Ej; cbn; [|done].
    destruct (state_of eid b) eqn:Eb; [|done]. exfalso. apply Hne. by apply (Hu i j m b eid).
Qed.

Lemma find_state_exists ch eid :
  wf ch ->
  existsb (state_of eid) (qlist ch)
  = match find_state (send_queue_ ch) eid (Z.to_nat (RingBuffer.size (send_queue_ ch))) with
    | Some _ => true | None => false end.
Proof.
  intros (Hq & _ & _). pose proof Hq as (_ & _ & Hs).
  pose proof (find_state_spec (send_queue_ ch) eid
    (Z.to_nat (RingBuffer.size (send_queue_ ch))) Hq) as Hf.
  unfold RingBuffer.size in *. rewrite Z2Nat.id in Hf by lia. specialize (Hf ltac:(lia)).
  destruct (find_state _ _ _) as [i|].
  - destruct Hf as [Hi Hm]. apply existsb_exists. eexists. split; [|done].
    apply list_elem_of_In. eapply list_elem_of_lookup_2.
    by apply RingBuffer.contents_lookup.
  - apply not_true_is_false. intros (m & Hin & Hm)%existsb_exists.
    apply list_elem_of_In, list_elem_of_lookup_1 in Hin as [j Hj].
    pose proof (lookup_lt_Some _ _ _ Hj) as Hlt.
    pose proof (RingBuffer.contents_length QUEUE_SIZE _ Hq) as Hlen.
    unfold qlist, zlen in *. rewrite <- (Nat2Z.id j) in Hj.
    rewrite RingBuffer.contents_lookup in Hj by (done || lia).
    injection Hj as <-. rewrite Hf in Hm by lia. done.
Qed.

Lemma append_refines ch s data flags eid :
  refines ch s ->
  (has_flag flags NETUDP_SEND_STATE = true -> eid <> 0 ->
     existsb (state_of eid) (qlist ch) = false) ->
  fst (queue_append ch data flags eid) = fst (ref_append s data flags eid) /\
  refines (snd (queue_append ch data flags eid)) (snd (ref_append s data flags eid)).
Proof.
  intros (Hwf & Hq & Hn) Hb. destruct s as [q n]; cbn in Hq, Hn. subst q.
  pose proof Hwf as (Hrb & Hs & Hu). pose proof Hrb as (_ & _ & Hsz).
  pose proof (RingBuffer.contents_length QUEUE_SIZE _ Hrb) as Hlen.
  change (RingBuffer.contents QUEUE_SIZE (send_queue_ ch)) with (qlist ch) in Hlen.
  unfold queue_append, ref_append. rewrite Hlen. unfold RingBuffer.full.
  destruct (decide (size_ (send_queue_ ch) = QUEUE_SIZE)) as [Hfull|Hroom].
  - rewrite Hfull, Z.eqb_refl, Z.leb_refl. by split_and!.
  - rewrite (proj2 (Z.eqb_neq _ _) Hroom), (proj2 (Z.leb_gt _ _)) by lia.
    destruct (RingBuffer.push_back_spec QUEUE_SIZE queue_pow2 (send_queue_ ch)
      (mkQueued data (send_seq_ ch) eid flags true) Hrb ltac:(lia)) as (rb & E & Hrb' & Hc).
    rewrite E. split; [done|]. unfold refines, wf, qlist in *. cbn.
    rewrite Hc, Hn, u16_succ. split_and!; try done; try apply u16_range.
    by apply unique_snoc.
Qed.

Lemma queue_send_refines ch s data flags eid :
  refines ch s ->
  (fst (queue_send_impl ch data flags eid) = fst (ref_send s data flags eid)) /\
  refines (snd (queue_send_impl ch data flags eid)) (snd (ref_send s data flags eid)).
Proof.
  intros (Hwf & Hq & Hn). destruct s as [q n]; cbn in Hq, Hn.
  pose proof Hwf as (Hrb & Hs & Hu). pose proof Hrb as (_ & _ & Hsz).
  pose proof (find_state_exists ch eid Hwf) as Hex.
  unfold queue_send_impl, ref_send. case_if; [by split_and!|]. subst q. rewrite Hex.
  assert (refines ch (qlist ch, n)) as Hr by by split_and!.
  destruct (has_flag flags NETUDP_SEND_STATE) eqn:Hf; cbn [andb];
    [|by apply append_refines; [|congruence]].
  destruct (eid =? 0) eqn:He; cbn [andb negb]; bool_facts; [by apply append_refines|].
  pose proof (find_state_spec (send_queue_ ch) eid
    (Z.to_nat (RingBuffer.size (send_queue_ ch))) Hrb) as Hfs.
  unfold RingBuffer.size in *. rewrite Z2Nat.id in Hfs by lia. specialize (Hfs ltac:(lia)).
  destruct (find_state _ _ _) as [i|]; [|by apply append_refines].
  destruct Hfs as [Hi Hm]. pose proof (RingBuffer.contents_lookup QUEUE_SIZE _ i Hrb Hi) as Hl.
  split; [done|]. cbn [snd].
  destruct (RingBuffer.index_set_spec QUEUE_SIZE queue_pow2 (send_queue_ ch) i
    (overwrite data flags (RingBuffer.index QUEUE_SIZE (send_queue_ ch) i)) Hrb Hi) as [Hw' Hc'].
  pose proof (overwrite_unique (qlist ch) eid (overwrite data flags) _ _ Hu He Hl Hm) as Hov.
  unfold refines, wf, qlist in *. cbn. rewrite Hc', <- Hov.
  split_and!; try done. by apply unique_overwrite.
Qed.

Lemma dequeue_refines ch s :
  refines ch s ->
  let '(m, ch') := dequeue_send ch in
  QMsg m = fst (ref_op s QDequeue) /\ refines ch' (snd (ref_op s QDequeue)).
Proof.
  intros (Hwf & Hq & Hn). destruct s as [q n]; cbn in Hq, Hn.
  pose proof Hwf as (Hrb & Hs & Hu). pose proof Hrb as (_ & _ & Hsz).
  pose proof (RingBuffer.contents_length QUEUE_SIZE _ Hrb) as Hlen.
  unfold dequeue_send, RingBuffer.is_empty. case_if.
  - assert (q = []) as ->.
    { rewrite <- Hq. apply nil_length_inv. unfold qlist, zlen in *. lia. }
    by split_and!.
  - destruct (RingBuffer.pop_front_spec QUEUE_SIZE queue_pow2 (send_queue_ ch) Hrb ltac:(lia))
      as (x & rb & -> & Hrb' & Hc).
    unfold qlist in *. rewrite Hc in Hq. subst q. cbn. split; [done|].
    unfold refines, wf, qlist. cbn. split_and!; try done.
    eapply unique_tail. rewrite Hc in Hu. exact Hu.
Qed.

Lemma chan_op_refines ch s o :
  refines ch s ->
  fst (chan_op ch o) = fst (ref_op s o) /\ refines (snd (chan_op ch o)) (snd (ref_op s o)).
Proof.
  intros Hr. destruct o as [d f|d f e|].
  - destruct (queue_send_refines ch s d f 0 Hr) as [H1 H2]. cbn. unfold queue_send.
    destruct (queue_send_impl ch d f 0), (ref_send s d f 0). cbn in *. by subst.
  - destruct (queue_send_refines ch s d (Z.lor f NETUDP_SEND_STATE) e Hr) as [H1 H2].
    cbn [chan_op ref_op]. unfold queue_send_state.
    destruct (queue_send_impl _ _ _ _), (ref_send _ _ _ _). cbn in *. by subst.
  - pose proof (dequeue_refines ch s Hr) as Hd. cbn [chan_op].
    destruct (dequeue_send ch) as [m ch']. destruct Hd as [-> Hr']. done.
Qed.

Lemma chan_run_refines ch s os :
  refines ch s ->
  fst (chan_run ch os) = fst (ref_run s os) /\
  refines (snd (chan_run ch os)) (snd (ref_run s os)).
Proof.
  revert ch s. induction os as [|o os IH]; intros ch s Hr; [done|]. cbn [chan_run ref_run].
  destruct (chan_op_refines ch s o Hr) as [H1 H2].
  destruct (chan_op ch o) as [r ch'], (ref_op s o) as [r' s']. cbn in H1, H2. subst r'.
  destruct (IH ch' s' H2) as [H3 H4].
  destruct (chan_run ch' os), (ref_run s' os). cbn in *. by subst.
Qed.

(** Sending keeps a channel well formed. *)
Lemma queue_send_impl_wf ch data flags eid : wf ch -> wf (snd (queue_send_impl ch data flags eid)).
Proof.
  intros Hwf. apply (queue_send_refines ch (qlist ch, send_seq_ ch) data flags eid).
  split; [done|]. split; [done|]. symmetry. apply u16_small, Hwf.
Qed.
Lemma start_nagle_wf ch now : wf ch -> wf (start_nagle ch now).
Proof. unfold start_nagle. by case_if. Qed.
Lemma flush_wf ch : wf ch -> wf (flush ch).
Proof. done. Qed.

Lemma init_refines ch i cfg :
  RingBuffer.wf QUEUE_SIZE (send_queue_ ch) -> refines (init ch i cfg) ([], 0).
Proof.
  intros Hw. split; [|done]. split; [|split; [done|]].
  - by apply (RingBuffer.clear_wf QUEUE_SIZE queue_pow2).
  - intros ? ? ? ? ? Hl. done.
Qed.

(** C35.  A channel's send queue behaves as the reference queue for every
    sequence of operations: message sizes outside 1..1200 and a full queue are
    refused without effect, accepted messages come out in order under
    consecutive numbers, and of the state updates of one entity only the newest
    is pending, in the place of the first. *)
Theorem channel_refines_queue i cfg (os : list queue_op) :
  let ch0 := init inhabitant i cfg in
  fst (chan_run ch0 os) = fst (ref_run ([], 0) os) /\
  unique_state (qlist (snd (chan_run ch0 os))).
Proof.
  intros ch0. assert (refines ch0 ([], 0)) as Hr by (apply init_refines; by vm_compute).
  destruct (chan_run_refines ch0 _ os Hr) as [H1 ((_ & _ & H2) & _)]. done.
Qed.

(** * The scheduler *)

(** [i] is the chosen channel: pending, of the highest priority, and the first
    such; -1 when nothing is pending. *)
Definition best_pending (channels : list channel) (n : Z) (now : double) (i : Z) : Prop :=
  (i = -1 /\ forall j, 0 <= j < n -> has_pending channels.[j] now = false) \/
  (0 <= i < n /\ has_pending channels.[i] now = true /\
   forall j, 0 <= j < n -> has_pending channels.[j] now = true ->
     priority channels.[j] <= priority channels.[i] /\
     (priority channels.[j] = priority channels.[i] -> i <= j)).

Definition picked (channels : list channel) (now : double) (n : Z) (b : Z * Z) : Prop :=
  best_pending channels n now b.1 /\ (0 <= b.1 -> b.2 = priority channels.[b.1]).

Lemma picked_step channels now n b :
  0 <= n -> picked channels now n b ->
  picked channels now (n + 1)
    (if has_pending channels.[n] now then pick channels b n else b).
Proof.
  intros Hn [Hb Hp]. destruct b as [best bp]; cbn [fst snd] in *.
  destruct (has_pending channels.[n] now) eqn:Hpn.
  - assert (forall j, 0 <= j < n + 1 -> j = n \/ 0 <= j < n) as Hcase by lia.
    unfold pick. destruct ((best <? 0) || _) eqn:E.
    + split; [|done]. right. cbn. split_and!; [lia|lia|done|].
      intros j Hj Hpj. destruct (Hcase j Hj) as [->|Hj']; [lia|].
      destruct Hb as [[-> Hnone]|(Hr & _ & Hmax)]; [by rewrite Hnone in Hpj|].
      specialize (Hmax j Hj' Hpj). rewrite Hp in E by lia. bool_facts.
      apply orb_true_iff in E as [E|E]; bool_facts; lia.
    + bool_facts. destruct Hb as [[-> Hnone]|(Hr & Hpb & Hmax)]; [lia|].
      rewrite Hp in * by lia. split; [|done]. right. cbn. split_and!; [lia|lia|done|].
      intros j Hj Hpj. destruct (Hcase j Hj) as [->|Hj']; [lia|]. by apply Hmax.
  - split; [|done]. cbn. destruct Hb as [[-> Hnone]|(Hr & Hpb & Hmax)].
    + left. split; [done|]. intros j Hj.
      destruct (decide (j = n)) as [->|]; [done|apply Hnone; lia].
    + right. split_and!; [lia|lia|done|]. intros j Hj Hpj.
      destruct (decide (j = n)) as [->|]; [congruence|]. apply Hmax; [lia|done].
Qed.

Lemma next_channel_picked channels now (n : nat) :
  picked channels now (Z.of_nat n)
    (foldl (fun b i => if has_pending channels.[i] now then pick channels b i else b)
       (-1, 0) (seqZ 0 (Z.of_nat n))).
Proof.
  induction n as [|n IH].
  - split; [left; split; [done|lia]|done].
  - replace (Z.of_nat (S n)) with (Z.of_nat n + 1) by lia.
    rewrite seqZ_snoc, foldl_app by lia. cbn [foldl]. rewrite Z.add_0_l.
    apply picked_step; [lia|done].
Qed.

(** A mask covers the pending channels when it has the bit of each. *)
Definition covers (channels : list channel) (n : Z) (now : double) (mask : Z) : Prop :=
  forall i, 0 <= i < n -> has_pending channels.[i] now = true -> Z.testbit mask i = true.

(** The new mask keeps the marked channels that are pending, and no channel is
    picked only when there is none. *)
Lemma fast_fold_marked channels now mask (n : nat) :
  Z.of_nat n <= 8 ->
  let r := foldl (fast_step channels now mask) ((-1, 0), 0) (seqZ 0 (Z.of_nat n)) in
  (forall j, 0 <= j ->
     Z.testbit r.2 j = (j <? Z.of_nat n) && (Z.testbit mask j && has_pending channels.[j] now)) /\
  (r.1.1 = -1 -> forall j, 0 <= j < Z.of_nat n ->
     Z.testbit mask j && has_pending channels.[j] now = false).
Proof.
  induction n as [|m IH]; intros Hn; cbn zeta.
  { split; [|lia]. intros j Hj. rewrite (proj2 (Z.ltb_ge j _)) by lia. apply Z.bits_0. }
  specialize (IH ltac:(lia)). replace (Z.of_nat (S m)) with (Z.of_nat m + 1) in * by lia.
  rewrite seqZ_snoc, foldl_app by lia. cbn [foldl]. rewrite Z.add_0_l. cbn zeta in IH.
  destruct (foldl (fast_step _ _ _) _ _) as [[b p] nm]. cbn [fst snd] in IH. destruct IH as [H1 H2].
  unfold fast_step. rewrite bit_set_testbit by lia.
  assert (forall j, (j <? Z.of_nat m + 1) = (j <? Z.of_nat m) || (j =? Z.of_nat m)) as Hlt by lia.
  destruct (Z.testbit mask (Z.of_nat m) && has_pending channels.[Z.of_nat m] now) eqn:E.
  - apply andb_true_iff in E as [Em Ep]. rewrite Em, Ep. cbn [negb fst snd]. split.
    + intros j Hj.
      rewrite u8_small by (unfold is_u8; rewrite Z.shiftl_1_l; split; [lia|apply Z.pow_lt_mono_r; lia]).
      rewrite testbit_setbit_lor, H1, Hlt by lia. destruct (j =? Z.of_nat m) eqn:Ej; bool_facts.
      * subst. by rewrite Em, Ep, !orb_true_r.
      * by rewrite !orb_false_r.
    + intros Eb. exfalso. revert Eb. unfold pick. case_if; cbn [fst]; [lia|]. intros ->. done.
  - assert ((if negb (Z.testbit mask (Z.of_nat m)) then (b, p, nm)
             else if has_pending channels.[Z.of_nat m] now
                  then (pick channels (b, p) (Z.of_nat m), Z.lor nm (u8 (Z.shiftl 1 (Z.of_nat m))))
                  else (b, p, nm)) = (b, p, nm)) as ->.
    { apply andb_false_iff in E as [->| ->]; [done|by destruct (negb _)]. }
    cbn [fst snd]. split.
    + intros j Hj. rewrite H1, Hlt by lia. destruct (j =? Z.of_nat m) eqn:Ej; bool_facts.
      * subst. by rewrite E, !andb_false_r.
      * by rewrite orb_false_r.
    + intros Eb j Hj. destruct (decide (j = Z.of_nat m)) as [->|]; [done|]. apply H2; [done|lia].
Qed.

(** With a mask that has the pending channels, the fast path picks as the plain one. *)
Lemma fast_fold channels now mask (n : nat) :
  covers channels (Z.of_nat n) now mask ->
  (foldl (fast_step channels now mask) ((-1, 0), 0) (seqZ 0 (Z.of_nat n))).1
  = foldl (fun b i => if has_pending channels.[i] now then pick channels b i else b)
      (-1, 0) (seqZ 0 (Z.of_nat n)).
Proof.
  induction n as [|m IH]; intros Hc; [done|].
  replace (Z.of_nat (S m)) with (Z.of_nat m + 1) in * by lia.
  rewrite seqZ_snoc, !foldl_app by lia. cbn [foldl]. rewrite Z.add_0_l.
  rewrite <- IH by (intros i Hi; apply Hc; lia).
  destruct (foldl (fast_step _ _ _) _ _) as [b nm]. cbn [fst snd]. unfold fast_step.
  rewrite bit_set_testbit by lia. destruct (has_pending channels.[Z.of_nat m] now) eqn:Hp.
  - assert (Z.testbit mask (Z.of_nat m) = true) as -> by (apply Hc; [lia|done]). done.
  - by destruct (negb _).
Qed.

(** C36.  The scheduler picks the first channel of highest priority among the
    pending ones, and the mask-driven fast path picks the same channel whenever
    the mask has the bits of the pending channels; its new mask has exactly the
    bits of the pending channels.  Among channels of equal priority the lowest number
    wins every time: the weights of the configuration are not consulted. *)
Theorem scheduler_picks_best channels n now mask :
  0 <= n <= 8 -> covers channels n now mask ->
  best_pending channels n now (next_channel channels n now) /\
  fst (next_channel_fast channels n now mask) = next_channel channels n now /\
  (mask <> 0 -> forall j, 0 <= j ->
     Z.testbit (snd (next_channel_fast channels n now mask)) j
     = (j <? n) && has_pending channels.[j] now).
Proof.
  intros Hn Hc. pose proof (next_channel_picked channels now (Z.to_nat n)) as [Hb _].
  rewrite Z2Nat.id in Hb by lia.
  change (fst (foldl _ _ _)) with (next_channel channels n now) in Hb.
  split; [done|]. unfold next_channel_fast. destruct (mask =? 0) eqn:Em; bool_facts.
  - subst. split; [|done]. destruct Hb as [[-> _]|(Hr & Hp & _)]; [done|].
    specialize (Hc _ Hr Hp). by rewrite Z.bits_0 in Hc.
  - rewrite Z.min_l by lia. rewrite <- (Z2Nat.id n) in * by lia.
    pose proof (fast_fold channels now mask _ Hc) as H1.
    destruct (fast_fold_marked channels now mask (Z.to_nat n) ltac:(lia)) as [H2 _].
    destruct (foldl (fast_step _ _ _) _ _) as [b nm]. cbn [fst snd] in *.
    split; [unfold next_channel; by rewrite <- H1|]. intros _ j Hj. rewrite H2 by done.
    destruct (j <? Z.of_nat (Z.to_nat n)) eqn:Ej; [bool_facts|done].
    destruct (has_pending channels.[j] now) eqn:Ep; [|by rewrite andb_false_r].
    by rewrite (Hc j).
Qed.

Definition demo_channel (prio : Z) : channel :=
  snd (queue_send (init inhabitant 0 (mkChannelConfig 0 prio 0 0)) [1] 0).
Lemma scheduler_picks_best_witness :
  covers [demo_channel 1; demo_channel 7] 2 d0 3 /\
  fst (next_channel_fast [demo_channel 1; demo_channel 7] 2 d0 3) = 1 /\
  fst (next_channel_fast [demo_channel 1; demo_channel 7] 2 d0 3)
  = next_channel [demo_channel 1; demo_channel 7] 2 d0.
Proof.
  assert (covers [demo_channel 1; demo_channel 7] 2 d0 3) as Hc.
  { intros i Hi _. assert (i = 0 \/ i = 1) as [->| ->] by lia; by vm_compute. }
  split; [done|]. split; [by vm_compute|].
  apply (scheduler_picks_best [demo_channel 1; demo_channel 7] 2 d0 3); [lia|done].
Defined.

(** The fast path also clears the bit of a channel whose messages only wait for
    their Nagle timer: the queue has not drained, and later rounds skip it. *)
Lemma fast_path_forgets_nagle :
  let ch := start_nagle (snd (queue_send
    (init inhabitant 0 (mkChannelConfig 0 0 0 10)) [1] 0)) (d_of_Z 1) in
  snd (next_channel_fast [ch] 1 (d_of_Z 1) 1) = 0 /\ send_queue_size ch = 1 /\
  has_pending ch (d_of_Z 2) = true /\
  fst (next_channel_fast [ch] 1 (d_of_Z 2) (snd (next_channel_fast [ch] 1 (d_of_Z 1) 1))) = -1.
Proof. by vm_compute. Qed.

(** ** What the senders rely on *)

(** A pending channel has a first message, and taking it keeps the channel's kind. *)
Lemma dequeue_pending ch now :
  wf ch -> has_pending ch now = true ->
  exists q ch', dequeue_send ch = (Some q, ch') /\ wf ch' /\ qlist ch = q :: qlist ch' /\
    config_ ch' = config_ ch /\ nagle_threshold_sec_ ch' = nagle_threshold_sec_ ch.
Proof.
  intros Hwf Hp.
  pose proof Hwf as (Hq & Hs & Hu).
  unfold has_pending in Hp. unfold dequeue_send. destruct (RingBuffer.is_empty _) eqn:E0; [done|].
  unfold RingBuffer.is_empty in E0. bool_facts. pose proof Hq as (_ & _ & Hsz).
  destruct (RingBuffer.pop_front_spec QUEUE_SIZE queue_pow2 (send_queue_ ch) Hq ltac:(lia))
    as (x & rb & -> & Hrb & Hc).
  exists x, (set_nagle ch d0 false rb). split; [done|]. unfold qlist. cbn [send_queue_ set_nagle].
  split; [|done]. split; [done|]. split; [done|]. unfold qlist in *. cbn. rewrite Hc in Hu.
  by eapply unique_tail.
Qed.

Lemma fast_fold_range channels now mask (n : nat) :
  let b := (foldl (fast_step channels now mask) ((-1, 0), 0) (seqZ 0 (Z.of_nat n))).1 in
  b.1 = -1 \/ 0 <= b.1 < Z.of_nat n /\ has_pending channels.[b.1] now = true.
Proof.
  induction n as [|n IH]; cbn zeta; [by left|].
  replace (Z.of_nat (S n)) with (Z.of_nat n + 1) by lia.
  rewrite seqZ_snoc, foldl_app by lia. cbn [foldl]. rewrite Z.add_0_l.
  destruct (foldl (fast_step _ _ _) _ _) as [[best p] nm]. cbn [fst snd] in *.
  unfold fast_step. case_if; [cbn [fst]; destruct IH as [|[? ?]]; [by left|right; split; [lia|done]]|].
  case_if; cbn [fst].
  - unfold pick. case_if; cbn [fst]; [right; split; [lia|done]|].
    destruct IH as [|[? ?]]; [by left|right; split; [lia|done]].
  - destruct IH as [|[? ?]]; [by left|right; split; [lia|done]].
Qed.

Lemma next_channel_fast_range channels n now mask :
  let i := fst (next_channel_fast channels n now mask) in
  i = -1 \/ 0 <= i < n /\ has_pending channels.[i] now = true.
Proof.
  unfold next_channel_fast. case_if; [by left|].
  destruct (decide (0 <= Z.min n 8)) as [Hn|Hn].
  - pose proof (fast_fold_range channels now mask (Z.to_nat (Z.min n 8))) as H.
    rewrite Z2Nat.id in H by done. cbn zeta in H.
    destruct (foldl _ _ _) as [b nm]. cbn [fst] in *. destruct H as [|[? ?]]; [by left|right; split; [lia|done]].
  - unfold seqZ. replace (Z.to_nat (Z.min n 8)) with 0%nat by lia. by left.
Qed.
Lemma next_channel_range channels n now :
  best_pending channels (Z.max n 0) now (next_channel channels n now).
Proof.
  unfold next_channel. pose proof (next_channel_picked channels now (Z.to_nat n)) as [H _].
  destruct (decide (0 <= n)).
  - rewrite Z2Nat.id in H by done. by rewrite Z.max_l by lia.
  - rewrite Z.max_r by lia. unfold seqZ in *. replace (Z.to_nat n) with 0%nat in * by lia. exact H.
Qed.

(** The fast path serves the channels its mask has: a channel that is marked if it is
    pending stays so, and -1 means that it is not pending. *)
Lemma next_channel_fast_quiet channels n now mask j :
  n <= 8 -> 0 <= j < n -> (has_pending channels.[j] now = true -> Z.testbit mask j = true) ->
  let '(i, mask') := next_channel_fast channels n now mask in
  (has_pending channels.[j] now = true -> Z.testbit mask' j = true) /\
  (i = -1 -> has_pending channels.[j] now = false).
Proof.
  intros Hn Hj Hc. unfold next_channel_fast. case_if.
  - subst mask. split; [done|]. intros _. destruct (has_pending channels.[j] now); [|done].
    specialize (Hc eq_refl). by rewrite Z.bits_0 in Hc.
  - rewrite Z.min_l by lia. destruct (fast_fold_marked channels now mask (Z.to_nat n) ltac:(lia)) as [H1 H2].
    rewrite !Z2Nat.id in * by lia. destruct (foldl _ _ _) as [b nm]. cbn [fst snd] in *. split.
    + intros Hp. rewrite H1, Hc, Hp, (proj2 (Z.ltb_lt _ _)) by (done || lia). done.
    + intros E1. specialize (H2 E1 j Hj). destruct (has_pending channels.[j] now); [|done].
      by rewrite Hc in H2.
Qed.

End Channel.
