(* ===== verification/Fragment.v ===== *)
(** Fragmentation and reassembly (src/src/fragment/fragment.h).

    A reassembler has sixteen trackers, each with a buffer, a bitmask of the
    fragments it holds and their sizes.  [None] is undefined behaviour: a store
    outside the buffer or the array, or through a null buffer. *)

From S2P Require Import Prelude Bytes Double.

Module Fragment.

Definition MAX_FRAGMENT_COUNT : Z := 255.
Definition FRAGMENT_HEADER_SIZE : Z := 4.
Definition MAX_CONCURRENT_REASSEMBLIES : Z := 16.
Definition FRAGMENT_TIMEOUT_SEC : double := d_of_Z 5.

Record FragmentHeader : Type := mkHeader {
  h_message_id : Z; h_fragment_index : Z; h_fragment_count : Z }.

Definition write_fragment_header (hdr : FragmentHeader) (buf : bytes) (pos : Z)
    : option (Z * bytes) :=
  buf ← mwrite buf pos (le_bytes 2 (h_message_id hdr));
  buf ← mwrite buf (pos + 2) [h_fragment_index hdr];
  buf ← mwrite buf (pos + 3) [h_fragment_count hdr];
  Some (FRAGMENT_HEADER_SIZE, buf).
Definition read_fragment_header (buf : bytes) (pos : Z) : option FragmentHeader :=
  id ← mread_u buf pos 2;
  i ← oget buf (pos + 2);
  n ← oget buf (pos + 3);
  Some (mkHeader id i n).

(** The sum is one of [int]s; overflowing it is undefined. *)
Definition calc_fragment_count (message_size max_fragment_payload : Z) : option Z :=
  if (message_size <=? 0) || (max_fragment_payload <=? 0) then Some (-1)
  else
    _ ← guard_ub (message_size + max_fragment_payload <? 2 ^ 31);
    let count := (message_size + max_fragment_payload - 1) / max_fragment_payload in
    if MAX_FRAGMENT_COUNT <? count then Some (-1) else Some count.

(** ** One tracker *)

Record FragmentTracker : Type := mkTracker {
  message_id : Z;
  total_fragments : Z;
  received_count : Z;
  received_mask : list Z;
  first_recv_time : double;
  last_recv_time : double;
  active : bool;
  buffer : option bytes;
  buffer_capacity : Z;
  fragment_sizes : list Z
}.
(** [FragmentTracker{}]. *)
#[global] Instance tracker_inhabited : Inhabited FragmentTracker :=
  populate (mkTracker 0 0 0 (replicate 32 0) d0 d0 false None 0
              (replicate (Z.to_nat MAX_FRAGMENT_COUNT) 0)).

Definition is_complete (t : FragmentTracker) : bool := received_count t =? total_fragments t.
Definition has_fragment (t : FragmentTracker) (index : Z) : bool :=
  bit_set (received_mask t).[index / 8] (index mod 8).
Definition mark_fragment (t : FragmentTracker) (index : Z) : FragmentTracker :=
  if has_fragment t index then t
  else
    mkTracker (message_id t) (total_fragments t) (u8 (received_count t + 1))
      (aset (received_mask t) (index / 8)
         (Z.lor (received_mask t).[index / 8] (u8 (Z.shiftl 1 (index mod 8)))))
      (first_recv_time t) (last_recv_time t) (active t) (buffer t) (buffer_capacity t)
      (fragment_sizes t).

Definition next_missing (t : FragmentTracker) : Z :=
  match list_find (fun i => has_fragment t i = false) (seqZ 0 (total_fragments t)) with
  | Some (_, i) => i
  | None => -1
  end.
Definition total_message_size (t : FragmentTracker) : Z :=
  sumZ ((fun i => (fragment_sizes t).[i]) <$> seqZ 0 (total_fragments t)).

Definition tracker_reset (t : FragmentTracker) : FragmentTracker :=
  mkTracker 0 0 0 (replicate (length (received_mask t)) 0) d0 d0 false
    ((fun b : bytes => replicate (length b) 0) <$> buffer t) (buffer_capacity t)
    (replicate (length (fragment_sizes t)) 0).

(** ** The reassembler *)

Record reassembler : Type := mkReassembler {
  trackers_ : list FragmentTracker;
  max_message_size_ : Z
}.
#[global] Instance reassembler_inhabited : Inhabited reassembler :=
  populate (mkReassembler (replicate (Z.to_nat MAX_CONCURRENT_REASSEMBLIES) inhabitant)
              (64 * 1024)).

Definition set_tracker (r : reassembler) (i : Z) (t : FragmentTracker) : reassembler :=
  mkReassembler (aset (trackers_ r) i t) (max_message_size_ r).
Definition with_buffer (t : FragmentTracker) (b : option bytes) (cap : Z) : FragmentTracker :=
  mkTracker (message_id t) (total_fragments t) (received_count t) (received_mask t)
    (first_recv_time t) (last_recv_time t) (active t) b cap (fragment_sizes t).

Definition destroy (r : reassembler) : reassembler :=
  mkReassembler
    ((fun t => tracker_reset (with_buffer t None (buffer_capacity t))) <$> trackers_ r)
    (max_message_size_ r).

(** [alloc i] is what the [i]-th [new (std::nothrow) uint8_t[max_message_size]]
    gives: a buffer with some contents, or null. *)
Fixpoint init_from (alloc : Z -> option bytes) (r : reassembler) (slots : list Z)
    : bool * reassembler :=
  match slots with
  | [] => (true, r)
  | i :: slots =>
      let t := tracker_reset (trackers_ r).[i] in
      let t := with_buffer t (alloc i) (max_message_size_ r) in
      let r := set_tracker r i t in
      match alloc i with
      | None => (false, destroy r)
      | Some _ => init_from alloc r slots
      end
  end.
Definition init (alloc : Z -> option bytes) (r : reassembler) (max_message_size : Z)
    : bool * reassembler :=
  init_from alloc (mkReassembler (trackers_ r) max_message_size)
    (seqZ 0 MAX_CONCURRENT_REASSEMBLIES).

Definition find_tracker (r : reassembler) (id : Z) : option Z :=
  Z.of_nat ∘ fst <$> list_find (fun t => active t && (message_id t =? id) = true) (trackers_ r).

Definition allocate_tracker (r : reassembler) (id count : Z) (time : double)
    : option (Z * reassembler) :=
  match list_find (fun t => active t = false) (trackers_ r) with
  | None => None
  | Some (i, t) =>
      let t := tracker_reset t in
      Some (Z.of_nat i, set_tracker r (Z.of_nat i)
        (mkTracker id count (received_count t) (received_mask t) time (last_recv_time t)
           true (buffer t) (buffer_capacity t) (fragment_sizes t)))
  end.

(** A completed message: the tracker's buffer and [*out_size]. *)
Abbreviation completed := (option (bytes * Z)).

(** Storing a fragment of a found tracker, from the count check on. *)
Definition store_fragment (r : reassembler) (ti fragment_index fragment_count : Z)
    (fragment_data : bytes) (max_fragment_payload : Z) (time : double)
    : option (completed * reassembler) :=
  let t := (trackers_ r).[ti] in
  if negb (total_fragments t =? fragment_count) then Some (None, r)
  else if has_fragment t fragment_index then Some (None, r)
  else
    let offset := fragment_index * max_fragment_payload in
    if buffer_capacity t <? offset + zlen fragment_data then Some (None, r)
    else
      buf ← buffer t;
      buf ← mwrite buf offset fragment_data;
      sizes ← oset (fragment_sizes t) fragment_index (zlen fragment_data);
      let t := mkTracker (message_id t) (total_fragments t) (received_count t)
                 (received_mask t) (first_recv_time t) time (active t) (Some buf)
                 (buffer_capacity t) sizes in
      let t := mark_fragment t fragment_index in
      if is_complete t then
        let out_size := total_message_size t in
        let t' := mkTracker (message_id t) (total_fragments t) (received_count t)
                    (received_mask t) (first_recv_time t) (last_recv_time t) false
                    (buffer t) (buffer_capacity t) (fragment_sizes t) in
        Some (Some (buf, out_size), set_tracker r ti t')
      else Some (None, set_tracker r ti t).

Definition on_fragment_received (r : reassembler)
    (id fragment_index fragment_count : Z) (fragment_data : bytes)
    (max_fragment_payload : Z) (time : double) : option (completed * reassembler) :=
  if (fragment_count =? 0) || (fragment_count <=? fragment_index) then Some (None, r)
  else
    match find_tracker r id with
    | Some ti => store_fragment r ti fragment_index fragment_count fragment_data
                   max_fragment_payload time
    | None =>
        match allocate_tracker r id fragment_count time with
        | None => Some (None, r)
        | Some (ti, r) => store_fragment r ti fragment_index fragment_count fragment_data
                            max_fragment_payload time
        end
    end.

Definition timed_out (now : double) (t : FragmentTracker) : bool :=
  active t && dgt (dsub now (first_recv_time t)) FRAGMENT_TIMEOUT_SEC.
Definition cleanup_timeout (r : reassembler) (now : double) : Z * reassembler :=
  (zlen (filter (fun t => timed_out now t = true) (trackers_ r)),
   mkReassembler ((fun t => if timed_out now t then tracker_reset t else t) <$> trackers_ r)
     (max_message_size_ r)).

(** * Memory safety *)

Definition tracker_wf (t : FragmentTracker) : Prop :=
  length (received_mask t) = 32%nat /\ zlen (fragment_sizes t) = MAX_FRAGMENT_COUNT /\
  exists b, buffer t = Some b /\ zlen b = buffer_capacity t.
Definition wf (r : reassembler) : Prop :=
  zlen (trackers_ r) = MAX_CONCURRENT_REASSEMBLIES /\ Forall tracker_wf (trackers_ r).

Lemma tracker_reset_wf t : tracker_wf t -> tracker_wf (tracker_reset t).
Proof.
  intros (Hm & Hs & b & Hb & Hc). unfold tracker_wf, tracker_reset; cbn.
  rewrite Hb. cbn. rewrite length_replicate, zlen_replicate. split; [done|].
  split; [unfold zlen in Hs; lia|]. eexists. split; [done|].
  rewrite zlen_replicate. exact Hc.
Qed.
Lemma mark_fragment_wf t i : tracker_wf t -> tracker_wf (mark_fragment t i).
Proof.
  intros (Hm & Hs & Hb). unfold mark_fragment. case_if; [by split_and!|].
  unfold tracker_wf; cbn. rewrite length_aset. by split_and!.
Qed.
Lemma set_tracker_wf r i t : wf r -> tracker_wf t -> wf (set_tracker r i t).
Proof.
  intros [Hl Hf] Ht. unfold wf; cbn. rewrite zlen_aset. split; [done|].
  unfold aset. by apply Forall_insert.
Qed.
Lemma wf_get r i : wf r -> 0 <= i < MAX_CONCURRENT_REASSEMBLIES -> tracker_wf (trackers_ r).[i].
Proof.
  intros [Hl Hf] Hi. eapply Forall_lookup_1; [done|]. apply lookup_aget. lia.
Qed.

Lemma find_tracker_Some r id i :
  find_tracker r id = Some i ->
  0 <= i < zlen (trackers_ r) /\ active (trackers_ r).[i] = true /\
  message_id (trackers_ r).[i] = id /\
  forall j, 0 <= j < i -> active (trackers_ r).[j] && (message_id (trackers_ r).[j] =? id) = false.
Proof.
  unfold find_tracker. intros H. apply fmap_Some in H as ([k t] & Hf & ->).
  apply list_find_Some in Hf as (Hl & Ht & Hmin). cbn. bool_facts.
  pose proof (lookup_lt_Some _ _ _ Hl). unfold zlen.
  assert ((trackers_ r).[Z.of_nat k] = t) as Ek.
  { apply aget_Some; [lia|]. by rewrite Nat2Z.id. }
  rewrite Ek. split_and!; try done; try lia. intros j Hj.
  apply not_true_is_false. apply (Hmin (Z.to_nat j)); [|lia].
  apply lookup_aget. unfold zlen. lia.
Qed.
Lemma find_tracker_None r id :
  find_tracker r id = None ->
  forall j, 0 <= j < zlen (trackers_ r) ->
    active (trackers_ r).[j] && (message_id (trackers_ r).[j] =? id) = false.
Proof.
  unfold find_tracker. intros H j Hj. apply fmap_None, list_find_None in H.
  apply not_true_is_false. eapply Forall_lookup_1 in H; [exact H|]. by apply lookup_aget.
Qed.

Lemma allocate_tracker_Some r id n time i r' :
  allocate_tracker r id n time = Some (i, r') ->
  0 <= i < zlen (trackers_ r) /\ active (trackers_ r).[i] = false /\
  exists t, r' = set_tracker r i t /\ let t0 := tracker_reset (trackers_ r).[i] in
    t = mkTracker id n 0 (received_mask t0) time d0 true (buffer t0) (buffer_capacity t0)
          (fragment_sizes t0).
Proof.
  unfold allocate_tracker. destruct (list_find _ _) as [[k t]|] eqn:E; [|done].
  intros [= <- <-]. apply list_find_Some in E as (Hl & Ht & _).
  pose proof (lookup_lt_Some _ _ _ Hl). unfold zlen.
  assert ((trackers_ r).[Z.of_nat k] = t) as ->.
  { apply aget_Some; [lia|]. by rewrite Nat2Z.id. }
  split_and!; try done; try lia. eexists. split; [done|]. done.
Qed.
Lemma allocate_tracker_wf r id n time i r' :
  wf r -> allocate_tracker r id n time = Some (i, r') ->
  wf r' /\ 0 <= i < MAX_CONCURRENT_REASSEMBLIES.
Proof.
  intros Hw E. apply allocate_tracker_Some in E as (Hi & _ & t & -> & Ht).
  pose proof Hw as [Hl _]. rewrite Hl in Hi. split; [|done]. apply set_tracker_wf; [done|].
  pose proof (tracker_reset_wf _ (wf_get r i Hw Hi)) as Hr. rewrite Ht. exact Hr.
Qed.

Lemma store_fragment_safe r ti idx cnt data P time :
  wf r -> 0 <= ti < MAX_CONCURRENT_REASSEMBLIES -> 0 <= idx < cnt -> cnt <= 255 -> 0 <= P ->
  exists res r', store_fragment r ti idx cnt data P time = Some (res, r') /\ wf r'.
Proof.
  intros Hw Hti Hi Hc HP. unfold store_fragment.
  destruct (wf_get r ti Hw Hti) as (Hm & Hs & b & Hb & Hcap).
  case_if; [by eauto|]. case_if; [by eauto|]. case_if; [by eauto|].
  rewrite Hb. cbn [mbind option_bind].
  destruct (mwrite b (idx * P) data) as [b'|] eqn:Ew.
  2:{ rewrite mwrite_Some in Ew by nia. done. }
  apply mwrite_zlen in Ew. cbn [mbind option_bind].
  rewrite oset_aset by (unfold MAX_FRAGMENT_COUNT in *; lia). cbn [mbind option_bind].
  set (t := mark_fragment _ idx).
  assert (tracker_wf t) as (Hm' & Hs' & Hb').
  { unfold t. apply mark_fragment_wf. unfold tracker_wf; cbn. rewrite zlen_aset.
    split_and!; try done. exists b'. split; [done|congruence]. }
  case_if; eexists _, _; (split; [done|]); apply set_tracker_wf; try done.
Qed.

(** No fragment makes a store leave its object. *)
Lemma on_fragment_ok r id idx cnt data P time :
  wf r -> is_u8 idx -> is_u8 cnt -> 0 <= P ->
  exists res r', on_fragment_received r id idx cnt data P time = Some (res, r') /\ wf r'.
Proof.
  intros Hw Hi Hc HP. unfold on_fragment_received, is_u8 in *.
  destruct ((cnt =? 0) || _) eqn:E; [by eauto|]. bool_facts.
  destruct (find_tracker r id) as [ti|] eqn:Ef.
  - apply find_tracker_Some in Ef as (Hti & _). destruct Hw as [Hl ?].
    apply store_fragment_safe; try lia. by split.
  - destruct (allocate_tracker r id cnt time) as [[ti r']|] eqn:Ea; [|by eauto].
    apply allocate_tracker_wf in Ea as [Hw' Hti]; [|done].
    apply store_fragment_safe; try done; lia.
Qed.

(** Memory safety of reassembly: for every fragment a peer can put on the
    wire (any message id, index, count and length) no store leaves the tracker's
    buffer or arrays, and the reassembler stays well formed. *)
Theorem on_fragment_received_safe r id idx cnt data P time :
  wf r -> is_u8 idx -> is_u8 cnt -> 0 <= P ->
  exists res r', on_fragment_received r id idx cnt data P time = Some (res, r') /\ wf r'.
Proof. apply on_fragment_ok. Qed.

(** * Reassembly *)

Lemma mark_buffer t i : buffer (mark_fragment t i) = buffer t.
Proof. unfold mark_fragment. by destruct (has_fragment t i). Qed.
Lemma mark_capacity t i : buffer_capacity (mark_fragment t i) = buffer_capacity t.
Proof. unfold mark_fragment. by destruct (has_fragment t i). Qed.
Lemma mark_id t i : message_id (mark_fragment t i) = message_id t.
Proof. unfold mark_fragment. by destruct (has_fragment t i). Qed.
Lemma has_mark t k i :
  length (received_mask t) = 32%nat -> 0 <= k < 256 -> 0 <= i < 256 ->
  has_fragment (mark_fragment t k) i = has_fragment t i || (i =? k).
Proof.
  intros Hm Hk Hi. unfold mark_fragment. destruct (has_fragment t k) eqn:E.
  { destruct (i =? k) eqn:Eq; bool_facts; [|by rewrite orb_false_r].
    subst. by rewrite orb_true_r. }
  assert (0 <= k / 8 < 32 /\ 0 <= i / 8 < 32 /\ 0 <= k mod 8 < 8 /\ 0 <= i mod 8 < 8)
    as (Hkd & Hid & Hkm & Him) by mlia.
  unfold has_fragment in *. cbn. rewrite aget_aset by (unfold zlen; lia).
  rewrite !bit_set_testbit by lia.
  rewrite (u8_small (Z.shiftl 1 (k mod 8)))
    by (unfold is_u8; rewrite Z.shiftl_1_l; split; [lia|apply Z.pow_lt_mono_r; lia]).
  case_decide as Ed.
  - rewrite Ed, testbit_setbit_lor by lia. f_equal. apply eq_true_iff_eq.
    rewrite !Z.eqb_eq. mlia.
  - rewrite (proj2 (Z.eqb_neq i k)) by congruence. by rewrite orb_false_r.
Qed.

(** ** Buffers of one capacity *)

Definition sized (K : Z) (r : reassembler) : Prop :=
  Forall (fun t => buffer_capacity t = K) (trackers_ r).

Lemma sized_get K r i :
  sized K r -> 0 <= i < zlen (trackers_ r) -> buffer_capacity (trackers_ r).[i] = K.
Proof. intros Hs Hi. eapply Forall_lookup_1 in Hs; [exact Hs|]. by apply lookup_aget. Qed.
Lemma set_tracker_sized K r i t : sized K r -> buffer_capacity t = K -> sized K (set_tracker r i t).
Proof. intros Hs Ht. unfold sized. cbn. unfold aset. by apply Forall_insert. Qed.

Lemma store_fragment_sized K r ti idx cnt data P time res r' :
  wf r -> sized K r -> 0 <= ti < MAX_CONCURRENT_REASSEMBLIES ->
  store_fragment r ti idx cnt data P time = Some (res, r') ->
  sized K r' /\ forall b n, res = Some (b, n) -> zlen b = K.
Proof.
  intros Hw Hs Hti E0. unfold store_fragment in E0.
  destruct (wf_get r ti Hw Hti) as (Hm & Hsz & b & Hb & Hcap).
  destruct Hw as [Hl _]. pose proof (sized_get K r ti Hs ltac:(lia)) as HK.
  repeat (case_if_in E0; [injection E0 as <- <-; by split|]).
  rewrite Hb in E0. cbn [mbind option_bind] in E0.
  destruct (mwrite b _ data) as [b'|] eqn:Ew; [|done]. apply mwrite_zlen in Ew.
  cbn [mbind option_bind] in E0. destruct (oset _ _ _) as [sz|]; [|done].
  cbn [mbind option_bind] in E0. case_if_in E0; injection E0 as <- <-; split; try done.
  - apply set_tracker_sized; [done|]. cbn. by rewrite mark_capacity.
  - intros ? ? [= <- _]. congruence.
  - apply set_tracker_sized; [done|]. by rewrite mark_capacity.
Qed.
Lemma on_fragment_sized K r id idx cnt data P time res r' :
  wf r -> sized K r -> on_fragment_received r id idx cnt data P time = Some (res, r') ->
  sized K r' /\ forall b n, res = Some (b, n) -> zlen b = K.
Proof.
  intros Hw Hs E0. unfold on_fragment_received in E0.
  case_if_in E0; [injection E0 as <- <-; by split|].
  destruct (find_tracker r id) as [ti|] eqn:Ef.
  - apply find_tracker_Some in Ef as (Hti & _). pose proof Hw as [Hl _]. rewrite Hl in Hti.
    by eapply store_fragment_sized.
  - destruct (allocate_tracker r id cnt time) as [[ti r1]|] eqn:Ea;
      [|injection E0 as <- <-; by split].
    pose proof (allocate_tracker_wf _ _ _ _ _ _ Hw Ea) as [Hw1 Hti].
    eapply store_fragment_sized in E0; try done.
    apply allocate_tracker_Some in Ea as (Hi & _ & t & -> & ->).
    apply set_tracker_sized; [done|]. cbn. by apply sized_get.
Qed.

Lemma cleanup_wf K r now :
  wf r -> sized K r ->
  wf (snd (cleanup_timeout r now)) /\ sized K (snd (cleanup_timeout r now)).
Proof.
  intros [Hl Hf] Hs. cbn. split; [split|].
  - cbn. unfold zlen. by rewrite length_fmap.
  - cbn. apply Forall_fmap. eapply Forall_impl; [|exact Hf]. intros t Ht. cbn.
    case_if; [by apply tracker_reset_wf|done].
  - unfold sized. cbn. apply Forall_fmap. eapply Forall_impl; [|exact Hs]. intros t Ht. cbn.
    by case_if.
Qed.

(** What [init] gives when every allocation succeeds. *)
Lemma init_from_wf alloc r slots :
  zlen (trackers_ r) = MAX_CONCURRENT_REASSEMBLIES ->
  Forall (fun t => length (received_mask t) = 32%nat /\ zlen (fragment_sizes t) = 255) (trackers_ r) ->
  (forall i, exists b, alloc i = Some b /\ zlen b = max_message_size_ r) ->
  Forall (fun i => 0 <= i < 16) slots ->
  let '(ok, r') := init_from alloc r slots in
  ok = true /\ zlen (trackers_ r') = MAX_CONCURRENT_REASSEMBLIES /\
  Forall (fun t => length (received_mask t) = 32%nat /\ zlen (fragment_sizes t) = 255) (trackers_ r') /\
  max_message_size_ r' = max_message_size_ r /\
  forall i, 0 <= i < 16 ->
    (i ∈ slots \/ exists b, buffer (trackers_ r).[i] = Some b /\ zlen b = max_message_size_ r /\
                   buffer_capacity (trackers_ r).[i] = max_message_size_ r) ->
    exists b, buffer (trackers_ r').[i] = Some b /\ zlen b = max_message_size_ r /\
      buffer_capacity (trackers_ r').[i] = max_message_size_ r.
Proof.
  intros Hl Hf Ha Hs. revert r Hl Hf Ha. induction Hs as [|j slots Hj Hs IH]; intros r Hl Hf Ha.
  { cbn. split_and!; try done. intros i Hi [Hin|Hin]; [by apply not_elem_of_nil in Hin|done]. }
  cbn [init_from]. destruct (Ha j) as (b & Eb & Hb). rewrite Eb.
  set (t := with_buffer _ (Some b) _).
  assert (length (received_mask t) = 32%nat /\ zlen (fragment_sizes t) = 255) as Ht.
  { eapply Forall_lookup_1 with (i := Z.to_nat j) in Hf; [|apply lookup_aget; unfold MAX_CONCURRENT_REASSEMBLIES in *; lia].
    cbn. unfold zlen in *. rewrite !length_replicate. unfold MAX_CONCURRENT_REASSEMBLIES in *. lia. }
  specialize (IH (set_tracker r j t)). cbn [set_tracker trackers_ max_message_size_] in IH.
  destruct (init_from alloc (set_tracker r j t) slots) as [ok r'].
  destruct IH as (Hok & Hl' & Hf' & Hmax & Hall);
    [by rewrite zlen_aset|unfold aset; by apply Forall_insert|done|].
  split_and!; try done. intros i Hi Hcase. apply Hall; [done|].
  destruct (decide (i = j)) as [->|Hne].
  - right. rewrite aget_aset_eq by (unfold MAX_CONCURRENT_REASSEMBLIES in *; lia). by exists b.
  - rewrite aget_aset_ne by lia. destruct Hcase as [[->|Hin]%elem_of_cons|Hb']; [done|by left|by right].
Qed.
Lemma init_wf alloc r K :
  zlen (trackers_ r) = MAX_CONCURRENT_REASSEMBLIES ->
  Forall (fun t => length (received_mask t) = 32%nat /\ zlen (fragment_sizes t) = 255) (trackers_ r) ->
  (forall i, exists b, alloc i = Some b /\ zlen b = K) ->
  wf (snd (init alloc r K)) /\ sized K (snd (init alloc r K)).
Proof.
  intros Hl Hf Ha. unfold init.
  pose proof (init_from_wf alloc (mkReassembler (trackers_ r) K) (seqZ 0 MAX_CONCURRENT_REASSEMBLIES)
    Hl Hf Ha) as H.
  destruct (init_from _ _ _) as [ok r']. cbn [snd trackers_ max_message_size_] in *.
  destruct H as (_ & Hl' & Hf' & _ & Hall).
  { apply list.Forall_forall. intros x Hx. apply elem_of_seqZ in Hx.
    unfold MAX_CONCURRENT_REASSEMBLIES in *. lia. }
  assert (forall i t, trackers_ r' !! i = Some t ->
    exists b, buffer t = Some b /\ zlen b = K /\ buffer_capacity t = K) as Hb.
  { intros i t Hi. pose proof (lookup_lt_Some _ _ _ Hi) as Hlt.
    assert (0 <= Z.of_nat i < 16) as Hr by (unfold zlen, MAX_CONCURRENT_REASSEMBLIES in *; lia).
    destruct (Hall (Z.of_nat i) Hr) as (b & E1 & E2 & E3).
    - left. apply elem_of_seqZ. unfold MAX_CONCURRENT_REASSEMBLIES. lia.
    - rewrite (aget_Some _ _ t) in E1, E3 by (lia || by rewrite Nat2Z.id). by exists b. }
  split; [split; [done|]|].
  - apply Forall_lookup_2. intros i t Hi. eapply Forall_lookup_1 in Hf' as [H1 H2]; [|exact Hi].
    destruct (Hb i t Hi) as (b & E1 & E2 & E3). split_and!; try done. exists b. split; [done|congruence].
  - apply Forall_lookup_2. intros i t Hi. by destruct (Hb i t Hi) as (b & E1 & E2 & E3).
Qed.

Section Reassembly.
(** A message [msg] of id [id], cut into [n] fragments of [P] bytes. *)
Context (msg : bytes) (id P n : Z).
Abbreviation L := (zlen msg).
Context (HP : 0 < P) (Hn : calc_fragment_count L P = Some n) (Hn0 : 0 < n).
Implicit Types (r : reassembler) (k j : Z) (S : list Z).

Definition frag k : bytes := take (Z.to_nat P) (drop (Z.to_nat (k * P)) msg).

Lemma count_bounds : (n - 1) * P < L <= n * P /\ n <= 255.
Proof.
  revert Hn. unfold calc_fragment_count, MAX_FRAGMENT_COUNT. case_if; [intros [=]; lia|].
  destruct (guard_ub _) as [[]|]; [|done]. rewrite Some_bind. case_if; [intros [=]; lia|]. intros [= <-].
  pose proof (Z.div_mod (L + P - 1) P ltac:(lia)).
  pose proof (Z.mod_pos_bound (L + P - 1) P ltac:(lia)). nia.
Qed.
Lemma zlen_frag k : 0 <= k < n -> zlen (frag k) = Z.min P (L - k * P).
Proof.
  intros Hk. pose proof count_bounds. unfold frag, zlen in *.
  rewrite length_take, length_drop. nia.
Qed.
Lemma frag_get k i : 0 <= k < n -> 0 <= i < zlen (frag k) -> (frag k).[i] = msg.[k * P + i].
Proof.
  intros Hk Hi. rewrite zlen_frag in Hi by done. unfold frag, aget.
  rewrite !list_lookup_total_alt, lookup_take_lt, lookup_drop by nia.
  do 2 f_equal. nia.
Qed.
Lemma sizes_sum (m : nat) :
  Z.of_nat m <= n -> sumZ ((fun k => Z.min P (L - k * P)) <$> seqZ 0 (Z.of_nat m))
    = Z.min (Z.of_nat m * P) L.
Proof.
  pose proof count_bounds. induction m as [|m IH]; intros Hm.
  - simpl. pose proof (zlen_nonneg msg). lia.
  - replace (Z.of_nat (Datatypes.S m)) with (Z.of_nat m + 1) by lia.
    rewrite seqZ_snoc, fmap_app, sumZ_app, IH by lia. cbn [fmap list_fmap sumZ]. nia.
Qed.

(** Tracker [j] of [r] assembles the message and holds the fragments [S]. *)
Record holds t S : Prop := {
  ho_active : active t = true;
  ho_id : message_id t = id;
  ho_total : total_fragments t = n;
  ho_nodup : NoDup S;
  ho_range : forall k, k ∈ S -> 0 <= k < n;
  ho_mask : forall k, 0 <= k < 256 -> has_fragment t k = bool_decide (k ∈ S);
  ho_count : received_count t = zlen S;
  ho_cap : L <= buffer_capacity t;
  ho_bytes : exists b, buffer t = Some b /\ forall k p, k ∈ S ->
    k * P <= p < k * P + Z.min P (L - k * P) -> b.[p] = msg.[p];
  ho_sizes : forall k, k ∈ S -> (fragment_sizes t).[k] = Z.min P (L - k * P)
}.
Record assembling r j S : Prop := {
  as_wf : wf r;
  as_j : 0 <= j < MAX_CONCURRENT_REASSEMBLIES;
  as_holds : holds (trackers_ r).[j] S;
  as_only : forall i, 0 <= i < MAX_CONCURRENT_REASSEMBLIES -> i <> j ->
    active (trackers_ r).[i] && (message_id (trackers_ r).[i] =? id) = false
}.

Lemma assembling_find r j S : assembling r j S -> find_tracker r id = Some j.
Proof.
  intros [[Hl _] Hj [Ha Hi _ _ _ _ _ _ _ _] Ho].
  destruct (find_tracker r id) as [i|] eqn:E.
  - apply find_tracker_Some in E as (Hr & Ha' & Hi' & _).
    destruct (decide (i = j)) as [->|Hne]; [done|].
    specialize (Ho i ltac:(lia) Hne). rewrite Ha', Hi', Z.eqb_refl in Ho. done.
  - specialize (find_tracker_None _ _ E j ltac:(lia)) as H.
    rewrite Ha, Hi, Z.eqb_refl in H. done.
Qed.

(** NoDup indices below [n] number at most [n], and [n] of them are all. *)
Lemma indices_length S : NoDup S -> (forall k, k ∈ S -> 0 <= k < n) -> zlen S <= n.
Proof.
  intros Hnd Hr. unfold zlen.
  assert (length S <= length (seqZ 0 n))%nat as Hle.
  { apply submseteq_length, NoDup_submseteq; [done|].
    intros k Hk. apply elem_of_seqZ. specialize (Hr k Hk). lia. }
  rewrite length_seqZ in Hle. lia.
Qed.
Lemma indices_full S :
  NoDup S -> (forall k, k ∈ S -> 0 <= k < n) -> zlen S = n -> forall k, 0 <= k < n -> k ∈ S.
Proof.
  intros Hnd Hr Hlen k Hk.
  assert (S ≡ₚ seqZ 0 n) as Hp.
  { apply submseteq_length_Permutation.
    - apply NoDup_submseteq; [done|]. intros i Hi. apply elem_of_seqZ. specialize (Hr i Hi). lia.
    - rewrite length_seqZ. unfold zlen in Hlen. lia. }
  rewrite Hp. apply elem_of_seqZ. lia.
Qed.

(** A new fragment is stored where it belongs and recorded. *)
Lemma stored_holds t S k b b' time :
  tracker_wf t -> holds t S -> 0 <= k < n -> k ∉ S ->
  buffer t = Some b -> zlen b = buffer_capacity t -> mwrite b (k * P) (frag k) = Some b' ->
  holds (mark_fragment (mkTracker (message_id t) (total_fragments t) (received_count t)
    (received_mask t) (first_recv_time t) time (active t) (Some b') (buffer_capacity t)
    (aset (fragment_sizes t) k (zlen (frag k)))) k) (k :: S).
Proof.
  intros (Hml & Hsl & _) [Ha Hi Ht Hnd Hr Hm Hc Hcap (b0 & Hb0 & Hby) Hs] Hk Hnew Hb Hbl Hw.
  pose proof count_bounds as [_ H255]. rewrite Hb in Hb0. injection Hb0 as <-.
  set (t1 := mkTracker _ _ _ _ _ _ _ _ _ _).
  assert (has_fragment t1 k = false) as Hnk.
  { change (has_fragment t1 k) with (has_fragment t k). rewrite Hm by lia.
    by apply bool_decide_false. }
  assert (zlen (k :: S) <= n) as Hle.
  { apply indices_length; [by constructor|]. intros i [->|Hi']%elem_of_cons; [done|by apply Hr]. }
  zlen_simpl. split.
  1-4,7-8: unfold mark_fragment; rewrite ?Hnk; cbn; try done.
  - by constructor.
  - rewrite Hc, u8_small by (unfold is_u8; pose proof (zlen_nonneg S); lia). zlen_simpl. lia.
  - intros i [->|Hi']%elem_of_cons; [done|by apply Hr].
  - intros i Hi'. rewrite has_mark by (done || lia).
    change (has_fragment t1 i) with (has_fragment t i). rewrite Hm by done.
    apply eq_true_iff_eq. rewrite orb_true_iff, !bool_decide_eq_true, Z.eqb_eq, elem_of_cons.
    tauto.
  - exists b'. unfold mark_fragment; rewrite Hnk; cbn. split; [done|].
    intros i p Hi' Hp. assert (0 <= i < n) as Hin.
    { apply elem_of_cons in Hi' as [->|Hi']; [done|by apply Hr]. }
    rewrite (mwrite_lookup _ _ _ _ p Hw) by nia. rewrite zlen_frag by done. case_if.
    + rewrite frag_get; [f_equal; lia|done|]. rewrite zlen_frag by done. lia.
    + apply elem_of_cons in Hi' as [->|Hi']; [|by apply (Hby i)].
      apply andb_false_iff in E. rewrite Z.leb_gt, Z.ltb_ge in E. lia.
  - intros i Hi'. unfold mark_fragment; rewrite Hnk; cbn.
    unfold MAX_FRAGMENT_COUNT in *. destruct (decide (i = k)) as [->|Hne].
    + rewrite aget_aset_eq by lia. by apply zlen_frag.
    + apply elem_of_cons in Hi' as [->|Hi']; [done|].
      rewrite aget_aset_ne by (specialize (Hr i Hi'); lia). by apply Hs.
Qed.

(** A complete tracker's buffer starts with the message, and the sizes add up. *)
Lemma complete_message t S b :
  holds t S -> zlen S = n -> buffer t = Some b -> zlen b = buffer_capacity t ->
  total_message_size t = L /\ take (Z.to_nat L) b = msg.
Proof.
  intros [Ha Hi Ht Hnd Hr Hm Hc Hcap (b0 & Hb0 & Hby) Hs] Hlen Hb Hbl.
  rewrite Hb in Hb0. injection Hb0 as <-. pose proof count_bounds as [HL _].
  pose proof (indices_full S Hnd Hr Hlen) as Hall. split.
  - unfold total_message_size. rewrite Ht.
    rewrite (fmap_seqZ_ext _ (fun k => Z.min P (L - k * P))) by (intros; apply Hs, Hall; lia).
    rewrite <- (Z2Nat.id n) at 1 by lia. rewrite sizes_sum by lia. rewrite Z2Nat.id; lia.
  - pose proof (zlen_nonneg msg). apply array_eq.
    + unfold zlen in *. rewrite length_take. lia.
    + intros p Hp. unfold zlen in Hp, Hcap, Hbl. rewrite length_take in Hp.
      assert ((take (Z.to_nat L) b).[p] = b.[p]) as ->.
      { unfold aget, zlen. rewrite !list_lookup_total_alt, lookup_take_lt by lia. done. }
      pose proof (Z.div_mod p P ltac:(lia)). pose proof (Z.mod_pos_bound p P ltac:(lia)).
      unfold zlen in *. apply (Hby (p / P)); [apply Hall|]; nia.
Qed.

(** One fragment of the message reaches its tracker. *)
Lemma store_own r j S k time :
  assembling r j S -> 0 <= k < n ->
  exists res r', store_fragment r j k n (frag k) P time = Some (res, r') /\
  if decide (k ∈ S) then res = None /\ r' = r
  else if decide (zlen S + 1 = n)
  then exists b, res = Some (b, L) /\ take (Z.to_nat L) b = msg
  else res = None /\ assembling r' j (k :: S).
Proof.
  intros [Hw Hj Hh Ho] Hk. pose proof count_bounds as [HL H255].
  pose proof (wf_get r j Hw Hj) as Htw. pose proof Htw as (Hml & Hsl & b & Hb & Hbl).
  pose proof Hh as [Ha Hi Ht Hnd Hr Hm Hc Hcap _ _]. unfold store_fragment.
  rewrite Ht, Z.eqb_refl. cbn [negb]. rewrite Hm by lia.
  destruct (decide (k ∈ S)) as [Hin|Hnew].
  { rewrite bool_decide_true by done. eauto. }
  rewrite bool_decide_false by done. pose proof (zlen_frag k Hk) as Hfl.
  rewrite (proj2 (Z.ltb_ge _ _)) by lia. rewrite Hb. cbn [mbind option_bind].
  destruct (mwrite b (k * P) (frag k)) as [b'|] eqn:Ew.
  2:{ rewrite mwrite_Some in Ew by nia. done. }
  pose proof (mwrite_zlen _ _ _ _ Ew) as Hb'l. cbn [mbind option_bind].
  rewrite oset_aset by (unfold MAX_FRAGMENT_COUNT in *; lia). cbn [mbind option_bind].
  pose proof (stored_holds _ S k b b' time Htw Hh Hk Hnew Hb Hbl Ew) as Hh'.
  rewrite Ht in Hh'. set (t' := mark_fragment _ k) in *.
  assert (buffer t' = Some b' /\ buffer_capacity t' = buffer_capacity (trackers_ r).[j] /\
          tracker_wf t') as (Hbt & Hct & Htw').
  { unfold t'. rewrite mark_buffer, mark_capacity. split; [done|]. split; [done|].
    apply mark_fragment_wf.
    unfold tracker_wf; cbn. rewrite zlen_aset. split_and!; try done.
    exists b'. split; [done|congruence]. }
  unfold is_complete. rewrite (ho_count _ _ Hh'), (ho_total _ _ Hh'). zlen_simpl.
  destruct (decide (zlen S + 1 = n)) as [Hfull|Hpart].
  - rewrite (proj2 (Z.eqb_eq _ _)) by lia. eexists _, _. split; [done|].
    destruct (complete_message t' (k :: S) b' Hh') as [-> Hmsg];
      [zlen_simpl; lia | done | congruence | eauto].
  - rewrite (proj2 (Z.eqb_neq _ _)) by lia. eexists _, _. split; [done|]. split; [done|].
    destruct Hw as [Hl Hf]. split; [by apply set_tracker_wf| done | |].
    + cbn. by rewrite aget_aset_eq by lia.
    + intros i Hir Hne. cbn. rewrite aget_aset_ne by lia. by apply Ho.
Qed.

(** A fragment of another message leaves the tracker alone. *)
Lemma store_other_frame r ti j idx cnt data Q time res r' :
  zlen (trackers_ r) = MAX_CONCURRENT_REASSEMBLIES -> 0 <= ti -> 0 <= j -> ti <> j ->
  store_fragment r ti idx cnt data Q time = Some (res, r') ->
  (trackers_ r').[j] = (trackers_ r).[j] /\
  (message_id (trackers_ r).[ti] <> id -> 0 <= ti < MAX_CONCURRENT_REASSEMBLIES ->
     message_id (trackers_ r').[ti] <> id).
Proof.
  intros Hl Hti Hj Hne. unfold store_fragment.
  case_if; [by intros [= <- <-]|]. case_if; [by intros [= <- <-]|].
  case_if; [by intros [= <- <-]|]. destruct (buffer _); cbn; [|done].
  destruct (mwrite _ _ _); cbn; [|done]. destruct (oset _ _ _); cbn; [|done].
  case_if; intros [= <- <-]; cbn; (split; [by rewrite aget_aset_ne|]);
    intros Hid Hr; rewrite aget_aset_eq by lia; cbn; rewrite mark_id; exact Hid.
Qed.

Lemma other_keeps r j S id' idx cnt data Q time :
  assembling r j S -> id' <> id -> is_u8 idx -> is_u8 cnt -> 0 <= Q ->
  exists res r', on_fragment_received r id' idx cnt data Q time = Some (res, r') /\
    assembling r' j S.
Proof.
  intros Has Hid Hi Hc HQ. pose proof Has as [Hw Hj Hh Ho].
  assert (exists res r', on_fragment_received r id' idx cnt data Q time = Some (res, r') /\ wf r')
    as (res & r' & E & Hw').
  { by apply on_fragment_ok. }
  exists res, r'. split; [done|]. unfold on_fragment_received in E.
  case_if_in E; [by injection E as <- <-|]. pose proof Hw as [Hl _].
  assert (forall r1 ti, zlen (trackers_ r1) = MAX_CONCURRENT_REASSEMBLIES ->
    0 <= ti < MAX_CONCURRENT_REASSEMBLIES -> ti <> j ->
    (forall i, 0 <= i -> i <> ti -> (trackers_ r1).[i] = (trackers_ r).[i]) ->
    message_id (trackers_ r1).[ti] = id' ->
    store_fragment r1 ti idx cnt data Q time = Some (res, r') -> assembling r' j S) as Hst.
  { intros r1 ti Hl1 Hti Hne Hsame Hmid Est. split; [done|done| |].
    - destruct (store_other_frame r1 ti j idx cnt data Q time res r') as [-> _]; try done; try lia.
      rewrite Hsame by lia. done.
    - intros i Hir Hij. destruct (decide (i = ti)) as [->|Hit].
      + apply andb_false_iff. right. apply Z.eqb_neq.
        destruct (store_other_frame r1 ti j idx cnt data Q time res r') as [_ Hk]; try done; try lia.
      + destruct (store_other_frame r1 ti i idx cnt data Q time res r') as [-> _]; try done; try lia.
        rewrite Hsame by lia. by apply Ho. }
  destruct (find_tracker r id') as [ti|] eqn:Ef.
  - apply find_tracker_Some in Ef as (Hti & Ha & Hm & _). rewrite Hl in Hti.
    apply (Hst r ti); try done. intros ->. rewrite (ho_id _ _ Hh) in Hm. done.
  - destruct (allocate_tracker r id' cnt time) as [[ti r1]|] eqn:Ea; [|by injection E as <- <-].
    apply allocate_tracker_Some in Ea as (Hti & Hina & t & -> & Ht). rewrite Hl in Hti.
    apply (Hst _ ti) in E; try done.
    + cbn. by rewrite zlen_aset.
    + intros ->. rewrite (ho_active _ _ Hh) in Hina. done.
    + intros i Hi0 Hne. cbn. by rewrite aget_aset_ne by lia.
    + cbn. rewrite aget_aset_eq by lia. by rewrite Ht.
Qed.

(** ** Arrivals *)

(** What reaches the reassembler: a fragment of the message, or any fragment of
    another message. *)
Inductive arrival : Type :=
  | Own (k : Z) (time : double)
  | Other (id' idx cnt : Z) (data : bytes) (Q : Z) (time : double).
Definition arrival_ok (a : arrival) : Prop :=
  match a with
  | Own k _ => 0 <= k < n
  | Other id' idx cnt _ Q _ => id' <> id /\ is_u8 idx /\ is_u8 cnt /\ 0 <= Q
  end.
Definition own_index (a : arrival) : option Z :=
  match a with Own k _ => Some k | Other _ _ _ _ _ _ => None end.
Definition own_indices (l : list arrival) : list Z := omap own_index l.

Definition arrive r (a : arrival) : option (completed * reassembler) :=
  match a with
  | Own k time => on_fragment_received r id k n (frag k) P time
  | Other id' idx cnt data Q time => on_fragment_received r id' idx cnt data Q time
  end.

(** Run arrivals; the results of the message's own fragments are kept. *)
Fixpoint arrive_all r (l : list arrival) : option (list completed * reassembler) :=
  match l with
  | [] => Some ([], r)
  | a :: l =>
      x ← arrive r a;
      y ← arrive_all (snd x) l;
      Some ((match own_index a with Some _ => [fst x] | None => [] end) ++ fst y, snd y)
  end.

Lemma own_arrives r j S k time :
  assembling r j S -> 0 <= k < n ->
  on_fragment_received r id k n (frag k) P time = store_fragment r j k n (frag k) P time.
Proof.
  intros Ha Hk. unfold on_fragment_received. rewrite (assembling_find r j S Ha).
  by rewrite (proj2 (Z.eqb_neq n 0)), (proj2 (Z.leb_gt n k)) by lia.
Qed.

(** The first fragment opens a tracker. *)
Lemma first_opens r k time :
  wf r -> Forall (fun t => L <= buffer_capacity t) (trackers_ r) ->
  find_tracker r id = None -> Exists (fun t => active t = false) (trackers_ r) ->
  0 <= k < n -> exists r1 j, assembling r1 j [] /\
    on_fragment_received r id k n (frag k) P time = on_fragment_received r1 id k n (frag k) P time.
Proof.
  intros Hw Hcap Hf Hfree Hk.
  assert (exists j r1, allocate_tracker r id n time = Some (j, r1)) as (j & r1 & Ea).
  { unfold allocate_tracker.
    destruct (list_find (fun t => active t = false) (trackers_ r)) as [[i t]|] eqn:E; [by eauto|].
    apply list_find_None in E. apply list.Exists_exists in Hfree as (t & Hin & Ht).
    rewrite list.Forall_forall in E. by destruct (E t Hin). }
  exists r1, j. pose proof (allocate_tracker_wf _ _ _ _ _ _ Hw Ea) as [Hw1 Hj].
  pose proof Hw as [Hl _].
  pose proof (allocate_tracker_Some _ _ _ _ _ _ Ea) as (_ & _ & t & Er & Ht).
  pose proof (wf_get r j Hw Hj) as (Hm & _ & b & Hb & _).
  assert (assembling r1 j []) as Has.
  { subst r1. split; [done|done| |].
    - cbn. rewrite aget_aset_eq, Ht by lia. cbn. rewrite Hb, Hm. split; cbn; try done.
      + constructor.
      + intros i Hi. by apply not_elem_of_nil in Hi.
      + intros i Hi. unfold has_fragment; cbn [received_mask].
        change [0; 0; 0; 0; 0; 0; 0; 0; 0; 0; 0; 0; 0; 0; 0; 0; 0; 0; 0; 0; 0; 0; 0; 0;
                0; 0; 0; 0; 0; 0; 0; 0] with (replicate 32 0).
        rewrite aget_replicate, bit_set_testbit by mlia. by rewrite Z.bits_0.
      + rewrite list.Forall_forall in Hcap. apply Hcap. eapply list_elem_of_lookup_2.
        apply lookup_aget. lia.
      + eexists. split; [done|]. intros i p Hi. by apply not_elem_of_nil in Hi.
      + intros i Hi. by apply not_elem_of_nil in Hi.
    - intros i Hi Hne. cbn. rewrite aget_aset_ne by lia.
      apply (find_tracker_None _ _ Hf). lia. }
  split; [done|]. rewrite (own_arrives r1 j [] k time Has Hk).
  unfold on_fragment_received. rewrite Hf, Ea.
  by rewrite (proj2 (Z.eqb_neq n 0)), (proj2 (Z.leb_gt n k)) by lia.
Qed.

(** Until the last missing fragment nothing is delivered; with it the message is. *)
Lemma assembling_run r j S l kl tl :
  assembling r j S -> Forall arrival_ok l -> 0 <= kl < n ->
  kl ∉ S -> kl ∉ own_indices l ->
  (forall k, 0 <= k < n -> k = kl \/ k ∈ S \/ k ∈ own_indices l) ->
  exists b r', arrive_all r (l ++ [Own kl tl])
    = Some (replicate (length (own_indices l)) None ++ [Some (b, L)], r') /\
    take (Z.to_nat L) b = msg.
Proof.
  intros Has Hok Hkl. revert r S Has. induction Hok as [|a l Ha Hl IH]; intros r S Has HnS Hnl Hall.
  - cbn [app arrive_all arrive]. rewrite (own_arrives r j S) by done.
    destruct (store_own r j S kl tl Has Hkl) as (res & r' & -> & Hres). cbn.
    rewrite decide_False in Hres by done.
    destruct (decide (zlen S + 1 = n)) as [Hfull|Hpart].
    + destruct Hres as (b & -> & Hb). by exists b, r'.
    + exfalso. destruct Has as [_ _ [_ _ _ Hnd Hr _ _ _ _ _] _].
      assert (zlen (kl :: S) = n); [|zlen_simpl; lia].
      assert (kl :: S ≡ₚ seqZ 0 n) as Hp.
      { apply NoDup_Permutation; [by constructor|apply NoDup_seqZ|].
        intros i. rewrite elem_of_seqZ, elem_of_cons. split.
        - intros [->|Hi]; [lia|]. specialize (Hr i Hi). lia.
        - intros Hi. destruct (Hall i ltac:(lia)) as [?|[?|Hx]]; [by left|by right|].
          by apply not_elem_of_nil in Hx. }
      unfold zlen. rewrite Hp, length_seqZ. lia.
  - destruct a as [k time|id' idx cnt data Q time]; cbn [app arrive_all arrive].
    + cbn [own_indices omap list_omap own_index] in Hnl, Hall |- *.
      rewrite elem_of_cons in Hnl. rewrite (own_arrives r j S) by done.
      destruct (store_own r j S k time Has Ha) as (res & r' & -> & Hres). cbn.
      destruct (decide (k ∈ S)) as [HkS|HkS].
      * destruct Hres as [-> ->].
        destruct (IH r S Has) as (b & r' & -> & Hb); [done|tauto| |by exists b, r'].
        intros i Hi. destruct (Hall i Hi) as [?|[?|Hx]]; auto.
        apply elem_of_cons in Hx as [->|?]; auto.
      * destruct (decide (zlen S + 1 = n)) as [Hfull|Hpart].
        { exfalso. destruct Has as [_ _ [_ _ _ Hnd Hr _ _ _ _ _] _].
          assert (kl ∈ k :: S) as Hin; [|apply elem_of_cons in Hin; tauto].
          apply (indices_full (k :: S)); [by constructor| |zlen_simpl; lia|done].
          intros i [->|Hi]%elem_of_cons; [done|by apply Hr]. }
        destruct Hres as [-> Has'].
        destruct (IH r' (k :: S) Has') as (b & r2 & -> & Hb); [|tauto| |by exists b, r2].
        -- rewrite elem_of_cons. tauto.
        -- intros i Hi. rewrite elem_of_cons. destruct (Hall i Hi) as [?|[?|Hx]]; auto.
           apply elem_of_cons in Hx as [->|?]; auto.
    + destruct Ha as (Hid & Hi & Hc & HQ).
      destruct (other_keeps r j S id' idx cnt data Q time Has Hid Hi Hc HQ) as (res & r' & -> & Has').
      cbn. destruct (IH r' S Has') as (b & r2 & -> & Hb); try done. by exists b, r2.
Qed.
End Reassembly.

(** C32.  Reassembly round trip: cut a message into [calc_fragment_count]
    fragments and let them arrive in any order, with duplicates and interleaved
    with arbitrary fragments of other messages.  From a reassembler with a free
    tracker nothing is delivered before the last missing fragment, and that
    arrival delivers the original message, with its exact size. *)
Theorem reassembly_roundtrip msg id P n r l kl tl :
  calc_fragment_count (zlen msg) P = Some n ->
  wf r -> Forall (fun t => zlen msg <= buffer_capacity t) (trackers_ r) ->
  find_tracker r id = None -> Exists (fun t => active t = false) (trackers_ r) ->
  0 < n -> Forall (arrival_ok id n) l -> 0 <= kl < n ->
  match l with Other _ _ _ _ _ _ :: _ => False | _ => True end ->
  kl ∉ own_indices l -> (forall k, 0 <= k < n -> k = kl \/ k ∈ own_indices l) ->
  exists b r', arrive_all msg id P n r (l ++ [Own kl tl])
    = Some (replicate (length (own_indices l)) None ++ [Some (b, zlen msg)], r') /\
    take (Z.to_nat (zlen msg)) b = msg.
Proof.
  intros Hn Hw Hcap Hf Hfree Hn0 Hok Hkl Hhd Hnl Hall.
  assert (0 < P) as HP.
  { revert Hn. unfold calc_fragment_count. case_if; [intros [=]; lia|]. bool_facts. done. }
  assert (exists k time rest, l ++ [Own kl tl] = Own k time :: rest /\ 0 <= k < n)
    as (k & time & rest & El & Hk).
  { destruct l as [|[k time|] l]; [by exists kl, tl, []| |done].
    exists k, time, (l ++ [Own kl tl]). split; [done|]. by inversion Hok. }
  destruct (first_opens msg id P n Hn0 r k time Hw Hcap Hf Hfree Hk)
    as (r1 & j & Has & E).
  assert (arrive_all msg id P n r (l ++ [Own kl tl])
          = arrive_all msg id P n r1 (l ++ [Own kl tl])) as ->.
  { rewrite El. cbn [arrive_all arrive]. by rewrite E. }
  apply (assembling_run msg id P n HP Hn Hn0 r1 j []); try done.
  - apply not_elem_of_nil.
  - intros i Hi. destruct (Hall i Hi); auto.
Qed.

(** [init] gives a reassembler that meets these conditions. *)
Definition demo_alloc (size : nat) (i : Z) : option bytes := Some (replicate size i).
Definition demo_reassembler : reassembler := snd (init (demo_alloc 40) inhabitant 40).
Lemma demo_wf : wf demo_reassembler.
Proof.
  split; [by vm_compute|]. apply list.Forall_forall.
  assert (Forall (fun t => length (received_mask t) = 32%nat /\
    zlen (fragment_sizes t) = MAX_FRAGMENT_COUNT /\
    zlen <$> buffer t = Some (buffer_capacity t)) (trackers_ demo_reassembler)) as H
    by (vm_compute; repeat constructor).
  intros t Ht. apply (proj1 (list.Forall_forall _ _) H) in Ht as (H1 & H2 & H3).
  split_and!; try done. destruct (buffer t) as [b|]; [|done].
  exists b. split; [done|]. by injection H3.
Qed.

Lemma on_fragment_received_safe_witness :
  exists res r', on_fragment_received demo_reassembler 7 254 255 (replicate 30 1) 1136 d0
    = Some (res, r') /\ wf r'.
Proof.
  apply on_fragment_received_safe; [apply demo_wf | by vm_compute | by vm_compute | lia].
Defined.

Definition demo_msg : bytes := seqZ 0 25.
Lemma reassembly_roundtrip_witness :
  exists b r', arrive_all demo_msg 9 10 3 demo_reassembler
      ([Own 2 d0; Other 8 0 2 [1; 2] 10 d0; Own 2 d0; Own 0 d0] ++ [Own 1 d0])
    = Some ([None; None; None; Some (b, 25)], r') /\ take 25 b = demo_msg.
Proof.
  apply (reassembly_roundtrip demo_msg 9 10 3 demo_reassembler
    [Own 2 d0; Other 8 0 2 [1; 2] 10 d0; Own 2 d0; Own 0 d0] 1 d0); try by vm_compute.
  - apply demo_wf.
  - vm_compute. repeat constructor; discriminate.
  - vm_compute. by left.
  - repeat constructor; vm_compute; repeat split; discriminate.
  - cbn. rewrite !elem_of_cons, elem_of_nil. lia.
  - intros k Hk. cbn. rewrite !elem_of_cons, elem_of_nil. lia.
Defined.
End Fragment.
