(* ===== verification/Address.v ===== *)
(** Addresses (src/src/core/address.h, src/src/core/address.cpp).

    A C string is the list of its character codes, without the terminator.  The
    parts of [strtoul], [atoi], [sscanf] and [snprintf] the sources use are
    written out; the theorem of the file is that a printed address parses back
    to itself. *)

From S2P Require Import Prelude Bytes HashMap.

Module Address.

Definition NETUDP_OK : Z := 0.
Definition NETUDP_ERROR_INVALID_PARAM : Z := -1.
Definition NETUDP_ADDRESS_NONE : Z := 0.
Definition NETUDP_ADDRESS_IPV4 : Z := 1.
Definition NETUDP_ADDRESS_IPV6 : Z := 2.

(** [data] is the 16 bytes of the union; [ipv6[i]] is its [i]-th little-endian
    16-bit word. *)
Record address : Type := mkAddress { a_data : bytes; a_port : Z; a_type : Z }.
#[global] Instance address_eq_dec : EqDecision address.
Proof. solve_decision. Defined.
#[global] Instance address_inhabited : Inhabited address :=
  populate (mkAddress (replicate 16 0) 0 0).

Definition address_zero : address := mkAddress (replicate 16 0) 0 0.

Definition address_data_len (addr : address) : Z :=
  if a_type addr =? NETUDP_ADDRESS_IPV4 then 4
  else if a_type addr =? NETUDP_ADDRESS_IPV6 then 16 else 0.

Definition address_hash (addr : address) : Z :=
  let mix (h byte : Z) := u32 (Z.lxor h byte * 16777619) in
  let h := mix 2166136261 (a_type addr) in
  let h := foldl mix h (take (Z.to_nat (address_data_len addr)) (a_data addr)) in
  let h := mix h (u8 (Z.land (a_port addr) 255)) in
  mix h (u8 (Z.land (Z.shiftr (a_port addr) 8) 255)).

(** [memcmp] of the relevant bytes ([g_simd->addr_equal] computes the same). *)
Definition netudp_address_equal (a b : address) : bool :=
  if negb (a_type a =? a_type b) || negb (a_port a =? a_port b) then false
  else
    let n := address_data_len a in
    if n =? 0 then a_type a =? a_type b
    else bool_decide (take (Z.to_nat n) (a_data a) = take (Z.to_nat n) (a_data b)).

(** ** Character classes and the number parsers of the C library *)

Abbreviation str := (list Z).
Definition ch_lbracket : Z := 91.
Definition ch_rbracket : Z := 93.
Definition ch_colon : Z := 58.
Definition ch_dot : Z := 46.

Definition is_space (c : Z) : bool := ((9 <=? c) && (c <=? 13)) || (c =? 32).
(** The value of a digit in any base up to 16. *)
Definition digit_value (c : Z) : option Z :=
  if (48 <=? c) && (c <=? 57) then Some (c - 48)
  else if (97 <=? c) && (c <=? 102) then Some (c - 87)
  else if (65 <=? c) && (c <=? 70) then Some (c - 55) else None.
Definition base_digit (base c : Z) : option Z :=
  match digit_value c with Some d => if d <? base then Some d else None | None => None end.

(** The longest run of digits: its value, and what follows. *)
Fixpoint scan_digits (base : Z) (acc : Z) (s : str) : Z * str :=
  match s with
  | [] => (acc, [])
  | c :: s' => match base_digit base c with
               | Some d => scan_digits base (acc * base + d) s'
               | None => (acc, s)
               end
  end.
Fixpoint skip_space (s : str) : str :=
  match s with c :: s' => if is_space c then skip_space s' else s | [] => [] end.
Definition scan_sign (s : str) : bool * str :=
  match s with
  | c :: s' => if c =? 45 then (true, s') else if c =? 43 then (false, s') else (false, s)
  | [] => (false, [])
  end.
Definition starts_digit (base : Z) (s : str) : bool :=
  match s with c :: _ => match base_digit base c with Some _ => true | None => false end
  | [] => false end.
(** The optional ["0x"] of base 16, taken only when a digit follows it. *)
Definition skip_0x (base : Z) (s : str) : str :=
  match s with
  | z :: x :: s' => if (base =? 16) && (z =? 48) && ((x =? 120) || (x =? 88)) && starts_digit 16 s'
                    then s' else s
  | _ => s
  end.

(** [strtoul(s, &end, base)]: [None] when no digits were found ([end == s]). *)
Definition strtoul (base : Z) (s : str) : option (Z * str) :=
  let '(neg, s1) := scan_sign (skip_space s) in
  let s2 := skip_0x base s1 in
  if starts_digit base s2 then
    let '(v, rest) := scan_digits base 0 s2 in
    let r := if 2 ^ 64 - 1 <? v then 2 ^ 64 - 1 else if neg then u64 (- v) else v in
    Some (r, rest)
  else None.

(** [atoi(s)]: [(int)strtol(s, nullptr, 10)]. *)
Definition atoi (s : str) : Z :=
  let '(neg, s1) := scan_sign (skip_space s) in
  let '(v, _) := scan_digits 10 0 s1 in
  let v := if neg then Z.max (- v) (- 2 ^ 63) else Z.min v (2 ^ 63 - 1) in
  i32 v.

(** One [%u] of [sscanf], and [sscanf(s, "%u.%u.%u.%u", ...) == 4]. *)
Definition scan_u (s : str) : option (Z * str) :=
  match strtoul 10 s with Some (v, rest) => Some (u32 v, rest) | None => None end.
Definition scan_char (c : Z) (s : str) : option str :=
  match s with x :: s' => if x =? c then Some s' else None | [] => None end.
Definition sscanf_ipv4 (s : str) : option (Z * Z * Z * Z) :=
  '(a, s) ← scan_u s;
  s ← scan_char ch_dot s;
  '(b, s) ← scan_u s;
  s ← scan_char ch_dot s;
  '(c, s) ← scan_u s;
  s ← scan_char ch_dot s;
  '(d, s) ← scan_u s;
  Some (a, b, c, d).

(** [strchr(s, c)] and [strrchr(s, c)]: what precedes and what follows. *)
Fixpoint strchr (c : Z) (s : str) : option (str * str) :=
  match s with
  | [] => None
  | x :: s' => if x =? c then Some ([], s')
               else match strchr c s' with
                    | Some (before, after) => Some (x :: before, after)
                    | None => None end
  end.
Fixpoint strrchr (c : Z) (s : str) : option (str * str) :=
  match s with
  | [] => None
  | x :: s' => match strrchr c s' with
               | Some (before, after) => Some (x :: before, after)
               | None => if x =? c then Some ([], s') else None end
  end.

(** ** Parsing *)

(** The loop over the groups of an IPv6 address: [groups] holds the groups read
    so far, [dc] is [double_colon_pos].  [None] is the error return. *)
Fixpoint parse_groups (fuel : nat) (p : str) (groups : list Z) (dc : Z)
    : option (list Z * Z) :=
  match fuel with
  | O => None
  | S fuel =>
      match p with
      | [] => Some (groups, dc)
      | c :: p' =>
          if negb (zlen groups <? 8) then Some (groups, dc)
          else if (c =? ch_colon) && (match p' with c' :: _ => c' =? ch_colon | [] => false end)
          then
            if 0 <=? dc then None
            else
              let dc := zlen groups in
              match drop 1 p' with
              | [] => Some (groups, dc)
              | p => parse_groups fuel p groups dc
              end
          else
            let p := if c =? ch_colon then p' else p in
            match strtoul 16 p with
            | None => None
            | Some (val, rest) =>
                if 65535 <? val then None
                else parse_groups fuel rest (groups ++ [u16 val]) dc
            end
      end
  end.

(** Expansion of [::]: the groups after it move to the end. *)
Definition expand (groups : list Z) (dc : Z) : list Z :=
  if 0 <=? dc then
    take (Z.to_nat dc) groups ++ replicate (8 - length groups) 0 ++ drop (Z.to_nat dc) groups
  else groups ++ replicate (8 - length groups) 0.

Definition parse_ipv6 (str : str) : Z * address :=
  match strchr ch_rbracket str with
  | None => (NETUDP_ERROR_INVALID_PARAM, address_zero)
  | Some (before, after) =>
      let ipv6_str := drop 1 before in
      let ipv6_len := zlen ipv6_str in
      if (ipv6_len <=? 0) || (45 <? ipv6_len) then (NETUDP_ERROR_INVALID_PARAM, address_zero)
      else match after with
      | c :: after' =>
          if negb (c =? ch_colon) then (NETUDP_ERROR_INVALID_PARAM, address_zero)
          else
            let port := atoi after' in
            if (port <=? 0) || (65535 <? port) then (NETUDP_ERROR_INVALID_PARAM, address_zero)
            else match parse_groups (S (length ipv6_str)) ipv6_str [] (-1) with
            | None => (NETUDP_ERROR_INVALID_PARAM, address_zero)
            | Some (groups, dc) =>
                (NETUDP_OK, mkAddress (mjoin (le_bytes 2 <$> expand groups dc)) (u16 port)
                              NETUDP_ADDRESS_IPV6)
            end
      | [] => (NETUDP_ERROR_INVALID_PARAM, address_zero)
      end
  end.

Definition str_any4 : str := [48; 46; 48; 46; 48; 46; 48].  (** "0.0.0.0" *)
Definition str_any6 : str := [58; 58].  (** "::" *)

Definition parse_ipv4 (str : str) : Z * address :=
  match strrchr ch_colon str with
  | None => (NETUDP_ERROR_INVALID_PARAM, address_zero)
  | Some (ip_str, after) =>
      let port := atoi after in
      if (port <=? 0) || (65535 <? port) then (NETUDP_ERROR_INVALID_PARAM, address_zero)
      else if (zlen ip_str <=? 0) || (45 <? zlen ip_str)
      then (NETUDP_ERROR_INVALID_PARAM, address_zero)
      else if bool_decide (ip_str = str_any4) || bool_decide (ip_str = str_any6) then
        (NETUDP_OK, mkAddress (replicate 16 0) (u16 port)
           (if bool_decide (ip_str = str_any6) then NETUDP_ADDRESS_IPV6 else NETUDP_ADDRESS_IPV4))
      else match sscanf_ipv4 ip_str with
      | Some (a, b, c, d) =>
          if (255 <? a) || (255 <? b) || (255 <? c) || (255 <? d)
          then (NETUDP_ERROR_INVALID_PARAM, address_zero)
          else (NETUDP_OK, mkAddress ([u8 a; u8 b; u8 c; u8 d] ++ replicate 12 0) (u16 port)
                             NETUDP_ADDRESS_IPV4)
      | None => (NETUDP_ERROR_INVALID_PARAM, address_zero)
      end
  end.

(** The returned code and [*addr]. *)
Definition netudp_parse_address (str : str) : Z * address :=
  match str with
  | c :: _ => if c =? ch_lbracket then parse_ipv6 str else parse_ipv4 str
  | [] => parse_ipv4 str
  end.

(** ** Printing *)

Definition digit_char (d : Z) : Z := if d <? 10 then 48 + d else 87 + d.
(** [%u] and [%x] of [v]: the digits without leading zeros. *)
Fixpoint print_num (fuel : nat) (base v : Z) (acc : str) : str :=
  match fuel with
  | O => acc
  | S fuel =>
      let acc := digit_char (v mod base) :: acc in
      if v / base =? 0 then acc else print_num fuel base (v / base) acc
  end.
Definition print_u (v : Z) : str := print_num 64 10 v [].
Definition print_x (v : Z) : str := print_num 64 16 v [].

Definition group (addr : address) (i : Z) : Z :=
  (a_data addr).[2 * i] + 256 * (a_data addr).[2 * i + 1].

(** Groups separated by a character. *)
Fixpoint join (sep : Z) (l : list str) : str :=
  match l with [] => [] | [s] => s | s :: l => s ++ sep :: join sep l end.

Definition address_text (addr : address) : str :=
  if a_type addr =? NETUDP_ADDRESS_IPV4 then
    join ch_dot (print_u ∘ aget (a_data addr) <$> [0; 1; 2; 3])
      ++ ch_colon :: print_u (a_port addr)
  else if a_type addr =? NETUDP_ADDRESS_IPV6 then
    ch_lbracket :: join ch_colon (print_x ∘ group addr <$> seqZ 0 8)
      ++ ch_rbracket :: ch_colon :: print_u (a_port addr)
  else [110; 111; 110; 101; 58; 48].  (** "none:0" *)

(** [snprintf] keeps at most [buf_len - 1] characters; a buffer shorter than two
    is left as it is. *)
Definition netudp_address_to_string (addr : address) (buf : str) (buf_len : Z) : str :=
  if buf_len <? 2 then buf else take (Z.to_nat (buf_len - 1)) (address_text addr).

(** * Numbers print and scan back *)

Lemma digit_char_value base d :
  0 <= d < base -> base <= 16 -> base_digit base (digit_char d) = Some d.
Proof.
  intros Hd Hb. unfold base_digit, digit_char, digit_value.
  destruct (d <? 10) eqn:E; bool_facts.
  - rewrite (proj2 (Z.leb_le 48 (48 + d))), (proj2 (Z.leb_le (48 + d) 57)) by lia. cbn [andb].
    replace (48 + d - 48) with d by lia. by rewrite (proj2 (Z.ltb_lt d base)) by lia.
  - rewrite (proj2 (Z.leb_gt (87 + d) 57)) by lia. rewrite andb_false_r.
    rewrite (proj2 (Z.leb_le 97 (87 + d))), (proj2 (Z.leb_le (87 + d) 102)) by lia. cbn [andb].
    replace (87 + d - 87) with d by lia. by rewrite (proj2 (Z.ltb_lt d base)) by lia.
Qed.

(** Horner value of printed digits. *)
Lemma scan_print fuel base v acc a rest :
  2 <= base <= 16 -> 0 <= v < base ^ Z.of_nat fuel -> (0 < fuel)%nat ->
  exists n, scan_digits base a (print_num fuel base v acc ++ rest)
    = scan_digits base (a * base ^ n + v) (acc ++ rest) /\ 0 <= n.
Proof.
  intros Hb. revert v acc a. induction fuel as [|fuel IH]; intros v acc a Hv Hf; [lia|].
  cbn [print_num]. pose proof (Z.mod_pos_bound v base ltac:(lia)) as Hm.
  pose proof (Z.div_mod v base ltac:(lia)) as Hdm.
  assert (forall a', scan_digits base a' ((digit_char (v mod base) :: acc) ++ rest)
    = scan_digits base (a' * base + v mod base) (acc ++ rest)) as Hone.
  { intros a'. cbn [app scan_digits]. by rewrite digit_char_value by lia. }
  case_if.
  - exists 1. rewrite Hone, Z.pow_1_r. split; [f_equal; lia|lia].
  - rewrite Nat2Z.inj_succ, Z.pow_succ_r in Hv by lia.
    assert (0 <= v / base < base ^ Z.of_nat fuel) as Hq.
    { split; [apply Z.div_pos; lia|]. apply Z.div_lt_upper_bound; lia. }
    assert (0 < fuel)%nat as Hf'.
    { destruct fuel; [|lia]. change (base ^ Z.of_nat 0) with 1 in Hq. lia. }
    destruct (IH (v / base) (digit_char (v mod base) :: acc) a Hq Hf') as (n & -> & Hn).
    exists (n + 1). rewrite Hone, Z.pow_add_r, Z.pow_1_r by lia. split; [f_equal; nia|lia].
Qed.

(** The first character of a printed number is a digit. *)
Lemma print_head fuel base v acc :
  2 <= base <= 16 -> 0 <= v -> (0 < fuel)%nat ->
  exists d s, print_num fuel base v acc = digit_char d :: s /\ 0 <= d < base.
Proof.
  intros Hb. revert v acc. induction fuel as [|fuel IH]; intros v acc Hv Hf; [lia|].
  cbn [print_num]. pose proof (Z.mod_pos_bound v base ltac:(lia)). case_if; [eauto|].
  destruct fuel as [|fuel]; [cbn; eauto|]. apply IH; [apply Z.div_pos; lia|lia].
Qed.

Lemma print_chars fuel base v acc :
  2 <= base <= 16 -> 0 <= v -> Forall (fun c => exists d, 0 <= d < base /\ c = digit_char d) acc ->
  Forall (fun c => exists d, 0 <= d < base /\ c = digit_char d) (print_num fuel base v acc).
Proof.
  intros Hb. revert v acc. induction fuel as [|fuel IH]; intros v acc Hv Ha; [done|].
  cbn [print_num]. pose proof (Z.mod_pos_bound v base ltac:(lia)).
  assert (Forall (fun c => exists d, 0 <= d < base /\ c = digit_char d)
            (digit_char (v mod base) :: acc)) as Ha' by (constructor; eauto).
  case_if; [done|]. apply IH; [apply Z.div_pos; lia|done].
Qed.
Lemma digit_char_range d : 0 <= d < 16 -> 48 <= digit_char d <= 102 /\ digit_char d <> 58 /\
  digit_char d <> 93 /\ digit_char d <> 120 /\ digit_char d <> 88.
Proof. intros Hd. unfold digit_char. case_if; lia. Qed.
Lemma print_not c fuel base v :
  2 <= base <= 16 -> 0 <= v -> c = ch_colon \/ c = ch_rbracket ->
  c ∉ print_num fuel base v [].
Proof.
  intros Hb Hv Hc Hin.
  pose proof (print_chars fuel base v [] Hb Hv (Forall_nil_2 _)) as Hf.
  rewrite list.Forall_forall in Hf. destruct (Hf c Hin) as (d & Hd & ->).
  pose proof (digit_char_range d ltac:(lia)). unfold ch_colon, ch_rbracket in *. lia.
Qed.

(** Scanning a printed number that is followed by a non-digit. *)
Lemma starts_print fuel base v rest :
  2 <= base <= 16 -> 0 <= v -> (0 < fuel)%nat ->
  let s := print_num fuel base v [] ++ rest in
  skip_space s = s /\ scan_sign s = (false, s) /\ starts_digit base s = true.
Proof.
  intros Hb Hv Hf. destruct (print_head fuel base v [] Hb Hv Hf) as (d & t & E & Hd).
  cbn zeta. rewrite E. cbn [app]. pose proof (digit_char_range d ltac:(lia)) as Hr.
  split_and!.
  - cbn [skip_space]. unfold is_space. rewrite (proj2 (Z.leb_gt (digit_char d) 13)) by lia.
    rewrite andb_false_r. by rewrite (proj2 (Z.eqb_neq (digit_char d) 32)) by lia.
  - cbn [scan_sign]. by rewrite (proj2 (Z.eqb_neq _ 45)), (proj2 (Z.eqb_neq _ 43)) by lia.
  - cbn [starts_digit]. by rewrite digit_char_value by lia.
Qed.

Lemma scan_stop base a rest : starts_digit base rest = false -> scan_digits base a rest = (a, rest).
Proof. destruct rest as [|c s]; cbn; [done|]. by destruct (base_digit base c). Qed.

Lemma skip_0x_print fuel base v rest :
  2 <= base <= 16 -> 0 <= v -> (0 < fuel)%nat ->
  (forall c s, rest = c :: s -> c <> 120 /\ c <> 88) ->
  skip_0x base (print_num fuel base v [] ++ rest) = print_num fuel base v [] ++ rest.
Proof.
  intros Hb Hv Hf Hr.
  assert (forall c, c ∈ print_num fuel base v [] ++ take 1 rest -> c <> 120 /\ c <> 88) as Hc.
  { intros c [Hin|Hin]%elem_of_app.
    - pose proof (print_chars fuel base v [] Hb Hv (Forall_nil_2 _)) as Hch.
      rewrite list.Forall_forall in Hch. destruct (Hch c Hin) as (d & Hd & ->).
      pose proof (digit_char_range d ltac:(lia)). lia.
    - destruct rest as [|x s]; [by apply not_elem_of_nil in Hin|].
      apply list_elem_of_singleton in Hin as ->. by apply (Hr x s). }
  destruct (print_num fuel base v []) as [|z [|x s]] eqn:E.
  - destruct (print_head fuel base v [] Hb Hv Hf) as (d & t & E' & _). congruence.
  - destruct rest as [|x s]; [done|]. cbn [app skip_0x].
    destruct (Hc x) as [H1 H2]; [cbn; right; left|].
    rewrite (proj2 (Z.eqb_neq x 120) H1), (proj2 (Z.eqb_neq x 88) H2).
    by rewrite !andb_false_r.
  - cbn [app skip_0x]. destruct (Hc x) as [H1 H2]; [cbn; right; left|].
    rewrite (proj2 (Z.eqb_neq x 120) H1), (proj2 (Z.eqb_neq x 88) H2).
    by rewrite !andb_false_r.
Qed.

Lemma strtoul_print base v rest :
  2 <= base <= 16 -> 0 <= v < 2 ^ 64 -> starts_digit base rest = false ->
  (forall c s, rest = c :: s -> c <> 120 /\ c <> 88) ->
  strtoul base (print_num 64 base v [] ++ rest) = Some (v, rest).
Proof.
  intros Hb Hv Hr Hx. unfold strtoul.
  destruct (starts_print 64 base v rest Hb ltac:(lia) ltac:(lia)) as (-> & -> & Hs).
  rewrite skip_0x_print by (done || lia). rewrite Hs.
  assert (0 <= v < base ^ Z.of_nat 64) as Hv'.
  { split; [lia|]. apply Z.lt_le_trans with (2 ^ 64); [lia|]. apply Z.pow_le_mono_l. lia. }
  destruct (scan_print 64 base v [] 0 rest Hb Hv' ltac:(lia)) as (n & -> & _).
  cbn [app]. rewrite Z.mul_0_l, Z.add_0_l, scan_stop by done.
  by rewrite (proj2 (Z.ltb_ge (2 ^ 64 - 1) v)) by lia.
Qed.

Lemma atoi_print v : 0 <= v < 2 ^ 31 -> atoi (print_u v) = v.
Proof.
  intros Hv. unfold atoi, print_u. rewrite <- (app_nil_r (print_num _ _ _ _)).
  destruct (starts_print 64 10 v [] ltac:(lia) ltac:(lia) ltac:(lia)) as (-> & -> & _).
  assert (0 <= v < 10 ^ Z.of_nat 64) as Hv'.
  { split; [lia|]. apply Z.lt_le_trans with (2 ^ 31); [lia|]. by vm_compute. }
  destruct (scan_print 64 10 v [] 0 [] ltac:(lia) Hv' ltac:(lia)) as (n & -> & _).
  cbn [app scan_digits]. rewrite Z.mul_0_l, Z.add_0_l, Z.min_l by lia.
  unfold i32. rewrite Z.mod_small; lia.
Qed.

Lemma print_length fuel base v acc k :
  2 <= base -> 0 <= v < base ^ Z.of_nat k -> (0 < k)%nat ->
  (length (print_num fuel base v acc) <= length acc + k)%nat.
Proof.
  intros Hb. revert v acc k. induction fuel as [|fuel IH]; intros v acc k Hv Hk; cbn; [lia|].
  case_if; cbn; [lia|]. destruct k as [|k]; [lia|].
  rewrite Nat2Z.inj_succ, Z.pow_succ_r in Hv by lia.
  assert (0 <= v / base < base ^ Z.of_nat k) as Hq.
  { split; [apply Z.div_pos; lia|]. apply Z.div_lt_upper_bound; lia. }
  assert (0 < k)%nat as Hk'.
  { destruct k; [|lia]. change (base ^ Z.of_nat 0) with 1 in Hq. lia. }
  specialize (IH (v / base) (digit_char (v mod base) :: acc) k Hq Hk'). cbn in IH. lia.
Qed.

Arguments print_num : simpl never.

Lemma strchr_app c a b : c ∉ a -> strchr c (a ++ c :: b) = Some (a, b).
Proof.
  induction a as [|x a IH]; intros Hn; cbn; [by rewrite Z.eqb_refl|].
  rewrite elem_of_cons in Hn. rewrite (proj2 (Z.eqb_neq x c)) by (intros ->; tauto).
  rewrite IH by tauto. done.
Qed.
Lemma strrchr_none c b : c ∉ b -> strrchr c b = None.
Proof.
  induction b as [|x b IH]; intros Hn; cbn; [done|]. rewrite elem_of_cons in Hn.
  rewrite IH by tauto. by rewrite (proj2 (Z.eqb_neq x c)) by (intros ->; tauto).
Qed.
Lemma strrchr_app c a b : c ∉ b -> strrchr c (a ++ c :: b) = Some (a, b).
Proof.
  intros Hn. induction a as [|x a IH]; cbn.
  - by rewrite strrchr_none, Z.eqb_refl by done.
  - by rewrite IH.
Qed.

(** ** Well-formed addresses *)

(** What parsing produces and the socket layer stores: unused union bytes are
    zero, ports are not. *)
Definition wf (addr : address) : Prop :=
  is_bytes (a_data addr) /\ length (a_data addr) = 16%nat /\ 1 <= a_port addr < 2 ^ 16 /\
  (a_type addr = NETUDP_ADDRESS_IPV4 /\ drop 4 (a_data addr) = replicate 12 0 \/
   a_type addr = NETUDP_ADDRESS_IPV6).

(** The colon, dot and end that follow a number are no digits. *)
Lemma port_parses addr : wf addr ->
  atoi (print_u (a_port addr)) = a_port addr /\ u16 (a_port addr) = a_port addr /\
  (a_port addr <=? 0) || (65535 <? a_port addr) = false.
Proof.
  intros (_ & _ & Hp & _). split; [apply atoi_print; lia|].
  split; [apply u16_small; unfold is_u16; lia|].
  by rewrite (proj2 (Z.leb_gt _ _)), (proj2 (Z.ltb_ge _ _)) by lia.
Qed.

Lemma scan_u_print v rest :
  0 <= v < 2 ^ 8 -> starts_digit 10 rest = false ->
  (forall c s, rest = c :: s -> c <> 120 /\ c <> 88) ->
  scan_u (print_u v ++ rest) = Some (v, rest).
Proof.
  intros Hv Hr Hx. unfold scan_u, print_u. rewrite strtoul_print by (done || lia).
  rewrite u32_small by (unfold is_u32; lia). done.
Qed.

Lemma sscanf_print a b c d :
  0 <= a < 2 ^ 8 -> 0 <= b < 2 ^ 8 -> 0 <= c < 2 ^ 8 -> 0 <= d < 2 ^ 8 ->
  sscanf_ipv4 (join ch_dot (print_u <$> [a; b; c; d])) = Some (a, b, c, d).
Proof.
  intros Ha Hb Hc Hd. unfold sscanf_ipv4. cbn [fmap list_fmap join].
  assert (forall r, starts_digit 10 (ch_dot :: r) = false /\
    forall x s, ch_dot :: r = x :: s -> x <> 120 /\ x <> 88) as Hdot.
  { intros r. split; [done|]. intros x s [= <- <-]. done. }
  rewrite scan_u_print; [|done|apply Hdot|apply Hdot]. cbn [mbind option_bind scan_char].
  rewrite Z.eqb_refl. cbn [mbind option_bind].
  rewrite scan_u_print; [|done|apply Hdot|apply Hdot]. cbn [mbind option_bind scan_char].
  rewrite Z.eqb_refl. cbn [mbind option_bind].
  rewrite scan_u_print; [|done|apply Hdot|apply Hdot]. cbn [mbind option_bind scan_char].
  rewrite Z.eqb_refl. cbn [mbind option_bind].
  rewrite <- (app_nil_r (print_u d)), scan_u_print by (intros; done). done.
Qed.

Lemma parse_text_ipv4 addr :
  wf addr -> a_type addr = NETUDP_ADDRESS_IPV4 ->
  parse_ipv4 (address_text addr) = (NETUDP_OK, addr).
Proof.
  intros Hwf Ht. pose proof (port_parses addr Hwf) as (Hp1 & Hp2 & Hp3).
  destruct Hwf as (Hb & Hl & Hp & [[_ Hz]|Ht6]); [|rewrite Ht in Ht6; done].
  destruct addr as [data port ty]; cbn [a_data a_port a_type] in *. subst ty.
  destruct data as [|a [|b [|c [|d rest]]]]; try done. change (rest = replicate 12 0) in Hz. subst rest.
  unfold is_bytes in Hb. rewrite !Forall_cons_iff in Hb. destruct Hb as (Ha & Hb & Hc & Hd & _).
  unfold address_text. cbn [a_type a_data a_port]. rewrite Z.eqb_refl.
  change (print_u ∘ aget (a :: b :: c :: d :: replicate 12 0) <$> [0; 1; 2; 3])
    with (print_u <$> [a; b; c; d]).
  unfold parse_ipv4. rewrite strrchr_app by (apply print_not; auto; lia).
  rewrite Hp1, Hp2, Hp3. set (ip := join ch_dot (print_u <$> [a; b; c; d])).
  assert (sscanf_ipv4 ip = Some (a, b, c, d)) as Hs by by apply sscanf_print.
  assert (0 < zlen ip <= 45) as Hlen.
  { unfold ip, zlen. cbn [fmap list_fmap join]. unfold is_u8 in *. split.
    - rewrite !length_app. cbn [length]. lia.
    - rewrite !length_app. cbn [length]. rewrite !length_app. cbn [length].
      rewrite !length_app. cbn [length].
      pose proof (print_length 64 10 a [] 3). pose proof (print_length 64 10 b [] 3).
      pose proof (print_length 64 10 c [] 3). pose proof (print_length 64 10 d [] 3).
      unfold print_u. cbn in *. lia. }
  rewrite (proj2 (Z.leb_gt _ _)), (proj2 (Z.ltb_ge _ _)) by lia. cbn [orb].
  rewrite (bool_decide_false (ip = str_any6)) by (intros E; rewrite E in Hs; done).
  case_bool_decide as E; cbn [orb].
  - rewrite E in Hs. vm_compute in Hs. injection Hs as <- <- <- <-. done.
  - rewrite Hs. unfold is_u8 in *. rewrite !(proj2 (Z.ltb_ge 255 _)) by lia. cbn [orb].
    rewrite !u8_small by done. done.
Qed.

Lemma strtoul16_print v rest :
  is_u16 v -> (rest = [] \/ exists s, rest = ch_colon :: s) ->
  strtoul 16 (print_x v ++ rest) = Some (v, rest).
Proof.
  intros Hv Hr. apply strtoul_print; unfold is_u16 in *; try lia.
  - by destruct Hr as [->|[s ->]].
  - by destruct Hr as [->|[s ->]]; intros c t [= <- <-].
Qed.

Lemma print_x_head v rest : 0 <= v ->
  exists c s, print_x v ++ rest = c :: s /\ (c =? ch_colon) = false.
Proof.
  intros Hv. destruct (print_head 64 16 v [] ltac:(lia) Hv ltac:(lia)) as (d & s & E & Hd).
  unfold print_x. rewrite E. exists (digit_char d), (s ++ rest). split; [done|].
  apply Z.eqb_neq. pose proof (digit_char_range d Hd). unfold ch_colon. lia.
Qed.

(** The group loop reads back the groups that were printed. *)
Lemma parse_groups_print gs fuel done_ :
  Forall is_u16 gs -> (length gs < fuel)%nat -> (length done_ + length gs = 8)%nat ->
  (gs <> [] -> parse_groups fuel (join ch_colon (print_x <$> gs)) done_ (-1) = Some (done_ ++ gs, -1)) /\
  (gs <> [] -> parse_groups fuel (ch_colon :: join ch_colon (print_x <$> gs)) done_ (-1)
     = Some (done_ ++ gs, -1)) /\
  parse_groups fuel [] (done_ ++ gs) (-1) = Some (done_ ++ gs, -1).
Proof.
  intros Hgs. revert fuel done_. induction Hgs as [|g gs Hg Hgs IH]; intros fuel done_ Hf Hlen.
  - split_and!; try done. destruct fuel; [cbn in Hf; lia|]. done.
  - destruct fuel as [|fuel]; [cbn in Hf; lia|]. cbn [length] in *.
    destruct (IH fuel (done_ ++ [g])) as (_ & IH1 & IH2);
      [lia|rewrite length_app; cbn; lia|]. rewrite <- app_assoc in IH1, IH2. cbn [app] in IH1, IH2.
    assert ((zlen done_ <? 8) = true) as Hlt by (apply Z.ltb_lt; unfold zlen; lia).
    set (rest := match gs with [] => [] | _ => ch_colon :: join ch_colon (print_x <$> gs) end).
    assert (join ch_colon (print_x <$> g :: gs) = print_x g ++ rest) as ->.
    { unfold rest. destruct gs; cbn [fmap list_fmap join]; [by rewrite app_nil_r|done]. }
    assert (rest = [] \/ exists s, rest = ch_colon :: s) as Hrest
      by (unfold rest; destruct gs; eauto).
    assert (parse_groups fuel rest (done_ ++ [g]) (-1) = Some (done_ ++ g :: gs, -1)) as Hrec.
    { unfold rest. destruct gs; [|by apply IH1]. cbn in IH2. by apply IH2. }
    destruct (print_x_head g rest ltac:(unfold is_u16 in Hg; lia)) as (c & s & E & Hc).
    assert ((65535 <? g) = false) as Hg' by (apply Z.ltb_ge; unfold is_u16 in Hg; lia).
    assert (u16 g = g) as Hu by by apply u16_small.
    pose proof (strtoul16_print g rest Hg Hrest) as Hstr.
    split_and!; intros; [| |done].
    + rewrite E in *. cbn [parse_groups]. rewrite Hlt, Hc, Hstr, Hg', Hu. cbn [negb andb]. done.
    + cbn [parse_groups]. rewrite Hlt. rewrite E in *. rewrite Hc, Z.eqb_refl.
      cbn [negb andb]. by rewrite Hstr, Hg', Hu.
Qed.

Lemma le_bytes_pair a b : is_u8 a -> is_u8 b -> le_bytes 2 (a + 256 * b) = [a; b].
Proof.
  unfold is_u8. change (2 ^ 8) with 256. intros Ha Hb. unfold le_bytes.
  f_equal; [|f_equal]; mlia.
Qed.

Lemma join_length sep l k :
  Forall (fun s => (length s <= k)%nat) l -> (length (join sep l) <= length l * (k + 1))%nat.
Proof.
  induction 1 as [|s l Hs Hl IH]; [done|]. destruct l as [|s' l]; [cbn; lia|].
  change (join sep (s :: s' :: l)) with (s ++ sep :: join sep (s' :: l)).
  rewrite length_app. cbn [length] in *. lia.
Qed.
Lemma join_not c sep l : c <> sep -> Forall (fun s => c ∉ s) l -> c ∉ join sep l.
Proof.
  intros Hne. induction 1 as [|s l Hs Hl IH]; [apply not_elem_of_nil|].
  destruct l as [|s' l]; [done|].
  change (join sep (s :: s' :: l)) with (s ++ sep :: join sep (s' :: l)).
  rewrite elem_of_app, elem_of_cons. tauto.
Qed.

Lemma parse_text_ipv6 addr :
  wf addr -> a_type addr = NETUDP_ADDRESS_IPV6 ->
  parse_ipv6 (address_text addr) = (NETUDP_OK, addr).
Proof.
  intros Hwf Ht. pose proof (port_parses addr Hwf) as (Hp1 & Hp2 & Hp3).
  destruct Hwf as (Hb & Hl & Hp & _). destruct addr as [data port ty]; cbn [a_data a_port a_type] in *. subst ty.
  unfold address_text. cbn [a_type a_port]. change (NETUDP_ADDRESS_IPV6 =? _) with false at 1.
  rewrite Z.eqb_refl. cbv iota.
  set (gs := group (mkAddress data port NETUDP_ADDRESS_IPV6) <$> seqZ 0 8).
  assert (print_x ∘ group (mkAddress data port NETUDP_ADDRESS_IPV6) <$> seqZ 0 8
          = print_x <$> gs) as -> by (unfold gs; by rewrite <- list_fmap_compose).
  assert (Forall is_u16 gs /\ mjoin (le_bytes 2 <$> gs) = data) as [Hgs Hdata].
  { unfold is_bytes in Hb. do 16 (destruct data as [|? data]; [done|]). destruct data; [|done].
    rewrite !Forall_cons_iff in Hb. destruct_and!.
    assert (gs = [z + 256 * z0; z1 + 256 * z2; z3 + 256 * z4; 
        z5 + 256 * z6; z7 + 256 * z8; z9 + 256 * z10; 
        z11 + 256 * z12; z13 + 256 * z14]) as -> by reflexivity. split.
    - repeat constructor; unfold is_u16, is_u8 in *; lia.
    - cbn. by rewrite !le_bytes_pair. }
  assert (length gs = 8%nat) as Hlen by (unfold gs; by rewrite length_fmap, length_seqZ).
  assert (forall c, c = ch_colon \/ c = ch_rbracket -> Forall (fun s => c ∉ s) (print_x <$> gs)) as Hnot.
  { intros c Hc. apply Forall_fmap. eapply Forall_impl; [|exact Hgs]. intros v Hv.
    apply print_not; [lia|unfold is_u16 in Hv; lia|done]. }
  unfold parse_ipv6. rewrite app_comm_cons, strchr_app.
  2:{ rewrite elem_of_cons. intros [?|Hin]; [done|]. revert Hin.
      apply join_not; [done|]. apply Hnot. by right. }
  cbn [drop]. rewrite Z.eqb_refl. cbn [negb]. rewrite Hp1, Hp2, Hp3.
  set (body := join ch_colon (print_x <$> gs)).
  assert (length body <= 40)%nat as Hbody.
  { unfold body. etransitivity; [apply (join_length _ _ 4)|rewrite length_fmap; lia].
    apply Forall_fmap. eapply Forall_impl; [|exact Hgs]. intros v Hv. cbn. unfold print_x.
    pose proof (print_length 64 16 v [] 4 ltac:(lia)). unfold is_u16 in Hv. cbn in *. lia. }
  assert (8 < S (length body))%nat as Hfuel.
  { unfold body. do 8 (destruct gs as [|? gs]; [done|]). cbn [fmap list_fmap join].
    repeat (rewrite length_app; cbn [length]). 
    pose proof (print_head 64 16 z [] ltac:(lia)) as Hh. rewrite Forall_cons_iff in Hgs.
    destruct Hgs as [Hz _]. unfold is_u16 in Hz.
    destruct Hh as (dd & tt & E & _); [lia|lia|]. unfold print_x at 1. rewrite E. cbn [length]. lia. }
  rewrite drop_0, (proj2 (Z.leb_gt (zlen body) 0)), (proj2 (Z.ltb_ge 45 (zlen body)))
    by (unfold zlen; lia). cbn [orb].
  destruct (parse_groups_print gs (S (length body)) [] Hgs) as (Hparse & _ & _); [lia|cbn; lia|].
  fold body in Hparse. rewrite Hparse by (intros E; rewrite E in Hlen; done). cbn [app]. unfold expand. cbn [Z.leb Z.compare].
  rewrite Hlen. cbn [Nat.sub replicate]. by rewrite app_nil_r, Hdata.
Qed.

Lemma text_length addr : wf addr -> (length (address_text addr) <= 63)%nat.
Proof.
  intros (Hb & Hl & Hp & Ht).
  assert (length (print_u (a_port addr)) <= 5)%nat as Hport.
  { unfold print_u. pose proof (print_length 64 10 (a_port addr) [] 5). cbn in *. lia. }
  assert (forall i, is_u8 (a_data addr).[i]) as Hget.
  { intros i. unfold aget. rewrite list_lookup_total_alt.
    destruct (a_data addr !! Z.to_nat i) as [x|] eqn:E; [|by vm_compute].
    cbn. by eapply Forall_lookup_1 in E; [|exact Hb]. }
  unfold address_text. destruct Ht as [[-> _]| ->].
  - rewrite Z.eqb_refl, length_app. cbn [length].
    pose proof (join_length ch_dot (print_u ∘ aget (a_data addr) <$> [0; 1; 2; 3]) 3) as Hj.
    cbn [fmap list_fmap length] in *. apply Nat.le_trans with (4 * (3 + 1) + S 5)%nat; [|lia].
    apply Nat.add_le_mono; [|lia]. apply Hj.
    assert (forall i, (length ((print_u ∘ aget (a_data addr)) i) <= 3)%nat) as H3.
    { intros i. cbn. unfold print_u. pose proof (Hget i) as Hi. unfold is_u8 in Hi.
      pose proof (print_length 64 10 (a_data addr).[i] [] 3). cbn in *. lia. }
    rewrite !Forall_cons_iff. by auto.
  - change (NETUDP_ADDRESS_IPV6 =? NETUDP_ADDRESS_IPV4) with false. rewrite Z.eqb_refl. cbv iota.
    cbn [length]. rewrite length_app. cbn [length].
    pose proof (join_length ch_colon (print_x ∘ group addr <$> seqZ 0 8) 4) as Hj.
    rewrite length_fmap, length_seqZ in Hj.
    assert (forall n, n <= Z.to_nat 8 * (4 + 1) -> S (n + S (S (length (print_u (a_port addr))))) <= 63)%nat
      as Hfin by (change (Z.to_nat 8) with 8%nat; lia).
    apply Hfin, Hj. apply Forall_fmap, Forall_true.
    intros i. cbn. unfold print_x, group. pose proof (Hget (2 * i)) as H1.
    pose proof (Hget (2 * i + 1)) as H2. unfold is_u8 in *.
    pose proof (print_length 64 16 ((a_data addr).[2 * i] + 256 * (a_data addr).[2 * i + 1]) [] 4).
    cbn in *. lia.
Qed.

Lemma text_head addr : wf addr -> a_type addr = NETUDP_ADDRESS_IPV4 ->
  exists d t, address_text addr = digit_char d :: t /\ 0 <= d < 10.
Proof.
  intros (Hb & Hl & _) Ht. unfold address_text. rewrite Ht, Z.eqb_refl.
  destruct (a_data addr) as [|z l]; [done|]. apply Forall_cons_iff in Hb as [Hx _].
  destruct (print_head 64 10 z []) as (d & s & E & Hd); [lia|unfold is_u8 in Hx; lia|lia|].
  cbn [fmap list_fmap join]. change ((print_u ∘ aget (z :: l)) 0) with (print_num 64 10 z []).
  rewrite E. cbn [app]. eauto.
Qed.

(** Addresses print and parse back: for every IPv4 or IPv6 address with a
    port, [netudp_parse_address] of what [netudp_address_to_string] writes into a
    buffer of at least 64 characters gives the address again. *)
Theorem address_roundtrip addr buf buf_len :
  wf addr -> 64 <= buf_len ->
  netudp_parse_address (netudp_address_to_string addr buf buf_len) = (NETUDP_OK, addr).
Proof.
  intros Hwf Hn. unfold netudp_address_to_string.
  rewrite (proj2 (Z.ltb_ge buf_len 2)) by lia. pose proof (text_length addr Hwf).
  rewrite take_ge by lia. pose proof Hwf as (Hb & Hl & Hp & [[Ht Hz]|Ht]).
  - destruct (text_head addr Hwf Ht) as (d & t & E & Hd).
    rewrite <- (parse_text_ipv4 addr Hwf Ht), E. cbn [netudp_parse_address].
    rewrite (proj2 (Z.eqb_neq (digit_char d) ch_lbracket)); [done|].
    unfold digit_char, ch_lbracket. case_if; lia.
  - rewrite <- (parse_text_ipv6 addr Hwf Ht). unfold address_text. rewrite Ht.
    change (NETUDP_ADDRESS_IPV6 =? NETUDP_ADDRESS_IPV4) with false. rewrite Z.eqb_refl. done.
Qed.

Definition loopback6 : address := mkAddress (replicate 15 0 ++ [1]) 7777 NETUDP_ADDRESS_IPV6.
Lemma address_roundtrip_witness :
  wf loopback6 /\
  netudp_parse_address (netudp_address_to_string loopback6 [] 64) = (NETUDP_OK, loopback6).
Proof.
  assert (wf loopback6) as H.
  { split; [repeat constructor; by vm_compute|]. split_and!; try by vm_compute. by right. }
  split; [exact H|]. apply address_roundtrip; [exact H|lia].
Defined.

(** Two addresses are equal to the library exactly when type, port and the
    relevant bytes agree. *)
Lemma address_equal_spec a b :
  netudp_address_equal a b = true <->
  a_type a = a_type b /\ a_port a = a_port b /\
  take (Z.to_nat (address_data_len a)) (a_data a) = take (Z.to_nat (address_data_len a)) (a_data b).
Proof.
  unfold netudp_address_equal. split.
  - case_if; [done|]. intros Hd. split; [done|]. split; [done|].
    destruct (address_data_len a =? 0) eqn:E0; bool_facts.
    + by rewrite E0.
    + by apply bool_decide_eq_true in Hd.
  - intros (-> & -> & E). rewrite !Z.eqb_refl. cbn. case_if; [done|]. by apply bool_decide_eq_true.
Qed.
Lemma address_equal_trans a b c :
  netudp_address_equal a b = true -> netudp_address_equal b c = true -> netudp_address_equal a c = true.
Proof.
  rewrite !address_equal_spec. unfold address_data_len. intros (A1 & A2 & A3) (B1 & B2 & B3).
  rewrite <- A1 in B3. split_and!; congruence.
Qed.

(** ** What parsing produces is well formed *)

Lemma base_digit_nonneg base c d : base_digit base c = Some d -> 0 <= d.
Proof.
  unfold base_digit, digit_value. intros H. repeat case_if_in H; simplify_eq; try lia; done.
Qed.
Lemma scan_digits_nonneg base acc s : 0 <= base -> 0 <= acc -> 0 <= (scan_digits base acc s).1.
Proof.
  intros Hb. revert acc. induction s as [|c s IH]; intros acc Ha; [done|]. cbn.
  destruct (base_digit base c) as [d|] eqn:Ed; [|done].
  apply IH. apply base_digit_nonneg in Ed. nia.
Qed.
Lemma strtoul_nonneg base s v rest : 0 <= base -> strtoul base s = Some (v, rest) -> 0 <= v.
Proof.
  intros Hb H. unfold strtoul in H. destruct (scan_sign _) as [neg s1]. case_if_in H; [|done].
  pose proof (scan_digits_nonneg base 0 (skip_0x base s1) Hb ltac:(lia)).
  destruct (scan_digits _ _ _) as [w r]. cbn in *. simplify_eq.
  repeat case_if; try lia. apply u64_range.
Qed.
Lemma parse_groups_wf fuel p groups dc g dc' :
  parse_groups fuel p groups dc = Some (g, dc') -> Forall is_u16 groups -> zlen groups <= 8 ->
  dc <= zlen groups -> Forall is_u16 g /\ zlen g <= 8 /\ dc' <= zlen g.
Proof.
  revert p groups dc. induction fuel as [|fuel IH]; intros p groups dc H Hg Hl Hd; [done|].
  cbn in H. destruct p as [|c p']; [by simplify_eq|].
  destruct (zlen groups <? 8) eqn:E8; cbn in H; [|by simplify_eq]. bool_facts.
  case_if_in H.
  - case_if_in H; [done|]. destruct (drop 1 p') as [|c' p2]; [simplify_eq; split_and!; lia || done|].
    eapply IH in H; [done..|lia].
  - destruct (strtoul 16 _) as [[val rest]|] eqn:Es; [|done]. case_if_in H; [done|].
    eapply IH in H; [done| | |]; zlen_simpl; [|lia|lia].
    apply Forall_app. split; [done|]. repeat constructor; apply u16_range.
Qed.
Lemma expand_wf g dc :
  Forall is_u16 g -> zlen g <= 8 -> Forall is_u16 (expand g dc) /\ length (expand g dc) = 8%nat.
Proof.
  intros Hg Hl. unfold expand, zlen in *.
  assert (forall n, Forall is_u16 (replicate n 0)) by (intros; by apply Forall_replicate).
  case_if; rewrite !Forall_app, !length_app, !length_replicate.
  - rewrite length_take, length_drop. split_and!; auto using Forall_take, Forall_drop. lia.
  - split; [done|lia].
Qed.

Lemma words_bytes l :
  is_bytes (mjoin (le_bytes 2 <$> l)) /\ length (mjoin (le_bytes 2 <$> l)) = (2 * length l)%nat.
Proof.
  induction l as [|x l [IH1 IH2]]; [by split; [constructor|]|].
  change (mjoin (le_bytes 2 <$> x :: l)) with (le_bytes 2 x ++ mjoin (le_bytes 2 <$> l)).
  rewrite length_app, length_le_bytes, IH2, length_cons.
  split; [|lia]. apply Forall_app. split; [apply le_bytes_is_bytes|done].
Qed.

Lemma parse_wf s a : netudp_parse_address s = (NETUDP_OK, a) -> wf a.
Proof.
  assert (forall P : Prop, (NETUDP_ERROR_INVALID_PARAM, address_zero) = (NETUDP_OK, a) -> P) as bad
    by done.
  intros H. assert (parse_ipv6 s = (NETUDP_OK, a) \/ parse_ipv4 s = (NETUDP_OK, a)) as [H6|H4].
  { unfold netudp_parse_address in H. destruct s; [by right|]. case_if_in H; [by left|by right]. }
  - unfold parse_ipv6 in H6. destruct (strchr _ _) as [[b [|c after]]|]; try by apply bad.
    { case_if_in H6; by apply bad. }
    case_if_in H6; [by apply bad|]. case_if_in H6; [by apply bad|]. case_if_in H6; [by apply bad|].
    destruct (parse_groups _ _ _ _) as [[g dc]|] eqn:Eg; [|by apply bad].
    apply parse_groups_wf in Eg as (Hg & Hl & _); [|constructor|by vm_compute|by vm_compute].
    destruct (expand_wf g dc Hg Hl) as [He Hn]. simplify_eq. unfold wf. cbn [a_data a_port a_type].
    rewrite u16_small by (unfold is_u16; lia). split_and!; [| |lia|lia|by right].
    + apply words_bytes.
    + destruct (words_bytes (expand g dc)) as [_ ->]. by rewrite Hn.
  - unfold parse_ipv4 in H4. destruct (strrchr _ _) as [[ip after]|]; [|by apply bad].
    case_if_in H4; [by apply bad|]. case_if_in H4; [by apply bad|]. case_if_in H4.
    + simplify_eq. unfold wf. cbn [a_data a_port a_type]. rewrite u16_small by (unfold is_u16; lia).
      split_and!; [by apply Forall_replicate|done|lia|lia|]. case_if; [by right|by left].
    + destruct (sscanf_ipv4 ip) as [[[[x y] z] w]|]; [|by apply bad].
      case_if_in H4; [by apply bad|]. simplify_eq. unfold wf. cbn [a_data a_port a_type].
      rewrite u16_small by (unfold is_u16; lia). split_and!; [|done|lia|lia|by left].
      apply Forall_app. split; [repeat constructor; apply u8_range|by apply Forall_replicate].
Qed.

End Address.
