(* ===== verification/Socket.v ===== *)
(** UDP sockets (src/src/socket/socket.h, src/src/socket/socket.cpp).

    The operating system is a parameter: the class [Kernel] has one field per system
    call the sources make, over an abstract kernel state, and [KernelLaws] what the
    manual pages promise of them: which descriptors are open, which datagrams wait at
    a socket, which went out on the wire.  The operations of the sources are written
    against [Kernel] as the Linux build has them; the loops of the other builds
    follow.  [fifo] at the end of the file is a concrete kernel, on which the
    definitions run.

    Pointers to sockets, addresses and packet arrays are never null here: every caller
    passes the address of a member or of a local. *)

From stdpp Require Import gmap.
From S2P Require Import Prelude Bytes Address.

Module Socket.
Import Address.

Definition NETUDP_INVALID_SOCKET : Z := -1.
Definition NETUDP_ERROR_SOCKET : Z := -2.
Definition kSocketBatchMax : Z := 64.
Definition kSocketFlagReusePort : Z := 1.
Definition NETUDP_MAX_PACKET_ON_WIRE : Z := 1400.

(** The constants of the platform. *)
Definition AF_INET : Z := 2.
Definition AF_INET6 : Z := 10.
Definition EAGAIN : Z := 11.
Definition O_NONBLOCK : Z := 2048.
Definition SOL_SOCKET : Z := 1.
Definition SO_REUSEADDR : Z := 2.
Definition SO_REUSEPORT : Z := 15.
Definition SO_SNDBUF : Z := 7.
Definition SO_RCVBUF : Z := 8.
Definition IPPROTO_IPV6 : Z := 41.
Definition IPV6_V6ONLY : Z := 26.
Definition SIZEOF_STORAGE : nat := 128.
Definition SIZEOF_SOCKADDR_IN : Z := 16.
Definition SIZEOF_SOCKADDR_IN6 : Z := 28.

Record Socket : Type := mkSocket { handle : Z }.
(** [data] is the buffer, of which the first [len] bytes are the datagram. *)
Record SocketPacket : Type := mkSocketPacket { addr : address; data : bytes; len : Z }.

(** * Socket addresses *)

(** [struct sockaddr_storage] is its 128 bytes: the family at 0 and the port at 2, the
    address at 4 ([sockaddr_in]) or at 8 ([sockaddr_in6]). *)
Definition poke (ss : bytes) (off : nat) (l : bytes) : bytes := take off ss ++ l ++ drop (off + length l) ss.
Definition peek (ss : bytes) (off n : nat) : bytes := take n (drop off ss).
(** [htons] and [ntohs]: the two bytes of a [uint16_t] change places. *)
Definition htons (x : Z) : Z := Z.lor (Z.shiftl (Z.land x 255) 8) (Z.shiftr x 8).

Definition s6_bytes (a : address) : bytes :=
  concat ((fun i => [u8 (Z.shiftr (group a i) 8); u8 (Z.land (group a i) 255)]) <$> seqZ 0 8).
Definition address_to_sockaddr (a : address) : bytes * Z :=
  let ss := replicate SIZEOF_STORAGE 0 in
  if a_type a =? NETUDP_ADDRESS_IPV6 then
    let ss := poke ss 0 (le_bytes 2 AF_INET6) in
    let ss := poke ss 2 (le_bytes 2 (htons (a_port a))) in
    (poke ss 8 (s6_bytes a), SIZEOF_SOCKADDR_IN6)
  else
    let ss := poke ss 0 (le_bytes 2 AF_INET) in
    let ss := poke ss 2 (le_bytes 2 (htons (a_port a))) in
    (poke ss 4 (take 4 (a_data a)), SIZEOF_SOCKADDR_IN).

Definition ss_family (ss : bytes) : Z := le_value (peek ss 0 2).
Definition sin_port (ss : bytes) : Z := le_value (peek ss 2 2).
Definition sockaddr_to_address (ss : bytes) : address :=
  if ss_family ss =? AF_INET6 then
    let s6_addr := peek ss 8 16 in
    let ipv6 i := u16 (Z.lor (Z.shiftl s6_addr.[2 * i] 8) s6_addr.[2 * i + 1]) in
    mkAddress (concat (le_bytes 2 ∘ ipv6 <$> seqZ 0 8)) (htons (sin_port ss)) NETUDP_ADDRESS_IPV6
  else
    mkAddress (poke (a_data address_zero) 0 (peek ss 4 4)) (htons (sin_port ss)) NETUDP_ADDRESS_IPV4.

(** What [bind], [connect] and [sendto] are given: the first [ss_len] bytes. *)
Definition sockaddr (a : address) : bytes :=
  let '(ss, ss_len) := address_to_sockaddr a in take (Z.to_nat ss_len) ss.
(** The kernel fills a zeroed [sockaddr_storage]. *)
Definition storage (name : bytes) : bytes := poke (replicate SIZEOF_STORAGE 0) 0 name.

(** * The system calls *)

(** A datagram: the socket address of the other end and the payload. *)
Abbreviation dgram := (bytes * bytes)%type.

Class Kernel (K : Type) : Type := {
  sys_socket : K -> Z -> Z * K;                    (** [socket(af, SOCK_DGRAM, IPPROTO_UDP)] *)
  sys_setsockopt : K -> Z -> Z -> Z -> Z -> K;     (** handle, level, option, value; the result is ignored *)
  sys_getfl : K -> Z -> Z;                         (** [fcntl(h, F_GETFL, 0)] *)
  sys_setfl : K -> Z -> Z -> Z * K;                (** [fcntl(h, F_SETFL, flags)] *)
  sys_bind : K -> Z -> bytes -> Z * K;
  sys_connect : K -> Z -> bytes -> Z * K;
  sys_close : K -> Z -> K;
  sys_sendto : K -> Z -> dgram -> Z * K;
  sys_send : K -> Z -> bytes -> Z * K;
  sys_recvfrom : K -> Z -> Z -> (dgram + Z) * K;   (** at most so many bytes; or [errno] *)
  sys_recvmmsg : K -> Z -> Z -> Z -> (list dgram + Z) * K;  (** so many messages of so many bytes, [MSG_DONTWAIT] *)
  sys_sendmmsg : K -> Z -> list dgram -> Z * K;
  sys_sendmsg_segment : K -> Z -> dgram -> Z -> Z * K;  (** [sendmsg] with a [UDP_SEGMENT] size *)
}.

Section Operations.
Context {K : Type} `{!Kernel K}.
Implicit Types (k : K) (sock : Socket).

Definition socket_create (k : K) (out : Socket) (bind_addr : address) (send_buf_size recv_buf_size flags : Z)
  : Z * Socket * K :=
  let af := if a_type bind_addr =? NETUDP_ADDRESS_IPV6 then AF_INET6 else AF_INET in
  let '(h, k) := sys_socket k af in
  if h =? NETUDP_INVALID_SOCKET then (NETUDP_ERROR_SOCKET, out, k)
  else
    let k := sys_setsockopt k h SOL_SOCKET SO_REUSEADDR 1 in
    let k := if negb (Z.land flags kSocketFlagReusePort =? 0)
             then sys_setsockopt k h SOL_SOCKET SO_REUSEPORT 1 else k in
    let k := sys_setsockopt k h SOL_SOCKET SO_SNDBUF send_buf_size in
    let k := sys_setsockopt k h SOL_SOCKET SO_RCVBUF recv_buf_size in
    let k := if af =? AF_INET6 then sys_setsockopt k h IPPROTO_IPV6 IPV6_V6ONLY 0 else k in
    let fl := sys_getfl k h in
    let '(r, k) := if fl =? -1 then (-1, k) else sys_setfl k h (Z.lor fl O_NONBLOCK) in
    if r =? -1 then (NETUDP_ERROR_SOCKET, out, sys_close k h)
    else
      let '(r, k) := sys_bind k h (sockaddr bind_addr) in
      if negb (r =? 0) then (NETUDP_ERROR_SOCKET, out, sys_close k h)
      else (NETUDP_OK, mkSocket h, k).

Definition socket_destroy (k : K) sock : Socket * K :=
  if handle sock =? NETUDP_INVALID_SOCKET then (sock, k)
  else (mkSocket NETUDP_INVALID_SOCKET, sys_close k (handle sock)).

Definition socket_send_raw (k : K) sock (sa payload : bytes) : Z * K :=
  if handle sock =? NETUDP_INVALID_SOCKET then (-1, k)
  else
    let '(result, k) := sys_sendto k (handle sock) (sa, payload) in
    (if result <? 0 then -1 else result, k).
Definition socket_send (k : K) sock (dest : address) (payload : bytes) : Z * K :=
  if handle sock =? NETUDP_INVALID_SOCKET then (-1, k)
  else
    let '(result, k) := sys_sendto k (handle sock) (sockaddr dest, payload) in
    (if result <? 0 then -1 else result, k).

Definition socket_connect (k : K) sock (dest : address) : Z * K :=
  if handle sock =? NETUDP_INVALID_SOCKET then (-1, k)
  else
    let '(result, k) := sys_connect k (handle sock) (sockaddr dest) in
    (if result <? 0 then -1 else 0, k).
Definition socket_send_connected (k : K) sock (payload : bytes) : Z * K :=
  if handle sock =? NETUDP_INVALID_SOCKET then (-1, k)
  else
    let '(result, k) := sys_send k (handle sock) payload in
    (if result <? 0 then -1 else result, k).

(** The kernel writes the payload over the start of the caller's buffer. *)
Definition socket_recv (k : K) sock (from : address) (buf : bytes) (buf_len : Z)
  : option (Z * address * bytes * K) :=
  if handle sock =? NETUDP_INVALID_SOCKET then Some (-1, from, buf, k)
  else
    _ ← guard_ub (buf_len <=? zlen buf);
    let '(r, k) := sys_recvfrom k (handle sock) buf_len in
    match r with
    | inr errno => Some (if errno =? EAGAIN then 0 else -1, from, buf, k)
    | inl (name, p) => Some (zlen p, sockaddr_to_address (storage name), poke buf 0 p, k)
    end.

(** ** Batches (Linux) *)

Definition fill (p : SocketPacket) (d : dgram) : SocketPacket :=
  mkSocketPacket (sockaddr_to_address (storage d.1)) (poke (data p) 0 d.2) (zlen d.2).
Fixpoint fill_packets (pkts : list SocketPacket) (l : list dgram) : list SocketPacket :=
  match pkts, l with
  | p :: pkts, d :: l => fill p d :: fill_packets pkts l
  | _, _ => pkts
  end.
Definition batch_of (n : Z) : Z := if kSocketBatchMax <? n then kSocketBatchMax else n.
Definition socket_recv_batch (k : K) sock (pkts : list SocketPacket) (max_pkts buf_len : Z)
  : option (Z * list SocketPacket * K) :=
  if (handle sock =? NETUDP_INVALID_SOCKET) || (max_pkts <=? 0) then Some (-1, pkts, k)
  else
    let count := batch_of max_pkts in
    _ ← guard_ub ((count <=? zlen pkts) && forallb (fun p => buf_len <=? zlen (data p)) (take (Z.to_nat count) pkts));
    let '(r, k) := sys_recvmmsg k (handle sock) count buf_len in
    match r with
    | inr errno => Some (if errno =? EAGAIN then 0 else -1, pkts, k)
    | inl l => Some (zlen l, fill_packets pkts l, k)
    end.

(** The scan before the segmented send: same size, same destination. *)
Fixpoint same_packets (seg_size : Z) (dest : address) (l : list SocketPacket) : bool * bool :=
  match l with
  | [] => (true, true)
  | p :: l =>
      if negb (len p =? seg_size) then (false, true)
      else if negb (bool_decide (addr p = dest)) then (true, false)
      else same_packets seg_size dest l
  end.
(** What [iov_base] and [iov_len] of a packet designate. *)
Definition payload (p : SocketPacket) : option bytes := mread (data p) 0 (len p).
(** The payloads one after the other in [super_buf]. *)
Fixpoint concatenate (super_buf : bytes) (l : list SocketPacket) : option bytes :=
  match l with
  | [] => Some super_buf
  | p :: l =>
      d ← payload p;
      _ ← guard_ub (zlen super_buf + len p <=? kSocketBatchMax * NETUDP_MAX_PACKET_ON_WIRE);
      concatenate (super_buf ++ d) l
  end.
Definition message (p : SocketPacket) : option dgram := d ← payload p; Some (sockaddr (addr p), d).
(** The segmented send: whether the kernel took it. *)
Definition send_gso (k : K) (h : Z) (l : list SocketPacket) : option (bool * K) :=
  match l with
  | p0 :: ((_ :: _) as rest) =>
      let '(same_size, same_dest) := same_packets (len p0) (addr p0) rest in
      if same_size && same_dest && (0 <? len p0) then
        super_buf ← concatenate [] l;
        let '(result, k) := sys_sendmsg_segment k h (sockaddr (addr p0), super_buf) (u16 (len p0)) in
        Some (0 <=? result, k)
      else Some (false, k)
  | _ => Some (false, k)
  end.
Definition socket_send_batch (k : K) sock (pkts : list SocketPacket) (count : Z) : option (Z * K) :=
  if (handle sock =? NETUDP_INVALID_SOCKET) || (count <=? 0) then Some (-1, k)
  else
    let batch := batch_of count in
    _ ← guard_ub (batch <=? zlen pkts);
    let l := take (Z.to_nat batch) pkts in
    '(segmented, k) ← send_gso k (handle sock) l;
    if (segmented : bool) then Some (batch, k)
    else
      mmsg ← mapM message l;
      let '(sent, k) := sys_sendmmsg k (handle sock) mmsg in
      Some (if sent <? 0 then -1 else sent, k).

(** ** Batches (the loops of the macOS build) *)

Fixpoint recv_each (k : K) sock (pkts : list SocketPacket) (limit : nat) (buf_len : Z)
  : option (Z * list SocketPacket * K) :=
  match limit, pkts with
  | S limit, p :: pkts =>
      '(n, a, d, k) ← socket_recv k sock (addr p) (data p) buf_len;
      if n <=? 0 then Some (0, mkSocketPacket a d (len p) :: pkts, k)
      else
        '(received, pkts, k) ← recv_each k sock pkts limit buf_len;
        Some (received + 1, mkSocketPacket a d n :: pkts, k)
  | _, _ => Some (0, pkts, k)
  end.
Definition socket_recv_batch_loop (k : K) sock (pkts : list SocketPacket) (max_pkts buf_len : Z)
  : option (Z * list SocketPacket * K) :=
  if (handle sock =? NETUDP_INVALID_SOCKET) || (max_pkts <=? 0) then Some (-1, pkts, k)
  else
    _ ← guard_ub (batch_of max_pkts <=? zlen pkts);
    recv_each k sock pkts (Z.to_nat (batch_of max_pkts)) buf_len.
Fixpoint send_each (k : K) sock (l : list SocketPacket) : option (Z * K) :=
  match l with
  | [] => Some (0, k)
  | p :: l =>
      d ← payload p;
      let '(n, k) := socket_send k sock (addr p) d in
      if n <? 0 then Some (0, k)
      else '(sent, k) ← send_each k sock l; Some (sent + 1, k)
  end.
Definition socket_send_batch_loop (k : K) sock (pkts : list SocketPacket) (count : Z) : option (Z * K) :=
  if (handle sock =? NETUDP_INVALID_SOCKET) || (count <=? 0) then Some (-1, k)
  else
    _ ← guard_ub (batch_of count <=? zlen pkts);
    send_each k sock (take (Z.to_nat (batch_of count)) pkts).

(** ** Batches (the Windows build) *)

(** [WSASendTo] and [WSARecvFrom] with one buffer and nothing overlapped are [sendto]
    and [recvfrom]; [WSAEWOULDBLOCK] is [EAGAIN]. *)
Fixpoint recv_each_wsa (k : K) sock (pkts : list SocketPacket) (limit : nat) (buf_len received : Z)
  : option (Z * list SocketPacket * K) :=
  match limit, pkts with
  | S limit, p :: pkts =>
      _ ← guard_ub (buf_len <=? zlen (data p));
      let '(r, k) := sys_recvfrom k (handle sock) buf_len in
      match r with
      | inr errno =>
          Some (if errno =? EAGAIN then received else if 0 <? received then received else -1, p :: pkts, k)
      | inl (name, d) =>
          if zlen d =? 0 then Some (received, p :: pkts, k)
          else
            '(n, pkts, k) ← recv_each_wsa k sock pkts limit buf_len (received + 1);
            Some (n, fill p (name, d) :: pkts, k)
      end
  | _, _ => Some (received, pkts, k)
  end.
Definition socket_recv_batch_wsa (k : K) sock (pkts : list SocketPacket) (max_pkts buf_len : Z)
  : option (Z * list SocketPacket * K) :=
  if (handle sock =? NETUDP_INVALID_SOCKET) || (max_pkts <=? 0) then Some (-1, pkts, k)
  else
    _ ← guard_ub (batch_of max_pkts <=? zlen pkts);
    recv_each_wsa k sock pkts (Z.to_nat (batch_of max_pkts)) buf_len 0.

Definition send_uso (k : K) (h : Z) (l : list SocketPacket) : option (bool * K) :=
  match l with
  | p0 :: ((_ :: _) as rest) =>
      let '(same_size, same_dest) := same_packets (len p0) (addr p0) rest in
      if same_size && same_dest && (0 <? len p0) then
        super_buf ← concatenate [] l;
        let '(result, k) := sys_sendto k h (sockaddr (addr p0), super_buf) in
        Some (0 <=? result, k)
      else Some (false, k)
  | _ => Some (false, k)
  end.
Fixpoint send_each_wsa (k : K) (h : Z) (l : list dgram) : Z * K :=
  match l with
  | [] => (0, k)
  | d :: l =>
      let '(result, k) := sys_sendto k h d in
      if result <? 0 then (0, k) else let '(sent, k) := send_each_wsa k h l in (sent + 1, k)
  end.
Definition socket_send_batch_wsa (k : K) sock (pkts : list SocketPacket) (count : Z) : option (Z * K) :=
  if (handle sock =? NETUDP_INVALID_SOCKET) || (count <=? 0) then Some (-1, k)
  else
    let batch := batch_of count in
    _ ← guard_ub (batch <=? zlen pkts);
    let l := take (Z.to_nat batch) pkts in
    '(segmented, k) ← send_uso k (handle sock) l;
    if (segmented : bool) then Some (batch, k)
    else mmsg ← mapM message l; Some (send_each_wsa k (handle sock) mmsg).
End Operations.

(** * Reading a socket dry *)

(** The receive loop of the server: batch after batch until one is not full.  What is
    done with a packet is a parameter. *)
Section Drain.
Context {K : Type} `{!Kernel K} {S : Type} (handle_packet : S -> address -> bytes -> option S).

(** What a packet entry holds after a receive. *)
Definition received (p : SocketPacket) : address * bytes := (addr p, take (Z.to_nat (len p)) (data p)).
Fixpoint handle_all (s : S) (l : list (address * bytes)) : option S :=
  match l with
  | [] => Some s
  | (from, p) :: l => s ← handle_packet s from p; handle_all s l
  end.
Definition drain_turn (sock : Socket) (st : S * list SocketPacket * K)
  : (S * list SocketPacket * K) + option (S * list SocketPacket * K) :=
  let '(s, pkts, k) := st in
  match socket_recv_batch k sock pkts kSocketBatchMax NETUDP_MAX_PACKET_ON_WIRE with
  | None => inr None
  | Some (n, pkts, k) =>
      if n <=? 0 then inr (Some (s, pkts, k))
      else
        match handle_all s (received <$> take (Z.to_nat n) pkts) with
        | None => inr None
        | Some s => if n <? kSocketBatchMax then inr (Some (s, pkts, k)) else inl (s, pkts, k)
        end
  end.
Definition drain (fuel : positive) (sock : Socket) (s : S) (pkts : list SocketPacket) (k : K)
  : option (S * list SocketPacket * K) :=
  match loop fuel (drain_turn sock) (s, pkts, k) with inr r => r | inl _ => None end.
End Drain.

(** * Socket addresses: round trips *)

Lemma two_bytes (a b c d : Z) : a = c -> b = d -> [a; b] = [c; d].
Proof. by intros -> ->. Qed.
Lemma htons_bytes lo hi : is_u8 lo -> is_u8 hi -> htons (lo + 256 * hi) = hi + 256 * lo.
Proof.
  unfold is_u8. intros Hlo Hhi. unfold htons. change 255 with (Z.ones 8).
  rewrite Z.land_ones, Z.shiftr_div_pow2, Z.shiftl_mul_pow2 by lia.
  rewrite lor_high by mlia. mlia.
Qed.
Lemma u16_split x : is_u16 x -> x = x mod 256 + 256 * (x / 256) /\ is_u8 (x mod 256) /\ is_u8 (x / 256).
Proof. unfold is_u16, is_u8. intros H. split_and!; mlia. Qed.
Lemma htons_le_bytes x : is_u16 x -> le_bytes 2 (htons x) = [x / 256; x mod 256].
Proof.
  intros Hx. destruct (u16_split x Hx) as (E & Hlo & Hhi). rewrite E at 1. rewrite htons_bytes by done.
  unfold is_u8 in *. cbn [le_bytes]. apply two_bytes; mlia.
Qed.
Lemma sin_port_htons x : is_u16 x -> htons (le_value [x / 256; x mod 256]) = x.
Proof.
  intros Hx. destruct (u16_split x Hx) as (E & Hlo & Hhi). cbn [le_value].
  rewrite Z.mul_0_r, Z.add_0_r, htons_bytes by done. lia.
Qed.
Lemma group_swap lo hi : is_u8 lo -> is_u8 hi ->
  [u8 (Z.shiftr (lo + 256 * hi) 8); u8 (Z.land (lo + 256 * hi) 255)] = [hi; lo] /\
  le_bytes 2 (u16 (Z.lor (Z.shiftl hi 8) lo)) = [lo; hi].
Proof.
  unfold is_u8. intros Hlo Hhi. change 255 with (Z.ones 8).
  rewrite Z.land_ones, Z.shiftr_div_pow2, Z.shiftl_mul_pow2, lor_high by lia.
  unfold u8, u16. cbn [le_bytes]. split; apply two_bytes; mlia.
Qed.

(** An address the socket layer handles: a real type, and the bytes of the union an
    IPv4 address does not use are zero. *)
Definition wf_address (a : address) : Prop :=
  is_bytes (a_data a) /\ length (a_data a) = 16%nat /\ is_u16 (a_port a) /\
  (a_type a = NETUDP_ADDRESS_IPV4 /\ drop 4 (a_data a) = replicate 12 0 \/ a_type a = NETUDP_ADDRESS_IPV6).

(** The image of the 28 or 16 bytes the kernel gets. *)
Lemma sockaddr_image a : wf_address a ->
  sockaddr a = if a_type a =? NETUDP_ADDRESS_IPV6
               then [10; 0; a_port a / 256; a_port a mod 256; 0; 0; 0; 0] ++ s6_bytes a ++ [0; 0; 0; 0]
               else [2; 0; a_port a / 256; a_port a mod 256] ++ take 4 (a_data a) ++ replicate 8 0.
Proof.
  intros (_ & Hl & Hp & _). unfold sockaddr, address_to_sockaddr. case_if.
  - rewrite htons_le_bytes by done. by destruct a as [d p t].
  - rewrite htons_le_bytes by done. destruct a as [d p t]. cbn [a_data a_port] in *.
    do 4 (destruct d as [|? d]; [done|]). done.
Qed.
Lemma is_bytes_aget l i : is_bytes l -> 0 <= i < zlen l -> is_u8 l.[i].
Proof. intros Hb Hi. exact (proj1 (Forall_lookup _ _) Hb _ _ (lookup_aget l i Hi)). Qed.
(** The groups of an IPv6 address, in network order and back. *)
Lemma groups_out l p t : length l = 16%nat -> is_bytes l ->
  s6_bytes (mkAddress l p t) = concat ((fun i => [l.[2 * i + 1]; l.[2 * i]]) <$> seqZ 0 8).
Proof.
  intros Hl Hb. unfold s6_bytes. f_equal. apply fmap_seqZ_ext. intros i Hi. unfold group. cbn [a_data].
  apply group_swap; apply is_bytes_aget; try done; unfold zlen; lia.
Qed.
Lemma groups_in l : length l = 16%nat -> is_bytes l ->
  concat ((fun i => le_bytes 2 (u16 (Z.lor (Z.shiftl l.[2 * i + 1] 8) l.[2 * i]))) <$> seqZ 0 8) = l.
Proof.
  intros Hl Hb. transitivity (concat ((fun i => [l.[2 * i]; l.[2 * i + 1]]) <$> seqZ 0 8)).
  - f_equal. apply fmap_seqZ_ext. intros i Hi. apply group_swap; apply is_bytes_aget; try done; unfold zlen; lia.
  - do 16 (destruct l as [|? l]; [done|]). by destruct l.
Qed.
(** The conversion to a socket address loses nothing. *)
Lemma sockaddr_roundtrip a : wf_address a -> sockaddr_to_address (storage (sockaddr a)) = a.
Proof.
  intros Ha. rewrite sockaddr_image by done. destruct Ha as (Hb & Hl & Hp & Ht).
  destruct a as [d p t]. cbn [a_data a_port a_type] in *.
  destruct Ht as [[-> Hz]| ->].
  - do 4 (destruct d as [|? d]; [done|]). simpl in Hz. rewrite drop_0 in Hz. subst d.
    transitivity (mkAddress ([z; z0; z1; z2] ++ replicate 12 0) (htons (le_value [p / 256; p mod 256])) NETUDP_ADDRESS_IPV4);
      [done|]. by rewrite sin_port_htons.
  - rewrite groups_out by done.
    transitivity (mkAddress (concat ((fun i => le_bytes 2 (u16 (Z.lor (Z.shiftl d.[2 * i + 1] 8) d.[2 * i]))) <$> seqZ 0 8))
                    (htons (le_value [p / 256; p mod 256])) NETUDP_ADDRESS_IPV6); [done|].
    by rewrite sin_port_htons, groups_in.
Qed.

(** The names the kernel gives to peers: [sockaddr_in] with its port, address and
    padding, and [sockaddr_in6] with flow label and scope id as well. *)
Inductive peer_name : Type :=
  | Name4 (hi lo : Z) (ip pad : bytes)
  | Name6 (hi lo : Z) (flow ip scope : bytes).
Definition name_bytes (n : peer_name) : bytes :=
  match n with
  | Name4 hi lo ip pad => [2; 0; hi; lo] ++ ip ++ pad
  | Name6 hi lo flow ip scope => [10; 0; hi; lo] ++ flow ++ ip ++ scope
  end.
Definition name_ok (n : peer_name) : Prop :=
  match n with
  | Name4 hi lo ip pad => is_u8 hi /\ is_u8 lo /\ is_bytes ip /\ length ip = 4%nat /\ length pad = 8%nat
  | Name6 hi lo flow ip scope => is_u8 hi /\ is_u8 lo /\ is_bytes ip /\ length flow = 4%nat /\ length ip = 16%nat
      /\ length scope = 4%nat
  end.
(** The name without flow label and scope id. *)
Definition plain_name (n : peer_name) : peer_name :=
  match n with
  | Name4 hi lo ip _ => Name4 hi lo ip (replicate 8 0)
  | Name6 hi lo _ ip _ => Name6 hi lo (replicate 4 0) ip (replicate 4 0)
  end.
Lemma port_of hi lo : is_u8 hi -> is_u8 lo -> (lo + 256 * hi) / 256 = hi /\ (lo + 256 * hi) mod 256 = lo /\ is_u16 (lo + 256 * hi).
Proof. unfold is_u8, is_u16. intros. split_and!; mlia. Qed.
Lemma plain_name_sockaddr n : name_ok n -> exists a, wf_address a /\ sockaddr a = name_bytes (plain_name n).
Proof.
  destruct n as [hi lo ip pad|hi lo flow ip scope]; intros (Hhi & Hlo & Hb & Hx & Hy);
    destruct (port_of hi lo Hhi Hlo) as (E1 & E2 & E3); [rename Hx into Hl|destruct Hy as [Hl _]]; cbn [plain_name name_bytes].
  - set (a := mkAddress (ip ++ replicate 12 0) (lo + 256 * hi) NETUDP_ADDRESS_IPV4).
    assert (wf_address a) as Ha.
    { split_and!; cbn [a a_data a_port a_type]; [by apply Forall_app; split; [|repeat constructor]|by rewrite length_app, Hl|done|].
      left. split; [done|]. by rewrite <- Hl, drop_app_length. }
    exists a. split; [done|]. rewrite sockaddr_image by done. cbn [a a_data a_port a_type]. rewrite E1, E2, <- Hl, take_app_length. done.
  - set (l := concat ((fun i => [ip.[2 * i + 1]; ip.[2 * i]]) <$> seqZ 0 8)).
    set (a := mkAddress l (lo + 256 * hi) NETUDP_ADDRESS_IPV6).
    do 16 (destruct ip as [|? ip]; [done|]). destruct ip; [|done].
    assert (is_bytes l) as Hbl.
    { change l with [z0; z; z2; z1; z4; z3; z6; z5; z8; z7; z10; z9; z12; z11; z14; z13]. unfold is_bytes in *.
      repeat match goal with H : Forall _ (_ :: _) |- _ => apply Forall_cons_1 in H as [? H] end.
      repeat (apply Forall_cons_2; [assumption|]). apply Forall_nil_2. }
    assert (wf_address a) as Ha by (split_and!; [done..|by right]).
    exists a. split; [done|]. rewrite sockaddr_image by done. cbn [a a_data a_port a_type]. rewrite E1, E2.
    unfold a. rewrite groups_out by done. done.
Qed.

(** Flow label, scope id and padding are not looked at. *)
Lemma name_read n : name_ok n ->
  sockaddr_to_address (storage (name_bytes n)) = sockaddr_to_address (storage (name_bytes (plain_name n))).
Proof.
  destruct n as [hi lo ip pad|hi lo flow ip scope]; cbn [name_ok name_bytes plain_name].
  - intros (_ & _ & _ & Hl & Hp). do 4 (destruct ip as [|? ip]; [done|]). destruct ip; [|done].
    do 8 (destruct pad as [|? pad]; [done|]). by destruct pad.
  - intros (_ & _ & _ & Hf & Hl & Hs). do 4 (destruct flow as [|? flow]; [done|]). destruct flow; [|done].
    do 4 (destruct scope as [|? scope]; [done|]). destruct scope; [|done].
    do 16 (destruct ip as [|? ip]; [done|]). by destruct ip.
Qed.

(** C28. Addresses survive the socket layer: converting an address to what the kernel
    takes and back gives the address; and the answer to a peer goes to the name the kernel
    gave for it, with the flow label and the scope id of an IPv6 name set to zero, for
    every IPv4 and IPv6 name.  So an answer goes to that very name exactly when it has no
    flow label and no scope id, which link-local peers have ([scope_lost]). *)
Theorem address_survives_socket :
  (forall a, wf_address a -> sockaddr_to_address (storage (sockaddr a)) = a) /\
  (forall n, name_ok n -> sockaddr (sockaddr_to_address (storage (name_bytes n))) = name_bytes (plain_name n)).
Proof.
  split; [exact sockaddr_roundtrip|]. intros n Hn. rewrite name_read by done.
  destruct (plain_name_sockaddr n Hn) as (a & Ha & <-). by rewrite sockaddr_roundtrip.
Qed.
(** Peers with one link-local address on two links are one address. *)
Definition link_local (scope : Z) : peer_name :=
  Name6 156 64 [0; 0; 0; 0] ([254; 128] ++ replicate 13 0 ++ [1]) [scope; 0; 0; 0].
Lemma scope_lost :
  name_bytes (link_local 2) <> name_bytes (link_local 3) /\
  sockaddr_to_address (storage (name_bytes (link_local 2))) = sockaddr_to_address (storage (name_bytes (link_local 3))).
Proof. split; [done|]. by vm_compute. Qed.
Definition loopback : address := mkAddress ([127; 0; 0; 1] ++ replicate 12 0) 40000 NETUDP_ADDRESS_IPV4.
Lemma loopback_wf : wf_address loopback.
Proof.
  split_and!; [repeat constructor; done|done|done|left; done].
Qed.
Lemma address_survives_socket_witness :
  sockaddr_to_address (storage (sockaddr loopback)) = loopback /\
  sockaddr (sockaddr_to_address (storage (name_bytes (link_local 2)))) = name_bytes (link_local 0).
Proof.
  split; [apply (proj1 address_survives_socket), loopback_wf|].
  apply (proj2 address_survives_socket (link_local 2)). split_and!; [done|done|repeat constructor; done|done..].
Defined.

(** * What the system calls promise *)

(** The datagrams a segmented send makes of its buffer. *)
Fixpoint segs (n : nat) (seg : nat) (d : bytes) : list bytes :=
  match n, d with
  | S n, _ :: _ => take seg d :: segs n seg (drop seg d)
  | _, _ => []
  end.
Definition segments (seg : Z) (d : bytes) : list bytes := segs (length d) (Z.to_nat seg) d.
(** A datagram read into a buffer of [n] bytes. *)
Definition truncate (n : Z) (d : dgram) : dgram := (d.1, take (Z.to_nat n) d.2).

(** The views of a kernel state: the open descriptors, the name a socket is bound to,
    the datagrams waiting at a socket, all datagrams sent so far, and where a socket is
    connected to.  Datagrams may arrive
    during a call ([new]). *)
Class KernelLaws (K : Type) `{!Kernel K} : Type := {
  opened : K -> gset Z;
  bound : K -> Z -> option bytes;
  queue : K -> Z -> list dgram;
  wire : K -> list (Z * dgram);
  peer : K -> Z -> option bytes;
  law_socket k af h k' : sys_socket k af = (h, k') ->
    h = -1 /\ opened k' = opened k \/ h <> -1 /\ h ∉ opened k /\ opened k' = {[h]} ∪ opened k;
  law_setsockopt k h level opt v : opened (sys_setsockopt k h level opt v) = opened k;
  law_setfl k h fl r k' : sys_setfl k h fl = (r, k') ->
    opened k' = opened k /\ (r <> -1 -> Z.land (sys_getfl k' h) O_NONBLOCK = Z.land fl O_NONBLOCK);
  law_bind k h name r k' : sys_bind k h name = (r, k') ->
    opened k' = opened k /\ sys_getfl k' h = sys_getfl k h /\ (r = 0 -> bound k' h = Some name);
  law_close k h : opened (sys_close k h) = opened k ∖ {[h]};
  law_recvfrom k h n r k' : sys_recvfrom k h n = (r, k') ->
    wire k' = wire k /\
    match r with
    | inl d => exists d0 new, d = truncate n d0 /\ queue k h ++ new = d0 :: queue k' h
    | inr _ => exists new, queue k' h = queue k h ++ new
    end;
  law_recvmmsg k h count n r k' : 0 < count -> sys_recvmmsg k h count n = (r, k') ->
    wire k' = wire k /\
    match r with
    | inl l => 0 < zlen l <= count /\ exists q new, l = truncate n <$> q /\ queue k h ++ new = q ++ queue k' h
    | inr _ => exists new, queue k' h = queue k h ++ new
    end;
  law_sendto k h d r k' : sys_sendto k h d = (r, k') ->
    wire k' = if r <? 0 then wire k else wire k ++ [(h, d)];
  law_sendmmsg k h l r k' : sys_sendmmsg k h l = (r, k') ->
    r <= zlen l /\ wire k' = wire k ++ (if r <? 0 then [] else pair h <$> take (Z.to_nat r) l);
  law_segment k h name d seg r k' : 0 < seg -> sys_sendmsg_segment k h (name, d) seg = (r, k') ->
    wire k' = wire k ++ (if r <? 0 then [] else pair h ∘ pair name <$> segments seg d);
  law_connect k h name r k' : sys_connect k h name = (r, k') ->
    opened k' = opened k /\ wire k' = wire k /\ (0 <= r -> peer k' h = Some name);
  law_send k h d r k' : sys_send k h d = (r, k') ->
    peer k' h = peer k h /\
    wire k' = wire k ++ match peer k h with Some name => if r <? 0 then [] else [(h, (name, d))] | None => [] end;
}.

(** While nothing arrives, a read takes what waits at the socket, oldest first, and
    finds [EAGAIN] when nothing does. *)
Class Quiet (K : Type) `{KernelLaws K} : Prop := {
  quiet_recvfrom k h n r k' : sys_recvfrom k h n = (r, k') ->
    (forall g, g <> h -> queue k' g = queue k g) /\
    match queue k h with
    | [] => r = inr EAGAIN /\ queue k' h = []
    | d :: q => r = inl (truncate n d) /\ queue k' h = q
    end;
  quiet_recvmmsg k h count n r k' : 0 < count -> sys_recvmmsg k h count n = (r, k') ->
    (forall g, g <> h -> queue k' g = queue k g) /\
    match queue k h with
    | [] => r = inr EAGAIN /\ queue k' h = []
    | q => r = inl (truncate n <$> take (Z.to_nat count) q) /\ queue k' h = drop (Z.to_nat count) q
    end;
  quiet_sendmmsg k h l g : queue (sys_sendmmsg k h l).2 g = queue k g;
  quiet_segment k h d seg g : queue (sys_sendmsg_segment k h d seg).2 g = queue k g;
  quiet_send k h p g : queue (sys_send k h p).2 g = queue k g;
}.

(** * Opening and closing *)

Section Laws.
Context {K : Type} `{KernelLaws K}.
Implicit Types (k : K) (sock : Socket).

(** A socket that was opened is open, bound and does not block; after an error the
    caller's socket is as before and no descriptor is left open. *)
Lemma create_outcome k out a snd rcv fl rc sock k' :
  socket_create k out a snd rcv fl = (rc, sock, k') ->
  rc = NETUDP_OK /\ handle sock <> NETUDP_INVALID_SOCKET /\ handle sock ∉ opened k /\
    opened k' = {[handle sock]} ∪ opened k /\ bound k' (handle sock) = Some (sockaddr a) /\
    Z.land (sys_getfl k' (handle sock)) O_NONBLOCK = O_NONBLOCK \/
  rc = NETUDP_ERROR_SOCKET /\ sock = out /\ opened k' = opened k.
Proof.
  unfold socket_create. destruct (sys_socket k _) as [h k1] eqn:E1.
  destruct (law_socket _ _ _ _ E1) as [[-> O1]|(Hh & Hn & O1)]; [intros [= <- <- <-]; by right|].
  rewrite (proj2 (Z.eqb_neq h NETUDP_INVALID_SOCKET)) by done.
  set (k2 := if (_ =? AF_INET6) then _ else _).
  assert (opened k2 = {[h]} ∪ opened k) as O2.
  { unfold k2. do 2 case_if; by rewrite ?law_setsockopt. }
  clearbody k2. intros E.
  set (fl0 := sys_getfl k2 h) in E. destruct (if fl0 =? -1 then _ else _) as [r k3] eqn:E3.
  assert (opened k3 = opened k2 /\ (r <> -1 -> Z.land (sys_getfl k3 h) O_NONBLOCK = O_NONBLOCK)) as [O3 F3].
  { case_if_in E3; [injection E3 as <- <-; by split|]. destruct (law_setfl _ _ _ _ _ E3) as [-> F]. split; [done|].
    intros Hr. rewrite F by done. apply Z.bits_inj'. intros i Hi. rewrite Z.land_spec, Z.lor_spec.
    by destruct (Z.testbit fl0 i), (Z.testbit O_NONBLOCK i). }
  case_if_in E.
  { injection E as <- <- <-. right. split_and!; [done..|]. rewrite law_close, O3, O2. set_solver. }
  destruct (sys_bind k3 h (sockaddr a)) as [r' k4] eqn:E4. destruct (law_bind _ _ _ _ _ E4) as (O4 & F4 & B4).
  case_if_in E; injection E as <- <- <-.
  - right. split_and!; [done..|]. rewrite law_close, O4, O3, O2. set_solver.
  - left. cbn [handle]. split_and!; [done..| | |]; [by rewrite O4, O3, O2|by apply B4|]. rewrite F4. by apply F3.
Qed.
Lemma destroy_outcome k sock sock' k' :
  socket_destroy k sock = (sock', k') ->
  handle sock' = NETUDP_INVALID_SOCKET /\
  opened k' = if handle sock =? NETUDP_INVALID_SOCKET then opened k else opened k ∖ {[handle sock]}.
Proof. unfold socket_destroy. case_if; intros [= <- <-]; [done|]. by rewrite law_close. Qed.

(** * Sending *)

(** A packet the caller may hand over: [len] bytes of its buffer, no more than the
    library puts into a datagram. *)
Definition sendable (p : SocketPacket) : Prop := 0 <= len p <= zlen (data p) /\ len p <= NETUDP_MAX_PACKET_ON_WIRE.
Definition datagram (p : SocketPacket) : dgram := (sockaddr (addr p), take (Z.to_nat (len p)) (data p)).
(** What a send of [l] promises: the result counts the datagrams that went out, the
    first of [l] and no others. *)
Definition sends_prefix k h (l : list SocketPacket) (r : Z) k' : Prop :=
  -1 <= r <= zlen l /\ wire k' = wire k ++ (pair h ∘ datagram <$> take (Z.to_nat r) l).

Lemma payload_sendable p : sendable p -> payload p = Some (datagram p).2.
Proof.
  intros [[H0 Hl] _]. unfold payload, mread. cbn [Z.leb andb].
  by rewrite (proj2 (Z.leb_le 0 (len p))), (proj2 (Z.leb_le (0 + len p) _)) by lia.
Qed.
Lemma messages_sendable l : Forall sendable l -> mapM message l = Some (datagram <$> l).
Proof.
  intros F. apply mapM_Some. induction F as [|p l Hp F IH]; constructor; [|done].
  unfold message. by rewrite payload_sendable.
Qed.
Lemma same_packets_spec seg dest l : same_packets seg dest l = (true, true) ->
  Forall (fun p => len p = seg /\ addr p = dest) l.
Proof.
  induction l as [|p l IH]; cbn [same_packets]; [constructor|]. case_if; [done|].
  destruct (bool_decide _) eqn:E1; cbn [negb]; [|done]. apply bool_decide_eq_true in E1. auto.
Qed.
Lemma concatenate_sendable l : forall buf, Forall sendable l ->
  zlen buf + zlen l * NETUDP_MAX_PACKET_ON_WIRE <= kSocketBatchMax * NETUDP_MAX_PACKET_ON_WIRE ->
  concatenate buf l = Some (buf ++ concat (snd ∘ datagram <$> l)).
Proof.
  induction l as [|p l IH]; intros buf F Hn; cbn [concatenate fmap list_fmap concat]; [by rewrite app_nil_r|].
  apply Forall_cons_1 in F as [Hp F]. rewrite payload_sendable, Some_bind by done. rewrite zlen_cons in Hn.
  pose proof (zlen_nonneg l). destruct Hp as [Hl Hm].
  rewrite (proj2 (Z.leb_le _ _)) by (unfold NETUDP_MAX_PACKET_ON_WIRE in *; lia). cbn [guard_ub]. rewrite Some_bind, IH; [|done|].
  - by rewrite <- app_assoc.
  - rewrite zlen_app. unfold zlen at 2. cbn [datagram snd]. rewrite length_take. unfold NETUDP_MAX_PACKET_ON_WIRE in *. lia.
Qed.
(** Segmenting the concatenation of equal pieces gives the pieces back. *)
Lemma segs_concat seg ls : (0 < seg)%nat -> Forall (fun d => length d = seg) ls ->
  forall n, (length (concat ls) <= n)%nat -> segs n seg (concat ls) = ls.
Proof.
  intros Hseg. induction 1 as [|d ls Hd F IH]; intros n Hn; [by destruct n|].
  cbn [concat] in *. rewrite length_app in Hn. destruct n as [|n]; [lia|]. destruct d as [|x d]; [simpl in Hd; lia|].
  change ((x :: d) ++ concat ls) with (x :: (d ++ concat ls)). cbn [segs].
  change (x :: (d ++ concat ls)) with ((x :: d) ++ concat ls). rewrite <- Hd, take_app_length, drop_app_length. f_equal.
  rewrite Hd. apply IH. lia.
Qed.
(** The segmented send puts the same datagrams on the wire as one send per packet. *)
Lemma send_gso_spec k h l : Forall sendable l -> zlen l <= kSocketBatchMax ->
  exists b k', send_gso k h l = Some (b, k') /\
    wire k' = wire k ++ (if b : bool then pair h ∘ datagram <$> l else []).
Proof.
  intros F Hn. unfold send_gso. destruct l as [|p0 [|p1 rest]]; [exists false, k; by rewrite app_nil_r..|].
  destruct (same_packets _ _ _) as [[] []] eqn:Es; cbn [andb]; try by (exists false, k; rewrite app_nil_r).
  case_if; [|exists false, k; by rewrite app_nil_r].
  apply same_packets_spec in Es. set (l := p0 :: p1 :: rest) in *.
  assert (Forall (fun p => len p = len p0 /\ addr p = addr p0) l) as Hs by (by apply Forall_cons_2).
  rewrite concatenate_sendable by (done || unfold kSocketBatchMax, NETUDP_MAX_PACKET_ON_WIRE in *; zlen_simpl; lia).
  rewrite Some_bind. cbn [app].
  assert (sendable p0) as [_ Hp0] by by apply Forall_cons_1 in F as [? _].
  rewrite u16_small by (unfold is_u16, NETUDP_MAX_PACKET_ON_WIRE in *; lia).
  destruct (sys_sendmsg_segment k h _ _) as [r k'] eqn:E1. apply law_segment in E1; [|done].
  exists (0 <=? r), k'. split; [done|]. rewrite E1. f_equal.
  rewrite Z.ltb_antisym. destruct (0 <=? r); cbn [negb]; [|done].
  unfold segments. rewrite segs_concat; [|lia| |done].
  - rewrite <- list_fmap_compose. apply list_fmap_ext. intros i p Hi. unfold compose.
    apply (Forall_lookup_1 _ _ _ _ Hs) in Hi as [_ Ha]. unfold datagram. cbn [snd]. by rewrite Ha.
  - apply Forall_fmap. rewrite Forall_forall in F, Hs |- *. intros p Hp. unfold compose, datagram. cbn [snd].
    destruct (F p Hp) as [Hl _], (Hs p Hp) as [E2 _]. unfold zlen in Hl. rewrite length_take, E2 in *. lia.
Qed.
(** Whichever way the kernel takes the packets, a batch keeps the promise of a send. *)
Lemma send_batch_spec k sock pkts count : count <= zlen pkts -> Forall sendable (take (Z.to_nat (batch_of count)) pkts) ->
  exists r k', socket_send_batch k sock pkts count = Some (r, k') /\
    sends_prefix k (handle sock) (take (Z.to_nat (batch_of count)) pkts) r k'.
Proof.
  intros Hc F. unfold socket_send_batch. case_if.
  { exists (-1), k. split; [done|]. split; [pose proof (zlen_nonneg (take (Z.to_nat (batch_of count)) pkts)); lia|].
    cbn. by rewrite app_nil_r. }
  assert (0 < batch_of count <= zlen pkts /\ batch_of count <= kSocketBatchMax) as [Hb Hm]
    by (unfold batch_of, kSocketBatchMax in *; case_if; lia).
  rewrite (proj2 (Z.leb_le _ _)) by lia. cbn [guard_ub]. rewrite Some_bind.
  set (l := take _ pkts) in *. assert (zlen l = batch_of count) as Hl.
  { unfold l, zlen in *. rewrite length_take. lia. }
  destruct (send_gso_spec k (handle sock) l F ltac:(lia)) as (b & k1 & -> & W1). rewrite Some_bind.
  destruct b.
  { exists (batch_of count), k1. split; [done|]. split; [lia|]. rewrite W1, <- Hl. unfold zlen. by rewrite Nat2Z.id, firstn_all. }
  rewrite messages_sendable, Some_bind by done. destruct (sys_sendmmsg k1 _ _) as [r k'] eqn:E3.
  apply law_sendmmsg in E3 as [Hr W]. unfold zlen in Hr. rewrite length_fmap in Hr. fold (zlen l) in Hr.
  rewrite W1, app_nil_r in W. case_if.
  - exists (-1), k'. split; [done|]. split; [lia|]. done.
  - exists r, k'. split; [done|]. split; [lia|]. rewrite W, <- fmap_take, <- list_fmap_compose. done.
Qed.
(** What is left out was refused: the answer to one [sendmmsg] of the whole batch. *)
Lemma send_batch_refusal k sock pkts count r k' :
  handle sock <> NETUDP_INVALID_SOCKET -> 0 < count <= zlen pkts ->
  Forall sendable (take (Z.to_nat (batch_of count)) pkts) -> socket_send_batch k sock pkts count = Some (r, k') ->
  let l := take (Z.to_nat (batch_of count)) pkts in
  r = zlen l \/ exists k1 sent, wire k1 = wire k /\ sys_sendmmsg k1 (handle sock) (datagram <$> l) = (sent, k') /\
    r = if sent <? 0 then -1 else sent.
Proof.
  intros Hh Hc F. unfold socket_send_batch. rewrite (proj2 (Z.eqb_neq _ _)), (proj2 (Z.leb_gt _ _)) by (done || lia). cbn [orb].
  assert (0 < batch_of count <= zlen pkts /\ batch_of count <= kSocketBatchMax) as [Hb Hm]
    by (unfold batch_of, kSocketBatchMax in *; case_if; lia).
  rewrite (proj2 (Z.leb_le _ _)) by lia. cbn [guard_ub]. rewrite Some_bind. cbv zeta.
  set (l := take _ pkts) in *. assert (zlen l = batch_of count) as Hl by (unfold l, zlen in *; rewrite length_take; lia).
  destruct (send_gso_spec k (handle sock) l F ltac:(lia)) as (b & k1 & -> & W1). rewrite Some_bind.
  destruct b; [intros [= <- <-]; by left|]. rewrite messages_sendable, Some_bind by done.
  destruct (sys_sendmmsg k1 _ _) as [sent k2] eqn:E. intros [= <- <-]. right. exists k1, sent.
  by rewrite W1, app_nil_r.
Qed.
Lemma send_each_spec sock l : handle sock <> NETUDP_INVALID_SOCKET -> Forall sendable l -> forall k,
  exists r k', send_each k sock l = Some (r, k') /\ 0 <= r /\ sends_prefix k (handle sock) l r k'.
Proof.
  intros Hh. induction 1 as [|p l Hp F IH]; intros k; cbn [send_each].
  { exists 0, k. split_and!; [done..|]. split; [done|]. cbn. by rewrite app_nil_r. }
  rewrite payload_sendable, Some_bind by done. unfold socket_send. rewrite (proj2 (Z.eqb_neq _ _)) by done.
  destruct (sys_sendto k _ _) as [r k1] eqn:E1. apply law_sendto in E1.
  case_if_in E1; cbv iota; [|rewrite (proj2 (Z.ltb_ge r 0)) by lia].
  - exists 0, k1. split_and!; [done..|]. split; [pose proof (zlen_nonneg (p :: l)); lia|]. cbn. by rewrite app_nil_r.
  - destruct (IH k1) as (r2 & k2 & -> & Hr & Hr2 & W). rewrite Some_bind.
    exists (r2 + 1), k2. split_and!; [done|lia|]. split; [rewrite zlen_cons; lia|].
    rewrite W, E1, <- app_assoc. replace (Z.to_nat (r2 + 1)) with (S (Z.to_nat r2)) by lia. done.
Qed.
Lemma send_batch_loop_spec k sock pkts count : count <= zlen pkts -> Forall sendable (take (Z.to_nat (batch_of count)) pkts) ->
  exists r k', socket_send_batch_loop k sock pkts count = Some (r, k') /\
    sends_prefix k (handle sock) (take (Z.to_nat (batch_of count)) pkts) r k'.
Proof.
  intros Hc F. unfold socket_send_batch_loop. case_if.
  { exists (-1), k. split; [done|]. split; [pose proof (zlen_nonneg (take (Z.to_nat (batch_of count)) pkts)); lia|].
    cbn. by rewrite app_nil_r. }
  rewrite (proj2 (Z.leb_le _ _)) by (unfold batch_of, kSocketBatchMax in *; case_if; lia). cbn [guard_ub]. rewrite Some_bind.
  destruct (send_each_spec sock _ ltac:(done) F k) as (r & k' & -> & _ & S). by exists r, k'.
Qed.

(** * Receiving *)

(** What the library is to make of a datagram that waits at the socket. *)
Definition arrival (buf_len : Z) (d : dgram) : address * bytes :=
  (sockaddr_to_address (storage d.1), take (Z.to_nat buf_len) d.2).
Definition buffers (buf_len : Z) (pkts : list SocketPacket) : Prop := Forall (fun p => buf_len <= zlen (data p)) pkts.

Lemma take_poke buf d : take (length d) (poke buf 0 d) = d.
Proof. unfold poke. rewrite take_0. cbn [app]. apply take_app_length. Qed.
Lemma zlen_poke buf d : zlen buf <= zlen (poke buf 0 d).
Proof. unfold poke, zlen. rewrite take_0. cbn [app]. rewrite length_app, length_drop. lia. Qed.
Lemma received_fill p d : received (fill p d) = (sockaddr_to_address (storage d.1), d.2).
Proof. unfold received, fill. cbn [addr len data]. unfold zlen. by rewrite Nat2Z.id, take_poke. Qed.
Lemma fill_packets_spec pkts : forall l, (length l <= length pkts)%nat ->
  received <$> take (length l) (fill_packets pkts l) = (fun d => (sockaddr_to_address (storage d.1), d.2)) <$> l.
Proof.
  induction pkts as [|p pkts IH]; intros [|d l] Hl; cbn [length] in Hl; try done; [lia|].
  cbn [fill_packets length]. rewrite firstn_cons, !fmap_cons, received_fill, IH by lia. done.
Qed.
Lemma fill_packets_buffers n pkts : forall l, buffers n pkts -> buffers n (fill_packets pkts l) /\
  length (fill_packets pkts l) = length pkts.
Proof.
  induction pkts as [|p pkts IH]; intros [|d l] F; try done. cbn [fill_packets length].
  apply Forall_cons_1 in F as [Hp F]. destruct (IH l F) as [B L]. split; [|by f_equal].
  constructor; [|done]. cbn [fill data]. pose proof (zlen_poke (data p) d.2). lia.
Qed.
Lemma buffers_forallb n m pkts : buffers n pkts -> forallb (fun p => n <=? zlen (data p)) (take m pkts) = true.
Proof.
  intros F. apply forallb_forall. intros p Hp. apply Z.leb_le. revert p Hp. apply Forall_forall. by apply Forall_take.
Qed.
(** A batch takes datagrams from the front of the socket's queue, in order, and loses
    none; what arrives meanwhile stays behind them. *)
Lemma recv_batch_spec k sock pkts n buf_len :
  n <= zlen pkts -> buffers buf_len pkts ->
  exists r pkts' k', socket_recv_batch k sock pkts n buf_len = Some (r, pkts', k') /\
    buffers buf_len pkts' /\ length pkts' = length pkts /\
    (r <= 0 /\ (exists new, queue k' (handle sock) = queue k (handle sock) ++ new) \/
     0 < r <= batch_of n /\ exists q new, received <$> take (Z.to_nat r) pkts' = arrival buf_len <$> q /\
       queue k (handle sock) ++ new = q ++ queue k' (handle sock)).
Proof.
  intros Hn B. unfold socket_recv_batch. case_if.
  { exists (-1), pkts, k. split_and!; [done..|]. left. split; [lia|]. exists []. by rewrite app_nil_r. }
  assert (0 < batch_of n <= zlen pkts) as Hb by (unfold batch_of, kSocketBatchMax in *; case_if; lia).
  rewrite (proj2 (Z.leb_le _ _)) by lia. rewrite buffers_forallb by done. cbn [andb guard_ub]. rewrite Some_bind.
  destruct (sys_recvmmsg _ _ _ _) as [r k'] eqn:E1. apply law_recvmmsg in E1 as [_ L]; [|lia]. destruct r as [l|e].
  - destruct L as (Hl & q & new & El & Eq). destruct (fill_packets_buffers buf_len pkts l B) as [B' L'].
    exists (zlen l), (fill_packets pkts l), k'. split_and!; [done..|]. right. split; [done|]. exists q, new. split; [|done].
    unfold zlen in *. rewrite Nat2Z.id, fill_packets_spec by lia. rewrite El, <- list_fmap_compose. done.
  - eexists _, pkts, k'. split_and!; [done..|]. left. split; [case_if; lia|]. destruct L as [new L]. by exists new.
Qed.

(** Nothing tells the Windows kernel the size of a segment, so the concatenated payloads
    leave as one datagram, which is not what the packets say; the result still counts
    them all as sent. *)
Lemma uso_merges k sock p0 p1 pkts :
  let l := p0 :: p1 :: pkts in
  handle sock <> NETUDP_INVALID_SOCKET -> zlen l <= kSocketBatchMax -> Forall sendable l ->
  Forall (fun p => len p = len p0 /\ addr p = addr p0) l -> 0 < len p0 ->
  forall r k', sys_sendto k (handle sock) (sockaddr (addr p0), concat (snd ∘ datagram <$> l)) = (r, k') -> 0 <= r ->
  socket_send_batch_wsa k sock l (zlen l) = Some (zlen l, k') /\
  wire k' = wire k ++ [(handle sock, (sockaddr (addr p0), concat (snd ∘ datagram <$> l)))].
Proof.
  intros l Hh Hn F Hs Hp r k' E Hr. unfold socket_send_batch_wsa.
  assert (0 < zlen l) as Hl by (unfold l; rewrite zlen_cons; pose proof (zlen_nonneg (p1 :: pkts)); lia).
  rewrite (proj2 (Z.eqb_neq _ _)), (proj2 (Z.leb_gt _ 0)) by (done || lia). cbn [orb].
  assert (batch_of (zlen l) = zlen l) as -> by (unfold batch_of; case_if; lia).
  rewrite Z.leb_refl. cbn [guard_ub]. rewrite Some_bind.
  replace (take (Z.to_nat (zlen l)) l) with l by (unfold zlen; by rewrite Nat2Z.id, firstn_all).
  assert (forall l', Forall (fun p => len p = len p0 /\ addr p = addr p0) l' ->
            same_packets (len p0) (addr p0) l' = (true, true)) as Hsame.
  { induction 1 as [|p l' [E1 E2] _ IH]; [done|]. cbn [same_packets]. by rewrite E1, E2, Z.eqb_refl, bool_decide_eq_true_2. }
  apply Forall_cons_1 in Hs as [_ Hs].
  assert (send_uso k (handle sock) l = Some (true, k')) as ->.
  { change (send_uso k (handle sock) l) with
      (let '(same_size, same_dest) := same_packets (len p0) (addr p0) (p1 :: pkts) in
       if same_size && same_dest && (0 <? len p0) then
         super_buf ← concatenate [] l;
         let '(result, k) := sys_sendto k (handle sock) (sockaddr (addr p0), super_buf) in Some (0 <=? result, k)
       else Some (false, k)).
    rewrite Hsame by done. cbn [andb]. rewrite (proj2 (Z.ltb_lt _ _)) by done.
    rewrite concatenate_sendable by (done || unfold kSocketBatchMax, NETUDP_MAX_PACKET_ON_WIRE in *; change (zlen (@nil Z)) with 0; lia).
    rewrite Some_bind. cbn [app]. by rewrite E, (proj2 (Z.leb_le _ _)). }
  rewrite Some_bind. split; [done|]. apply law_sendto in E. by rewrite (proj2 (Z.ltb_ge r 0)) in E by done.
Qed.

(** ** The receive loop *)

Section DrainFacts.
Context {S : Type} (handle_packet : S -> address -> bytes -> option S).
Abbreviation MAXB := NETUDP_MAX_PACKET_ON_WIRE.

Lemma handle_all_app l1 : forall s l2,
  handle_all handle_packet s (l1 ++ l2) = s' ← handle_all handle_packet s l1; handle_all handle_packet s' l2.
Proof.
  induction l1 as [|[a p] l1 IH]; intros s l2; cbn [app handle_all]; [done|].
  destruct (handle_packet s a p) as [s1|]; [|done]. by rewrite !Some_bind, IH.
Qed.
(** Even while datagrams keep arriving, the loop handles the oldest ones, each once and
    in order. *)
Lemma drain_lossless sock fuel s pkts k s' pkts' k' :
  zlen pkts = kSocketBatchMax -> buffers MAXB pkts ->
  drain handle_packet fuel sock s pkts k = Some (s', pkts', k') ->
  exists q new, queue k (handle sock) ++ new = q ++ queue k' (handle sock) /\
    handle_all handle_packet s (arrival MAXB <$> q) = Some s'.
Proof.
  intros Hp Hb. unfold drain. rewrite loop_loop_nat. generalize (Pos.to_nat fuel) as f. clear fuel. intros f.
  revert s pkts k Hp Hb. induction f as [|f IH]; intros s pkts k Hp Hb; cbn [loop_nat]; [done|].
  unfold drain_turn at 1.
  destruct (recv_batch_spec k sock pkts kSocketBatchMax MAXB ltac:(lia) Hb) as (r & pkts1 & k1 & -> & B1 & L1 & C).
  case_if.
  { intros [= <- <- <-]. destruct C as [(_ & new & C)|[? _]]; [|lia]. exists [], new. by rewrite C. }
  destruct C as [[? _]|(_ & q & new & Er & Eq)]; [lia|]. rewrite Er.
  destruct (handle_all _ s _) as [s1|] eqn:Eh; [|done]. case_if.
  { intros [= <- <- <-]. by exists q, new. }
  intros Hd. apply IH in Hd as (q2 & new2 & Eq2 & Eh2); [|unfold zlen in *; lia|done].
  exists (q ++ q2), (new ++ new2). split; [by rewrite app_assoc, Eq, <- !app_assoc, Eq2|].
  by rewrite fmap_app, handle_all_app, Eh.
Qed.
End DrainFacts.
End Laws.

(** ** While nothing arrives *)

Section Quietly.
Context {K : Type} `{Quiet K}.
Implicit Types (k : K) (sock : Socket).
Abbreviation MAXB := NETUDP_MAX_PACKET_ON_WIRE.

Lemma recv_batch_quiet k sock pkts n buf_len :
  handle sock <> NETUDP_INVALID_SOCKET -> 0 < n <= zlen pkts -> buffers buf_len pkts ->
  exists pkts' k', socket_recv_batch k sock pkts n buf_len
      = Some (Z.min (batch_of n) (zlen (queue k (handle sock))), pkts', k') /\
    buffers buf_len pkts' /\ length pkts' = length pkts /\
    received <$> take (Z.to_nat (Z.min (batch_of n) (zlen (queue k (handle sock))))) pkts'
      = arrival buf_len <$> take (Z.to_nat (batch_of n)) (queue k (handle sock)) /\
    queue k' (handle sock) = drop (Z.to_nat (batch_of n)) (queue k (handle sock)) /\
    (forall g, g <> handle sock -> queue k' g = queue k g).
Proof.
  intros Hh Hn B. unfold socket_recv_batch. rewrite (proj2 (Z.eqb_neq _ _)), (proj2 (Z.leb_gt n 0)) by (done || lia). cbn [orb].
  assert (0 < batch_of n <= zlen pkts) as Hb by (unfold batch_of, kSocketBatchMax in *; case_if; lia).
  rewrite (proj2 (Z.leb_le _ _)) by lia. rewrite buffers_forallb by done. cbn [andb guard_ub]. rewrite Some_bind.
  destruct (sys_recvmmsg _ _ _ _) as [r k'] eqn:E1. apply quiet_recvmmsg in E1 as [O L]; [|lia].
  destruct (queue k (handle sock)) as [|d0 q0] eqn:Eq.
  - destruct L as [-> L]. exists pkts, k'. change (zlen (@nil dgram)) with 0. rewrite Z.min_r, take_nil, drop_nil by lia. by split_and!.
  - destruct L as [-> L]. rewrite <- Eq in *. clear Eq d0 q0. set (q := queue k (handle sock)) in *.
    set (l := truncate buf_len <$> _). assert (zlen l = Z.min (batch_of n) (zlen q)) as El.
    { unfold l, zlen. rewrite length_fmap, length_take. lia. }
    destruct (fill_packets_buffers buf_len pkts l B) as [B' L'].
    exists (fill_packets pkts l), k'. rewrite <- El. split_and!; try done. unfold zlen in *. rewrite Nat2Z.id.
    rewrite fill_packets_spec by lia. unfold l. by rewrite <- list_fmap_compose.
Qed.

(** Sending leaves what waits at the sockets alone. *)
Lemma send_batch_quiet k sock pkts count r k' : socket_send_batch k sock pkts count = Some (r, k') ->
  forall g, queue k' g = queue k g.
Proof.
  unfold socket_send_batch. case_if; [by intros [= <- <-]|]. destruct (guard_ub _); [|done]. rewrite Some_bind.
  destruct (send_gso k _ _) as [[b k1]|] eqn:E1; [|done]. rewrite Some_bind.
  assert (forall g, queue k1 g = queue k g) as Q1.
  { revert E1. unfold send_gso. destruct (take _ pkts) as [|p0 [|p1 rest]]; try by intros [= <- <-].
    destruct (same_packets _ _ _) as [ss sd]. case_if; [|by intros [= <- <-]]. destruct (concatenate _ _) as [buf|]; [|done]. rewrite Some_bind.
    destruct (sys_sendmsg_segment _ _ _ _) as [r1 k2] eqn:E2. intros [= <- <-] g.
    by rewrite <- (quiet_segment k (handle sock) (sockaddr (addr p0), buf) (u16 (len p0)) g), E2. }
  destruct b; [by intros [= <- <-]|]. destruct (mapM _ _) as [ms|]; [|done]. rewrite Some_bind.
  destruct (sys_sendmmsg k1 _ _) as [r1 k2] eqn:E2. intros [= <- <-] g.
  by rewrite <- Q1, <- (quiet_sendmmsg k1 (handle sock) ms g), E2.
Qed.
(** The loops of the other builds read the same packets as long as no datagram is
    empty. *)
Lemma recv_each_quiet sock buf_len : handle sock <> NETUDP_INVALID_SOCKET -> 0 < buf_len ->
  forall limit pkts k, (limit <= length pkts)%nat -> buffers buf_len pkts ->
  Forall (fun d => d.2 <> []) (take limit (queue k (handle sock))) ->
  exists pkts' k', recv_each k sock pkts limit buf_len
      = Some (Z.min (Z.of_nat limit) (zlen (queue k (handle sock))), pkts', k') /\
    received <$> take (Z.to_nat (Z.min (Z.of_nat limit) (zlen (queue k (handle sock))))) pkts'
      = arrival buf_len <$> take limit (queue k (handle sock)) /\
    queue k' (handle sock) = drop limit (queue k (handle sock)).
Proof.
  intros Hh Hb. induction limit as [|limit IH]; intros pkts k Hl B F.
  { exists pkts, k. cbn [recv_each]. rewrite Z.min_l by (unfold zlen; lia). 
    split; [by destruct pkts|]. split; [reflexivity|]. by rewrite drop_0. }
  destruct pkts as [|p pkts]; [cbn in Hl; lia|]. apply Forall_cons_1 in B as [Bp B]. cbn [recv_each].
  unfold socket_recv. rewrite (proj2 (Z.eqb_neq _ _)), (proj2 (Z.leb_le _ _)) by done. cbn [guard_ub]. rewrite Some_bind.
  destruct (sys_recvfrom _ _ _) as [r k1] eqn:E1. apply quiet_recvfrom in E1 as [_ L].
  destruct (queue k (handle sock)) as [|d q] eqn:Eq.
  - destruct L as [-> L]. rewrite Z.eqb_refl, Some_bind. cbn [Z.leb]. change (zlen (@nil dgram)) with 0. rewrite Z.min_r by lia.
    eexists _, k1. split; [done|]. by rewrite take_nil.
  - destruct L as [-> L]. unfold truncate at 1. rewrite Some_bind. cbn [fst snd].
    rewrite firstn_cons in F. apply Forall_cons_1 in F as [Hd F].
    assert (0 < zlen (take (Z.to_nat buf_len) d.2)) as Hz.
    { destruct d as [nm [|x d]]; [done|]. unfold zlen. rewrite length_take. cbn [snd length]. lia. }
    rewrite (proj2 (Z.leb_gt _ _)) by lia.
    destruct (IH pkts k1) as (pkts' & k' & -> & R & Q); [cbn in Hl; lia|done|by rewrite L|]. rewrite Some_bind.
    rewrite L in *. eexists _, k'.
    assert (Z.min (Z.of_nat limit) (zlen q) + 1 = Z.min (Z.of_nat (Datatypes.S limit)) (zlen (d :: q))) as <-
      by (rewrite zlen_cons; lia).
    split; [done|]. split; [|done].
    replace (Z.to_nat (Z.min (Z.of_nat limit) (zlen q) + 1)) with (Datatypes.S (Z.to_nat (Z.min (Z.of_nat limit) (zlen q))))
      by (unfold zlen; lia).
    rewrite !firstn_cons, !fmap_cons, R. f_equal. unfold received, arrival. cbn [addr len data]. unfold zlen at 1.
    by rewrite Nat2Z.id, take_poke.
Qed.
(** An empty datagram ends such a batch: it is taken off the queue, and what waits
    behind it stays there. *)
Lemma recv_loop_stops k sock p pkts n buf_len name q :
  handle sock <> NETUDP_INVALID_SOCKET -> 0 < n <= zlen (p :: pkts) -> 0 <= buf_len <= zlen (data p) ->
  queue k (handle sock) = (name, []) :: q ->
  exists pkts' k', socket_recv_batch_loop k sock (p :: pkts) n buf_len = Some (0, pkts', k') /\
    queue k' (handle sock) = q.
Proof.
  intros Hh Hn Hb Eq. unfold socket_recv_batch_loop.
  rewrite (proj2 (Z.eqb_neq _ _)), (proj2 (Z.leb_gt n 0)) by (done || lia). cbn [orb].
  assert (0 < batch_of n <= zlen (p :: pkts)) as Hc by (unfold batch_of, kSocketBatchMax in *; case_if; lia).
  rewrite (proj2 (Z.leb_le (batch_of n) _)) by lia. cbn [guard_ub]. rewrite Some_bind.
  destruct (Z.to_nat (batch_of n)) as [|m] eqn:Em; [lia|]. cbn [recv_each]. unfold socket_recv.
  rewrite (proj2 (Z.eqb_neq _ _)), (proj2 (Z.leb_le buf_len _)) by (done || lia). cbn [guard_ub]. rewrite Some_bind.
  destruct (sys_recvfrom _ _ _) as [r k1] eqn:E1. apply quiet_recvfrom in E1 as [_ L]. rewrite Eq in L.
  destruct L as [-> L]. unfold truncate. rewrite Some_bind. cbn [fst snd]. rewrite take_nil. change (zlen (@nil Z) <=? 0) with true.
  cbv iota. by eexists _, k1.
Qed.

Context {S : Type} (handle_packet : S -> address -> bytes -> option S).
(** The loop ends, having handled exactly what waited at the socket. *)
Lemma drain_exact sock fuel s pkts k :
  handle sock <> NETUDP_INVALID_SOCKET -> zlen pkts = kSocketBatchMax -> buffers MAXB pkts ->
  zlen (queue k (handle sock)) / kSocketBatchMax < Z.pos fuel ->
  match handle_all handle_packet s (arrival MAXB <$> queue k (handle sock)) with
  | None => drain handle_packet fuel sock s pkts k = None
  | Some s' => exists pkts' k', drain handle_packet fuel sock s pkts k = Some (s', pkts', k') /\
      zlen pkts' = kSocketBatchMax /\ buffers MAXB pkts' /\ queue k' (handle sock) = [] /\
      (forall g, g <> handle sock -> queue k' g = queue k g)
  end.
Proof.
  intros Hh Hp Hb Hf. unfold drain. rewrite loop_loop_nat.
  assert (zlen (queue k (handle sock)) / kSocketBatchMax < Z.of_nat (Pos.to_nat fuel)) as Hf' by lia. clear Hf.
  revert Hf'. generalize (Pos.to_nat fuel) as f. clear fuel. intros f.
  revert s pkts k Hp Hb. induction f as [|f IH]; intros s pkts k Hp Hb Hf; cbn [loop_nat].
  { pose proof (zlen_nonneg (queue k (handle sock))). unfold kSocketBatchMax in Hf. mlia. }
  remember (drain_turn handle_packet sock (s, pkts, k)) as t eqn:Ht.
  destruct (recv_batch_quiet k sock pkts kSocketBatchMax MAXB Hh ltac:(unfold kSocketBatchMax in *; lia) Hb)
    as (pkts1 & k1 & Et & B1 & L1 & Er & Eq & O1).
  unfold drain_turn in Ht. rewrite Et in Ht. subst t. clear Et.
  set (q := queue k (handle sock)) in *. change (batch_of kSocketBatchMax) with 64 in *. change kSocketBatchMax with 64 in *.
  case_if.
  { assert (q = []) as -> by (destruct q; [done|]; rewrite zlen_cons in *; pose proof (zlen_nonneg q); lia).
    exists pkts1, k1. split_and!; [done|unfold zlen in *; lia|done..]. }
  rewrite Er. replace (arrival MAXB <$> q) with ((arrival MAXB <$> take (Z.to_nat 64) q) ++ (arrival MAXB <$> drop (Z.to_nat 64) q))
    by (by rewrite <- fmap_app, take_drop).
  rewrite handle_all_app.
  destruct (handle_all _ s _) as [s1|]; [|done]. rewrite Some_bind. case_if.
  { assert (drop (Z.to_nat 64) q = []) as Ed by (apply drop_ge; unfold zlen in *; lia). rewrite Ed in *.
    exists pkts1, k1. split_and!; [done|unfold zlen in *; lia|done..]. }
  rewrite <- Eq. pose proof (IH s1 pkts1 k1 ltac:(unfold zlen in *; lia) B1) as R. rewrite Eq in *.
  assert (zlen (drop (Z.to_nat 64) q) = zlen q - 64) as Ez by (unfold zlen in *; rewrite length_drop; lia).
  specialize (R ltac:(rewrite Ez; mlia)).
  destruct (handle_all _ s1 _) as [s2|]; [|exact R]. destruct R as (pkts2 & k2 & -> & L2 & B2 & Q2 & O2).
  exists pkts2, k2. split_and!; try done. intros g Hg. by rewrite O2, O1.
Qed.
End Quietly.

(** * A concrete kernel *)

(** Sockets that never lose a datagram; [f_gso] says whether [UDP_SEGMENT] is known. *)
Record fifo : Type := mkFifo {
  f_open : gset Z; f_next : Z; f_flags : gmap Z Z; f_bound : gmap Z bytes;
  f_queue : gmap Z (list dgram); f_wire : list (Z * dgram); f_gso : bool; f_peer : gmap Z bytes }.
Definition f_waiting (k : fifo) (h : Z) : list dgram := default [] (f_queue k !! h).
Definition f_with_queue (k : fifo) (h : Z) (q : list dgram) : fifo :=
  mkFifo (f_open k) (f_next k) (f_flags k) (f_bound k) (<[h := q]> (f_queue k)) (f_wire k) (f_gso k) (f_peer k).
Definition f_sent (k : fifo) (l : list (Z * dgram)) : fifo :=
  mkFifo (f_open k) (f_next k) (f_flags k) (f_bound k) (f_queue k) (f_wire k ++ l) (f_gso k) (f_peer k).

#[global] Instance fifo_kernel : Kernel fifo := {|
  sys_socket k af :=
    if bool_decide (f_next k ∈ f_open k) || (f_next k =? -1) then (-1, k)
    else (f_next k, mkFifo ({[f_next k]} ∪ f_open k) (f_next k + 1) (f_flags k) (f_bound k) (f_queue k) (f_wire k) (f_gso k) (f_peer k));
  sys_setsockopt k h level opt v := k;
  sys_getfl k h := default 2 (f_flags k !! h);
  sys_setfl k h fl := (0, mkFifo (f_open k) (f_next k) (<[h := fl]> (f_flags k)) (f_bound k) (f_queue k) (f_wire k) (f_gso k) (f_peer k));
  sys_bind k h name := (0, mkFifo (f_open k) (f_next k) (f_flags k) (<[h := name]> (f_bound k)) (f_queue k) (f_wire k) (f_gso k) (f_peer k));
  sys_connect k h name :=
    (0, mkFifo (f_open k) (f_next k) (f_flags k) (f_bound k) (f_queue k) (f_wire k) (f_gso k) (<[h := name]> (f_peer k)));
  sys_close k h := mkFifo (f_open k ∖ {[h]}) (f_next k) (f_flags k) (f_bound k) (f_queue k) (f_wire k) (f_gso k) (f_peer k);
  sys_sendto k h d := (zlen d.2, f_sent k [(h, d)]);
  sys_send k h p := match f_peer k !! h with Some name => (zlen p, f_sent k [(h, (name, p))]) | None => (-1, k) end;
  sys_recvfrom k h n :=
    match f_waiting k h with
    | [] => (inr EAGAIN, k)
    | d :: q => (inl (truncate n d), f_with_queue k h q)
    end;
  sys_recvmmsg k h count n :=
    match f_waiting k h with
    | [] => (inr EAGAIN, k)
    | q => (inl (truncate n <$> take (Z.to_nat count) q), f_with_queue k h (drop (Z.to_nat count) q))
    end;
  sys_sendmmsg k h l := (zlen l, f_sent k (pair h <$> l));
  sys_sendmsg_segment k h d seg :=
    if f_gso k then (zlen d.2, f_sent k (pair h ∘ pair d.1 <$> segments seg d.2)) else (-1, k);
|}.

Lemma f_waiting_eq k h q : f_waiting (f_with_queue k h q) h = q.
Proof. unfold f_waiting, f_with_queue. cbn. by rewrite lookup_insert_eq. Qed.
Lemma f_waiting_ne k h g q : g <> h -> f_waiting (f_with_queue k h q) g = f_waiting k g.
Proof. intros Hg. unfold f_waiting, f_with_queue. cbn. by rewrite lookup_insert_ne. Qed.

#[global] Program Instance fifo_laws : KernelLaws fifo := {|
  opened := f_open; bound k h := f_bound k !! h; queue := f_waiting; wire := f_wire; peer k h := f_peer k !! h |}.
Next Obligation.
  intros k af h k'. cbn. case_if.
  - intros [= <- <-]. by left.
  - intros [= <- <-]. right. cbn. match goal with E : bool_decide _ = false |- _ => apply bool_decide_eq_false in E end. done.
Qed.
Next Obligation. done. Qed.
Next Obligation. intros k h fl r k' [= <- <-]. split; [done|]. cbn. by rewrite lookup_insert_eq. Qed.
Next Obligation. intros k h name r k' [= <- <-]. split_and!; [done..|]. cbn. by rewrite lookup_insert_eq. Qed.
Next Obligation. done. Qed.
Next Obligation.
  intros k h n r k'. cbn. destruct (f_waiting k h) as [|d q] eqn:E; intros [= <- <-]; split; try done.
  - exists []. by rewrite app_nil_r.
  - exists d, []. by rewrite app_nil_r, f_waiting_eq.
Qed.
Next Obligation.
  intros k h count n r k' Hc. cbn. destruct (f_waiting k h) as [|d q] eqn:E; intros [= <- <-]; split; try done.
  - exists []. by rewrite app_nil_r.
  - split; [unfold zlen; rewrite length_fmap, length_take; cbn [length]; lia|].
    exists (take (Z.to_nat count) (d :: q)), []. by rewrite app_nil_r, f_waiting_eq, take_drop.
Qed.
Next Obligation.
  intros k h d r k' [= <- <-]. rewrite (proj2 (Z.ltb_ge _ _)) by apply zlen_nonneg. done.
Qed.
Next Obligation.
  intros k h l r k' [= <- <-]. rewrite (proj2 (Z.ltb_ge _ _)) by apply zlen_nonneg. split; [done|].
  unfold zlen. by rewrite Nat2Z.id, firstn_all.
Qed.
Next Obligation.
  intros k h name d seg r k' Hs. cbn. destruct (f_gso k); intros [= <- <-].
  - rewrite (proj2 (Z.ltb_ge _ _)) by apply zlen_nonneg. done.
  - cbn. by rewrite app_nil_r.
Qed.
Next Obligation. intros k h name r k' [= <- <-]. split_and!; [done..|]. cbn. by rewrite lookup_insert_eq. Qed.
Next Obligation.
  intros k h d r k'. cbn. destruct (f_peer k !! h) as [name|] eqn:E; intros [= <- <-].
  - rewrite (proj2 (Z.ltb_ge _ _)) by apply zlen_nonneg. done.
  - by rewrite app_nil_r.
Qed.
#[global] Instance fifo_quiet : Quiet fifo.
Proof.
  split.
  - intros k h n r k'. cbn. destruct (f_waiting k h) as [|d q] eqn:E; intros [= <- <-].
    + done.
    + split; [intros; by apply f_waiting_ne|]. by rewrite f_waiting_eq.
  - intros k h count n r k' Hc. cbn. destruct (f_waiting k h) as [|d q] eqn:E; intros [= <- <-].
    + done.
    + split; [intros; by apply f_waiting_ne|]. by rewrite f_waiting_eq.
  - done.
  - intros k h d seg g. cbn. by destruct (f_gso k).
  - intros k h q g. cbn. by destruct (f_peer k !! h).
Qed.

(** * The promise of a batch *)

(** C19. A batch send is memory-safe and means the same whichever way it goes: through
    the kernel's segmentation of one concatenated buffer, through [sendmmsg], or
    through the loop of the other Unix build, the datagrams on the wire are the first
    packets of the batch, unchanged and in order, as many as the result says; an error
    means none of them. *)
Theorem send_batch_on_wire {K : Type} `{KernelLaws K} (k : K) (sock : Socket) (pkts : list SocketPacket) (count : Z) :
  count <= zlen pkts -> Forall sendable (take (Z.to_nat (batch_of count)) pkts) ->
  (exists r k', socket_send_batch k sock pkts count = Some (r, k') /\
     sends_prefix k (handle sock) (take (Z.to_nat (batch_of count)) pkts) r k') /\
  (exists r k', socket_send_batch_loop k sock pkts count = Some (r, k') /\
     sends_prefix k (handle sock) (take (Z.to_nat (batch_of count)) pkts) r k').
Proof. intros Hc F. split; [by apply send_batch_spec|by apply send_batch_loop_spec]. Qed.

Definition fifo0 (gso : bool) : fifo := mkFifo ∅ 3 ∅ ∅ ∅ [] gso ∅.
Definition two_packets : list SocketPacket :=
  [mkSocketPacket loopback [1; 2; 3; 0] 3; mkSocketPacket loopback [4; 5; 6] 3].
(** Three bytes each to the same peer: the kernel segments six bytes, or gets two messages. *)
Example both_ways : forall gso,
  (fun o => f_wire o.2) <$> socket_send_batch (fifo0 gso) (mkSocket 3) two_packets 2
  = Some [(3, (sockaddr loopback, [1; 2; 3])); (3, (sockaddr loopback, [4; 5; 6]))].
Proof. intros []; vm_compute; reflexivity. Qed.
Lemma send_batch_on_wire_witness :
  2 <= zlen two_packets /\ Forall sendable (take (Z.to_nat (batch_of 2)) two_packets) /\
  exists r k', socket_send_batch (fifo0 true) (mkSocket 3) two_packets 2 = Some (r, k') /\
    sends_prefix (fifo0 true) 3 (take (Z.to_nat (batch_of 2)) two_packets) r k'.
Proof.
  assert (Forall sendable (take (Z.to_nat (batch_of 2)) two_packets)) as F by (repeat constructor; done).
  split; [done|]. split; [exact F|].
  exact (proj1 (send_batch_on_wire (fifo0 true) (mkSocket 3) two_packets 2 ltac:(done) F)).
Defined.

(** The same two packets as one datagram of six bytes. *)
Example wsa_one_datagram :
  (fun o => (o.1, f_wire o.2)) <$> socket_send_batch_wsa (fifo0 true) (mkSocket 3) two_packets 2
  = Some (2, [(3, (sockaddr loopback, [1; 2; 3; 4; 5; 6]))]).
Proof. vm_compute; reflexivity. Qed.
End Socket.
