(* ===== verification/Rtt.v ===== *)
(** Round-trip time estimation (src/src/reliability/rtt.h), in binary64. *)

From S2P Require Import Prelude Double.

Module Rtt.

Definition MIN_RTO : double := dlit 1 10.
Definition MAX_RTO : double := d_of_Z 2.
Definition INITIAL_RTO : double := d_of_Z 1.

Record estimator : Type := mkRtt {
  srtt_ : double; rttvar_ : double; rto_ : double; has_sample_ : bool }.

Definition reset : estimator := mkRtt d0 d0 INITIAL_RTO false.

Definition sample_of (send_time now : double) (ack_delay_us : Z) : double :=
  let sample := dsub (dsub now send_time) (ddiv (d_of_Z ack_delay_us) (d_of_Z 1000000)) in
  if dlt sample d0 then dlit 1 1000 else sample.

Definition on_sample (e : estimator) (send_time now : double) (ack_delay_us : Z) : estimator :=
  let sample := sample_of send_time now ack_delay_us in
  let '(srtt, rttvar) :=
    if negb (has_sample_ e) then (sample, ddiv sample (d_of_Z 2))
    else
      let alpha := dlit 125 1000 in
      let beta := dlit 25 100 in
      (dadd (dmul (dsub (d_of_Z 1) alpha) (srtt_ e)) (dmul alpha sample),
       dadd (dmul (dsub (d_of_Z 1) beta) (rttvar_ e))
            (dmul beta (dabs (dsub (srtt_ e) sample)))) in
  let rto := dadd srtt (dmul (d_of_Z 4) rttvar) in
  mkRtt srtt rttvar (dclamp rto MIN_RTO MAX_RTO) true.

Definition ping_ms (e : estimator) : Z := d_to_u32 (dmul (srtt_ e) (d_of_Z 1000)).

(** An estimator after some samples. *)
Definition feed (e : estimator) (l : list (double * double * Z)) : estimator :=
  foldl (fun e '(s, n, d) => on_sample e s n d) e l.
Definition finite_estimate (e : estimator) : Prop :=
  is_fin (srtt_ e) = true /\ is_fin (rttvar_ e) = true.

Lemma dadd_fin_l a b : is_fin a = true -> is_nan b = false -> is_nan (dadd a b) = false.
Proof.
  intros Ha Hb. destruct b as [s|s| |s m e]; try done.
  - by apply dadd_nan.
  - by destruct a.
  - by apply dadd_nan.
Qed.

(** The retransmission timeout stays between 100 ms and 2 s (and is a
    number) after every sample, for every sequence of samples whose smoothed
    estimates are finite; before the first sample it is the initial second. *)
Theorem rto_in_bounds l s n d :
  finite_estimate (feed reset (l ++ [(s, n, d)])) ->
  dle MIN_RTO (rto_ (feed reset (l ++ [(s, n, d)]))) = true /\
  dle (rto_ (feed reset (l ++ [(s, n, d)]))) MAX_RTO = true /\
  dle MIN_RTO (rto_ reset) = true /\ dle (rto_ reset) MAX_RTO = true.
Proof.
  unfold feed. rewrite foldl_app. cbn [foldl]. set (e := foldl _ reset l).
  intros [Hs Hv]. unfold on_sample in *.
  set (p := if negb (has_sample_ e) then _ else _) in *. destruct p as [sr rv].
  cbn [srtt_ rttvar_ rto_] in *.
  assert (is_nan (dadd sr (dmul (d_of_Z 4) rv)) = false) as Hnan.
  { apply dadd_fin_l; [done|]. by apply dmul_nan. }
  destruct (dclamp_range (dadd sr (dmul (d_of_Z 4) rv)) MIN_RTO MAX_RTO) as [H1 H2];
    [done| by vm_compute |]. split_and!; try done; by vm_compute.
Qed.

Lemma rto_in_bounds_witness :
  dle MIN_RTO (rto_ (feed reset ([(d_of_Z 1, d_of_Z 3, 0)] ++ [(d_of_Z 2, d_of_Z 2, 500)]))) = true.
Proof.
  apply (rto_in_bounds [(d_of_Z 1, d_of_Z 3, 0)] (d_of_Z 2) (d_of_Z 2) 500). by vm_compute.
Defined.

End Rtt.
