(* ===== verification/Bandwidth.v ===== *)
(** Bandwidth control (src/src/bandwidth/bandwidth.h): the token bucket, the
    queued-bits budget that gates sending, and AIMD congestion control. *)

From S2P Require Import Prelude Double.

Module Bandwidth.

(** ** BandwidthBucket *)

Record BandwidthBucket : Type := mkBucket {
  rate_bytes_per_sec : Z; burst_bytes : Z; tokens : double; last_refill_time : double }.
Definition bucket_default : BandwidthBucket := mkBucket (256 * 1024) (32 * 1024) d0 d0.

Definition bucket_init (b : BandwidthBucket) (time : double) : BandwidthBucket :=
  mkBucket (rate_bytes_per_sec b) (burst_bytes b) (d_of_Z (burst_bytes b)) time.
Definition bucket_refill (b : BandwidthBucket) (now : double) : BandwidthBucket :=
  let elapsed := dsub now (last_refill_time b) in
  if dgt elapsed d0 then
    let t := dadd (tokens b) (dmul (d_of_Z (rate_bytes_per_sec b)) elapsed) in
    mkBucket (rate_bytes_per_sec b) (burst_bytes b) (dmin t (d_of_Z (burst_bytes b))) now
  else b.
Definition try_consume (b : BandwidthBucket) (bytes : Z) : bool * BandwidthBucket :=
  let needed := d_of_Z bytes in
  if dge (tokens b) needed
  then (true, mkBucket (rate_bytes_per_sec b) (burst_bytes b) (dsub (tokens b) needed)
                (last_refill_time b))
  else (false, b).

(** A refill never leaves more than the burst in the bucket. *)
Lemma bucket_refill_cap b now :
  is_nan (dadd (tokens b) (dmul (d_of_Z (rate_bytes_per_sec b)) (dsub now (last_refill_time b))))
    = false ->
  dle (tokens b) (d_of_Z (burst_bytes b)) = true ->
  dle (tokens (bucket_refill b now)) (d_of_Z (burst_bytes b)) = true.
Proof.
  intros Hn Ht. unfold bucket_refill. case_if; [|done]. cbn.
  apply dmin_le_r; [done|apply d_of_Z_nan].
Qed.

(** ** QueuedBitsBudget *)

(** [int32_t] arithmetic is wrapped; [budget_law] shows nothing wraps. *)
Record QueuedBitsBudget : Type := mkBudget { queued_bits : Z; burst_bits : Z }.
Definition budget_default : QueuedBitsBudget := mkBudget 0 (32 * 1024 * 8).

Definition refill_amount (delta_time : double) (send_rate_bps : Z) : Z :=
  d_to_i32 (dmul (dmul (d_of_Z send_rate_bps) (d_of_Z 8)) delta_time).
Definition refill (b : QueuedBitsBudget) (delta_time : double) (send_rate_bps : Z)
    : QueuedBitsBudget :=
  let q := i32 (queued_bits b - refill_amount delta_time send_rate_bps) in
  mkBudget (if q <? - burst_bits b then - burst_bits b else q) (burst_bits b).
Definition consume (b : QueuedBitsBudget) (packet_bytes : Z) : QueuedBitsBudget :=
  mkBudget (i32 (queued_bits b + packet_bytes * 8)) (burst_bits b).
Definition can_send (b : QueuedBitsBudget) : bool := queued_bits b <=? 0.

(** ** CongestionControl *)

Definition MIN_SEND_RATE : Z := 32 * 1024.
Definition DEFAULT_MAX_RATE : Z := 256 * 1024.
Definition DECREASE_FACTOR : spec_float := flit 75 100.
Definition INCREASE_FACTOR : spec_float := flit 110 100.
Definition LOSS_THRESHOLD_HIGH : spec_float := flit 5 100.
Definition LOSS_THRESHOLD_LOW : spec_float := flit 1 100.
Definition WINDOW_SIZE : Z := 64.

Record CongestionControl : Type := mkCC {
  send_rate_ : Z; max_send_rate_ : Z; total_packets_ : Z; lost_packets_ : Z; rtt_samples_ : Z }.
Definition cc_default : CongestionControl := mkCC DEFAULT_MAX_RATE DEFAULT_MAX_RATE 0 0 0.

Definition cc_init (max_rate : Z) : CongestionControl := mkCC max_rate max_rate 0 0 0.
Definition cc_reset (c : CongestionControl) : CongestionControl :=
  mkCC (max_send_rate_ c) (max_send_rate_ c) 0 0 0.

Definition on_packet_acked (c : CongestionControl) : CongestionControl :=
  let total := total_packets_ c + 1 in
  if WINDOW_SIZE <? total
  then mkCC (send_rate_ c) (max_send_rate_ c) WINDOW_SIZE
         (if 0 <? lost_packets_ c then lost_packets_ c - 1 else lost_packets_ c) (rtt_samples_ c)
  else mkCC (send_rate_ c) (max_send_rate_ c) total (lost_packets_ c) (rtt_samples_ c).
Definition on_packet_lost (c : CongestionControl) : CongestionControl :=
  let total := total_packets_ c + 1 in
  mkCC (send_rate_ c) (max_send_rate_ c) (if WINDOW_SIZE <? total then WINDOW_SIZE else total)
    (lost_packets_ c + 1) (rtt_samples_ c).
Definition on_rtt_sample (c : CongestionControl) : CongestionControl :=
  mkCC (send_rate_ c) (max_send_rate_ c) (total_packets_ c) (lost_packets_ c)
    (rtt_samples_ c + 1).

Definition set_rate (c : CongestionControl) (r : Z) : CongestionControl :=
  mkCC r (max_send_rate_ c) (total_packets_ c) (lost_packets_ c) (rtt_samples_ c).
Definition evaluate (c : CongestionControl) : CongestionControl :=
  if total_packets_ c <? 10 then c
  else
    let loss_rate := fdiv (f_of_Z (lost_packets_ c)) (f_of_Z (total_packets_ c)) in
    if SFltb LOSS_THRESHOLD_HIGH loss_rate then
      let r := d_to_u32 (d_of_f (fmul (f_of_Z (send_rate_ c)) DECREASE_FACTOR)) in
      set_rate c (if r <? MIN_SEND_RATE then MIN_SEND_RATE else r)
    else if SFltb loss_rate LOSS_THRESHOLD_LOW && (10 <=? rtt_samples_ c) then
      let r := d_to_u32 (d_of_f (fmul (f_of_Z (send_rate_ c)) INCREASE_FACTOR)) in
      set_rate c (if max_send_rate_ c <? r then max_send_rate_ c else r)
    else c.
Definition loss_rate (c : CongestionControl) : spec_float :=
  if total_packets_ c =? 0 then f_of_Z 0
  else fdiv (f_of_Z (lost_packets_ c)) (f_of_Z (total_packets_ c)).

(** * The budget limits what is sent *)

(** The server's use of the budget: refills, and packets of at most [B] bytes
    sent when [can_send] allows it. *)
Inductive budget_op : Type :=
  | Refill (delta_time : double) (send_rate_bps : Z)
  | TrySend (bytes : Z).
Definition budget_step (s : QueuedBitsBudget * Z) (o : budget_op) : QueuedBitsBudget * Z :=
  let '(b, sent) := s in
  match o with
  | Refill dt r => (refill b dt r, sent)
  | TrySend n => if can_send b then (consume b n, sent + n * 8) else s
  end.
Definition op_ok (B : Z) (burst : Z) (o : budget_op) : Prop :=
  match o with
  | Refill dt r => 0 <= refill_amount dt r < 2 ^ 31 - burst
  | TrySend n => 0 <= n <= B
  end.
Definition op_refill (o : budget_op) : Z :=
  match o with Refill dt r => refill_amount dt r | TrySend _ => 0 end.

Lemma i32_small z : - 2 ^ 31 <= z < 2 ^ 31 -> i32 z = z.
Proof. unfold i32. mlia. Qed.

Lemma budget_run B b sent os :
  0 <= B < 2 ^ 27 -> 0 <= burst_bits b < 2 ^ 31 -> Forall (op_ok B (burst_bits b)) os ->
  - burst_bits b <= queued_bits b <= 8 * B ->
  let '(b', sent') := foldl budget_step (b, sent) os in
  burst_bits b' = burst_bits b /\ - burst_bits b <= queued_bits b' <= 8 * B /\
  sent' - sent <= queued_bits b' - queued_bits b + sumZ (op_refill <$> os).
Proof.
  intros HB Hburst Hok. revert b sent Hburst Hok.
  induction os as [|o os IH]; intros b sent Hburst Hok Hq; cbn [foldl].
  - cbn. lia.
  - apply Forall_cons_iff in Hok as [Ho Hok]. rewrite fmap_cons. cbn [sumZ].
    destruct o as [dt r|n]; cbn [budget_step op_refill op_ok] in *.
    + assert (exists q, refill b dt r = mkBudget q (burst_bits b) /\
        - burst_bits b <= q <= 8 * B /\ queued_bits b - refill_amount dt r <= q)
        as (q & -> & Hq' & Hle).
      { unfold refill. rewrite i32_small by lia. eexists. split; [done|]. case_if; lia. }
      specialize (IH (mkBudget q (burst_bits b)) sent Hburst Hok Hq').
      destruct (foldl _ _ os) as [b' sent']. cbn in IH. lia.
    + unfold can_send. case_if.
      * unfold consume. rewrite i32_small by lia.
        specialize (IH (mkBudget (queued_bits b + n * 8) (burst_bits b)) (sent + n * 8)
          Hburst Hok ltac:(cbn; lia)).
        destruct (foldl _ _ os) as [b' sent']. cbn in IH. lia.
      * specialize (IH b sent Hburst Hok Hq). destruct (foldl _ _ os) as [b' sent']. lia.
Qed.

(** C40.  Bandwidth law: over any sequence of guarded sends of packets of at most [B]
    bytes and of refills that each add no fewer than 0 and fewer than 2^31 less the burst
    bits (time does not go back, and rate times elapsed time stays in that range; the
    code checks neither, and [refill_overflow_blocks] is what happens beyond), the bits sent
    never exceed the burst, plus everything refilled, plus one packet; the counter stays
    between minus the burst and one packet, so no 32-bit addition overflows. *)
Theorem budget_law B os :
  0 <= B < 2 ^ 27 -> Forall (op_ok B (burst_bits budget_default)) os ->
  let '(b, sent) := foldl budget_step (budget_default, 0) os in
  sent <= burst_bits budget_default + sumZ (op_refill <$> os) + 8 * B /\
  - burst_bits budget_default <= queued_bits b <= 8 * B.
Proof.
  intros HB Hok.
  pose proof (budget_run B budget_default 0 os HB ltac:(vm_compute; split; done) Hok
    ltac:(cbn; lia)) as H.
  destruct (foldl _ _ os) as [b sent]. cbn in *. lia.
Qed.

Lemma budget_law_witness :
  let '(b, sent) := foldl budget_step (budget_default, 0)
    [TrySend 1400; TrySend 1400; Refill (dlit 1 100) 262144; TrySend 1400] in
  sent <= burst_bits budget_default
          + sumZ (op_refill <$> [TrySend 1400; TrySend 1400; Refill (dlit 1 100) 262144;
                                 TrySend 1400]) + 8 * 1400 /\
  - burst_bits budget_default <= queued_bits b <= 8 * 1400.
Proof.
  apply (budget_law 1400); [lia|]. repeat (constructor; [vm_compute; split; congruence|]). constructor.
Defined.

(** After a pause long enough for the refill to leave [int32_t] (about 1024 s at
    the default rate) the conversion gives INT_MIN on x86-64 and the budget jumps
    up: sending stays blocked although a full burst should be available. *)
Lemma refill_overflow_blocks :
  can_send (refill (mkBudget (-1) (32 * 1024 * 8)) (d_of_Z 2000) DEFAULT_MAX_RATE) = false.
Proof. by vm_compute. Qed.

(** The loss counter is not capped by the window: the loss rate can exceed one. *)
Lemma loss_rate_above_one :
  SFltb (f_of_Z 1) (loss_rate (Nat.iter 100 on_packet_lost cc_default)) = true.
Proof. by vm_compute. Qed.

End Bandwidth.
