(* ===== verification/Ddos.v ===== *)
(** DDoS severity (src/src/connection/ddos.h): escalation by bad packets per
    second, cool-off one level at a time. *)

From S2P Require Import Prelude Double.

Module Ddos.

(** [enum class DDoSSeverity : uint8_t]. *)
Inductive DDoSSeverity : Type := None_ | Low | Medium | High | Critical.
#[global] Instance severity_eq_dec : EqDecision DDoSSeverity.
Proof. solve_decision. Defined.
Definition level (s : DDoSSeverity) : Z :=
  match s with None_ => 0 | Low => 1 | Medium => 2 | High => 3 | Critical => 4 end.
(** [static_cast<DDoSSeverity>(static_cast<uint8_t>(s) - 1)], for [s] not None. *)
Definition below (s : DDoSSeverity) : DDoSSeverity :=
  match s with Critical => High | High => Medium | Medium => Low | _ => None_ end.

Record DDoSMonitor : Type := mkMonitor {
  severity_ : DDoSSeverity;
  bad_packets_this_window_ : Z;
  bad_packets_per_sec_ : Z;
  cooloff_timer_ : double;
  time_since_last_eval_ : double
}.

Definition reset : DDoSMonitor := mkMonitor None_ 0 0 d0 d0.

Definition on_bad_packet (d : DDoSMonitor) : DDoSMonitor :=
  mkMonitor (severity_ d) (bad_packets_this_window_ d + 1) (bad_packets_per_sec_ d)
    (cooloff_timer_ d) (time_since_last_eval_ d).

(** The level the thresholds ask for, keeping [severity] below all of them. *)
Definition threshold (bps : Z) (severity : DDoSSeverity) : DDoSSeverity :=
  if 10000 <? bps then Critical
  else if 2000 <? bps then High
  else if 500 <? bps then Medium
  else if 100 <? bps then Low
  else severity.

Definition update (d : DDoSMonitor) (dt : double) : DDoSMonitor :=
  let t := dadd (time_since_last_eval_ d) dt in
  if dge t (d_of_Z 1) then
    let bps := bad_packets_this_window_ d in
    let new_severity := threshold bps (severity_ d) in
    if level (severity_ d) <? level new_severity then mkMonitor new_severity 0 bps d0 d0
    else if bps <=? 100 then
      let cooloff_threshold := if bool_decide (severity_ d = Critical) then d_of_Z 60
                               else d_of_Z 30 in
      let timer := dadd (cooloff_timer_ d) (d_of_Z 1) in
      if dge timer cooloff_threshold && negb (bool_decide (severity_ d = None_))
      then mkMonitor (below (severity_ d)) 0 bps d0 d0
      else mkMonitor (severity_ d) 0 bps timer d0
    else mkMonitor (severity_ d) 0 bps d0 d0
  else mkMonitor (severity_ d) (bad_packets_this_window_ d) (bad_packets_per_sec_ d)
         (cooloff_timer_ d) t.

Definition should_process_new_connection (d : DDoSMonitor) : bool :=
  level (severity_ d) <? level Critical.
Definition should_process_packet (d : DDoSMonitor) (is_established : bool) : bool :=
  if (level High <=? level (severity_ d)) && negb is_established then false else true.

(** * Escalation and cool-off *)

(** What [bps] bad packets in a window demand. *)
Definition demanded (bps : Z) : Z :=
  if 10000 <? bps then 4 else if 2000 <? bps then 3 else if 500 <? bps then 2
  else if 100 <? bps then 1 else 0.

Lemma update_level d dt :
  dge (dadd (time_since_last_eval_ d) dt) (d_of_Z 1) = true ->
  let bps := bad_packets_this_window_ d in
  let s := level (severity_ d) in let s' := level (severity_ (update d dt)) in
  (s < demanded bps -> s' = demanded bps) /\
  (demanded bps <= s -> s' = s \/ (s' = s - 1 /\ demanded bps = 0)) /\
  bad_packets_this_window_ (update d dt) = 0.
Proof.
  intros Ht. unfold update. rewrite Ht. cbn zeta.
  assert (level (threshold (bad_packets_this_window_ d) (severity_ d))
          = if demanded (bad_packets_this_window_ d) =? 0 then level (severity_ d)
            else demanded (bad_packets_this_window_ d)) as Hth.
  { unfold threshold, demanded. repeat case_if; try done; lia. }
  assert ((bad_packets_this_window_ d <=? 100) = (demanded (bad_packets_this_window_ d) =? 0)) as Hq.
  { unfold demanded. repeat case_if; try done; apply Z.leb_gt || apply Z.leb_le; lia. }
  rewrite Hth, Hq. destruct (demanded _ =? 0) eqn:E0; bool_facts.
  - rewrite Z.ltb_irrefl. assert (0 <= level (severity_ d)) by (by destruct (severity_ d)).
    destruct (dge _ _ && _) eqn:E; cbn; [|lia]. apply andb_true_iff in E as [_ E].
    split_and!; try lia. intros _. destruct (severity_ d); try done; cbn; lia.
  - case_if; cbn [severity_ bad_packets_this_window_].
    + rewrite Hth. try (case_if; [done|]). lia.
    + lia.
Qed.

(** One quiet second: no bad packets and [dt >= 1]. *)
Definition quiet_second (d : DDoSMonitor) : DDoSMonitor := update d (d_of_Z 1).
Definition calm (s : DDoSSeverity) : DDoSMonitor := mkMonitor s 0 0 d0 d0.
Definition cooloff_seconds (s : DDoSSeverity) : nat :=
  if bool_decide (s = Critical) then 60%nat else 30%nat.

Lemma update_quiet d dt :
  time_since_last_eval_ d = d0 -> is_fin dt = true -> dge dt (d_of_Z 1) = true ->
  update d dt = quiet_second d.
Proof.
  intros Ht Hf Hdt. unfold quiet_second, update. rewrite Ht.
  assert (dadd d0 dt = dt) as -> by (destruct dt as [s|s| |s m e]; try done).
  rewrite Hdt. done.
Qed.

Lemma quiet_time d : time_since_last_eval_ (quiet_second d) = d0 \/
  time_since_last_eval_ (quiet_second d) = dadd (time_since_last_eval_ d) (d_of_Z 1).
Proof. unfold quiet_second, update. repeat case_match; auto. Qed.

Lemma quiet_run d dts :
  time_since_last_eval_ d = d0 ->
  Forall (fun dt => is_fin dt = true /\ dge dt (d_of_Z 1) = true) dts ->
  foldl update d dts = Nat.iter (length dts) quiet_second d.
Proof.
  intros Ht Hd. revert d Ht. induction Hd as [|dt dts [Hf Hge] Hd IH]; intros d Ht; [done|].
  cbn [foldl length]. rewrite Nat.iter_succ_r, (update_quiet d dt Ht Hf Hge). apply IH.
  unfold quiet_second, update. rewrite Ht. change (dge (dadd d0 (d_of_Z 1)) (d_of_Z 1)) with true.
  repeat case_match; done.
Qed.

(** Severity follows the bad-packet rate: a window that demands a higher
    level raises the severity to exactly that level at once; otherwise it stays or,
    in a window of at most 100 bad packets, drops by one; and from any level,
    quiet windows lower it by one after exactly 30 of them (60 from Critical),
    whatever their lengths of one second or more. *)
Theorem ddos_escalates_and_cools d dt s dts :
  dge (dadd (time_since_last_eval_ d) dt) (d_of_Z 1) = true ->
  s <> None_ -> length dts = cooloff_seconds s ->
  Forall (fun dt => is_fin dt = true /\ dge dt (d_of_Z 1) = true) dts ->
  let bps := bad_packets_this_window_ d in let d' := update d dt in
  (level (severity_ d) < demanded bps -> level (severity_ d') = demanded bps) /\
  (demanded bps <= level (severity_ d) -> level (severity_ d') = level (severity_ d) \/
     (level (severity_ d') = level (severity_ d) - 1 /\ demanded bps = 0)) /\
  foldl update (calm s) dts = calm (below s) /\
  forall n, (n < cooloff_seconds s)%nat -> severity_ (foldl update (calm s) (take n dts)) = s.
Proof.
  intros Ht Hs Hlen Hd. destruct (update_level d dt Ht) as (H1 & H2 & _).
  split; [done|]. split; [done|]. split.
  - rewrite quiet_run by done. rewrite Hlen.
    destruct s; [by contradict Hs|..]; vm_compute; reflexivity.
  - intros n Hn. rewrite quiet_run by (try done; by apply Forall_take).
    rewrite length_take, Hlen, Nat.min_l by lia.
    assert (forallb (fun n => bool_decide (severity_ (Nat.iter n quiet_second (calm s)) = s))
              (seq 0 (cooloff_seconds s)) = true) as Hall
      by (destruct s; vm_compute; reflexivity).
    rewrite forallb_forall in Hall. specialize (Hall n).
    eapply bool_decide_eq_true_1, Hall, in_seq. lia.
Qed.

Lemma ddos_escalates_and_cools_witness :
  foldl update (calm Critical) (replicate 60 (d_of_Z 1)) = calm High /\
  level (severity_ (update (mkMonitor None_ 3000 0 d0 d0) (d_of_Z 1))) = 3.
Proof.
  destruct (ddos_escalates_and_cools (mkMonitor None_ 3000 0 d0 d0) (d_of_Z 1) Critical
    (replicate 60 (d_of_Z 1))) as (H1 & _ & H3 & _).
  - vm_compute. reflexivity.
  - discriminate.
  - vm_compute. reflexivity.
  - apply Forall_replicate. split; vm_compute; reflexivity.
  - split; [exact H3|]. apply H1. vm_compute. reflexivity.
Defined.

End Ddos.
