(* ===== verification/Stats.v ===== *)
(** Connection statistics (src/src/stats/stats.h): the fields the packet paths
    update, and the throughput averages. *)

From S2P Require Import Prelude Double.

Module Stats.

Record ConnectionStats : Type := mkStats {
  ping_ms : Z;
  out_packets_per_sec : spec_float;
  out_bytes_per_sec : spec_float;
  in_packets_per_sec : spec_float;
  in_bytes_per_sec : spec_float;
  send_rate_bytes_per_sec : Z;
  max_send_rate_bytes_per_sec : Z;
  packets_sent : Z;
  packets_received : Z;
  messages_sent : Z;
  messages_received : Z;
  messages_dropped : Z;
  fragments_received : Z;
  frames_coalesced : Z;
  replay_attacks_blocked : Z;
  decrypt_failures : Z;
  out_packets_this_sec_ : Z;
  out_bytes_this_sec_ : Z;
  in_packets_this_sec_ : Z;
  in_bytes_this_sec_ : Z;
  last_throughput_time_ : double
}.

Definition f0 : spec_float := S754_zero false.
(** [ConnectionStats{}]. *)
Definition empty : ConnectionStats :=
  mkStats 0 f0 f0 f0 f0 0 0 0 0 0 0 0 0 0 0 0 0 0 0 0 d0.

Definition ema (old : spec_float) (count : Z) : spec_float :=
  let alpha := flit 2 10 in
  fadd (fmul (fsub (f_of_Z 1) alpha) old) (fmul alpha (f_of_Z count)).

Definition update_throughput (s : ConnectionStats) (now : double) : ConnectionStats :=
  let elapsed := dsub now (last_throughput_time_ s) in
  if dge elapsed (d_of_Z 1) then
    mkStats (ping_ms s)
      (ema (out_packets_per_sec s) (out_packets_this_sec_ s))
      (ema (out_bytes_per_sec s) (out_bytes_this_sec_ s))
      (ema (in_packets_per_sec s) (in_packets_this_sec_ s))
      (ema (in_bytes_per_sec s) (in_bytes_this_sec_ s))
      (send_rate_bytes_per_sec s) (max_send_rate_bytes_per_sec s) (packets_sent s)
      (packets_received s) (messages_sent s) (messages_received s) (messages_dropped s)
      (fragments_received s) (frames_coalesced s) (replay_attacks_blocked s)
      (decrypt_failures s) 0 0 0 0 now
  else s.

Definition on_packet_sent (s : ConnectionStats) (n : Z) : ConnectionStats :=
  mkStats (ping_ms s) (out_packets_per_sec s) (out_bytes_per_sec s) (in_packets_per_sec s)
    (in_bytes_per_sec s) (send_rate_bytes_per_sec s) (max_send_rate_bytes_per_sec s)
    (u32 (packets_sent s + 1)) (packets_received s) (messages_sent s) (messages_received s)
    (messages_dropped s) (fragments_received s) (frames_coalesced s)
    (replay_attacks_blocked s) (decrypt_failures s) (u32 (out_packets_this_sec_ s + 1))
    (u32 (out_bytes_this_sec_ s + u32 n)) (in_packets_this_sec_ s) (in_bytes_this_sec_ s)
    (last_throughput_time_ s).

Definition on_packet_received (s : ConnectionStats) (n : Z) : ConnectionStats :=
  mkStats (ping_ms s) (out_packets_per_sec s) (out_bytes_per_sec s) (in_packets_per_sec s)
    (in_bytes_per_sec s) (send_rate_bytes_per_sec s) (max_send_rate_bytes_per_sec s)
    (packets_sent s) (u32 (packets_received s + 1)) (messages_sent s) (messages_received s)
    (messages_dropped s) (fragments_received s) (frames_coalesced s)
    (replay_attacks_blocked s) (decrypt_failures s) (out_packets_this_sec_ s)
    (out_bytes_this_sec_ s) (u32 (in_packets_this_sec_ s + 1))
    (u32 (in_bytes_this_sec_ s + u32 n)) (last_throughput_time_ s).

(** The counters the packet handlers bump in place. *)
Definition add_counters (s : ConnectionStats) (received fragments coalesced failures : Z)
    : ConnectionStats :=
  mkStats (ping_ms s) (out_packets_per_sec s) (out_bytes_per_sec s) (in_packets_per_sec s)
    (in_bytes_per_sec s) (send_rate_bytes_per_sec s) (max_send_rate_bytes_per_sec s)
    (packets_sent s) (packets_received s) (messages_sent s)
    (u32 (messages_received s + received)) (messages_dropped s)
    (u32 (fragments_received s + fragments)) (u32 (frames_coalesced s + coalesced))
    (replay_attacks_blocked s) (u32 (decrypt_failures s + failures))
    (out_packets_this_sec_ s) (out_bytes_this_sec_ s) (in_packets_this_sec_ s)
    (in_bytes_this_sec_ s) (last_throughput_time_ s).

(** The slow tick copies the estimates into the statistics. *)
Definition set_rates (s : ConnectionStats) (ping rate max_rate : Z) : ConnectionStats :=
  mkStats ping (out_packets_per_sec s) (out_bytes_per_sec s) (in_packets_per_sec s)
    (in_bytes_per_sec s) rate max_rate
    (packets_sent s) (packets_received s) (messages_sent s) (messages_received s)
    (messages_dropped s) (fragments_received s) (frames_coalesced s)
    (replay_attacks_blocked s) (decrypt_failures s) (out_packets_this_sec_ s)
    (out_bytes_this_sec_ s) (in_packets_this_sec_ s) (in_bytes_this_sec_ s)
    (last_throughput_time_ s).

Definition set_throughput_time (s : ConnectionStats) (t : double) : ConnectionStats :=
  mkStats (ping_ms s) (out_packets_per_sec s) (out_bytes_per_sec s) (in_packets_per_sec s)
    (in_bytes_per_sec s) (send_rate_bytes_per_sec s) (max_send_rate_bytes_per_sec s)
    (packets_sent s) (packets_received s) (messages_sent s) (messages_received s)
    (messages_dropped s) (fragments_received s) (frames_coalesced s)
    (replay_attacks_blocked s) (decrypt_failures s) (out_packets_this_sec_ s)
    (out_bytes_this_sec_ s) (in_packets_this_sec_ s) (in_bytes_this_sec_ s) t.

End Stats.
