(* ===== verification/RateLimiter.v ===== *)
(** The rate limiter in front of the server (src/src/connection/rate_limiter.h):
    one token bucket per sender address in a hash map of 4096.

    Theorem: of the packets that arrive at one instant, every sender gets
    exactly its first ten through, whatever the other senders do. *)

From stdpp Require Import gmap.
From S2P Require Import Prelude Bytes Double HashMap Address.

Module RateLimiter.

Definition RATE : Z := 60.
Definition BURST : Z := 10.
Definition EXPIRY_SEC : double := d_of_Z 30.
Definition CAPACITY : Z := 4096.

Record RateBucket : Type := mkBucket {
  tokens : double; last_refill_time : double; last_activity_time : double }.
#[global] Instance bucket_inhabited : Inhabited RateBucket := populate (mkBucket d0 d0 d0).

(** [AddressKey]: 20 bytes; the hash policy hashes those bytes. *)
Abbreviation AddressKey := (list Z).
Abbreviation buckets := (hash_map AddressKey RateBucket).

Definition make_key (addr : Address.address) : AddressKey :=
  let n := Z.to_nat (Address.address_data_len addr) in
  [Address.a_type addr] ++ take n (Address.a_data addr) ++ replicate (16 - n) 0
    ++ le_bytes 2 (Address.a_port addr) ++ [0].

(** Refill and consume on a known bucket. *)
Definition take_token (bucket : RateBucket) (now : double) : bool * RateBucket :=
  let elapsed := dsub now (last_refill_time bucket) in
  let bucket :=
    if dgt elapsed d0 then
      let t := dadd (tokens bucket) (dmul (d_of_Z RATE) elapsed) in
      mkBucket (if dgt t (d_of_Z BURST) then d_of_Z BURST else t) now (last_activity_time bucket)
    else bucket in
  let bucket := mkBucket (tokens bucket) (last_refill_time bucket) now in
  if dge (tokens bucket) (d_of_Z 1)
  then (true, mkBucket (dsub (tokens bucket) (d_of_Z 1)) (last_refill_time bucket)
                (last_activity_time bucket))
  else (false, bucket).

Definition allow (m : buckets) (addr : Address.address) (now : double) : bool * buckets :=
  let key := make_key addr in
  match FixedHashMap.find CAPACITY fnv1a key m with
  | None =>
      let new_bucket := mkBucket (d_of_Z (BURST - 1)) now now in
      (true, snd (FixedHashMap.insert CAPACITY fnv1a key new_bucket m))
  | Some bucket =>
      let '(ok, bucket) := take_token bucket now in
      (ok, FixedHashMap.set_value CAPACITY fnv1a key bucket m)
  end.

(** The callback of [cleanup] collects at most 64 expired keys. *)
Definition collect_expired (now : double) (key : AddressKey) (b : RateBucket)
    (expired : list AddressKey) : bool * list AddressKey :=
  (true, if dgt (dsub now (last_activity_time b)) EXPIRY_SEC && (zlen expired <? 64)
         then expired ++ [key] else expired).
Fixpoint remove_all (keys : list AddressKey) (m : buckets) : option buckets :=
  match keys with
  | [] => Some m
  | key :: keys => '(_, m) ← FixedHashMap.remove CAPACITY fnv1a key m; remove_all keys m
  end.
Definition cleanup (m : buckets) (now : double) : option buckets :=
  remove_all (FixedHashMap.for_each (collect_expired now) m []) m.

(** ** A burst at one instant *)

Lemma capacity_pow2 : exists k, 0 <= k /\ CAPACITY = 2 ^ k.
Proof. by exists 12. Qed.

(** Both operations return and keep the table well formed. *)
Lemma allow_wf m addr now :
  FixedHashMap.wf CAPACITY fnv1a m -> FixedHashMap.wf CAPACITY fnv1a (snd (allow m addr now)).
Proof.
  intros Hwf. unfold allow. rewrite (FixedHashMap.find_spec CAPACITY fnv1a capacity_pow2) by done.
  destruct (FixedHashMap.to_map m !! make_key addr) as [b|] eqn:E.
  - destruct (take_token b now) as [ok b']. cbn [snd].
    by apply (FixedHashMap.set_value_spec CAPACITY fnv1a capacity_pow2); [|rewrite E].
  - cbn [snd].
    destruct (FixedHashMap.insert_spec CAPACITY fnv1a capacity_pow2 m (make_key addr)
      (mkBucket (d_of_Z (BURST - 1)) now now) Hwf) as [Hok Hfull].
    pose proof (FixedHashMap.size_le CAPACITY m (proj1 Hwf)).
    destruct (Z_lt_ge_dec (size_ m) CAPACITY).
    + destruct Hok as (s & m' & -> & ? & _); [by right|done].
    + by rewrite Hfull by (done || lia).
Qed.
Lemma remove_all_wf keys m :
  FixedHashMap.wf CAPACITY fnv1a m ->
  exists m', remove_all keys m = Some m' /\ FixedHashMap.wf CAPACITY fnv1a m'.
Proof.
  revert m. induction keys as [|k keys IH]; intros m Hwf; cbn [remove_all]; [by exists m|].
  destruct (FixedHashMap.remove_spec CAPACITY fnv1a capacity_pow2 m k Hwf) as (m' & -> & Hwf' & _).
  cbn. by apply IH.
Qed.
Lemma limiter_cleanup_wf m now :
  FixedHashMap.wf CAPACITY fnv1a m ->
  exists m', cleanup m now = Some m' /\ FixedHashMap.wf CAPACITY fnv1a m'.
Proof. apply remove_all_wf. Qed.
Lemma limiter_empty_wf : FixedHashMap.wf CAPACITY fnv1a (FixedHashMap.empty CAPACITY : buckets).
Proof. apply (FixedHashMap.hm_empty_wf CAPACITY fnv1a capacity_pow2). Qed.

(** [now - now > 0] is false for every [now], infinities and NaN included. *)
Lemma dsub_self_not_pos x : dgt (dsub x x) d0 = false.
Proof.
  destruct x as [s|s| |s m e]; try done.
  - by destruct s.
  - by destruct s.
  - unfold dsub, SFsub. rewrite Z.sub_diag. done.
Qed.

(** The bucket of a sender after [c] packets of the instant. *)
Definition bucket_after (now : double) (c : nat) : RateBucket :=
  mkBucket (d_of_Z (Z.max 0 (BURST - Z.of_nat c))) now now.

Lemma take_token_instant now c :
  (1 <= c)%nat ->
  take_token (bucket_after now c) now = (bool_decide (c < 10)%nat, bucket_after now (S c)).
Proof.
  intros Hc. unfold take_token, bucket_after. cbn [tokens last_refill_time last_activity_time].
  rewrite dsub_self_not_pos. cbn [tokens last_refill_time last_activity_time].
  destruct (decide (c < 10)%nat) as [Hlt|Hge].
  - rewrite bool_decide_true by done.
    do 10 (destruct c as [|c]; [try lia; vm_compute; reflexivity|]). lia.
  - rewrite bool_decide_false by done. unfold BURST.
    replace (Z.max 0 (10 - Z.of_nat c)) with 0 by lia.
    by replace (Z.max 0 (10 - Z.of_nat (S c))) with 0 by lia.
Qed.

(** Packets of one instant. *)
Fixpoint burst (m : buckets) (now : double) (addrs : list Address.address) : list bool * buckets :=
  match addrs with
  | [] => ([], m)
  | a :: addrs => let '(b, m) := allow m a now in
                  let '(bs, m) := burst m now addrs in (b :: bs, m)
  end.

Definition count_key (k : AddressKey) (l : list AddressKey) : nat :=
  length (filter (fun k' => k' = k) l).

(** Packet [i] passes when fewer than ten earlier ones came from its sender. *)
Definition first_ten (past : list AddressKey) (keys : list AddressKey) : list bool :=
  imap (fun i k => bool_decide (count_key k (past ++ take i keys) < 10)%nat) keys.

(** The table holds a bucket for each sender of the past. *)
Definition holds_past (m : buckets) (now : double) (past : list AddressKey) : Prop :=
  FixedHashMap.wf CAPACITY fnv1a m /\
  forall k, FixedHashMap.to_map m !! k =
    if decide (k ∈ past) then Some (bucket_after now (count_key k past)) else None.

Lemma count_key_pos k l : k ∈ l -> (1 <= count_key k l)%nat.
Proof.
  intros Hk. unfold count_key. destruct (filter _ l) as [|x t] eqn:E; [|cbn; lia].
  exfalso. assert (k ∈ filter (fun k' => k' = k) l) as Hf by (by apply list_elem_of_filter).
  rewrite E in Hf. by apply not_elem_of_nil in Hf.
Qed.
Lemma count_key_snoc k k' l :
  count_key k (l ++ [k']) = (count_key k l + if decide (k' = k) then 1 else 0)%nat.
Proof.
  unfold count_key. rewrite list.filter_app, length_app, filter_cons, filter_nil.
  by case_decide.
Qed.
Lemma count_key_zero k l : k ∉ l -> count_key k l = 0%nat.
Proof.
  intros Hk. unfold count_key. destruct (filter _ l) as [|x t] eqn:E; [done|]. exfalso.
  assert (x ∈ filter (fun k' => k' = k) l) as Hx by (rewrite E; left).
  apply list_elem_of_filter in Hx as [-> ?]. done.
Qed.

(** Distinct senders fit the table. *)
Definition senders (l : list AddressKey) : gset AddressKey := list_to_set l.

Lemma holds_size m now past :
  holds_past m now past -> size_ m = Z.of_nat (size (senders past)).
Proof.
  intros [Hwf HM]. rewrite (FixedHashMap.size_to_map CAPACITY m (proj1 Hwf)). f_equal.
  rewrite <- size_dom. f_equal. apply leibniz_equiv. intros k.
  rewrite elem_of_dom, HM. unfold senders. rewrite elem_of_list_to_set.
  case_decide; split; intros Hx; eauto; [by destruct Hx|done].
Qed.

Lemma allow_step m now past a :
  holds_past m now past -> Z.of_nat (size (senders (past ++ [make_key a]))) <= CAPACITY ->
  let '(b, m') := allow m a now in
  b = bool_decide (count_key (make_key a) past < 10)%nat /\
  holds_past m' now (past ++ [make_key a]).
Proof.
  intros Hh Hsz. pose proof Hh as [Hwf HM]. set (k := make_key a) in *.
  unfold allow. fold k. rewrite (FixedHashMap.find_spec CAPACITY fnv1a capacity_pow2) by done.
  assert (forall m', FixedHashMap.wf CAPACITY fnv1a m' ->
    FixedHashMap.to_map m' = <[k := bucket_after now (S (count_key k past))]> (FixedHashMap.to_map m) ->
    holds_past m' now (past ++ [k])) as Hnext.
  { intros m' Hwf' HM'. split; [done|]. intros j. rewrite HM', lookup_insert, HM.
    rewrite count_key_snoc. destruct (decide (k = j)) as [<-|Hne].
    - rewrite decide_True by (rewrite elem_of_app, elem_of_cons; tauto). do 2 f_equal. lia.
    - rewrite Nat.add_0_r. apply decide_ext.
      rewrite elem_of_app, list_elem_of_singleton. intuition congruence. }
  rewrite HM. destruct (decide (k ∈ past)) as [Hin|Hnew].
  - rewrite take_token_instant by (by apply count_key_pos). split; [done|].
    destruct (FixedHashMap.set_value_spec CAPACITY fnv1a capacity_pow2 m k
      (bucket_after now (S (count_key k past))) Hwf) as [Hwf' HM'].
    { rewrite HM, decide_True by done. eauto. }
    by apply Hnext.
  - rewrite (count_key_zero k past) by done. split; [done|].
    destruct (FixedHashMap.insert_spec CAPACITY fnv1a capacity_pow2 m k
      (bucket_after now 1) Hwf) as [Hok _].
    destruct Hok as (s & m' & E & Hwf' & HM' & _).
    { right. rewrite (holds_size m now past Hh). revert Hsz. unfold senders.
      rewrite list_to_set_app_L, size_union; [|set_solver]. rewrite list_to_set_singleton, size_singleton. lia. }
    change (mkBucket (d_of_Z (BURST - 1)) now now) with (bucket_after now 1). rewrite E.
    apply Hnext; [done|]. rewrite count_key_zero by done. done.
Qed.

(** Packets that arrive at one instant, from up to 4096 senders in any
    interleaving, on an empty limiter: of each sender exactly the first ten are
    let through. *)
Theorem burst_allows_first_ten (now : double) (addrs : list Address.address) :
  Z.of_nat (size (senders (make_key <$> addrs))) <= CAPACITY ->
  fst (burst (FixedHashMap.empty CAPACITY) now addrs) = first_ten [] (make_key <$> addrs).
Proof.
  assert (forall addrs past m, holds_past m now past ->
    Z.of_nat (size (senders (past ++ (make_key <$> addrs)))) <= CAPACITY ->
    fst (burst m now addrs) = first_ten past (make_key <$> addrs)) as Hgen.
  { clear addrs. intros addrs. induction addrs as [|a addrs IH]; intros past m Hh Hsz; [done|].
    rewrite fmap_cons in *. cbn [burst].
    assert (Z.of_nat (size (senders (past ++ [make_key a]))) <= CAPACITY) as Hsz1.
    { etransitivity; [|exact Hsz]. apply inj_le, subseteq_size. unfold senders.
      rewrite !list_to_set_app_L. set_solver. }
    pose proof (allow_step m now past a Hh Hsz1) as Hstep.
    destruct (allow m a now) as [b m']. destruct Hstep as [-> Hh'].
    specialize (IH (past ++ [make_key a]) m' Hh'). rewrite <- app_assoc in IH. specialize (IH Hsz).
    destruct (burst m' now addrs) as [bs m2]. cbn [fst] in *. rewrite IH. unfold first_ten.
    cbn [imap]. cbn [take]. rewrite app_nil_r. f_equal. apply imap_ext. intros i k Hk.
    cbn. by rewrite <- app_assoc. }
  intros Hsz. apply Hgen; [|done].
  destruct (FixedHashMap.hm_empty_wf (K := AddressKey) (V := RateBucket) CAPACITY fnv1a capacity_pow2)
    as [Hwf HM].
  split; [done|]. intros k. rewrite HM, lookup_empty, decide_False; [done|apply not_elem_of_nil].
Qed.

Definition demo_addr (n : Z) : Address.address :=
  Address.mkAddress ([n] ++ replicate 15 0) 1 Address.NETUDP_ADDRESS_IPV4.
Lemma burst_allows_first_ten_witness :
  fst (burst (FixedHashMap.empty CAPACITY) (d_of_Z 5) (replicate 12 (demo_addr 1) ++ [demo_addr 2]))
  = replicate 10 true ++ [false; false; true].
Proof.
  rewrite burst_allows_first_ten; vm_compute; [reflexivity|discriminate].
Defined.

End RateLimiter.
