(* ===== verification/PacketCrypto.v ===== *)
(** Packet encryption (src/src/crypto/aead.cpp, aead_dispatch.cpp, xchacha.cpp,
    packet_crypto.h, packet_crypto.cpp).

    [Aead] is the interface packet encryption relies on: what one side encrypts
    the other decrypts.  XOR obfuscation and the plaintext mode are instances
    outright; the XChaCha20-Poly1305 one is built from Monocypher's
    [crypto_aead_lock] and [crypto_aead_unlock], which are parameters.  Key
    derivation takes Monocypher's keyed Blake2b as a parameter. *)

From S2P Require Import Prelude Bytes Double Replay.

Module Crypto.

(** ** The AEAD interface *)

(** [None] is the error return -1. *)
Abbreviation aead_fn := (bytes -> bytes -> bytes -> bytes -> option bytes).

Class Aead := {
  g_aead_encrypt : aead_fn;   (** key, nonce, aad, plaintext *)
  g_aead_decrypt : aead_fn;   (** key, nonce, aad, ciphertext *)
  aead_overhead : Z;
  aead_overhead_nonneg : 0 <= aead_overhead;
  (** What was encrypted decrypts under the same key, nonce and AAD. *)
  aead_correct : forall key nonce aad pt,
    exists ct, g_aead_encrypt key nonce aad pt = Some ct /\
      zlen ct = zlen pt + aead_overhead /\ g_aead_decrypt key nonce aad ct = Some pt
}.

(** *** Modes without a tag *)

Definition xor_bytes (key data : bytes) : bytes :=
  imap (fun i b => Z.lxor b (key.[Z.land (Z.of_nat i) 31])) data.
Definition xor_encrypt : aead_fn := fun key nonce aad pt => Some (xor_bytes key pt).
Definition xor_decrypt : aead_fn := fun key nonce aad ct => Some (xor_bytes key ct).
Definition none_encrypt : aead_fn := fun key nonce aad pt => Some pt.
Definition none_decrypt : aead_fn := fun key nonce aad ct => Some ct.

Lemma xor_bytes_twice key d : xor_bytes key (xor_bytes key d) = d.
Proof.
  unfold xor_bytes. apply list_eq. intros i. rewrite !list_lookup_imap.
  destruct (d !! i) as [b|]; [|done]. cbn.
  by rewrite Z.lxor_assoc, Z.lxor_nilpotent, Z.lxor_0_r.
Qed.
#[export] Program Instance xor_aead : Aead := {|
  g_aead_encrypt := xor_encrypt; g_aead_decrypt := xor_decrypt; aead_overhead := 0 |}.
Next Obligation. done. Qed.
Next Obligation.
  intros key nonce aad pt. eexists. split; [done|]. split.
  - unfold zlen, xor_bytes. rewrite length_imap. lia.
  - unfold xor_decrypt. by rewrite xor_bytes_twice.
Qed.
#[export] Program Instance none_aead : Aead := {|
  g_aead_encrypt := none_encrypt; g_aead_decrypt := none_decrypt; aead_overhead := 0 |}.
Next Obligation. done. Qed.
Next Obligation. intros key nonce aad pt. exists pt. split_and!; try done. lia. Qed.

(** *** XChaCha20-Poly1305 *)

Section Monocypher.
(** [lock key nonce aad pt] is the ciphertext and the 16-byte tag; [unlock] gives
    back the plaintext, or nothing when the tag does not verify. *)
Context (crypto_aead_lock : bytes -> bytes -> bytes -> bytes -> bytes * bytes)
        (crypto_aead_unlock : bytes -> bytes -> bytes -> bytes -> bytes -> option bytes).

Definition aead_encrypt : aead_fn := fun key nonce aad pt =>
  let '(c, mac) := crypto_aead_lock key nonce aad pt in Some (c ++ mac).
Definition aead_decrypt : aead_fn := fun key nonce aad ct =>
  if zlen ct <? 16 then None
  else
    let pt_len := Z.to_nat (zlen ct - 16) in
    crypto_aead_unlock key nonce aad (drop pt_len ct) (take pt_len ct).

(** The pair the connect tokens use. *)
Definition xchacha_encrypt : aead_fn := fun key nonce aad pt =>
  let '(c, mac) := crypto_aead_lock key nonce aad pt in Some (c ++ mac).
Definition xchacha_decrypt : aead_fn := fun key nonce aad ct =>
  if zlen ct <? 16 then None
  else
    let pt_len := Z.to_nat (zlen ct - 16) in
    crypto_aead_unlock key nonce aad (drop pt_len ct) (take pt_len ct).

(** Monocypher's documented behaviour. *)
Context (lock_len : forall key nonce aad pt,
           length (crypto_aead_lock key nonce aad pt).1 = length pt /\
           length (crypto_aead_lock key nonce aad pt).2 = 16%nat)
        (unlock_lock : forall key nonce aad pt,
           crypto_aead_unlock key nonce aad (crypto_aead_lock key nonce aad pt).2
             (crypto_aead_lock key nonce aad pt).1 = Some pt).

Lemma aead_encrypt_correct key nonce aad pt :
  exists ct, aead_encrypt key nonce aad pt = Some ct /\ zlen ct = zlen pt + 16 /\
    aead_decrypt key nonce aad ct = Some pt.
Proof.
  unfold aead_encrypt, aead_decrypt. destruct (lock_len key nonce aad pt) as [Hc Hm].
  pose proof (unlock_lock key nonce aad pt) as Hu.
  destruct (crypto_aead_lock key nonce aad pt) as [c mac]. cbn in *.
  exists (c ++ mac). split; [done|]. zlen_simpl. unfold zlen in *.
  split; [lia|]. rewrite (proj2 (Z.ltb_ge _ _)) by lia.
  replace (Z.to_nat _) with (length c) by lia.
  by rewrite drop_app_length, take_app_length.
Qed.
Lemma xchacha_encrypt_correct key nonce aad pt :
  exists ct, xchacha_encrypt key nonce aad pt = Some ct /\ zlen ct = zlen pt + 16 /\
    xchacha_decrypt key nonce aad ct = Some pt.
Proof. apply aead_encrypt_correct. Qed.
Program Definition chacha_aead : Aead := {|
  g_aead_encrypt := aead_encrypt; g_aead_decrypt := aead_decrypt; aead_overhead := 16 |}.
Next Obligation. done. Qed.
Next Obligation. apply aead_encrypt_correct. Qed.

(** [aead_dispatch_init]: [aesgcm] is what [try_select_aesgcm] installs, or
    [None] where it is not available. *)
Definition NETUDP_CRYPTO_NONE : Z := 0.
Definition NETUDP_CRYPTO_XOR : Z := 1.
Definition NETUDP_CRYPTO_AES_GCM : Z := 2.
Definition NETUDP_CRYPTO_AUTO : Z := 4.
Definition aead_dispatch_init (aesgcm : option Aead) (mode : Z) : Aead :=
  if mode =? NETUDP_CRYPTO_NONE then none_aead
  else if mode =? NETUDP_CRYPTO_AES_GCM then default chacha_aead aesgcm
  else if mode =? NETUDP_CRYPTO_AUTO then default chacha_aead aesgcm
  else if mode =? NETUDP_CRYPTO_XOR then xor_aead
  else chacha_aead.
End Monocypher.

(** ** Key epochs *)

Definition REKEY_NONCE_THRESHOLD : Z := 2 ^ 30.
Definition REKEY_BYTES_THRESHOLD : Z := 2 ^ 30.
Definition REKEY_EPOCH_SECONDS : double := d_of_Z 3600.
Definition REKEY_GRACE_PACKETS : Z := 256.
Definition PACKET_PREFIX_DATA_REKEY : Z := 12.

Record KeyEpoch : Type := mkEpoch {
  tx_key : bytes;
  rx_key : bytes;
  old_rx_key : bytes;
  tx_nonce_counter : Z;
  bytes_transmitted : Z;
  epoch_start_time : double;
  epoch_number : Z;
  grace_packets_remaining : Z;
  rekey_pending : bool;
  replay : Replay.ReplayProtection
}.
Definition zero_key : bytes := replicate 32 0.
(** [KeyEpoch{}]. *)
Definition epoch_zero : KeyEpoch :=
  mkEpoch zero_key zero_key zero_key 0 0 d0 0 0 false Replay.reset.

Definition build_nonce (counter : Z) : bytes := le_bytes 8 counter ++ replicate 16 0.
(** ["NETUDP 1.01\0"] with its terminator. *)
Definition NETUDP_VERSION_INFO : bytes := [78; 69; 84; 85; 68; 80; 32; 49; 46; 48; 49; 0; 0].
Definition build_aad (protocol_id prefix_byte : Z) : bytes :=
  NETUDP_VERSION_INFO ++ le_bytes 8 protocol_id ++ [prefix_byte].

Definition should_rekey (e : KeyEpoch) (current_time : double) : bool :=
  if REKEY_NONCE_THRESHOLD <=? tx_nonce_counter e then true
  else if REKEY_BYTES_THRESHOLD <=? bytes_transmitted e then true
  else dgt (epoch_start_time e) d0
       && dge (dsub current_time (epoch_start_time e)) REKEY_EPOCH_SECONDS.

Definition prepare_rekey (e : KeyEpoch) : KeyEpoch :=
  mkEpoch (tx_key e) (rx_key e) (rx_key e) (tx_nonce_counter e) (bytes_transmitted e)
    (epoch_start_time e) (epoch_number e) (grace_packets_remaining e) true (replay e).

Section Keyed.
(** [blake2b_keyed key msg] is the 32-byte keyed hash. *)
Context (blake2b_keyed : bytes -> bytes -> bytes).

Definition kRekeyLabel : bytes := [110; 101; 116; 117; 100; 112; 45; 114; 101; 107; 101; 121].
Definition derive_key (old_key : bytes) (epoch_number : Z) : bytes :=
  blake2b_keyed old_key (kRekeyLabel ++ le_bytes 4 epoch_number).

Definition activate_rekey (e : KeyEpoch) (current_time : double) : KeyEpoch :=
  let next_epoch := u32 (epoch_number e + 1) in
  mkEpoch (derive_key (tx_key e) next_epoch) (derive_key (rx_key e) next_epoch) (old_rx_key e)
    0 0 current_time next_epoch REKEY_GRACE_PACKETS false Replay.reset.

Definition on_receive_rekey (e : KeyEpoch) (current_time : double) : KeyEpoch :=
  activate_rekey
    (mkEpoch (tx_key e) (rx_key e) (rx_key e) (tx_nonce_counter e) (bytes_transmitted e)
       (epoch_start_time e) (epoch_number e) (grace_packets_remaining e) (rekey_pending e)
       (replay e)) current_time.
End Keyed.

Definition set_grace (e : KeyEpoch) (old : bytes) (n : Z) : KeyEpoch :=
  mkEpoch (tx_key e) (rx_key e) old (tx_nonce_counter e) (bytes_transmitted e)
    (epoch_start_time e) (epoch_number e) n (rekey_pending e) (replay e).
Definition set_replay (e : KeyEpoch) (r : Replay.ReplayProtection) : KeyEpoch :=
  mkEpoch (tx_key e) (rx_key e) (old_rx_key e) (tx_nonce_counter e) (bytes_transmitted e)
    (epoch_start_time e) (epoch_number e) (grace_packets_remaining e) (rekey_pending e) r.
Definition count_tx (e : KeyEpoch) (n : Z) : KeyEpoch :=
  mkEpoch (tx_key e) (rx_key e) (old_rx_key e) (u64 (tx_nonce_counter e + 1))
    (u64 (bytes_transmitted e + n)) (epoch_start_time e) (epoch_number e)
    (grace_packets_remaining e) (rekey_pending e) (replay e).

(** ** Packets *)

Section Packets.
Context `{Aead}.

Definition packet_encrypt (e : KeyEpoch) (protocol_id prefix_byte : Z) (pt : bytes)
    : option bytes * KeyEpoch :=
  let nonce := build_nonce (tx_nonce_counter e) in
  let aad := build_aad protocol_id prefix_byte in
  match g_aead_encrypt (tx_key e) nonce aad pt with
  | None => (None, e)
  | Some ct => (Some ct, count_tx e (zlen pt))
  end.

Definition packet_decrypt (e : KeyEpoch) (protocol_id prefix_byte nonce_counter : Z)
    (ct : bytes) : option bytes * KeyEpoch :=
  if zlen ct <? 1 then (None, e)
  else if Replay.is_duplicate (replay e) nonce_counter then (None, e)
  else
    let nonce := build_nonce nonce_counter in
    let aad := build_aad protocol_id prefix_byte in
    match g_aead_decrypt (rx_key e) nonce aad ct with
    | None => (None, e)
    | Some pt => (Some pt, set_replay e (Replay.advance (replay e) nonce_counter))
    end.

Definition packet_decrypt_grace (e : KeyEpoch) (protocol_id prefix_byte nonce_counter : Z)
    (ct : bytes) : option bytes * KeyEpoch :=
  if zlen ct <? 1 then (None, e)
  else if grace_packets_remaining e <=? 0 then (None, e)
  else
    let nonce := build_nonce nonce_counter in
    let aad := build_aad protocol_id prefix_byte in
    match g_aead_decrypt (old_rx_key e) nonce aad ct with
    | None => (None, e)
    | Some pt =>
        let n := grace_packets_remaining e - 1 in
        (Some pt, set_grace e (if n =? 0 then zero_key else old_rx_key e) n)
    end.

(** The counter the server expects next (no counter travels with a packet). *)
Definition expected_nonce (e : KeyEpoch) : Z :=
  let r := replay e in
  if (Replay.most_recent r =? 0) && ((Replay.received r).[0] =? Replay.EMPTY_SLOT) then 0
  else u64 (Replay.most_recent r + 1).

Context (blake2b_keyed : bytes -> bytes -> bytes).

(** Sending one payload with the rekey protocol of [server_send_pending]: the
    packet that announces the new keys is still encrypted under the old one. *)
Definition send_data (e : KeyEpoch) (protocol_id : Z) (pt : bytes) (now : double)
    : option (Z * bytes) * KeyEpoch :=
  let e := if should_rekey e now && negb (rekey_pending e) then prepare_rekey e else e in
  let prefix := if rekey_pending e then PACKET_PREFIX_DATA_REKEY else 20 in
  let '(ct, e') := packet_encrypt e protocol_id prefix pt in
  match ct with
  | None => (None, e')
  | Some ct => (Some (prefix, ct),
                if rekey_pending e' then activate_rekey blake2b_keyed e' now else e')
  end.

(** Receiving one packet as [server_handle_data_packet] does, up to the parsing of
    the payload. *)
Definition receive_data (e : KeyEpoch) (protocol_id prefix : Z) (ct : bytes) (now : double)
    : option bytes * KeyEpoch :=
  let n := expected_nonce e in
  let '(pt, e1) := packet_decrypt e protocol_id prefix n ct in
  let '(pt, e2) := match pt with
                   | Some _ => (pt, e1)
                   | None => packet_decrypt_grace e1 protocol_id prefix n ct
                   end in
  match pt with
  | None => (None, e2)
  | Some _ => (pt, if prefix =? PACKET_PREFIX_DATA_REKEY
                   then on_receive_rekey blake2b_keyed e2 now else e2)
  end.

(** Receiving one packet as [client_handle_data_packet] does: neither the grace window
    nor the announcement of new keys is looked at. *)
Definition client_receive (e : KeyEpoch) (protocol_id prefix : Z) (ct : bytes)
    : option bytes * KeyEpoch :=
  let expected := u64 (Replay.most_recent (replay e) + 1) in
  packet_decrypt e protocol_id prefix expected ct.

(** * Sides in step *)

(** The receiving side [b] follows the sending side [a]: same keys, same epoch,
    and it has accepted counters 0..n-1. *)
Definition in_step (a b : KeyEpoch) : Prop :=
  tx_key a = rx_key b /\ rx_key a = tx_key b /\ epoch_number a = epoch_number b /\
  rekey_pending a = false /\ 0 <= tx_nonce_counter a < 2 ^ 63 /\
  Replay.inv (replay b) (rev (seqZ 0 (tx_nonce_counter a))) /\ expected_nonce b = tx_nonce_counter a.

Lemma foldr_max_seqZ n : 0 < n -> foldr Z.max 0 (rev (seqZ 0 n)) = n - 1.
Proof.
  intros Hn. replace n with ((n - 1) + 1) at 1 by lia. rewrite seqZ_snoc by lia.
  rewrite rev_app_distr. cbn [rev app foldr]. rewrite Z.add_0_l.
  assert (forall k l, 0 <= k -> (forall x, x ∈ l -> x <= k) -> Z.max k (foldr Z.max 0 l) = k) as Hm.
  { intros k l Hk. induction l as [|x l IH]; intros Hl; cbn; [lia|].
    pose proof (Hl x ltac:(left)). rewrite Z.max_assoc, (Z.max_l k x) by lia.
    apply IH. intros y Hy. apply Hl. by right. }
  apply Hm; [lia|]. intros x Hx. apply list_elem_of_In in Hx. rewrite <- in_rev in Hx.
  apply list_elem_of_In, elem_of_seqZ in Hx. lia.
Qed.

Lemma fresh_nonce rp n :
  Replay.inv rp (rev (seqZ 0 n)) -> 0 <= n < 2 ^ 63 -> Replay.is_duplicate rp n = false.
Proof.
  intros Hinv Hn. rewrite (Replay.is_duplicate_ref rp _ n Hinv)
    by (unfold Replay.WINDOW_SIZE; lia).
  apply negb_false_iff. unfold Replay.ref_ok. apply andb_true_iff. split.
  - apply negb_true_iff, bool_decide_false. intros Hin. apply list_elem_of_In in Hin.
    rewrite <- in_rev in Hin. apply list_elem_of_In, elem_of_seqZ in Hin. lia.
  - destruct (decide (n = 0)) as [->|Hne]; [done|]. rewrite foldr_max_seqZ by lia.
    apply orb_true_iff. right. apply Z.ltb_lt. unfold Replay.WINDOW_SIZE. lia.
Qed.

Lemma expected_after (e : KeyEpoch) n :
  Replay.inv (replay e) (rev (seqZ 0 n)) -> 0 <= n < 2 ^ 63 ->
  (n = 0 -> replay e = Replay.reset) ->
  (n = 1 -> (Replay.received (replay e)).[0] = 0) -> expected_nonce e = n.
Proof.
  intros Hinv Hn H0 H1. unfold expected_nonce. destruct (decide (n = 0)) as [->|Hne].
  { by rewrite H0. }
  rewrite (Replay.inv_top _ _ Hinv), foldr_max_seqZ by lia.
  destruct (decide (n = 1)) as [->|Hn1].
  - rewrite H1 by done. done.
  - rewrite (proj2 (Z.eqb_neq (n - 1) 0)) by lia. cbn [andb].
    replace (n - 1 + 1) with n by lia. unfold u64. rewrite Z.mod_small; lia.
Qed.

Lemma seqZ_rev_snoc n : 0 <= n -> rev (seqZ 0 (n + 1)) = n :: rev (seqZ 0 n).
Proof. intros. rewrite seqZ_snoc, rev_app_distr by lia. cbn. by rewrite Z.add_0_l. Qed.

End Packets.

(** One packet without a key change: what [packet_encrypt] makes under a prefix
    other than the rekey announcement, the follower decrypts. *)
Lemma packet_step_at `{Aead} blake a b pid prefix pt now :
  in_step a b -> 1 <= zlen pt -> prefix <> PACKET_PREFIX_DATA_REKEY ->
  exists ct r, let b' := set_replay b r in
    packet_encrypt a pid prefix pt = (Some ct, count_tx a (zlen pt)) /\
    1 <= zlen ct <= zlen pt + aead_overhead /\
    packet_decrypt b pid prefix (tx_nonce_counter a) ct = (Some pt, b') /\
    receive_data blake b pid prefix ct now = (Some pt, b') /\
    (tx_nonce_counter a + 1 < 2 ^ 63 -> in_step (count_tx a (zlen pt)) b').
Proof.
  intros (Hk & Hk' & He & Hp & Hn & Hinv & Hexp) Hlen Hpre. unfold packet_encrypt.
  destruct (aead_correct (tx_key a) (build_nonce (tx_nonce_counter a)) (build_aad pid prefix) pt)
    as (ct & -> & Hl & Hd). pose proof aead_overhead_nonneg.
  assert (packet_decrypt b pid prefix (tx_nonce_counter a) ct
    = (Some pt, set_replay b (Replay.advance (replay b) (tx_nonce_counter a)))) as Edec.
  { unfold packet_decrypt. rewrite (proj2 (Z.ltb_ge _ _)) by lia. rewrite (fresh_nonce _ _ Hinv Hn).
    by rewrite <- Hk, Hd. }
  exists ct. eexists. cbv zeta. split; [done|]. split; [lia|]. split; [exact Edec|]. split.
  - unfold receive_data. rewrite Hexp, Edec. by rewrite (proj2 (Z.eqb_neq _ _)).
  - intros Hlt. unfold in_step. cbn. rewrite u64_small by (unfold is_u64; lia).
    assert (Replay.inv (Replay.advance (replay b) (tx_nonce_counter a))
      (rev (seqZ 0 (tx_nonce_counter a + 1)))) as Hinv'.
    { rewrite seqZ_rev_snoc by lia. apply Replay.inv_advance; [done|unfold is_u64; lia|].
      by apply fresh_nonce. }
    split_and!; try done; try lia. apply expected_after; cbn; try done; try lia.
    intros H1. assert (tx_nonce_counter a = 0) as -> by lia.
    rewrite Zmod_0_l. apply aget_aset_eq. rewrite (Replay.inv_len _ _ Hinv). done.
Qed.

Lemma packet_step `{Aead} blake a b pid prefix pt now :
  in_step a b -> 1 <= zlen pt -> prefix <> PACKET_PREFIX_DATA_REKEY ->
  exists ct b', packet_encrypt a pid prefix pt = (Some ct, count_tx a (zlen pt)) /\
    1 <= zlen ct <= zlen pt + aead_overhead /\
    packet_decrypt b pid prefix (tx_nonce_counter a) ct = (Some pt, b') /\
    receive_data blake b pid prefix ct now = (Some pt, b') /\
    (tx_nonce_counter a + 1 < 2 ^ 63 -> in_step (count_tx a (zlen pt)) b').
Proof.
  intros Hs Hp Hpre. destruct (packet_step_at blake a b pid prefix pt now Hs Hp Hpre) as (ct & r & Hall).
  by exists ct, (set_replay b r).
Qed.

(** * Sessions *)

(** The two ends of a connection.  The client sends data and keepalives under its prefix;
    the server sends data, with its key changes, and keepalives. *)
Record ends : Type := mkEnds { client_end : KeyEpoch; server_end : KeyEpoch }.
Inductive transfer : Type :=
  | FromClient (prefix : Z) (pt : bytes)
  | FromServer (pt : bytes)
  | ServerKeepalive (pt : bytes).
Definition payload (m : transfer) : bytes :=
  match m with FromClient _ pt | FromServer pt | ServerKeepalive pt => pt end.

Section Session.
Context `{Aead} (blake : bytes -> bytes -> bytes) (pid : Z).

(** One packet is sent and received; the result is what the receiver decrypts. *)
Definition exchange (x : ends) (m : transfer) (now : double) : option bytes * ends :=
  match m with
  | FromClient prefix pt =>
      let '(ct, c) := packet_encrypt (client_end x) pid prefix pt in
      match ct with
      | None => (None, mkEnds c (server_end x))
      | Some ct => let '(r, sv) := receive_data blake (server_end x) pid prefix ct now in (r, mkEnds c sv)
      end
  | FromServer pt =>
      let '(p, sv) := send_data blake (server_end x) pid pt now in
      match p with
      | None => (None, mkEnds (client_end x) sv)
      | Some (prefix, ct) => let '(r, c) := client_receive (client_end x) pid prefix ct in (r, mkEnds c sv)
      end
  | ServerKeepalive pt =>
      let '(ct, sv) := packet_encrypt (server_end x) pid 21 pt in
      match ct with
      | None => (None, mkEnds (client_end x) sv)
      | Some ct => let '(r, c) := client_receive (client_end x) pid 21 ct in (r, mkEnds c sv)
      end
  end.
Fixpoint session (x : ends) (l : list (transfer * double)) : list (option bytes) * ends :=
  match l with
  | [] => ([], x)
  | (m, now) :: l => let '(r, x) := exchange x m now in let '(rs, x) := session x l in (r :: rs, x)
  end.

(** In step both ways, past the packet that accepted the client, and no key change due
    for [n] more packets and [k] more bytes. *)
Record joined (n k : Z) (x : ends) : Prop := {
  jo_up : in_step (client_end x) (server_end x);
  jo_down : in_step (server_end x) (client_end x);
  jo_accepted : 1 <= tx_nonce_counter (server_end x);
  jo_client : tx_nonce_counter (client_end x) + n < 2 ^ 63;
  jo_packets : tx_nonce_counter (server_end x) + n < REKEY_NONCE_THRESHOLD;
  jo_bytes : 0 <= bytes_transmitted (server_end x) /\
    bytes_transmitted (server_end x) + k < REKEY_BYTES_THRESHOLD;
  jo_epoch : dgt (epoch_start_time (server_end x)) d0 = false }.

Lemma client_expects a b : in_step a b -> 1 <= tx_nonce_counter a ->
  u64 (Replay.most_recent (replay b) + 1) = tx_nonce_counter a.
Proof.
  intros (_ & _ & _ & _ & _ & _ & He) H1. unfold expected_nonce in He. case_if_in He; [lia|done].
Qed.
Lemma in_step_back a b r n : in_step a b -> in_step (set_replay a r) (count_tx b n).
Proof. by intros (H1 & H2 & H3 & H4 & H5 & H6 & H7). Qed.

(** The client receives what the server encrypts under a prefix other than the
    announcement. *)
Lemma down_step n k x prefix pt :
  joined (n + 1) (k + zlen pt) x -> 0 <= n -> 0 <= k -> 1 <= zlen pt -> prefix <> PACKET_PREFIX_DATA_REKEY ->
  exists ct c, packet_encrypt (server_end x) pid prefix pt = (Some ct, count_tx (server_end x) (zlen pt)) /\
    client_receive (client_end x) pid prefix ct = (Some pt, c) /\
    joined n k (mkEnds c (count_tx (server_end x) (zlen pt))).
Proof.
  intros [J1 J2 J3 J4 J5 [J6 J6'] J7] Hn Hk Hp Hpre. unfold REKEY_NONCE_THRESHOLD, REKEY_BYTES_THRESHOLD in *.
  destruct (packet_step_at blake _ _ pid prefix pt d0 J2 Hp Hpre) as (ct & r & E1 & _ & E2 & _ & Hin).
  exists ct, (set_replay (client_end x) r). split; [done|].
  unfold client_receive. rewrite (client_expects _ _ J2 J3). split; [done|].
  split; cbn [client_end server_end] in *; [by apply in_step_back|apply Hin; lia|..]; cbn; try done;
    unfold REKEY_NONCE_THRESHOLD, REKEY_BYTES_THRESHOLD; rewrite ?u64_small by (unfold is_u64; lia); lia.
Qed.
Lemma no_rekey_due n k x now : joined n k x -> 0 <= n -> 0 <= k -> should_rekey (server_end x) now = false.
Proof.
  intros [_ _ _ _ J5 [_ J6] J7] Hn Hk. unfold should_rekey.
  rewrite (proj2 (Z.leb_gt _ _)), (proj2 (Z.leb_gt _ _)), J7 by lia. done.
Qed.

Definition transfer_ok (m : transfer) : Prop :=
  1 <= zlen (payload m) /\
  match m with FromClient prefix _ => prefix <> PACKET_PREFIX_DATA_REKEY | _ => True end.

Lemma exchange_intact n k x m now :
  joined (n + 1) (k + zlen (payload m)) x -> 0 <= n -> 0 <= k -> transfer_ok m ->
  exists x', exchange x m now = (Some (payload m), x') /\ joined n k x'.
Proof.
  intros J Hn Hk [Hp Hpre]. destruct m as [prefix pt|pt|pt]; cbn [payload exchange] in *.
  - pose proof J as [J1 J2 J3 J4 J5 [J6 J6'] J7].
    destruct (packet_step_at blake _ _ pid prefix pt now J1 Hp Hpre) as (ct & r & -> & _ & _ & -> & Hin).
    eexists. split; [done|].
    split; cbn [client_end server_end] in *; [apply Hin; lia|by apply in_step_back|..]; try done;
      unfold REKEY_NONCE_THRESHOLD, REKEY_BYTES_THRESHOLD in *; cbn;
      destruct J1 as (_ & _ & _ & _ & Hc & _); rewrite ?u64_small by (unfold is_u64; lia); lia.
  - destruct (down_step n k x 20 pt J Hn Hk Hp ltac:(done)) as (ct & c & E1 & E2 & J').
    pose proof (no_rekey_due _ _ x now J ltac:(lia) ltac:(lia)) as Hre.
    pose proof (jo_down _ _ _ J) as (_ & _ & _ & Hpend & _).
    unfold send_data. rewrite Hre. cbn [andb]. rewrite Hpend, E1. cbn [rekey_pending count_tx].
    rewrite Hpend, E2. by eexists.
  - destruct (down_step n k x 21 pt J Hn Hk Hp ltac:(done)) as (ct & c & -> & -> & J'). by eexists.
Qed.

Definition total_bytes (l : list (transfer * double)) : Z := sumZ ((fun p => zlen (payload p.1)) <$> l).
Lemma total_bytes_nonneg l : 0 <= total_bytes l.
Proof.
  induction l as [|p l IH]; [done|]. unfold total_bytes in *. rewrite fmap_cons. cbn [sumZ].
  pose proof (zlen_nonneg (payload p.1)). lia.
Qed.
End Session.

(** C7.  A session between the client and the server arrives intact in both directions:
    with the keys and counters the handshake leaves, every payload either side sends (data
    and keepalives, in any order) is decrypted by the other side's own receive path to
    itself, packet by packet, and the ends stay in step, for every AEAD that meets the
    interface.  Packets arrive in the order they are sent and none is lost
    ([lost_packet_desynchronises]), and the session ends before the server's first key
    change (less than 2^30 packets and bytes from the server, in the first epoch, whose
    age is not looked at), which the client does not follow ([rekey_not_followed]). *)
Theorem session_intact `{Aead} blake pid x l :
  joined (zlen l) (total_bytes l) x -> Forall (fun p => transfer_ok p.1) l ->
  exists x', session blake pid x l = ((fun p => Some (payload p.1)) <$> l, x') /\ joined 0 0 x'.
Proof.
  intros J Hl. revert x J.
  induction Hl as [|[m now] l Hm _ IH]; intros x J; cbn [session]; [by exists x|].
  pose proof (zlen_nonneg l). pose proof (total_bytes_nonneg l).
  destruct (exchange_intact blake pid (zlen l) (total_bytes l) x m now) as (x1 & -> & J1); try done.
  { rewrite Z.add_comm, <- zlen_cons with (x := (m, now)), Z.add_comm. exact J. }
  destruct (IH x1 J1) as (x2 & -> & J2). by exists x2.
Qed.

(** An authenticated toy cipher: the tag is made of the first bytes of key and nonce. *)
Definition key_tag (key nonce : bytes) : Z := default 0 (head key) + 256 * default 0 (head nonce).
#[program] Definition tagged_aead : Aead := {|
  g_aead_encrypt := fun key nonce aad pt => Some (key_tag key nonce :: pt);
  g_aead_decrypt := fun key nonce aad ct =>
    match ct with t :: pt => if t =? key_tag key nonce then Some pt else None | [] => None end;
  aead_overhead := 1 |}.
Next Obligation. done. Qed.
Next Obligation.
  intros key nonce aad pt. eexists. split; [done|]. split; [by rewrite zlen_cons, Z.add_comm|].
  cbn. by rewrite Z.eqb_refl.
Qed.
(** A toy hash under which every key differs from the one before. *)
Definition demo_blake (key msg : bytes) : bytes := (default 0 (head key) + 16) :: drop 1 key.

Definition demo_epoch (tx rx : Z) : KeyEpoch :=
  mkEpoch (replicate 32 tx) (replicate 32 rx) zero_key 0 0 d0 0 0 false Replay.reset.
(** The ends after the accepting keepalive, which used counter 0 of the server; [n] of the
    server's packets were sent before. *)
Definition demo_ends (n : Z) : ends :=
  let sv := demo_epoch 2 1 in
  mkEnds (set_replay (demo_epoch 1 2) (Replay.advance Replay.reset 0))
    (mkEpoch (tx_key sv) (rx_key sv) (old_rx_key sv) 1 n (epoch_start_time sv) 0 0 false (replay sv)).
Definition demo_session : list (transfer * double) :=
  [(FromServer [7; 8], d0); (FromClient 20 [5; 6], d0); (ServerKeepalive [0], d0);
   (FromClient 21 [9], d0); (FromServer [1], d0)].
Lemma session_intact_witness :
  exists x', session (H := tagged_aead) demo_blake 7 (demo_ends 0) demo_session
    = ([Some [7; 8]; Some [5; 6]; Some [0]; Some [9]; Some [1]], x') /\ joined 0 0 x'.
Proof.
  apply (session_intact (H := tagged_aead) demo_blake 7 (demo_ends 0) demo_session).
  - split; try (vm_compute; done).
    + split_and!; try (vm_compute; done). apply Replay.inv_reset.
    + split_and!; try (vm_compute; done).
      apply (Replay.inv_advance Replay.reset [] 0); [apply Replay.inv_reset|by vm_compute|reflexivity].
  - repeat constructor; by vm_compute.
Defined.

(** The server's key change: the client decrypts the announcement and keeps its keys, so
    the server's next packets are under a key the client does not have. *)
Lemma rekey_not_followed `{Aead} blake pid x pt now :
  in_step (server_end x) (client_end x) -> 1 <= tx_nonce_counter (server_end x) -> 1 <= zlen pt ->
  should_rekey (server_end x) now = true ->
  let '(r, x') := exchange blake pid x (FromServer pt) now in
  r = Some pt /\ tx_key (server_end x') = derive_key blake (tx_key (server_end x)) (u32 (epoch_number (server_end x) + 1)) /\
  rx_key (client_end x') = tx_key (server_end x) /\ tx_nonce_counter (server_end x') = 0.
Proof.
  intros Hin H1 Hp Hre. pose proof Hin as (Hk & Hk' & He & Hpend & Hn & Hinv & Hexp).
  unfold exchange, send_data. rewrite Hre, Hpend. cbn [negb andb]. unfold packet_encrypt. cbn [rekey_pending prepare_rekey].
  destruct (aead_correct (tx_key (server_end x)) (build_nonce (tx_nonce_counter (server_end x)))
    (build_aad pid PACKET_PREFIX_DATA_REKEY) pt) as (ct & Ec & Hl & Hd). cbn [tx_key tx_nonce_counter prepare_rekey].
  rewrite Ec. cbn [rekey_pending count_tx prepare_rekey]. unfold client_receive.
  rewrite (client_expects _ _ Hin H1). unfold packet_decrypt. pose proof aead_overhead_nonneg.
  rewrite (proj2 (Z.ltb_ge _ _)), (fresh_nonce _ _ Hinv Hn), <- Hk, Hd by lia. done.
Qed.
(** With the toy cipher: when 2^30 bytes were sent the announcement still arrives, and
    after it no packet in either direction but the client's first, which has the counter
    the server starts again with and the key of its grace window. *)
Lemma session_dies_after_rekey :
  fst (session (H := tagged_aead) demo_blake 7 (demo_ends (2 ^ 30)) demo_session)
  = [Some [7; 8]; Some [5; 6]; None; None; None].
Proof. by vm_compute. Qed.

(** * Nonces *)

(** Everything an end does with its keys: the server's data, a packet under a fixed prefix
    (the client's data, keepalives, the accepting packet), and arrivals at either side. *)
Inductive key_op : Type :=
  | SendData (pt : bytes) (now : double)
  | SendPlain (prefix : Z) (pt : bytes)
  | ServerArrival (prefix : Z) (ct : bytes) (now : double)
  | ClientArrival (prefix : Z) (ct : bytes).

Section Nonces.
Context `{Aead} (blake : bytes -> bytes -> bytes) (pid : Z).

(** The ciphertexts an operation sends, and the keys after it. *)
Definition key_step (e : KeyEpoch) (o : key_op) : list bytes * KeyEpoch :=
  match o with
  | SendData pt now => let '(p, e) := send_data blake e pid pt now in (option_list (snd <$> p), e)
  | SendPlain prefix pt => let '(ct, e) := packet_encrypt e pid prefix pt in (option_list ct, e)
  | ServerArrival prefix ct now => ([], snd (receive_data blake e pid prefix ct now))
  | ClientArrival prefix ct => ([], snd (client_receive e pid prefix ct))
  end.
Fixpoint key_run (e : KeyEpoch) (l : list key_op) : list bytes * KeyEpoch :=
  match l with
  | [] => ([], e)
  | o :: l => let '(cts, e) := key_step e o in let '(rest, e) := key_run e l in (cts ++ rest, e)
  end.
Definition key_payload (o : key_op) : list bytes :=
  match o with SendData pt _ | SendPlain _ pt => [pt] | _ => [] end.

(** The keys that [n] key changes lead through. *)
Fixpoint key_chain (key : bytes) (epoch : Z) (n : nat) : list bytes :=
  match n with
  | O => [key]
  | S n => key :: key_chain (derive_key blake key (u32 (epoch + 1))) (u32 (epoch + 1)) n
  end.

(** A call of the cipher: key, nonce, associated data and plaintext. *)
Record cipher_call : Type := mkCall { c_key : bytes; c_nonce : bytes; c_aad : bytes; c_pt : bytes }.
Definition run_call (c : cipher_call) : option bytes := g_aead_encrypt (c_key c) (c_nonce c) (c_aad c) (c_pt c).

Lemma build_nonce_inj n m :
  0 <= n < 2 ^ 64 -> 0 <= m < 2 ^ 64 -> build_nonce n = build_nonce m -> n = m.
Proof.
  intros Hn Hm E. unfold build_nonce in E. apply app_inj_1 in E as [E _];
    [|by rewrite !length_le_bytes]. by apply le_bytes_inj in E.
Qed.

(** An operation leaves the key and moves the counter past what it used, or goes on to
    the next key. *)
Definition moved (e e' : KeyEpoch) (used : Z) : Prop :=
  (tx_key e' = tx_key e /\ epoch_number e' = epoch_number e /\
     tx_nonce_counter e' = tx_nonce_counter e + used) \/
  (tx_key e' = derive_key blake (tx_key e) (u32 (epoch_number e + 1)) /\
   epoch_number e' = u32 (epoch_number e + 1) /\ tx_nonce_counter e' = 0).

Lemma packet_decrypt_moved e prefix n ct : moved e (snd (packet_decrypt e pid prefix n ct)) 0.
Proof. left. unfold packet_decrypt. repeat case_match; cbn; split_and!; done || lia. Qed.
Lemma receive_data_moved e prefix ct now : moved e (snd (receive_data blake e pid prefix ct now)) 0.
Proof.
  unfold receive_data. destruct (packet_decrypt e pid prefix (expected_nonce e) ct) as [pt e1] eqn:E1.
  pose proof (packet_decrypt_moved e prefix (expected_nonce e) ct) as M. rewrite E1 in M. cbn [snd] in M.
  assert (tx_key e1 = tx_key e /\ epoch_number e1 = epoch_number e /\ tx_nonce_counter e1 = tx_nonce_counter e)
    as (K1 & K2 & K3).
  { unfold packet_decrypt in E1. repeat case_match; by injection E1 as _ <-. }
  set (g := match pt with Some _ => _ | None => _ end).
  assert (tx_key (snd g) = tx_key e /\ epoch_number (snd g) = epoch_number e /\
    tx_nonce_counter (snd g) = tx_nonce_counter e) as (G1 & G2 & G3).
  { unfold g, packet_decrypt_grace. destruct pt; [done|]. repeat case_match; done. }
  destruct g as [[p|] e2]; cbn [snd] in *; [|left; split_and!; done || lia].
  case_if; cbn [snd]; [right|left; split_and!; done || lia].
  unfold on_receive_rekey, activate_rekey. cbn. by rewrite G1, G2.
Qed.
(** A sending operation is one call under the present key and counter. *)
Definition call_at (e : KeyEpoch) (c : cipher_call) : Prop :=
  c_key c = tx_key e /\ c_nonce c = build_nonce (tx_nonce_counter e).
Lemma key_step_spec e o :
  0 <= tx_nonce_counter e < 2 ^ 64 - 1 ->
  exists calls, Some <$> (key_step e o).1 = run_call <$> calls /\ c_pt <$> calls = key_payload o /\
    Forall (call_at e) calls /\ moved e (key_step e o).2 (zlen calls).
Proof.
  intros Hn. destruct o as [pt now|prefix pt|prefix ct now|prefix ct]; cbn [key_step key_payload].
  - unfold send_data. set (e1 := if _ && _ then _ else _).
    assert (tx_nonce_counter e1 = tx_nonce_counter e /\ epoch_number e1 = epoch_number e /\ tx_key e1 = tx_key e)
      as (E1 & E2 & E3) by (unfold e1; by destruct (should_rekey e now && negb (rekey_pending e))).
    set (pre := if rekey_pending e1 then _ else _). unfold packet_encrypt.
    destruct (aead_correct (tx_key e1) (build_nonce (tx_nonce_counter e1)) (build_aad pid pre) pt) as (ct & Ec & _).
    rewrite Ec. exists [mkCall (tx_key e1) (build_nonce (tx_nonce_counter e1)) (build_aad pid pre) pt].
    cbn [fst snd fmap option_fmap option_map option_list list_fmap]. unfold run_call. cbn [c_key c_nonce c_aad c_pt].
    rewrite Ec. split; [done|]. split; [done|]. split; [by repeat constructor; cbn; rewrite ?E1, ?E3|].
    change (zlen [_]) with 1. clearbody e1. unfold moved. destruct (rekey_pending e1) eqn:Ep; cbn; rewrite Ep; cbn; rewrite ?E1, ?E2, ?E3; [by right|].
    left. rewrite u64_small by (unfold is_u64; lia). done.
  - unfold packet_encrypt.
    destruct (aead_correct (tx_key e) (build_nonce (tx_nonce_counter e)) (build_aad pid prefix) pt) as (ct & Ec & _).
    rewrite Ec. exists [mkCall (tx_key e) (build_nonce (tx_nonce_counter e)) (build_aad pid prefix) pt].
    cbn [fst snd option_list fmap list_fmap]. unfold run_call. cbn [c_key c_nonce c_aad c_pt]. rewrite Ec.
    split; [done|]. split; [done|]. split; [by repeat constructor|]. left. change (zlen [_]) with 1. cbn.
    rewrite u64_small by (unfold is_u64; lia). done.
  - exists []. split_and!; [done..|]. apply receive_data_moved.
  - exists []. split_and!; [done..|]. apply packet_decrypt_moved.
Qed.

(** The calls of a run are under keys of the chain, and under the first key from the
    present counter on. *)
Definition call_from (e : KeyEpoch) (n : nat) (c : cipher_call) : Prop :=
  exists m, c_nonce c = build_nonce m /\ 0 <= m < 2 ^ 64 /\ c_key c ∈ key_chain (tx_key e) (epoch_number e) n /\
    (c_key c = tx_key e -> tx_nonce_counter e <= m).
Lemma key_chain_head key epoch n : key ∈ key_chain key epoch n.
Proof. destruct n; cbn [key_chain]; by left. Qed.
Lemma key_chain_snoc n : forall key epoch, exists k, key_chain key epoch (S n) = key_chain key epoch n ++ [k].
Proof.
  induction n as [|n IH]; intros key epoch; [by eexists|].
  destruct (IH (derive_key blake key (u32 (epoch + 1))) (u32 (epoch + 1))) as (k & E).
  exists k. change (key_chain key epoch (S (S n))) with
    (key :: key_chain (derive_key blake key (u32 (epoch + 1))) (u32 (epoch + 1)) (S n)). by rewrite E.
Qed.
Lemma key_run_calls l : forall e,
  0 <= tx_nonce_counter e -> tx_nonce_counter e + zlen l < 2 ^ 64 ->
  NoDup (key_chain (tx_key e) (epoch_number e) (length l)) ->
  exists calls, Some <$> (key_run e l).1 = run_call <$> calls /\ c_pt <$> calls = concat (key_payload <$> l) /\
    NoDup ((fun c => (c_key c, c_nonce c)) <$> calls) /\ Forall (call_from e (length l)) calls.
Proof.
  induction l as [|o l IH]; intros e Hn Hl Hd; cbn [key_run length].
  { exists []. split_and!; [done|done|constructor|constructor]. }
  zlen_simpl. pose proof (zlen_nonneg l).
  destruct (key_step_spec e o ltac:(lia)) as (c1 & Es & Ep & Hc & Hm).
  destruct (key_step e o) as [cts e1]. cbn [fst snd] in *.
  assert (c1 = [] \/ exists c, c1 = [c]) as Hc1.
  { destruct c1 as [|c [|c' c1]]; [by left|right; by exists c|]. by destruct o. }
  assert (0 <= zlen c1 <= 1) as Hz by (destruct Hc1 as [->|[c ->]]; unfold zlen; cbn [length]; lia).
  assert (0 <= tx_nonce_counter e1 <= tx_nonce_counter e + zlen c1) as Hn1 by (destruct Hm as [(_ & _ & ->)|(_ & _ & ->)]; lia).
  assert (forall c, c ∈ c1 -> call_at e c) as Hat by (by apply list.Forall_forall).
  assert (NoDup (key_chain (tx_key e1) (epoch_number e1) (length l)) /\
    (forall c, call_from e1 (length l) c -> call_from e (S (length l)) c) /\
    (forall c c', c ∈ c1 -> call_from e1 (length l) c' -> (c_key c, c_nonce c) <> (c_key c', c_nonce c'))) as (Hd1 & Hup & Hne).
  { destruct Hm as [(K1 & K2 & K3)|(K1 & K2 & K3)].
    - rewrite K1, K2. destruct (key_chain_snoc (length l) (tx_key e) (epoch_number e)) as (k & Ek).
      change (length (o :: l)) with (S (length l)) in Hd. rewrite Ek in Hd. split; [by apply list.NoDup_app in Hd as [? _]|]. split.
      + intros c (m & Em & Hm & Hin & Hfirst). exists m. rewrite K1, K2, K3 in *. split_and!; [done|lia|lia| |].
        * rewrite Ek. apply elem_of_app. by left.
        * intros Hk. specialize (Hfirst Hk). lia.
      + intros c c' Hin (m & Em & Hm & _ & Hfirst). destruct (Hat c Hin) as [A1 A2]. intros [= B1 B2].
        rewrite K1, K3 in Hfirst. rewrite A1 in B1. rewrite A2, Em in B2. apply build_nonce_inj in B2; [|lia|lia].
        specialize (Hfirst (eq_sym B1)). destruct Hc1 as [->|[? ->]]; [by apply elem_of_nil in Hin|]. change (zlen [_]) with 1 in *. lia.
    - cbn [key_chain] in Hd. apply list.NoDup_cons in Hd as [Hk Hd]. rewrite K1, K2. split; [done|]. split.
      + intros c (m & Em & Hm & Hin & _). exists m. rewrite K1, K2 in Hin. split_and!; [done|lia|lia|by right|].
        intros E. exfalso. apply Hk. rewrite E in Hin. done.
      + intros c c' Hin (m & _ & _ & Hin' & _). destruct (Hat c Hin) as [A1 _]. rewrite K1, K2 in Hin'. intros [= B1 _].
        apply Hk. rewrite <- B1, A1 in Hin'. done. }
  destruct (IH e1 ltac:(lia) ltac:(lia) Hd1) as (c2 & Er & Epr & Hdr & Hfr).
  destruct (key_run e1 l) as [rest e2]. cbn [fst snd] in *. exists (c1 ++ c2).
  rewrite !fmap_app, Es, Er, Ep, Epr. cbn [fmap list_fmap concat]. split_and!; [done|done| |].
  - apply list.NoDup_app. split; [destruct Hc1 as [->|[c ->]]; repeat constructor; apply not_elem_of_nil|]. split; [|done].
    intros kn (c & -> & Hin)%list_elem_of_fmap (c' & E & Hin')%list_elem_of_fmap.
    apply (Hne c c' Hin); [|done]. by apply (proj1 (list.Forall_forall _ _) Hfr).
  - apply Forall_app. split; [|by eapply Forall_impl]. eapply Forall_impl; [|exact Hc]. intros c [A1 A2].
    exists (tx_nonce_counter e). split_and!; [done|lia|lia| |done]. rewrite A1. apply key_chain_head.
Qed.
End Nonces.

(** C8.  No nonce is used twice under a key within a connection.  For everything an end of
    a connection does with its keys (data with the server's key changes, packets under any
    prefix, arrivals at the server, which may announce new keys, and at the client), in
    any order, the ciphertexts sent are those of calls of the cipher, one per payload in
    order, whose pairs of key and 24-byte nonce, the arguments the cipher is given, are
    pairwise distinct.  Assumed is that the keys derived one after the other are different
    (keyed Blake2b does not run into a cycle) and that the 64-bit counter does not wrap. *)
Theorem nonces_never_repeat `{Aead} blake pid e l :
  0 <= tx_nonce_counter e -> tx_nonce_counter e + zlen l < 2 ^ 64 ->
  NoDup (key_chain blake (tx_key e) (epoch_number e) (length l)) ->
  exists calls, Some <$> (key_run blake pid e l).1 = run_call <$> calls /\
    c_pt <$> calls = concat (key_payload <$> l) /\
    NoDup ((fun c => (c_key c, c_nonce c)) <$> calls).
Proof.
  intros Hn Hl Hd. destruct (key_run_calls blake pid l e Hn Hl Hd) as (calls & E1 & E2 & E3 & _). by exists calls.
Qed.
(** The third packet announces new keys. *)
Definition demo_ops : list key_op :=
  [SendPlain 21 [1; 1]; ClientArrival 20 [1; 9]; SendData [2] d0; SendData [3] d0; ServerArrival 20 [1; 5] d0; SendData [4] d0].
Definition demo_sender : KeyEpoch :=
  mkEpoch (replicate 32 1) (replicate 32 2) zero_key 0 (2 ^ 30 - 3) d0 0 0 false Replay.reset.
Lemma nonces_never_repeat_witness :
  exists calls, Some <$> (key_run (H := tagged_aead) demo_blake 7 demo_sender demo_ops).1
    = run_call (H := tagged_aead) <$> calls /\
    c_pt <$> calls = [[1; 1]; [2]; [3]; [4]] /\
    NoDup ((fun c => (c_key c, c_nonce c)) <$> calls).
Proof.
  apply (nonces_never_repeat (H := tagged_aead) demo_blake 7 demo_sender demo_ops).
  - vm_compute. discriminate.
  - vm_compute. reflexivity.
  - apply (bool_decide_unpack _). vm_compute. exact I.
Defined.

(** A lost packet is never made up for: the receiver waits for the lost counter
    and tries every later packet under it. *)
Lemma lost_packet_desynchronises :
  let a := demo_epoch 1 2 in let b := demo_epoch 2 1 in
  let '(_, a1) := send_data (H := none_aead) (fun k m => k) a 7 [1] d0 in
  let '(_, a2) := send_data (H := none_aead) (fun k m => k) a1 7 [2] d0 in
  expected_nonce b = 0 /\ tx_nonce_counter a1 = 1 /\ tx_nonce_counter a2 = 2.
Proof. by vm_compute. Qed.

End Crypto.
