(* ===== verification/Aesgcm.v ===== *)
(** AES-256-GCM with cached handles (src/src/crypto/aead_aesgcm.cpp, the Windows part).

    The operating system encrypts through key handles; making one is slow, so every
    thread keeps the handles of the last key it encrypted and the last it decrypted
    with.  The system ([BCrypt]) is a parameter with its documented behaviour
    ([BCryptLaws]).  The theorem: the caches cannot be seen in the results, no handle
    is used after it was destroyed, and no handle is lost. *)

From stdpp Require Import gmap.
From S2P Require Import Prelude Bytes PacketCrypto.

Module Aesgcm.

Definition kGcmTagSize : Z := 16.
Definition kGcmNonceSize : nat := 12.

(** * The system *)

(** [W] is the state of the system.  [None] is a failing status. *)
Class BCrypt (W : Type) : Type := {
  BCryptOpenAlgorithmProvider : W -> option Z * W;
  BCryptSetProperty : W -> Z -> bool * W;
  BCryptCloseAlgorithmProvider : W -> Z -> W;
  BCryptGenerateSymmetricKey : W -> Z -> bytes -> option Z * W;
  BCryptDestroyKey : W -> Z -> W;
  BCryptEncrypt : W -> Z -> bytes -> bytes -> bytes -> option (bytes * bytes) * W;  (** nonce, aad, plaintext *)
  BCryptDecrypt : W -> Z -> bytes -> bytes -> bytes -> bytes -> option bytes * W }.  (** nonce, aad, ciphertext, tag *)

(** * The code *)

(** [hKey] is [None] for the null pointer. *)
Record TlsKeyCache : Type := mkCache { hKey : option Z; key : bytes; valid : bool }.
#[global] Instance cache_inhabited : Inhabited TlsKeyCache := populate (mkCache None (replicate 32 0) false).

(** The two thread-local variables of every thread, by thread and use. *)
Inductive use : Type := Enc | Dec.
#[global] Instance use_eq_dec : EqDecision use.
Proof. solve_decision. Defined.
#[global] Instance use_countable : Countable use.
Proof.
  refine (inj_countable' (fun u => match u with Enc => true | Dec => false end)
            (fun b : bool => if b then Enc else Dec) _). by intros [].
Defined.
Record Gcm : Type := mkGcm { g_hAlg : option Z; caches : gmap (Z * use) TlsKeyCache }.
Definition gcm0 : Gcm := mkGcm None ∅.
Definition cache_of (g : Gcm) (x : Z * use) : TlsKeyCache := default inhabitant (caches g !! x).
Definition set_cache (g : Gcm) (x : Z * use) (c : TlsKeyCache) : Gcm := mkGcm (g_hAlg g) (<[x := c]> (caches g)).

Section Code.
Context {W : Type} `{!BCrypt W}.

Definition aesgcm_init (g : Gcm) (w : W) : bool * Gcm * W :=
  match g_hAlg g with
  | Some _ => (true, g, w)
  | None =>
      match BCryptOpenAlgorithmProvider w with
      | (None, w) => (false, g, w)
      | (Some alg, w) =>
          let '(ok, w) := BCryptSetProperty w alg in
          if ok then (true, mkGcm (Some alg) (caches g), w)
          else (false, mkGcm None (caches g), BCryptCloseAlgorithmProvider w alg)
      end
  end.
Definition aesgcm_term (g : Gcm) (w : W) : Gcm * W :=
  match g_hAlg g with
  | Some alg => (mkGcm None (caches g), BCryptCloseAlgorithmProvider w alg)
  | None => (g, w)
  end.

Definition destroy (w : W) (h : option Z) : W := match h with Some h => BCryptDestroyKey w h | None => w end.
(** [TlsKeyCache::get]. *)
Definition get (w : W) (alg : Z) (c : TlsKeyCache) (incoming : bytes) : option Z * TlsKeyCache * W :=
  if valid c && bool_decide (key c = incoming) then (hKey c, c, w)
  else
    match BCryptGenerateSymmetricKey (destroy w (hKey c)) alg incoming with
    | (None, w) => (None, mkCache None (key c) false, w)
    | (Some h, w) => (Some h, mkCache (Some h) incoming true, w)
    end.

(** The result is the written ciphertext and tag, [None] for -1. *)
Definition aesgcm_encrypt (g : Gcm) (w : W) (t : Z) (k nonce aad pt : bytes) : option bytes * Gcm * W :=
  match g_hAlg g with
  | None => (None, g, w)
  | Some alg =>
      let '(h, c, w) := get w alg (cache_of g (t, Enc)) k in
      let g := set_cache g (t, Enc) c in
      match h with
      | None => (None, g, w)
      | Some h =>
          match BCryptEncrypt w h (take kGcmNonceSize nonce) aad pt with
          | (None, w) => (None, set_cache g (t, Enc) (mkCache (hKey c) (key c) false), w)
          | (Some (ct, mac), w) => (Some (ct ++ mac), g, w)
          end
      end
  end.
Definition aesgcm_decrypt (g : Gcm) (w : W) (t : Z) (k nonce aad ct : bytes) : option bytes * Gcm * W :=
  if zlen ct <? kGcmTagSize then (None, g, w)
  else
    match g_hAlg g with
    | None => (None, g, w)
    | Some alg =>
        let '(h, c, w) := get w alg (cache_of g (t, Dec)) k in
        let g := set_cache g (t, Dec) c in
        match h with
        | None => (None, g, w)
        | Some h =>
            let pt_len := Z.to_nat (zlen ct - kGcmTagSize) in
            let '(r, w) := BCryptDecrypt w h (take kGcmNonceSize nonce) aad (take pt_len ct) (drop pt_len ct) in
            (r, g, w)
        end
    end.

(** The destructor, for both variables of a thread that ends. *)
Definition cache_destructor (w : W) (c : TlsKeyCache) : W := destroy w (hKey c).
Definition thread_exit (g : Gcm) (w : W) (t : Z) : Gcm * W :=
  (mkGcm (g_hAlg g) (delete (t, Enc) (delete (t, Dec) (caches g))),
   cache_destructor (cache_destructor w (cache_of g (t, Dec))) (cache_of g (t, Enc))).
End Code.

(** * What the system promises *)

(** [keys] are the living key handles of the process with their keys, [algs] the open
    algorithm handles; [gcm_seal] and [gcm_open] are the cipher itself.  A call may
    fail, and then changes nothing; on a handle that is not alive nothing is promised. *)
Class BCryptLaws (W : Type) `{!BCrypt W} : Type := {
  keys : W -> gmap Z bytes;
  algs : W -> gset Z;
  gcm_seal : bytes -> bytes -> bytes -> bytes -> bytes * bytes;
  gcm_open : bytes -> bytes -> bytes -> bytes -> bytes -> option bytes;
  gcm_opens : forall k n a p, gcm_open k n a (gcm_seal k n a p).1 (gcm_seal k n a p).2 = Some p;
  gcm_length : forall k n a p, zlen (gcm_seal k n a p).1 = zlen p /\ zlen (gcm_seal k n a p).2 = kGcmTagSize;
  open_law : forall w r w', BCryptOpenAlgorithmProvider w = (r, w') ->
    keys w' = keys w /\ algs w' = match r with Some alg => {[alg]} ∪ algs w | None => algs w end;
  property_law : forall w alg b w', BCryptSetProperty w alg = (b, w') -> keys w' = keys w /\ algs w' = algs w;
  generate_law : forall w alg k r w', alg ∈ algs w -> BCryptGenerateSymmetricKey w alg k = (r, w') ->
    algs w' = algs w /\
    match r with Some h => keys w !! h = None /\ keys w' = <[h := k]> (keys w) | None => keys w' = keys w end;
  destroy_law : forall w h k, keys w !! h = Some k ->
    algs (BCryptDestroyKey w h) = algs w /\ keys (BCryptDestroyKey w h) = delete h (keys w);
  encrypt_law : forall w h k n a p r w', keys w !! h = Some k -> BCryptEncrypt w h n a p = (r, w') ->
    algs w' = algs w /\ keys w' = keys w /\ (r = None \/ r = Some (gcm_seal k n a p));
  decrypt_law : forall w h k n a c m r w', keys w !! h = Some k -> BCryptDecrypt w h n a c m = (r, w') ->
    algs w' = algs w /\ keys w' = keys w /\ (r = None \/ r = gcm_open k n a c m) }.

(** A system whose calls on living handles do not fail. *)
Definition reliable (W : Type) `{BCryptLaws W} : Prop :=
  (forall (w : W) alg k, alg ∈ algs w -> exists h, (BCryptGenerateSymmetricKey w alg k).1 = Some h) /\
  (forall (w : W) h k n a p, keys w !! h = Some k -> (BCryptEncrypt w h n a p).1 = Some (gcm_seal k n a p)) /\
  (forall (w : W) h k n a c m, keys w !! h = Some k -> (BCryptDecrypt w h n a c m).1 = gcm_open k n a c m).

(** * The cipher without handles *)

Section Cipher.
Context {W : Type} `{BCryptLaws W}.

Definition seal (k nonce aad pt : bytes) : option bytes :=
  let '(ct, mac) := gcm_seal k (take kGcmNonceSize nonce) aad pt in Some (ct ++ mac).
Definition unseal (k nonce aad ct : bytes) : option bytes :=
  if zlen ct <? kGcmTagSize then None
  else let n := Z.to_nat (zlen ct - kGcmTagSize) in
       gcm_open k (take kGcmNonceSize nonce) aad (take n ct) (drop n ct).

(** It is one of the ciphers the packet layer works with. *)
Lemma seal_correct k nonce aad pt :
  exists ct, seal k nonce aad pt = Some ct /\ zlen ct = zlen pt + kGcmTagSize /\ unseal k nonce aad ct = Some pt.
Proof.
  unfold seal, unseal. pose proof (gcm_opens k (take kGcmNonceSize nonce) aad pt) as O.
  pose proof (gcm_length k (take kGcmNonceSize nonce) aad pt) as [L1 L2].
  destruct (gcm_seal _ _ _ _) as [ct mac]. cbn [fst snd] in *. exists (ct ++ mac). split; [done|].
  assert (zlen (ct ++ mac) = zlen pt + kGcmTagSize) as L by (rewrite zlen_app; lia). split; [done|].
  rewrite L, (proj2 (Z.ltb_ge _ _)) by (pose proof (zlen_nonneg pt); lia).
  replace (Z.to_nat (zlen pt + kGcmTagSize - kGcmTagSize)) with (length ct) by (unfold zlen in *; lia).
  by rewrite take_app_length, drop_app_length.
Qed.
Definition gcm_aead : Crypto.Aead := {|
  Crypto.g_aead_encrypt := seal; Crypto.g_aead_decrypt := unseal; Crypto.aead_overhead := kGcmTagSize;
  Crypto.aead_overhead_nonneg := ltac:(done); Crypto.aead_correct := seal_correct |}.
End Cipher.

(** Cutting a packet's nonce to twelve bytes keeps the counter. *)
Lemma short_nonce_injective c c' : is_u64 c -> is_u64 c' ->
  take kGcmNonceSize (Crypto.build_nonce c) = take kGcmNonceSize (Crypto.build_nonce c') -> c = c'.
Proof.
  intros Hc Hc' E. unfold Crypto.build_nonce, kGcmNonceSize in E.
  rewrite !take_app, !length_le_bytes, !(take_ge (le_bytes 8 _)) in E by (rewrite length_le_bytes; lia).
  apply app_inj_1 in E as [E _]; [|by rewrite !length_le_bytes].
  apply (le_bytes_inj 8); unfold is_u64 in *; [lia|lia|done].
Qed.

(** * Sessions *)

Inductive call : Type :=
| Encrypt (t : Z) (k nonce aad pt : bytes)
| Decrypt (t : Z) (k nonce aad ct : bytes)
| Exit (t : Z).

Section Sessions.
Context {W : Type} `{BCryptLaws W}.
Implicit Types (g : Gcm) (w : W) (x : Z * use) (h : Z).

Definition perform g w (c : call) : option bytes * Gcm * W :=
  match c with
  | Encrypt t k nonce aad pt => aesgcm_encrypt g w t k nonce aad pt
  | Decrypt t k nonce aad ct => aesgcm_decrypt g w t k nonce aad ct
  | Exit t => let '(g, w) := thread_exit g w t in (None, g, w)
  end.
Fixpoint session g w (l : list call) : list (option bytes) * Gcm * W :=
  match l with
  | [] => ([], g, w)
  | c :: l => let '(r, g, w) := perform g w c in let '(rs, g, w) := session g w l in (r :: rs, g, w)
  end.
(** What the calls compute, without handles. *)
Definition result (c : call) : option bytes :=
  match c with
  | Encrypt _ k nonce aad pt => seal k nonce aad pt
  | Decrypt _ k nonce aad ct => unseal k nonce aad ct
  | Exit _ => None
  end.

(** The handles of the caches are alive and distinct, a valid one is for the cached
    key, and apart from them the process has the keys it had, [base]. *)
Definition owns g x h : Prop := exists c, caches g !! x = Some c /\ hKey c = Some h.
Record gcm_inv (base : gmap Z bytes) g w : Prop := {
  inv_alg : forall alg, g_hAlg g = Some alg -> alg ∈ algs w;
  inv_valid : forall x c, caches g !! x = Some c -> valid c = true -> exists h, hKey c = Some h /\ keys w !! h = Some (key c);
  inv_alive : forall x h, owns g x h -> is_Some (keys w !! h) /\ base !! h = None;
  inv_owned : forall h k, keys w !! h = Some k -> base !! h = Some k \/ exists x, owns g x h;
  inv_base : forall h k, base !! h = Some k -> keys w !! h = Some k;
  inv_one : forall x y h, owns g x h -> owns g y h -> x = y }.

Lemma owns_set g x c y h : owns (set_cache g x c) y h <-> (y = x /\ hKey c = Some h) \/ (y <> x /\ owns g y h).
Proof.
  unfold owns. cbn. destruct (decide (y = x)) as [->|N].
  - rewrite lookup_insert_eq. split.
    + intros (c' & [= <-] & E). by left.
    + intros [[_ E]|[]]; [by exists c|done].
  - rewrite lookup_insert_ne by done. split; [by right|]. by intros [[]|[_ O]].
Qed.
Lemma cache_of_key g x h : hKey (cache_of g x) = Some h <-> owns g x h.
Proof.
  unfold cache_of, owns. destruct (caches g !! x) as [c|]; cbn; split.
  - by exists c.
  - by intros (c' & [= <-] & E).
  - done.
  - by intros (c' & ? & _).
Qed.
Lemma cache_of_valid base g w x : gcm_inv base g w -> valid (cache_of g x) = true ->
  exists h, hKey (cache_of g x) = Some h /\ keys w !! h = Some (key (cache_of g x)).
Proof.
  intros I V. unfold cache_of in *. destruct (caches g !! x) as [c|] eqn:E; [|done]. by apply (inv_valid _ _ _ I x).
Qed.

(** What is left after the handle of a cache was destroyed. *)
Lemma destroy_keys base g w x : gcm_inv base g w -> let o := hKey (cache_of g x) in
  algs (destroy w o) = algs w /\
  forall h, keys (destroy w o) !! h = if decide (o = Some h) then None else keys w !! h.
Proof.
  intros I o. destruct o as [h0|] eqn:E; cbn [destroy]; [|by split; [|intros h; rewrite decide_False]].
  destruct (inv_alive _ _ _ I x h0 (proj1 (cache_of_key g x h0) E)) as [[k0 A] _].
  destruct (destroy_law w h0 k0 A) as [EA EK]. split; [done|]. intros h. rewrite EK.
  case_decide as D; [injection D as <-; apply lookup_delete_eq|]. by apply lookup_delete_ne; congruence.
Qed.
(** It leaves the invariant, with nothing in the cache. *)
Lemma destroy_inv base g w x : gcm_inv base g w ->
  gcm_inv base (mkGcm (g_hAlg g) (delete x (caches g))) (destroy w (hKey (cache_of g x))).
Proof.
  intros I. destruct (destroy_keys _ _ _ x I) as [EA EK].
  assert (forall y c, delete x (caches g) !! y = Some c -> y <> x /\ caches g !! y = Some c) as Sub
    by (intros y c [? ?]%lookup_delete_Some; done).
  assert (forall y h, owns (mkGcm (g_hAlg g) (delete x (caches g))) y h <-> y <> x /\ owns g y h) as OS.
  { intros y h. unfold owns. cbn. split.
    - intros (c & [N L]%lookup_delete_Some & E). split; [done|by exists c].
    - intros (N & c & L & E). exists c. by rewrite lookup_delete_ne. }
  assert (forall y h, y <> x -> owns g y h -> hKey (cache_of g x) <> Some h) as Other
    by (intros y h N O E; by apply N, (inv_one _ _ _ I y x h), cache_of_key).
  split.
  - intros alg Ha. rewrite EA. by apply (inv_alg _ _ _ I).
  - intros y c [N Hy]%Sub V. destruct (inv_valid _ _ _ I y c Hy V) as (h & E1 & E2). exists h. split; [done|].
    rewrite EK, decide_False; [done|]. apply (Other y h N). by exists c.
  - intros y h [N O]%OS. rewrite EK, decide_False by (by apply (Other y h)). by apply (inv_alive _ _ _ I y).
  - intros h k. rewrite EK. case_decide as D; [done|]. intros L.
    destruct (inv_owned _ _ _ I h k L) as [?|[y O]]; [by left|]. right. exists y. apply OS. split; [|done].
    intros ->. by apply cache_of_key in O.
  - intros h k L. rewrite EK, decide_False; [by apply (inv_base _ _ _ I)|].
    intros E%cache_of_key. destruct (inv_alive _ _ _ I x h E) as [_ B]. congruence.
  - intros y z h [_ O1]%OS [_ O2]%OS. by apply (inv_one _ _ _ I y z h).
Qed.

(** Putting a handle for a key that is alive and nobody's into an empty place. *)
Lemma fill_inv base g w w' x h k : gcm_inv base g w -> caches g !! x = None ->
  algs w' = algs w -> keys w !! h = None -> keys w' = <[h := k]> (keys w) ->
  gcm_inv base (set_cache g x (mkCache (Some h) k true)) w'.
Proof.
  intros I Hx EA Hh EK.
  assert (forall y h', owns g y h' -> y <> x /\ h' <> h) as Other.
  { intros y h' O. split; [intros ->; destruct O as (c & ? & _); congruence|].
    intros ->. destruct (inv_alive _ _ _ I y h O) as [[? ?] _]. congruence. }
  split.
  - intros alg Ha. rewrite EA. by apply (inv_alg _ _ _ I).
  - intros y c Hy V. cbn in Hy. destruct (decide (y = x)) as [->|N].
    { rewrite lookup_insert_eq in Hy. injection Hy as <-. exists h. by rewrite EK, lookup_insert_eq. }
    rewrite lookup_insert_ne in Hy by done. destruct (inv_valid _ _ _ I y c Hy V) as (h' & E1 & E2). exists h'.
    split; [done|]. rewrite EK, lookup_insert_ne; [done|]. intros <-. congruence.
  - intros y h' [[-> [= <-]]|[N O]]%owns_set.
    { rewrite EK, lookup_insert_eq. split; [done|]. destruct (base !! h) as [k0|] eqn:B; [|done].
      rewrite (inv_base _ _ _ I h k0 B) in Hh. done. }
    rewrite EK, lookup_insert_ne by (symmetry; by apply (Other y)). by apply (inv_alive _ _ _ I y).
  - intros h' k'. rewrite EK. destruct (decide (h' = h)) as [->|N].
    { intros _. right. exists x. apply owns_set. by left. }
    rewrite lookup_insert_ne by done. intros L. destruct (inv_owned _ _ _ I h' k' L) as [?|[y O]]; [by left|].
    right. exists y. apply owns_set. right. split; [by apply (Other y h')|done].
  - intros h' k' L. pose proof (inv_base _ _ _ I h' k' L) as L'. rewrite EK, lookup_insert_ne; [done|]. congruence.
  - intros y z h' [[-> [= <-]]|[N O]]%owns_set [[-> E]|[N' O']]%owns_set; try done.
    + by destruct (Other z h O').
    + injection E as <-. by destruct (Other y h O).
    + by apply (inv_one _ _ _ I y z h').
Qed.
(** Marking a cache invalid, and keeping nothing in one that was empty. *)
Lemma invalid_inv base g w x c : gcm_inv base g w -> valid c = false -> hKey c = hKey (cache_of g x) ->
  gcm_inv base (set_cache g x c) w.
Proof.
  intros I V E.
  assert (forall y h, owns (set_cache g x c) y h <-> owns g y h) as OS.
  { intros y h. rewrite owns_set, E, cache_of_key. destruct (decide (y = x)) as [->|N]; naive_solver. }
  split; try setoid_rewrite OS; [apply (inv_alg _ _ _ I)| |apply (inv_alive _ _ _ I)|apply (inv_owned _ _ _ I)
    |apply (inv_base _ _ _ I)|apply (inv_one _ _ _ I)].
  intros y c' Hy V'. cbn in Hy. destruct (decide (y = x)) as [->|N].
  - rewrite lookup_insert_eq in Hy. injection Hy as <-. congruence.
  - rewrite lookup_insert_ne in Hy by done. by apply (inv_valid _ _ _ I y).
Qed.
Lemma set_deleted g x c : set_cache (mkGcm (g_hAlg g) (delete x (caches g))) x c = set_cache g x c.
Proof. unfold set_cache. cbn. by rewrite insert_delete_eq. Qed.

(** [get] keeps the invariant and gives a living handle for the key. *)
Lemma cache_get_spec base g w x alg k (h : option Z) c w' : gcm_inv base g w -> g_hAlg g = Some alg ->
  get w alg (cache_of g x) k = (h, c, w') ->
  gcm_inv base (set_cache g x c) w' /\ hKey c = h /\ (reliable W -> is_Some h) /\
  (forall h0, h = Some h0 -> keys w' !! h0 = Some k).
Proof.
  intros I A. unfold get. destruct (valid (cache_of g x) && bool_decide (key (cache_of g x) = k)) eqn:E.
  - destruct (andb_prop _ _ E) as [V D%bool_decide_eq_true]. intros [= <- <- <-].
    destruct (cache_of_valid _ _ _ x I V) as (h0 & E1 & E2). split_and!; [|done|by rewrite E1|].
    + assert (caches g !! x = Some (cache_of g x)) as Hx
        by (revert V; unfold cache_of; by destruct (caches g !! x)).
      unfold set_cache. rewrite insert_id by done. by destruct g.
    + intros h1 E3. rewrite E1 in E3. injection E3 as <-. by rewrite <- D.
  - pose proof (destroy_inv _ _ _ x I) as I1. pose proof (inv_alg _ _ _ I1 alg A) as Ha.
    destruct (BCryptGenerateSymmetricKey _ alg k) as [[h1|] w1] eqn:G; intros [= <- <- <-];
      destruct (generate_law _ _ _ _ _ Ha G) as [EA EK]; rewrite <- set_deleted.
    + destruct EK as [EN EK]. split_and!; [|done|by eexists|intros ? [= <-]; by rewrite EK, lookup_insert_eq].
      by apply (fill_inv _ _ _ _ _ _ _ I1 (lookup_delete_eq _ _) EA EN EK).
    + split_and!; [|done| |done].
      * apply (invalid_inv base); [|done|by unfold cache_of; cbn; rewrite lookup_delete_eq].
        destruct I1. split; rewrite ?EA, ?EK; done.
      * intros (R & _). destruct (R _ alg k Ha) as [h1 E1]. by rewrite G in E1.
Qed.

Lemma same_inv base g w w' : gcm_inv base g w -> algs w' = algs w -> keys w' = keys w -> gcm_inv base g w'.
Proof. intros [] EA EK. split; rewrite ?EA, ?EK; done. Qed.
Lemma exit_inv base g w t g' w' : gcm_inv base g w -> thread_exit g w t = (g', w') ->
  gcm_inv base g' w' /\ g_hAlg g' = g_hAlg g.
Proof.
  intros I [= <- <-]. split; [|done]. unfold cache_destructor.
  pose proof (destroy_inv _ _ _ (t, Enc) (destroy_inv _ _ _ (t, Dec) I)) as I2.
  assert (cache_of (mkGcm (g_hAlg g) (delete (t, Dec) (caches g))) (t, Enc) = cache_of g (t, Enc)) as E
    by (unfold cache_of; cbn; by rewrite lookup_delete_ne).
  by rewrite E in I2.
Qed.

Lemma perform_spec base g w c r g' w' : gcm_inv base g w -> perform g w c = (r, g', w') ->
  gcm_inv base g' w' /\ g_hAlg g' = g_hAlg g /\ (r = None \/ r = result c) /\
  (is_Some (g_hAlg g) -> reliable W -> r = result c).
Proof.
  intros I. destruct c as [t k nonce aad pt|t k nonce aad ct|t]; cbn [perform result].
  - unfold aesgcm_encrypt. destruct (g_hAlg g) as [alg|] eqn:A; [|intros [= <- <- <-]; rewrite A; naive_solver].
    destruct (get w alg (cache_of g (t, Enc)) k) as [[h c] w1] eqn:G.
    destruct (cache_get_spec _ _ _ _ _ _ _ _ _ I A G) as (I1 & Eh & R1 & K). destruct h as [h|].
    2: { intros [= <- <- <-]. split_and!; [done|done|by left|]. intros _ R. by destruct (R1 R). }
    destruct (BCryptEncrypt w1 h _ aad pt) as [r1 w2] eqn:B.
    destruct (encrypt_law _ _ _ _ _ _ _ _ (K h eq_refl) B) as (EA & EK & Er).
    assert (reliable W -> r1 = Some (gcm_seal k (take kGcmNonceSize nonce) aad pt)) as R2
      by (intros (_ & R & _); pose proof (R w1 h k (take kGcmNonceSize nonce) aad pt (K h eq_refl)) as X; by rewrite B in X).
    destruct r1 as [[ct mac]|]; intros [= <- <- <-]; (split_and!; [|done|..]).
    + by apply (same_inv _ _ w1).
    + right. unfold seal. destruct Er as [|X]; [done|]. injection X as X. by rewrite <- X.
    + intros _ R. unfold seal. pose proof (R2 R) as X. injection X as X. by rewrite <- X.
    + apply (same_inv _ _ w1); [|done..]. apply invalid_inv; [done..|].
      unfold cache_of. cbn. by rewrite lookup_insert_eq.
    + by left.
    + intros _ R. by specialize (R2 R).
  - unfold aesgcm_decrypt, unseal. case_if; [intros [= <- <- <-]; naive_solver|].
    destruct (g_hAlg g) as [alg|] eqn:A; [|intros [= <- <- <-]; rewrite A; naive_solver].
    destruct (get w alg (cache_of g (t, Dec)) k) as [[h c] w1] eqn:G.
    destruct (cache_get_spec _ _ _ _ _ _ _ _ _ I A G) as (I1 & Eh & R1 & K). destruct h as [h|].
    2: { intros [= <- <- <-]. split_and!; [done|done|by left|]. intros _ R. by destruct (R1 R). }
    cbv zeta. destruct (BCryptDecrypt w1 h _ aad _ _) as [r1 w2] eqn:B. intros [= <- <- <-].
    destruct (decrypt_law _ _ _ _ _ _ _ _ _ (K h eq_refl) B) as (EA & EK & Er).
    split_and!; [by apply (same_inv _ _ w1)|done|done|].
    intros _ (_ & _ & R). specialize (R w1 h k (take kGcmNonceSize nonce) aad). rewrite <- R by (by apply K). by rewrite B.
  - destruct (thread_exit g w t) as [g1 w1] eqn:E. intros [= <- <- <-].
    destruct (exit_inv _ _ _ _ _ _ I E) as [I1 A]. rewrite A. split_and!; [done|done|by left|done].
Qed.
Lemma session_spec base l : forall g w rs g' w', gcm_inv base g w -> session g w l = (rs, g', w') ->
  gcm_inv base g' w' /\ Forall2 (fun c r => r = None \/ r = result c) l rs /\
  (is_Some (g_hAlg g) -> reliable W -> rs = result <$> l).
Proof.
  induction l as [|c l IH]; intros g w rs g' w' I; cbn [session]; [intros [= <- <- <-]; split_and!; [done|constructor|done]|].
  destruct (perform g w c) as [[r g1] w1] eqn:P. destruct (session g1 w1 l) as [[rs1 g2] w2] eqn:S. intros [= <- <- <-].
  destruct (perform_spec _ _ _ _ _ _ _ I P) as (I1 & A & Er & R). destruct (IH _ _ _ _ _ I1 S) as (I2 & F & R2).
  rewrite A in R2. split_and!; [done|by constructor|]. intros H1 H2. cbn. by rewrite (R H1 H2), (R2 H1 H2).
Qed.
Lemma init_inv w g w' : aesgcm_init gcm0 w = (true, g, w') -> gcm_inv (keys w) g w' /\ is_Some (g_hAlg g) /\ keys w' = keys w.
Proof.
  unfold aesgcm_init. cbn [g_hAlg gcm0]. destruct (BCryptOpenAlgorithmProvider w) as [[alg|] w1] eqn:O; [|done].
  destruct (open_law _ _ _ O) as [EK EA]. destruct (BCryptSetProperty w1 alg) as [[] w2] eqn:P; [|done].
  destruct (property_law _ _ _ _ P) as [EK2 EA2]. intros [= <- <-]. split_and!; [|done|congruence]. split.
  - intros a [= <-]. rewrite EA2, EA. set_solver.
  - intros x c L. cbn in L. by apply lookup_empty_Some in L.
  - intros x h (c & L & _). cbn in L. by apply lookup_empty_Some in L.
  - intros h k L. left. congruence.
  - intros h k L. congruence.
  - intros x y h (c & L & _). cbn in L. by apply lookup_empty_Some in L.
Qed.

(** C20. The key caches cannot be seen: whatever threads encrypt and decrypt with whatever
    keys, and whichever calls the system refuses, every result is the cipher's own or
    an error, and without such refusals it is always the cipher's own; the handles alive
    afterwards are those that were alive before and those the caches own, and once the
    threads have ended there is none of the library's left. *)
Theorem aesgcm_cache_transparent w g w1 l rs g' w2 :
  aesgcm_init gcm0 w = (true, g, w1) -> session g w1 l = (rs, g', w2) ->
  Forall2 (fun c r => r = None \/ r = result c) l rs /\
  (reliable W -> rs = result <$> l) /\
  (forall h, is_Some (keys w2 !! h) <-> is_Some (keys w !! h) \/ exists x, owns g' x h) /\
  (caches g' = ∅ -> keys w2 = keys w).
Proof.
  intros (I & A & _)%init_inv S. destruct (session_spec _ _ _ _ _ _ _ I S) as (I' & F & R).
  split_and!; [done|by intros; apply R| |].
  - intros h. split.
    + intros [k [B|O]%(inv_owned _ _ _ I')]; [left; by eexists|by right].
    + intros [[k B%(inv_base _ _ _ I')]|[x O%(inv_alive _ _ _ I')]]; [by eexists|tauto].
  - intros E. apply map_eq. intros h. destruct (keys w2 !! h) as [k|] eqn:L.
    + destruct (inv_owned _ _ _ I' h k L) as [B|[x (c & L' & _)]]; [done|]. rewrite E in L'. by apply lookup_empty_Some in L'.
    + destruct (keys w !! h) as [k|] eqn:B; [|done]. apply (inv_base _ _ _ I') in B. congruence.
Qed.
End Sessions.

(** * A system that satisfies the laws *)

(** Handles are numbered; the tag is the start of the key and the ciphertext the
    plaintext, which is no cipher but has the laws of one. *)
Record table : Type := mkTable { t_next : Z; t_keys : gmap Z bytes; t_algs : gset Z }.
Definition t_fresh (m : gmap Z bytes) : Z := fresh (dom (D := gset Z) m).
Lemma t_fresh_new m : m !! t_fresh m = None.
Proof. pose proof (is_fresh (dom (D := gset Z) m)) as N. by apply not_elem_of_dom in N. Qed.
Definition t_tag (k : bytes) : bytes := take 16 (k ++ replicate 16 0).
#[global] Instance table_bcrypt : BCrypt table := {|
  BCryptOpenAlgorithmProvider w := (Some (t_next w), mkTable (t_next w + 1) (t_keys w) ({[t_next w]} ∪ t_algs w));
  BCryptSetProperty w alg := (true, w);
  BCryptCloseAlgorithmProvider w alg := mkTable (t_next w) (t_keys w) (t_algs w ∖ {[alg]});
  BCryptGenerateSymmetricKey w alg k :=
    (Some (t_fresh (t_keys w)), mkTable (t_next w) (<[t_fresh (t_keys w) := k]> (t_keys w)) (t_algs w));
  BCryptDestroyKey w h := mkTable (t_next w) (delete h (t_keys w)) (t_algs w);
  BCryptEncrypt w h n a p := (k ← t_keys w !! h; Some (p, t_tag k), w);
  BCryptDecrypt w h n a c m := (k ← t_keys w !! h; if bool_decide (m = t_tag k) then Some c else None, w) |}.
#[global, refine] Instance table_laws : BCryptLaws table := {|
  keys := t_keys; algs := t_algs;
  gcm_seal k n a p := (p, t_tag k);
  gcm_open k n a c m := if bool_decide (m = t_tag k) then Some c else None |}.
Proof.
  - intros k n a p. cbn. by rewrite bool_decide_eq_true_2.
  - intros k n a p. split; [done|]. cbn. unfold t_tag, zlen, kGcmTagSize.
    rewrite length_take, length_app, length_replicate. lia.
  - by intros w r w' [= <- <-].
  - by intros w alg b w' [= <- <-].
  - intros w alg k r w' _ [= <- <-]. split_and!; [done| |done].
    apply t_fresh_new.
  - done.
  - intros w h k n a p r w' E. cbn. rewrite E. intros [= <- <-]. split_and!; [done|done|by right].
  - intros w h k n a c m r w' E. cbn. rewrite E. intros [= <- <-]. split_and!; [done|done|by right].
Defined.
Lemma table_reliable : reliable table.
Proof. split_and!; [by eexists|intros w h k n a p E; cbn in *; by rewrite E|intros w h k n a c m E; cbn in *; by rewrite E]. Qed.

(** Two threads, two keys, a forged packet and the end of both threads. *)
Definition demo_calls : list call :=
  [Encrypt 1 (replicate 32 7) (replicate 24 0) [] [1; 2; 3]; Encrypt 2 (replicate 32 8) (replicate 24 0) [] [4];
   Decrypt 1 (replicate 32 7) (replicate 24 0) [] ([1; 2; 3] ++ replicate 16 7);
   Decrypt 1 (replicate 32 7) (replicate 24 0) [] ([1; 2; 3] ++ replicate 16 8);
   Encrypt 1 (replicate 32 9) (replicate 24 0) [] []; Exit 1; Exit 2].
Definition table0 : table := mkTable 1 {[5 := replicate 32 3]} ∅.
Lemma aesgcm_cache_transparent_witness : exists g w1 g' w2,
  aesgcm_init gcm0 table0 = (true, g, w1) /\
  session g w1 demo_calls =
    ([Some ([1; 2; 3] ++ replicate 16 7); Some (4 :: replicate 16 8); Some [1; 2; 3]; None; Some (replicate 16 9); None; None], g', w2) /\
  result (W := table) <$> demo_calls =
    [Some ([1; 2; 3] ++ replicate 16 7); Some (4 :: replicate 16 8); Some [1; 2; 3]; None; Some (replicate 16 9); None; None] /\
  keys w2 = keys table0.
Proof.
  destruct (aesgcm_init gcm0 table0) as [[b g] w1] eqn:E1. assert (b = true) as -> by (by apply (f_equal (fun x => x.1.1)) in E1; vm_compute in E1).
  destruct (session g w1 demo_calls) as [[rs g'] w2] eqn:E2.
  destruct (aesgcm_cache_transparent table0 g w1 demo_calls rs g' w2 E1 E2) as (_ & R & _ & K).
  exists g, w1, g', w2. specialize (R table_reliable).
  assert (result (W := table) <$> demo_calls =
    [Some ([1; 2; 3] ++ replicate 16 7); Some (4 :: replicate 16 8); Some [1; 2; 3]; None; Some (replicate 16 9); None; None]) as ER
    by by vm_compute.
  split_and!; [done|by rewrite R, ER in E2 |done|]. apply K.
  replace g' with (session (aesgcm_init gcm0 table0).1.2 (aesgcm_init gcm0 table0).2 demo_calls).1.2 by (rewrite E1; cbn [fst snd]; by rewrite E2).
  by vm_compute.
Defined.
End Aesgcm.
