(* ===== verification/ConnectToken.v ===== *)
(** Connect tokens (src/src/connection/connect_token.h, connect_token.cpp, and
    [netudp_generate_connect_token] of src/src/api.cpp).

    A token is made by a backend that shares a private key with the servers; the
    client reads the public part and forwards the encrypted one.  Random bytes,
    the clock and Monocypher's AEAD are arguments.  Results of type [option] are
    [None] when a store or load leaves its buffer; an error return is a value.
    [connect_token_agreement] says that the three parties end up with the same
    addresses, keys and timeout. *)

From S2P Require Import Prelude Bytes Address PacketCrypto.

Module Token.
Import Address.

Definition NETUDP_ERROR_CRYPTO : Z := -7.
Definition NETUDP_ERROR_TIMEOUT : Z := -8.
Definition NETUDP_MAX_SERVERS_PER_TOKEN : Z := 32.
Definition TOKEN_VERSION_OFFSET : Z := 0.
Definition TOKEN_PROTOCOL_ID_OFFSET : Z := 13.
Definition TOKEN_EXPIRE_TS_OFFSET : Z := 29.
Definition TOKEN_NONCE_OFFSET : Z := 37.
Definition TOKEN_PRIVATE_OFFSET : Z := 61.
Definition TOKEN_PRIVATE_SIZE : Z := 1008.
Definition TOKEN_PRIVATE_ENCRYPTED_SIZE : Z := 1024.
Definition TOKEN_AFTER_PRIVATE : Z := TOKEN_PRIVATE_OFFSET + TOKEN_PRIVATE_ENCRYPTED_SIZE.

(** [server_addresses] is an array of [NETUDP_MAX_SERVERS_PER_TOKEN]. *)
Record PrivateConnectToken : Type := mkPrivate {
  client_id : Z; timeout_seconds : Z; num_server_addresses : Z;
  server_addresses : list address;
  client_to_server_key : bytes; server_to_client_key : bytes; user_data : bytes }.

(** ** Addresses *)

Definition write_address_to_token (addr : address) (buf : bytes) (pos : Z)
    : option (Z * bytes) :=
  let p := pos in
  buf ← mwrite buf p [a_type addr];
  let p := p + 1 in
  let n := if a_type addr =? NETUDP_ADDRESS_IPV4 then 4
           else if a_type addr =? NETUDP_ADDRESS_IPV6 then 16 else 0 in
  buf ← mwrite buf p (take (Z.to_nat n) (a_data addr));
  let p := p + n in
  buf ← mwrite buf p [u8 (Z.land (a_port addr) 255)];
  buf ← mwrite buf (p + 1) [u8 (Z.land (Z.shiftr (a_port addr) 8) 255)];
  Some (p + 2 - pos, buf).

Definition read_port (buf : bytes) (pos : Z) : option Z :=
  lo ← oget buf pos;
  hi ← oget buf (pos + 1);
  Some (u16 (Z.lor lo (Z.shiftl hi 8))).

(** The count of bytes read and the address, or [inl (-1)]. *)
Definition read_address (buf : bytes) (pos avail : Z) : option (Z + Z * address) :=
  if avail <? 1 then Some (inl (-1))
  else
    ty ← oget buf pos;
    if ty =? NETUDP_ADDRESS_IPV4 then
      if avail <? 7 then Some (inl (-1))
      else
        d ← mread buf (pos + 1) 4;
        data ← mwrite (a_data address_zero) 0 d;
        port ← read_port buf (pos + 5);
        Some (inr (7, mkAddress data port ty))
    else if ty =? NETUDP_ADDRESS_IPV6 then
      if avail <? 19 then Some (inl (-1))
      else
        d ← mread buf (pos + 1) 16;
        data ← mwrite (a_data address_zero) 0 d;
        port ← read_port buf (pos + 17);
        Some (inr (19, mkAddress data port ty))
    else Some (inl (-1)).

(** ** The private part *)

(** The loop over [server_addresses[i]], [i] counting up to [i + n]. *)
Fixpoint write_addresses (n : nat) (i : Z) (addrs : list address) (buf : bytes) (pos : Z)
    : option (bytes * Z) :=
  match n with
  | O => Some (buf, pos)
  | S n =>
      a ← oget addrs i;
      '(written, buf) ← write_address_to_token a buf pos;
      write_addresses n (i + 1) addrs buf (pos + written)
  end.

(** The bytes written, or -1, and the buffer. *)
Definition serialize_private_token (token : PrivateConnectToken) (buf : bytes) (buf_size : Z)
    : option (Z * bytes) :=
  if buf_size <? TOKEN_PRIVATE_SIZE then Some (-1, buf)
  else
    buf ← mwrite buf 0 (replicate (Z.to_nat buf_size) 0);
    let pos := 0 in
    buf ← mwrite buf pos (le_bytes 8 (client_id token));
    let pos := pos + 8 in
    buf ← mwrite buf pos (le_bytes 4 (timeout_seconds token));
    let pos := pos + 4 in
    buf ← mwrite buf pos (le_bytes 4 (num_server_addresses token));
    let pos := pos + 4 in
    '(buf, pos) ← write_addresses (Z.to_nat (num_server_addresses token)) 0
                    (server_addresses token) buf pos;
    buf ← mwrite buf pos (client_to_server_key token);
    let pos := pos + 32 in
    buf ← mwrite buf pos (server_to_client_key token);
    let pos := pos + 32 in
    buf ← mwrite buf pos (user_data token);
    let pos := pos + 256 in
    if TOKEN_PRIVATE_SIZE <? pos then Some (-1, buf) else Some (pos, buf).

Fixpoint read_addresses (n : nat) (i : Z) (buf : bytes) (buf_size pos : Z) (addrs : list address)
    : option (Z + list address * Z) :=
  match n with
  | O => Some (inr (addrs, pos))
  | S n =>
      r ← read_address buf pos (buf_size - pos);
      match r with
      | inl e => Some (inl e)
      | inr (read, a) =>
          addrs ← oset addrs i a;
          read_addresses n (i + 1) buf buf_size (pos + read) addrs
      end
  end.

(** -1, or the token; what an error leaves in the output is not read. *)
Definition deserialize_private_token (buf : bytes) (buf_size : Z)
    : option (Z + PrivateConnectToken) :=
  if buf_size <? TOKEN_PRIVATE_SIZE then Some (inl (-1))
  else
    let pos := 0 in
    cid ← mread_u buf pos 8;
    let pos := pos + 8 in
    tmo ← mread_u buf pos 4;
    let pos := pos + 4 in
    num ← mread_u buf pos 4;
    let pos := pos + 4 in
    if (num =? 0) || (NETUDP_MAX_SERVERS_PER_TOKEN <? num) then Some (inl (-1))
    else
      r ← read_addresses (Z.to_nat num) 0 buf buf_size pos (replicate 32 address_zero);
      match r with
      | inl _ => Some (inl (-1))
      | inr (addrs, pos) =>
          c2s ← mread buf pos 32;
          let pos := pos + 32 in
          s2c ← mread buf pos 32;
          let pos := pos + 32 in
          ud ← mread buf pos 256;
          Some (inr (mkPrivate cid tmo num addrs c2s s2c ud))
      end.

Section Crypto.
Context (crypto_aead_lock : bytes -> bytes -> bytes -> bytes -> bytes * bytes)
        (crypto_aead_unlock : bytes -> bytes -> bytes -> bytes -> bytes -> option bytes).
Let encrypt := Crypto.xchacha_encrypt crypto_aead_lock.
Let decrypt := Crypto.xchacha_decrypt crypto_aead_unlock.

(** version(13) + protocol_id(8) + expire_ts(8), read from the token. *)
Definition token_aad (token : bytes) : option bytes :=
  v ← mread token TOKEN_VERSION_OFFSET 13;
  p ← mread token TOKEN_PROTOCOL_ID_OFFSET 8;
  e ← mread token TOKEN_EXPIRE_TS_OFFSET 8;
  Some (v ++ p ++ e).

(** ** Generation *)

Fixpoint parse_addresses (n : nat) (i : Z) (strs : list str) (addrs : list address)
    : option (Z + list address) :=
  match n with
  | O => Some (inr addrs)
  | S n =>
      s ← oget strs i;
      let '(rc, a) := netudp_parse_address s in
      addrs ← oset addrs i a;
      if negb (rc =? NETUDP_OK) then Some (inl NETUDP_ERROR_INVALID_PARAM)
      else parse_addresses n (i + 1) strs addrs
  end.

(** The public copy of the addresses, each through a 20-byte local buffer. *)
Fixpoint write_public_addresses (n : nat) (i : Z) (addrs : list address) (token : bytes) (pos : Z)
    : option (bytes * Z) :=
  match n with
  | O => Some (token, pos)
  | S n =>
      a ← oget addrs i;
      '(addr_len, addr_buf) ← write_address_to_token a (replicate 20 0) 0;
      d ← mread addr_buf 0 addr_len;
      token ← mwrite token pos d;
      write_public_addresses n (i + 1) addrs token (pos + addr_len)
  end.

(** [c2s], [s2c] and [nonce] are the random bytes drawn, [now] is
    [std::time(nullptr)], [ud] the caller's user data or [None] for a null
    pointer.  The return code and the token buffer. *)
Definition netudp_generate_connect_token (num : Z) (strs : list str)
    (expire_seconds timeout cid protocol_id : Z) (private_key : bytes) (ud : option bytes)
    (c2s s2c nonce : bytes) (now : Z) (connect_token : bytes) : option (Z * bytes) :=
  if (num <? 1) || (NETUDP_MAX_SERVERS_PER_TOKEN <? num)
  then Some (NETUDP_ERROR_INVALID_PARAM, connect_token)
  else
    r ← parse_addresses (Z.to_nat num) 0 strs (replicate 32 address_zero);
    match r with
    | inl e => Some (e, connect_token)
    | inr addrs =>
        let priv := mkPrivate cid (u32 timeout) (u32 num) addrs c2s s2c
                      (default (replicate 256 0) ud) in
        '(serialized, private_data) ←
          serialize_private_token priv (replicate (Z.to_nat TOKEN_PRIVATE_SIZE) 0) TOKEN_PRIVATE_SIZE;
        if serialized <? 0 then Some (NETUDP_ERROR_INVALID_PARAM, connect_token)
        else
          t ← mwrite connect_token 0 (replicate 2048 0);
          let pos := 0 in
          t ← mwrite t pos Crypto.NETUDP_VERSION_INFO;
          let pos := pos + 13 in
          t ← mwrite t pos (le_bytes 8 protocol_id);
          let pos := pos + 8 in
          let create_ts := u64 now in
          t ← mwrite t pos (le_bytes 8 create_ts);
          let pos := pos + 8 in
          let expire_ts := u64 (create_ts + u64 expire_seconds) in
          t ← mwrite t pos (le_bytes 8 expire_ts);
          let pos := pos + 8 in
          t ← mwrite t pos nonce;
          let pos := pos + 24 in
          aad ← token_aad t;
          match encrypt private_key nonce aad private_data with
          | None => Some (NETUDP_ERROR_CRYPTO, t)
          | Some enc =>
              t ← mwrite t pos enc;
              let pos := pos + zlen enc in
              t ← mwrite t pos (le_bytes 4 (u32 timeout));
              let pos := pos + 4 in
              t ← mwrite t pos (le_bytes 4 (u32 num));
              let pos := pos + 4 in
              '(t, pos) ← write_public_addresses (Z.to_nat num) 0 addrs t pos;
              t ← mwrite t pos c2s;
              let pos := pos + 32 in
              t ← mwrite t pos s2c;
              Some (NETUDP_OK, t)
          end
    end.

(** ** Validation *)

Definition listed (sa : address) (token : PrivateConnectToken) : bool :=
  existsb (netudp_address_equal sa)
    (take (Z.to_nat (num_server_addresses token)) (server_addresses token)).

Definition validate_connect_token (token : bytes) (protocol_id : Z) (private_key : bytes)
    (current_time : Z) (server_address : option address) : option (Z + PrivateConnectToken) :=
  v ← mread token TOKEN_VERSION_OFFSET 13;
  if negb (bool_decide (v = Crypto.NETUDP_VERSION_INFO))
  then Some (inl NETUDP_ERROR_INVALID_PARAM)
  else
    pid ← mread_u token TOKEN_PROTOCOL_ID_OFFSET 8;
    if negb (pid =? protocol_id) then Some (inl NETUDP_ERROR_INVALID_PARAM)
    else
      expire_ts ← mread_u token TOKEN_EXPIRE_TS_OFFSET 8;
      if expire_ts <=? current_time then Some (inl NETUDP_ERROR_TIMEOUT)
      else
        aad ← token_aad token;
        nonce ← mread token TOKEN_NONCE_OFFSET 24;
        encrypted ← mread token TOKEN_PRIVATE_OFFSET TOKEN_PRIVATE_ENCRYPTED_SIZE;
        match decrypt private_key nonce aad encrypted with
        | None => Some (inl NETUDP_ERROR_CRYPTO)
        | Some decrypted =>
            r ← deserialize_private_token decrypted TOKEN_PRIVATE_SIZE;
            match r with
            | inl _ => Some (inl NETUDP_ERROR_INVALID_PARAM)
            | inr out =>
                match server_address with
                | None => Some (inr out)
                | Some sa => if listed sa out then Some (inr out)
                             else Some (inl NETUDP_ERROR_INVALID_PARAM)
                end
            end
        end.

(** First eight bytes of the keyed hash of the encrypted part. *)
Definition compute_token_fingerprint (blake2b_keyed_64 : bytes -> bytes -> bytes)
    (private_key encrypted_private : bytes) : bytes :=
  take 8 (blake2b_keyed_64 private_key encrypted_private).
End Crypto.

(** ** What the client reads ([netudp_client_connect]) *)

Record PublicToken : Type := mkPublic {
  pub_timeout : Z; pub_addresses : list address; pub_c2s : bytes; pub_s2c : bytes }.

Fixpoint client_read_addresses (n : nat) (i : Z) (token : bytes) (pos : Z) (addrs : list address)
    : option (list address * Z) :=
  match n with
  | O => Some (addrs, pos)
  | S n =>
      ty ← oget token pos;
      let pos := pos + 1 in
      let len := if ty =? NETUDP_ADDRESS_IPV4 then 4
                 else if ty =? NETUDP_ADDRESS_IPV6 then 16 else 0 in
      d ← mread token pos len;
      data ← mwrite (a_data address_zero) 0 d;
      let pos := pos + len in
      port ← read_port token pos;
      addrs ← oset addrs i (mkAddress data port ty);
      client_read_addresses n (i + 1) token (pos + 2) addrs
  end.

(** [inl] is the state [INVALID_TOKEN]; [old] is the client's address array. *)
Definition client_read_token (token : bytes) (old : list address)
    : option (unit + Z * PublicToken) :=
  let pos := TOKEN_AFTER_PRIVATE in
  timeout ← mread_u token pos 4;
  let pos := pos + 4 in
  num ← mread_u token pos 4;
  let pos := pos + 4 in
  if (num =? 0) || (NETUDP_MAX_SERVERS_PER_TOKEN <? num) then Some (inl tt)
  else
    '(addrs, pos) ← client_read_addresses (Z.to_nat num) 0 token pos old;
    c2s ← mread token pos 32;
    let pos := pos + 32 in
    s2c ← mread token pos 32;
    Some (inr (num, mkPublic timeout addrs c2s s2c)).

(** * Correctness *)

(** ** Images of addresses *)

Definition image (a : address) : bytes :=
  [a_type a] ++ take (Z.to_nat (address_data_len a)) (a_data a) ++ le_bytes 2 (a_port a).
Definition images (l : list address) : bytes := concat (image <$> l).

Lemma image_length a : wf a -> zlen (image a) = 3 + address_data_len a /\
  (address_data_len a = 4 \/ address_data_len a = 16).
Proof.
  intros (Hb & Hl & Hp & Ht). unfold image, address_data_len. zlen_simpl.
  destruct Ht as [[-> _]| ->]; cbn; unfold zlen; rewrite length_take; cbn; split; lia.
Qed.
Lemma images_cons a l : images (a :: l) = image a ++ images l.
Proof. done. Qed.
Lemma images_length l : Forall wf l -> 0 <= zlen (images l) <= 19 * zlen l.
Proof.
  induction 1 as [|a l Ha Hl IH]; [done|]. rewrite images_cons. zlen_simpl.
  destruct (image_length a Ha). lia.
Qed.

Lemma port_bytes p : 0 <= p < 2 ^ 16 ->
  [u8 (Z.land p 255)] ++ [u8 (Z.land (Z.shiftr p 8) 255)] = le_bytes 2 p.
Proof.
  intros Hp. unfold u8. change 255 with (Z.ones 8). rewrite !Z.land_ones, Z.shiftr_div_pow2 by lia.
  rewrite !Z.mod_mod by lia. done.
Qed.
Lemma port_value p : 0 <= p < 2 ^ 16 ->
  u16 (Z.lor (u8 (Z.land p 255)) (Z.shiftl (u8 (Z.land (Z.shiftr p 8) 255)) 8)) = p.
Proof.
  intros Hp. assert (u8 (Z.land p 255) = p mod 2 ^ 8 /\
    u8 (Z.land (Z.shiftr p 8) 255) = p / 2 ^ 8) as [-> ->].
  { unfold u8. change 255 with (Z.ones 8).
    rewrite !Z.land_ones, Z.shiftr_div_pow2, !Z.mod_mod by lia. split; [done|].
    apply Z.mod_small. mlia. }
  rewrite <- Z.land_ones, <- Z.shiftr_div_pow2 by lia.
  replace (Z.lor _ _) with p; [apply u16_small; done|]. apply Z.bits_inj'. intros n Hn.
  rewrite Z.lor_spec, Z.land_spec, Z.testbit_ones, Z.shiftl_spec by lia.
  destruct (decide (n < 8)).
  - rewrite (Z.testbit_neg_r _ (n - 8)) by lia. rewrite (proj2 (Z.leb_le 0 n)) by lia.
    rewrite (proj2 (Z.ltb_lt n 8)) by lia. cbn. by rewrite andb_true_r, orb_false_r.
  - rewrite Z.shiftr_spec by lia. rewrite (proj2 (Z.ltb_ge n 8)) by lia.
    rewrite !andb_false_r. cbn. f_equal. lia.
Qed.

Ltac chain := repeat (rewrite mwrite_chain; [| lia | zlen_simpl; cbn; lia | zlen_simpl; cbn; lia]).

Lemma write_address_image a buf pos :
  wf a -> 0 <= pos -> pos + zlen (image a) <= zlen buf ->
  write_address_to_token a buf pos = (b ← mwrite buf pos (image a); Some (zlen (image a), b)).
Proof.
  intros Hwf Hp Hb. pose proof (image_length a Hwf) as [Hl Hd]. rewrite Hl in *.
  assert (zlen (take (Z.to_nat (address_data_len a)) (a_data a)) = address_data_len a) as Hdl.
  { revert Hl. unfold image. zlen_simpl. lia. }
  destruct Hwf as (_ & _ & Hport & _). unfold write_address_to_token, image. cbv zeta.
  fold (address_data_len a). rewrite <- (port_bytes (a_port a)) by lia. chain.
  rewrite <- !app_assoc. destruct (mwrite _ _ _); [|done]. cbn. do 2 f_equal. lia.
Qed.

(** Reading an image gives the address. *)
Lemma read_port_image buf pos p :
  0 <= p < 2 ^ 16 -> holds buf pos (le_bytes 2 p) -> read_port buf pos = Some p.
Proof.
  intros Hp H. rewrite <- port_bytes in H by done. apply holds_app in H as [H1 H2].
  unfold read_port. rewrite (holds_oget _ _ _ H1). cbn.
  change (zlen [_]) with 1 in H2. rewrite (holds_oget _ _ _ H2). cbn. by rewrite port_value.
Qed.
Lemma data_image a : wf a ->
  mwrite (a_data address_zero) 0 (take (Z.to_nat (address_data_len a)) (a_data a)) = Some (a_data a).
Proof.
  intros (_ & Hl & _ & Ht). change (a_data address_zero) with ([] ++ replicate 16 0).
  rewrite mwrite_tail; [|done|rewrite length_take; lia]. cbn [app]. f_equal.
  rewrite <- (take_drop (Z.to_nat (address_data_len a)) (a_data a)) at 3. f_equal.
  unfold address_data_len. destruct Ht as [[-> Hz]| ->]; cbn [Z.eqb Pos.eqb NETUDP_ADDRESS_IPV4 NETUDP_ADDRESS_IPV6].
  - change (Z.to_nat 4) with 4%nat. rewrite Hz, length_take, Hl. done.
  - change (Z.to_nat 16) with 16%nat. rewrite length_take, Hl, drop_ge by lia. done.
Qed.
Lemma holds_image buf pos a : wf a -> holds buf pos (image a) ->
  oget buf pos = Some (a_type a) /\
  mread buf (pos + 1) (address_data_len a) = Some (take (Z.to_nat (address_data_len a)) (a_data a)) /\
  read_port buf (pos + 1 + address_data_len a) = Some (a_port a).
Proof.
  intros Hwf H. destruct (image_length a Hwf) as [Hl Hd]. unfold image in *.
  assert (zlen (take (Z.to_nat (address_data_len a)) (a_data a)) = address_data_len a) as Hdl.
  { revert Hl. zlen_simpl. lia. }
  apply holds_app in H as [H1 H2]. apply holds_app in H2 as [H2 H3].
  change (zlen [_]) with 1 in *. rewrite Hdl in H3.
  split; [by apply holds_oget|]. split; [by apply holds_mread|].
  apply read_port_image; [|done]. destruct Hwf as (_ & _ & ? & _). lia.
Qed.

Lemma read_address_image buf pos avail a :
  wf a -> holds buf pos (image a) -> zlen (image a) <= avail ->
  read_address buf pos avail = Some (inr (zlen (image a), a)).
Proof.
  intros Hwf H Hav. pose proof (data_image a Hwf) as Hw. pose proof (image_length a Hwf) as [Hl Hd].
  apply holds_image in H as (H1 & H2 & H3); [|done]. rewrite Hl in *.
  unfold read_address. rewrite (proj2 (Z.ltb_ge _ _)) by lia. rewrite H1. cbn [mbind option_bind].
  destruct Hwf as (_ & _ & _ & Ht). unfold address_data_len in *.
  destruct a as [d p ty]. cbn [a_type a_data a_port] in *.
  destruct Ht as [[-> _]| ->]; cbn [Z.eqb Pos.eqb NETUDP_ADDRESS_IPV4 NETUDP_ADDRESS_IPV6] in *;
    rewrite (proj2 (Z.ltb_ge _ _)) by lia; rewrite H2; cbn [mbind option_bind]; rewrite Hw;
    cbn [mbind option_bind]; rewrite <- Z.add_assoc in H3;
    match type of H3 with read_port _ (_ + ?e) = _ =>
      let v := eval vm_compute in e in change e with v in H3 end; rewrite H3; done.
Qed.

(** The loops write and read the images one after the other. *)
Lemma write_addresses_spec l i addrs pre post img k :
  Forall wf l -> addrs = pre ++ l ++ post -> i = zlen pre -> zlen (images l) <= Z.of_nat k ->
  write_addresses (length l) i addrs (img ++ replicate k 0) (zlen img)
  = Some ((img ++ images l) ++ replicate (k - length (images l)) 0, zlen (img ++ images l)).
Proof.
  intros Hl. revert i pre img k. induction Hl as [|a l Ha Hl IH]; intros i pre img k -> -> Hk.
  { cbn. by rewrite app_nil_r, Nat.sub_0_r. }
  rewrite images_cons in *. zlen_simpl. pose proof (images_length l Hl).
  destruct (image_length a Ha) as [Hi _]. cbn [write_addresses length].
  rewrite <- app_comm_cons, oget_middle by done. cbn [mbind option_bind].
  rewrite write_address_image; [|done|apply zlen_nonneg|zlen_simpl; lia].
  unfold zlen in Hk, H, Hi.
  rewrite mwrite_tail; [|done|lia]. cbn [mbind option_bind].
  rewrite <- zlen_app, IH with (pre := pre ++ [a]); [|by rewrite <- app_assoc| |unfold zlen in *; lia].
  - rewrite length_app, <- !app_assoc, Nat.sub_add_distr. by rewrite !zlen_app.
  - by rewrite zlen_app.
Qed.
Lemma read_addresses_spec l i buf n pos pre mid post :
  Forall wf l -> holds buf pos (images l) -> pos + zlen (images l) <= n ->
  i = zlen pre -> length mid = length l ->
  read_addresses (length l) i buf n pos (pre ++ mid ++ post)
  = Some (inr (pre ++ l ++ post, pos + zlen (images l))).
Proof.
  intros Hl. revert i pos pre mid. induction Hl as [|a l Ha Hl IH];
    intros i pos pre mid Hh Hn -> Hm.
  { apply nil_length_inv in Hm as ->. cbn. by rewrite Z.add_0_r. }
  rewrite images_cons in *. apply holds_app in Hh as [Hh1 Hh2]. zlen_simpl.
  pose proof (images_length l Hl). destruct mid as [|x mid]; [done|].
  cbn [read_addresses length]. rewrite (read_address_image _ _ _ a) by (done || lia).
  cbn [mbind option_bind]. rewrite <- app_comm_cons, oset_middle by done. cbn [mbind option_bind].
  replace (pre ++ a :: mid ++ post) with ((pre ++ [a]) ++ mid ++ post) by by rewrite <- app_assoc.
  rewrite IH; [|done|lia|by rewrite zlen_app|by injection Hm].
  rewrite <- app_assoc. do 3 f_equal. lia.
Qed.
Lemma client_read_addresses_spec l i token pos pre mid post :
  Forall wf l -> holds token pos (images l) -> i = zlen pre -> length mid = length l ->
  client_read_addresses (length l) i token pos (pre ++ mid ++ post)
  = Some (pre ++ l ++ post, pos + zlen (images l)).
Proof.
  intros Hl. revert i pos pre mid. induction Hl as [|a l Ha Hl IH];
    intros i pos pre mid Hh -> Hm.
  { apply nil_length_inv in Hm as ->. cbn. by rewrite Z.add_0_r. }
  rewrite images_cons in *. apply holds_app in Hh as [Hh1 Hh2]. zlen_simpl.
  destruct mid as [|x mid]; [done|]. cbn [client_read_addresses length].
  destruct (holds_image _ _ _ Ha Hh1) as (E1 & E2 & E3). rewrite E1. cbn [mbind option_bind].
  fold (address_data_len a). rewrite E2. cbn [mbind option_bind]. rewrite data_image by done.
  cbn [mbind option_bind]. rewrite E3. cbn [mbind option_bind].
  rewrite <- app_comm_cons, oset_middle by done. cbn [mbind option_bind].
  destruct (image_length a Ha) as [Hi _].
  replace (pre ++ mkAddress (a_data a) (a_port a) (a_type a) :: mid ++ post)
    with ((pre ++ [a]) ++ mid ++ post) by (rewrite <- app_assoc; by destruct a).
  replace (pos + 1 + address_data_len a + 2) with (pos + zlen (image a)) by lia.
  rewrite IH; [|done|by rewrite zlen_app|by injection Hm].
  rewrite <- app_assoc. do 2 f_equal. lia.
Qed.
Lemma write_public_addresses_spec l i addrs pre post img k :
  Forall wf l -> addrs = pre ++ l ++ post -> i = zlen pre -> zlen (images l) <= Z.of_nat k ->
  write_public_addresses (length l) i addrs (img ++ replicate k 0) (zlen img)
  = Some ((img ++ images l) ++ replicate (k - length (images l)) 0, zlen (img ++ images l)).
Proof.
  intros Hl. revert i pre img k. induction Hl as [|a l Ha Hl IH]; intros i pre img k -> -> Hk.
  { cbn. by rewrite app_nil_r, Nat.sub_0_r. }
  rewrite images_cons in *. zlen_simpl. pose proof (images_length l Hl).
  destruct (image_length a Ha) as [Hi Hd]. cbn [write_public_addresses length].
  rewrite <- app_comm_cons, oget_middle by done. cbn [mbind option_bind].
  rewrite write_address_image; [|done|lia|rewrite zlen_replicate; lia].
  change (replicate 20 0) with ([] ++ replicate 20 0).
  unfold zlen in Hk, H, Hi.
  rewrite mwrite_tail; [|done|lia]. cbn [mbind option_bind app].
  rewrite (holds_mread _ _ (image a)); [|apply holds_here|done]. cbn [mbind option_bind].
  rewrite mwrite_tail; [|done|lia]. cbn [mbind option_bind].
  rewrite <- zlen_app, IH with (pre := pre ++ [a]); [|by rewrite <- app_assoc| |unfold zlen in *; lia].
  - rewrite length_app, <- !app_assoc, Nat.sub_add_distr. by rewrite !zlen_app.
  - by rewrite zlen_app.
Qed.

(** ** The private part *)

Definition private_image (t : PrivateConnectToken) (l : list address) : bytes :=
  le_bytes 8 (client_id t) ++ le_bytes 4 (timeout_seconds t) ++
  le_bytes 4 (num_server_addresses t) ++ images l ++
  client_to_server_key t ++ server_to_client_key t ++ user_data t.

(** A token for the servers [l]. *)
Definition wf_private (t : PrivateConnectToken) (l : list address) : Prop :=
  is_u64 (client_id t) /\ is_u32 (timeout_seconds t) /\ num_server_addresses t = zlen l /\
  1 <= zlen l <= 32 /\ Forall wf l /\
  server_addresses t = l ++ replicate (32 - length l) address_zero /\
  length (client_to_server_key t) = 32%nat /\ length (server_to_client_key t) = 32%nat /\
  length (user_data t) = 256%nat.

Lemma private_image_length t l : wf_private t l -> 336 <= zlen (private_image t l) <= 944.
Proof.
  intros (_ & _ & _ & Hn & Hl & _ & H1 & H2 & H3). unfold private_image. zlen_simpl.
  pose proof (images_length l Hl). unfold zlen in *. lia.
Qed.

Lemma mwrite_all buf data : zlen buf = zlen data -> mwrite buf 0 data = Some data.
Proof.
  intros H. rewrite mwrite_Some by (pose proof (zlen_nonneg data); lia).
  unfold zlen in *. rewrite drop_ge by (cbn; lia). by rewrite app_nil_r.
Qed.

Ltac store := rewrite mwrite_tail;
  [cbn [mbind option_bind]|unfold zlen; rewrite ?length_app, ?length_le_bytes; cbn; lia
  |rewrite ?length_app, ?length_le_bytes; cbn; lia].

Lemma serialize_spec t l buf :
  wf_private t l -> zlen buf = TOKEN_PRIVATE_SIZE ->
  serialize_private_token t buf TOKEN_PRIVATE_SIZE
  = Some (zlen (private_image t l),
          private_image t l ++ replicate (1008 - length (private_image t l)) 0).
Proof.
  intros Hwf Hb. pose proof (private_image_length t l Hwf) as Hlen. revert Hlen.
  destruct Hwf as (Hc & Ht & Hnum & Hn & Hl & Haddr & H1 & H2 & H3).
  pose proof (images_length l Hl) as Hil. unfold private_image. zlen_simpl. intros Hlen.
  unfold serialize_private_token. rewrite (proj2 (Z.ltb_ge _ _)) by (vm_compute; done).
  rewrite mwrite_all by (rewrite Hb, zlen_replicate; done). cbn [mbind option_bind]. cbv zeta.
  change (replicate (Z.to_nat TOKEN_PRIVATE_SIZE) 0) with ([] ++ replicate 1008 0).
  store. store. store. rewrite Hnum. replace (Z.to_nat (zlen l)) with (length l) by (unfold zlen; lia).
  rewrite (write_addresses_spec l 0 _ [] (replicate (32 - length l) address_zero)
    (([] ++ le_bytes 8 (client_id t)) ++ le_bytes 4 (timeout_seconds t) ++ le_bytes 4 (zlen l)));
    [|done..|unfold zlen in *; rewrite !length_le_bytes; lia].
  cbn [mbind option_bind]. unfold zlen in Hlen, Hil.
  store. store. store. rewrite (proj2 (Z.ltb_ge _ _)).
  - rewrite H1, H2, H3, !length_app, !length_le_bytes, H1, H2, H3. cbn [app]. rewrite <- !app_assoc.
    f_equal. f_equal; [unfold zlen; rewrite ?length_app, ?length_le_bytes; cbn; lia|].
    do 7 f_equal. f_equal. lia.
  - unfold TOKEN_PRIVATE_SIZE, zlen. rewrite !length_app, !length_le_bytes. cbn. lia.
Qed.

Lemma deserialize_spec t l buf :
  wf_private t l -> holds buf 0 (private_image t l) ->
  deserialize_private_token buf TOKEN_PRIVATE_SIZE = Some (inr t).
Proof.
  intros Hwf Hh. pose proof (private_image_length t l Hwf) as Hlen.
  destruct Hwf as (Hc & Ht & Hnum & Hn & Hl & Haddr & H1 & H2 & H3).
  unfold private_image in *. revert Hlen. zlen_simpl. intros Hlen.
  do 6 (apply holds_app in Hh as [? Hh]). zlen_simpl.
  unfold deserialize_private_token. rewrite (proj2 (Z.ltb_ge _ _)) by (vm_compute; done). cbv zeta.
  rewrite (holds_mread_u buf 0 8 _ H Hc). cbn [mbind option_bind].
  rewrite (holds_mread_u buf (0 + 8) 4 _ H0 Ht). cbn [mbind option_bind].
  rewrite (holds_mread_u buf (0 + 8 + 4) 4 _ H4 ltac:(rewrite Hnum; lia)). cbn [mbind option_bind].
  rewrite Hnum. rewrite (proj2 (Z.eqb_neq _ _)), (proj2 (Z.ltb_ge _ _))
    by (unfold NETUDP_MAX_SERVERS_PER_TOKEN; lia). cbn [orb].
  replace (Z.to_nat (zlen l)) with (length l) by (unfold zlen; lia).
  replace (replicate 32 address_zero) with
    ([] ++ replicate (length l) address_zero ++ replicate (32 - length l) address_zero)
    by (cbn [app]; rewrite <- replicate_add; f_equal; unfold zlen in *; lia).
  erewrite read_addresses_spec; [|done|done|unfold TOKEN_PRIVATE_SIZE; unfold zlen in *; lia|done
    |by rewrite length_replicate].
  cbn [mbind option_bind app]. 
  assert (zlen (client_to_server_key t) = 32 /\ zlen (server_to_client_key t) = 32 /\
    zlen (user_data t) = 256) as (E1 & E2 & E3) by (unfold zlen; lia).
  rewrite E1, ?E2 in *.
  rewrite (holds_mread buf (0 + 8 + 4 + 4 + zlen (images l)) _ 32 H6) by done.
  cbn [mbind option_bind].
  rewrite (holds_mread buf (0 + 8 + 4 + 4 + zlen (images l) + 32) _ 32 H7) by done.
  cbn [mbind option_bind].
  rewrite (holds_mread buf (0 + 8 + 4 + 4 + zlen (images l) + 32 + 32) _ 256 Hh) by done.
  cbn [mbind option_bind].
  rewrite <- Haddr, <- Hnum. by destruct t.
Qed.

(** ** Generation, validation and the client's view *)

Definition parses (s : str) (a : address) : Prop := netudp_parse_address s = (NETUDP_OK, a).

Lemma parse_addresses_spec strs l i spre pre mid post :
  Forall2 parses strs l -> i = zlen pre -> zlen spre = zlen pre -> length mid = length l ->
  parse_addresses (length l) i (spre ++ strs) (pre ++ mid ++ post) = Some (inr (pre ++ l ++ post)).
Proof.
  intros Hf. revert i spre pre mid. induction Hf as [|s a strs l Hp Hf IH];
    intros i spre pre mid -> Hs Hm.
  { by apply nil_length_inv in Hm as ->. }
  destruct mid as [|x mid]; [done|]. cbn [parse_addresses length].
  rewrite oget_middle by done. cbn [mbind option_bind]. rewrite Hp.
  rewrite <- app_comm_cons, oset_middle by done. cbn [mbind option_bind].
  rewrite Z.eqb_refl. cbn [negb].
  replace (pre ++ a :: mid ++ post) with ((pre ++ [a]) ++ mid ++ post) by by rewrite <- app_assoc.
  replace (spre ++ s :: strs) with ((spre ++ [s]) ++ strs) by by rewrite <- app_assoc.
  rewrite IH; [by rewrite <- app_assoc|by rewrite zlen_app|zlen_simpl; lia|by injection Hm].
Qed.
Lemma parses_wf strs l : Forall2 parses strs l -> Forall wf l.
Proof. induction 1 as [|s a strs l Hp _ IH]; constructor; [by apply parse_wf in Hp|done]. Qed.

Definition token_head (protocol_id create expire : Z) (nonce : bytes) : bytes :=
  Crypto.NETUDP_VERSION_INFO ++ le_bytes 8 protocol_id ++ le_bytes 8 create ++
  le_bytes 8 expire ++ nonce.
Definition token_tail (timeout : Z) (l : list address) (c2s s2c : bytes) : bytes :=
  le_bytes 4 timeout ++ le_bytes 4 (zlen l) ++ images l ++ c2s ++ s2c.
Definition head_aad (protocol_id expire : Z) : bytes :=
  Crypto.NETUDP_VERSION_INFO ++ le_bytes 8 protocol_id ++ le_bytes 8 expire.

Lemma version_length : length Crypto.NETUDP_VERSION_INFO = 13%nat.
Proof. done. Qed.

(** The fields of a token's head, wherever the rest came from. *)
Lemma head_fields pid create expire nonce rest :
  is_u64 pid -> is_u64 expire -> length nonce = 24%nat ->
  let token := token_head pid create expire nonce ++ rest in
  mread token TOKEN_VERSION_OFFSET 13 = Some Crypto.NETUDP_VERSION_INFO /\
  mread_u token TOKEN_PROTOCOL_ID_OFFSET 8 = Some pid /\
  mread_u token TOKEN_EXPIRE_TS_OFFSET 8 = Some expire /\
  token_aad token = Some (head_aad pid expire) /\
  mread token TOKEN_NONCE_OFFSET 24 = Some nonce /\ holds token TOKEN_PRIVATE_OFFSET rest.
Proof.
  intros Hp He Hn token.
  assert (holds token 0 (token_head pid create expire nonce ++ rest)) as Hh
    by (exists [], []; by rewrite app_nil_r).
  apply holds_app in Hh as [Hh Hrest]. unfold token_head in Hh, Hrest.
  do 4 (apply holds_app in Hh as [? Hh]). zlen_simpl.
  replace (zlen nonce) with 24 in * by (unfold zlen; lia). clearbody token.
  assert (mread token TOKEN_VERSION_OFFSET 13 = Some Crypto.NETUDP_VERSION_INFO) as E1
    by by apply (holds_mread token 0 _ 13 H).
  assert (mread token TOKEN_PROTOCOL_ID_OFFSET 8 = Some (le_bytes 8 pid)) as E2
    by by apply (holds_mread token 13 _ 8 H0).
  assert (mread token TOKEN_EXPIRE_TS_OFFSET 8 = Some (le_bytes 8 expire)) as E3
    by by apply (holds_mread token 29 _ 8 H2).
  split; [done|]. split; [by apply (holds_mread_u token 13 8 _ H0)|].
  split; [by apply (holds_mread_u token 29 8 _ H2)|].
  split; [unfold token_aad; by rewrite E1, E2, E3|].
  split; [|done]. by apply (holds_mread token 37 _ 24 Hh); unfold zlen; lia.
Qed.

Lemma client_read_spec token l tmo c2s s2c old :
  Forall wf l -> 1 <= zlen l <= 32 -> is_u32 tmo -> length c2s = 32%nat -> length s2c = 32%nat ->
  length old = 32%nat -> holds token TOKEN_AFTER_PRIVATE (token_tail tmo l c2s s2c) ->
  client_read_token token old = Some (inr (zlen l, mkPublic tmo (l ++ drop (length l) old) c2s s2c)).
Proof.
  intros Hl Hc Ht H1 H2 Hold Hh. unfold token_tail in Hh.
  do 4 (apply holds_app in Hh as [? Hh]). zlen_simpl.
  unfold client_read_token. cbv zeta.
  rewrite (holds_mread_u token TOKEN_AFTER_PRIVATE 4 tmo) by done. cbn [mbind option_bind].
  rewrite (holds_mread_u token (TOKEN_AFTER_PRIVATE + 4) 4 (zlen l)) by (done || (cbn; lia)).
  cbn [mbind option_bind].
  rewrite (proj2 (Z.eqb_neq _ _)), (proj2 (Z.ltb_ge _ _))
    by (unfold NETUDP_MAX_SERVERS_PER_TOKEN; lia). cbn [orb].
  replace (Z.to_nat (zlen l)) with (length l) by (unfold zlen; lia).
  rewrite <- (take_drop (length l) old) at 1.
  rewrite (client_read_addresses_spec l 0 _ _ [] (take (length l) old) (drop (length l) old));
    [|done..|rewrite length_take; unfold zlen in *; lia].
  cbn [mbind option_bind app]. assert (zlen c2s = 32 /\ zlen s2c = 32) as [E1 E2] by (unfold zlen; lia).
  rewrite E1 in *.
  rewrite (holds_mread token (TOKEN_AFTER_PRIVATE + 4 + 4 + zlen (images l)) c2s) by done.
  cbn [mbind option_bind].
  by rewrite (holds_mread token (TOKEN_AFTER_PRIVATE + 4 + 4 + zlen (images l) + 32) s2c) by done.
Qed.

Lemma tail_length tmo l c2s s2c :
  Forall wf l -> length c2s = 32%nat -> length s2c = 32%nat ->
  zlen (token_tail tmo l c2s s2c) = 72 + zlen (images l) /\ 0 <= zlen (images l) <= 19 * zlen l.
Proof.
  intros Hl H1 H2. pose proof (images_length l Hl). split; [|done].
  unfold token_tail. zlen_simpl. unfold zlen. lia.
Qed.
Lemma write_tail_spec l tmo c2s s2c img k pos post :
  Forall wf l -> zlen l <= 32 -> pos = zlen img -> 680 <= Z.of_nat k ->
  length c2s = 32%nat -> length s2c = 32%nat ->
  (t ← mwrite (img ++ replicate k 0) pos (le_bytes 4 tmo);
   t ← mwrite t (pos + 4) (le_bytes 4 (zlen l));
   '(t, pos) ← write_public_addresses (length l) 0 (l ++ post) t (pos + 4 + 4);
   t ← mwrite t pos c2s;
   t ← mwrite t (pos + 32) s2c;
   Some (NETUDP_OK, t))
  = Some (NETUDP_OK, (img ++ token_tail tmo l c2s s2c) ++
            replicate (k - length (token_tail tmo l c2s s2c)) 0).
Proof.
  intros Hl Hc -> Hk H1 H2. pose proof (images_length l Hl) as Hil. unfold zlen in Hil, Hc.
  store. store.
  replace (zlen img + 4 + 4) with (zlen ((img ++ le_bytes 4 tmo) ++ le_bytes 4 (zlen l)))
    by (zlen_simpl; cbn; lia).
  rewrite (write_public_addresses_spec l 0 (l ++ post) [] post)
    by (done || (unfold zlen; rewrite !length_le_bytes; lia)).
  cbn [mbind option_bind]. store. store.
  unfold token_tail. rewrite !length_app, !Nat.sub_add_distr, <- !app_assoc. done.
Qed.

Section Agreement.
Context (crypto_aead_lock : bytes -> bytes -> bytes -> bytes -> bytes * bytes)
        (crypto_aead_unlock : bytes -> bytes -> bytes -> bytes -> bytes -> option bytes).
(** Monocypher's documented behaviour. *)
Context (lock_len : forall key nonce aad pt,
           length (crypto_aead_lock key nonce aad pt).1 = length pt /\
           length (crypto_aead_lock key nonce aad pt).2 = 16%nat)
        (unlock_lock : forall key nonce aad pt,
           crypto_aead_unlock key nonce aad (crypto_aead_lock key nonce aad pt).2
             (crypto_aead_lock key nonce aad pt).1 = Some pt).

(** What the backend put into the token. *)
Definition issued (l : list address) (tmo cid : Z) (ud : option bytes) (c2s s2c : bytes)
    : PrivateConnectToken :=
  mkPrivate cid (u32 tmo) (zlen l) (l ++ replicate (32 - length l) address_zero) c2s s2c
    (default (replicate 256 0) ud).

Record request_ok (l : list address) (cid pid : Z) (ud : option bytes) (c2s s2c nonce : bytes)
    : Prop := {
  req_count : 1 <= zlen l <= 32; req_cid : is_u64 cid; req_pid : is_u64 pid;
  req_ud : forall d, ud = Some d -> length d = 256%nat;
  req_c2s : length c2s = 32%nat; req_s2c : length s2c = 32%nat; req_nonce : length nonce = 24%nat }.

Lemma issued_wf l tmo cid pid ud c2s s2c nonce :
  Forall wf l -> request_ok l cid pid ud c2s s2c nonce -> wf_private (issued l tmo cid ud c2s s2c) l.
Proof.
  intros Hl [Hc Hcid Hpid Hud H1 H2 H3]. unfold wf_private, issued. cbn.
  split_and!; try done; try lia; try apply u32_range. destruct ud; [by apply Hud|done].
Qed.

Lemma generate_spec strs l exp tmo cid pid key ud c2s s2c nonce now buf :
  Forall2 parses strs l -> request_ok l cid pid ud c2s s2c nonce -> zlen buf = 2048 ->
  exists enc rest,
    netudp_generate_connect_token crypto_aead_lock (zlen l) strs exp tmo cid pid key ud
      c2s s2c nonce now buf
    = Some (NETUDP_OK, token_head pid (u64 now) (u64 (u64 now + u64 exp)) nonce ++ enc ++
              token_tail (u32 tmo) l c2s s2c ++ rest) /\
    zlen enc = 1024 /\ zlen (token_tail (u32 tmo) l c2s s2c ++ rest) = 963 /\
    Crypto.xchacha_decrypt crypto_aead_unlock key nonce
      (head_aad pid (u64 (u64 now + u64 exp))) enc
    = Some (private_image (issued l tmo cid ud c2s s2c) l ++
            replicate (1008 - length (private_image (issued l tmo cid ud c2s s2c) l)) 0).
Proof.
  intros Hf Hreq Hb. pose proof (parses_wf _ _ Hf) as Hwf.
  pose proof (issued_wf l tmo cid pid ud c2s s2c nonce Hwf Hreq) as Hpriv.
  pose proof (images_length l Hwf) as Hil.
  destruct Hreq as [Hc Hcid Hpid Hud H1 H2 H3].
  unfold netudp_generate_connect_token.
  rewrite (proj2 (Z.ltb_ge _ 1)), (proj2 (Z.ltb_ge _ (zlen l)))
    by (unfold NETUDP_MAX_SERVERS_PER_TOKEN; lia). cbn [orb].
  replace (Z.to_nat (zlen l)) with (length l) by (unfold zlen; lia).
  replace (replicate 32 address_zero) with
    ([] ++ replicate (length l) address_zero ++ replicate (32 - length l) address_zero)
    by (cbn [app]; rewrite <- replicate_add; f_equal; unfold zlen in *; lia).
  rewrite (parse_addresses_spec strs l 0 []) by (done || by rewrite length_replicate).
  cbn [mbind option_bind app]. rewrite (u32_small (zlen l)) by (unfold is_u32; lia).
  fold (issued l tmo cid ud c2s s2c).
  rewrite (serialize_spec _ l) by (done || by rewrite zlen_replicate).
  cbn [mbind option_bind]. pose proof (private_image_length _ _ Hpriv) as Hpl.
  rewrite (proj2 (Z.ltb_ge _ 0)) by lia.
  set (plain := private_image _ _ ++ _).
  assert (zlen plain = 1008) as Hplain.
  { unfold plain, zlen in *. rewrite length_app, length_replicate. lia. }
  rewrite mwrite_all by (rewrite Hb, zlen_replicate; done). cbn [mbind option_bind]. cbv zeta.
  change (replicate 2048 0) with ([] ++ replicate 2048 0).
  pose proof version_length as Hv.
  store. store. store. store. store.
  set (k := (2048 - _ - _ - _ - _ - _)%nat).
  set (expire := u64 (u64 now + u64 exp)).
  change ([] ++ Crypto.NETUDP_VERSION_INFO) with Crypto.NETUDP_VERSION_INFO.
  assert (k = 1987%nat) as -> by (unfold k; rewrite !length_le_bytes, Hv, H3; done).
  replace ((((Crypto.NETUDP_VERSION_INFO ++ le_bytes 8 pid) ++ le_bytes 8 (u64 now)) ++
    le_bytes 8 expire) ++ nonce) with (token_head pid (u64 now) expire nonce)
    by (unfold token_head; by rewrite <- !app_assoc).
  destruct (head_fields pid (u64 now) expire nonce (replicate 1987 0)) as (_ & _ & _ & -> & _ & _);
    [done|apply u64_range|done|]. cbn [mbind option_bind].
  destruct (Crypto.xchacha_encrypt_correct _ _ lock_len unlock_lock key nonce
    (head_aad pid expire) plain) as (enc & -> & Hel & Hdec).
  assert (length (token_head pid (u64 now) expire nonce) = 61%nat) as Hhl
    by (unfold token_head; rewrite !length_app, !length_le_bytes, Hv, H3; done).
  unfold zlen in Hel, Hplain, Hil, Hc.
  replace (replicate 1987 0) with (replicate (1024 + 963) 0) by done.
  rewrite mwrite_tail; [|unfold zlen; rewrite Hhl; done|lia]. cbn [mbind option_bind].
  rewrite (write_tail_spec l (u32 tmo)); [|done|unfold zlen; lia|..|done|done].
  - exists enc, (replicate (1024 + 963 - length enc - length (token_tail (u32 tmo) l c2s s2c)) 0).
    split; [by rewrite <- !app_assoc|]. split; [unfold zlen; lia|]. split; [|done].
    unfold zlen. rewrite length_app, length_replicate.
    pose proof (tail_length (u32 tmo) l c2s s2c Hwf H1 H2). unfold zlen in *. lia.
  - unfold zlen. rewrite length_app, Hhl. lia.
  - unfold zlen. lia.
Qed.

(** Validation of a generated token, up to the check of the server's address. *)
Lemma validate_issued pid create expire key nonce enc rest t plain l sa :
  is_u64 pid -> is_u64 expire -> length nonce = 24%nat -> zlen enc = 1024 ->
  Crypto.xchacha_decrypt crypto_aead_unlock key nonce (head_aad pid expire) enc = Some plain ->
  wf_private t l -> holds plain 0 (private_image t l) -> 
  forall pid' time,
  validate_connect_token crypto_aead_unlock
    (token_head pid create expire nonce ++ enc ++ rest) pid' key time sa
  = if negb (pid =? pid') then Some (inl NETUDP_ERROR_INVALID_PARAM)
    else if expire <=? time then Some (inl NETUDP_ERROR_TIMEOUT)
    else match sa with
         | None => Some (inr t)
         | Some a => if listed a t then Some (inr t) else Some (inl NETUDP_ERROR_INVALID_PARAM)
         end.
Proof.
  intros Hp He Hn Hl Hd Hwf Hh pid' time.
  destruct (head_fields pid create expire nonce (enc ++ rest) Hp He Hn)
    as (E1 & E2 & E3 & E4 & E5 & E6).
  unfold validate_connect_token. rewrite E1. cbn [mbind option_bind].
  rewrite bool_decide_true by done. cbn [negb]. rewrite E2. cbn [mbind option_bind].
  case_if; [done|]. rewrite E3. cbn [mbind option_bind]. case_if; [done|].
  rewrite E4, E5. cbn [mbind option_bind]. apply holds_app in E6 as [E6 _].
  rewrite (holds_mread _ _ enc) by done. cbn [mbind option_bind]. rewrite Hd.
  by rewrite (deserialize_spec t l) by done.
Qed.

Lemma listed_issued l tmo cid ud c2s s2c a :
  listed a (issued l tmo cid ud c2s s2c) = existsb (netudp_address_equal a) l.
Proof.
  unfold listed, issued. cbn. replace (Z.to_nat (zlen l)) with (length l) by (unfold zlen; lia).
  by rewrite take_app_length.
Qed.
Lemma address_equal_refl a : netudp_address_equal a a = true.
Proof. by apply address_equal_spec. Qed.

(** C6.  Backend, server and client agree on a generated token.  For any list of
    1..32 server addresses that parse, the token comes out without error; every
    listed server accepts it until it expires and reads exactly what was issued
    (client id, timeout, addresses, both keys, user data); it is refused with the
    documented error after expiry, by another protocol, and by a server that is
    not listed; and the client reads the same timeout, addresses and keys from
    the public part. *)
Theorem connect_token_agreement strs l exp tmo cid pid key ud c2s s2c nonce now buf old :
  Forall2 parses strs l -> request_ok l cid pid ud c2s s2c nonce -> zlen buf = 2048 ->
  length old = 32%nat ->
  let expire := u64 (u64 now + u64 exp) in
  exists token,
    netudp_generate_connect_token crypto_aead_lock (zlen l) strs exp tmo cid pid key ud
      c2s s2c nonce now buf = Some (NETUDP_OK, token) /\ zlen token = 2048 /\
    (forall sa time, sa ∈ l -> time < expire ->
       validate_connect_token crypto_aead_unlock token pid key time (Some sa)
       = Some (inr (issued l tmo cid ud c2s s2c))) /\
    (forall sa time, expire <= time ->
       validate_connect_token crypto_aead_unlock token pid key time sa
       = Some (inl NETUDP_ERROR_TIMEOUT)) /\
    (forall sa time pid', pid' <> pid ->
       validate_connect_token crypto_aead_unlock token pid' key time sa
       = Some (inl NETUDP_ERROR_INVALID_PARAM)) /\
    (forall sa time, time < expire -> existsb (netudp_address_equal sa) l = false ->
       validate_connect_token crypto_aead_unlock token pid key time (Some sa)
       = Some (inl NETUDP_ERROR_INVALID_PARAM)) /\
    client_read_token token old
    = Some (inr (zlen l, mkPublic (u32 tmo) (l ++ drop (length l) old) c2s s2c)).
Proof.
  intros Hf Hreq Hb Hold expire. pose proof (parses_wf _ _ Hf) as Hwf.
  pose proof (issued_wf l tmo cid pid ud c2s s2c nonce Hwf Hreq) as Hpriv.
  destruct (generate_spec strs l exp tmo cid pid key ud c2s s2c nonce now buf Hf Hreq Hb)
    as (enc & rest & Egen & Hel & Htl & Hdec). fold expire in Egen, Hdec.
  destruct Hreq as [Hc Hcid Hpid Hud H1 H2 H3].
  eexists. split; [exact Egen|].
  pose proof (fun sa => validate_issued pid (u64 now) expire key nonce enc
    (token_tail (u32 tmo) l c2s s2c ++ rest) _ _ l sa Hpid (u64_range _) H3 Hel Hdec Hpriv
    (holds_here _ _)) as Hval.
  split; [|split; [|split; [|split; [|split]]]].
  - rewrite !zlen_app in *. unfold token_head. zlen_simpl. unfold zlen in *. rewrite version_length. lia.
  - intros sa time Hin Ht. rewrite Hval, Z.eqb_refl, (proj2 (Z.leb_gt _ _)) by done. cbn [negb].
    rewrite listed_issued. rewrite (proj2 (existsb_exists _ _)); [done|].
    exists sa. split; [by apply list_elem_of_In|apply address_equal_refl].
  - intros sa time Ht. by rewrite Hval, Z.eqb_refl, (proj2 (Z.leb_le _ _)).
  - intros sa time pid' Hne. by rewrite Hval, (proj2 (Z.eqb_neq _ _)) by done.
  - intros sa time Ht Hnot. rewrite Hval, Z.eqb_refl, (proj2 (Z.leb_gt _ _)) by done. cbn [negb].
    by rewrite listed_issued, Hnot.
  - destruct (head_fields pid (u64 now) expire nonce (enc ++ token_tail (u32 tmo) l c2s s2c ++ rest)
      Hpid (u64_range _) H3) as (_ & _ & _ & _ & _ & Hrest).
    apply holds_app in Hrest as [_ Hrest]. rewrite Hel in Hrest.
    apply holds_app in Hrest as [Hrest _].
    apply client_read_spec; try done. apply u32_range.
Qed.
End Agreement.

(** A stand-in AEAD: the plaintext with a checksum of the key as the tag. *)
Definition demo_lock (key nonce aad pt : bytes) : bytes * bytes := (pt, take 16 (key ++ replicate 16 7)).
Definition demo_unlock (key nonce aad mac ct : bytes) : option bytes :=
  if bool_decide (mac = take 16 (key ++ replicate 16 7)) then Some ct else None.
Lemma demo_lock_len key nonce aad pt :
  length (demo_lock key nonce aad pt).1 = length pt /\ length (demo_lock key nonce aad pt).2 = 16%nat.
Proof. split; [done|]. cbn [snd demo_lock]. rewrite length_take, length_app, length_replicate. lia. Qed.
Lemma demo_unlock_lock key nonce aad pt :
  demo_unlock key nonce aad (demo_lock key nonce aad pt).2 (demo_lock key nonce aad pt).1 = Some pt.
Proof. unfold demo_unlock. by rewrite bool_decide_true. Qed.

Definition demo_addr : str := [49; 46; 50; 46; 51; 46; 52; 58; 55; 55].  (** "1.2.3.4:77" *)
Lemma connect_token_agreement_witness :
  exists token,
    netudp_generate_connect_token demo_lock 1 [demo_addr] 60 10 5 6 (replicate 32 1) None
      (replicate 32 2) (replicate 32 3) (replicate 24 4) 1000 (replicate 2048 0)
    = Some (NETUDP_OK, token) /\
    client_read_token token (replicate 32 address_zero)
    = Some (inr (1, mkPublic 10 (mkAddress ([1; 2; 3; 4] ++ replicate 12 0) 77 1 ::
                                  replicate 31 address_zero) (replicate 32 2) (replicate 32 3))).
Proof.
  destruct (connect_token_agreement demo_lock demo_unlock demo_lock_len demo_unlock_lock [demo_addr]
    [mkAddress ([1; 2; 3; 4] ++ replicate 12 0) 77 1] 60 10 5 6 (replicate 32 1) None
    (replicate 32 2) (replicate 32 3) (replicate 24 4) 1000 (replicate 2048 0)
    (replicate 32 address_zero)) as (token & E & _ & _ & _ & _ & _ & Ec).
  - repeat constructor.
  - split; try done; by vm_compute.
  - by vm_compute.
  - reflexivity.
  - exists token. split; [exact E|exact Ec].
Defined.

(** ** Hostile input *)

Lemma mread_safe buf off n : 0 <= off -> 0 <= n -> off + n <= zlen buf ->
  exists d, mread buf off n = Some d /\ zlen d = n.
Proof.
  intros H1 H2 H3. rewrite mread_Some by done. eexists. split; [done|].
  unfold zlen in *. rewrite length_take, length_drop. lia.
Qed.
Lemma read_port_safe buf pos : 0 <= pos -> pos + 2 <= zlen buf -> exists p, read_port buf pos = Some p.
Proof.
  intros H1 H2. unfold read_port. rewrite !oget_aget by lia. by eexists.
Qed.
Lemma data_safe d : zlen d <= 16 -> exists b, mwrite (a_data address_zero) 0 d = Some b.
Proof. intros Hd. rewrite mwrite_Some; [by eexists|lia|done]. Qed.

Lemma read_address_safe buf pos n :
  0 <= pos -> zlen buf = n -> exists r, read_address buf pos (n - pos) = Some r /\
    match r with inl _ => True | inr (k, _) => 0 <= k <= 19 end.
Proof.
  intros Hp <-. unfold read_address. case_if; [by eexists|].
  rewrite oget_aget by lia. cbn [mbind option_bind]. repeat case_if; try by eexists.
  - destruct (mread_safe buf (pos + 1) 4) as (d & -> & Hd); [lia..|]. cbn [mbind option_bind].
    destruct (data_safe d) as [b ->]; [lia|]. cbn [mbind option_bind].
    destruct (read_port_safe buf (pos + 5)) as [p ->]; [lia..|]. by eexists.
  - destruct (mread_safe buf (pos + 1) 16) as (d & -> & Hd); [lia..|]. cbn [mbind option_bind].
    destruct (data_safe d) as [b ->]; [lia|]. cbn [mbind option_bind].
    destruct (read_port_safe buf (pos + 17)) as [p ->]; [lia..|]. by eexists.
Qed.
Lemma read_addresses_safe k i buf n pos addrs :
  0 <= pos -> zlen buf = n -> 0 <= i -> i + Z.of_nat k <= zlen addrs ->
  exists r, read_addresses k i buf n pos addrs = Some r /\
    match r with inl _ => True | inr (_, p) => pos <= p <= pos + 19 * Z.of_nat k end.
Proof.
  revert i pos addrs. induction k as [|k IH]; intros i pos addrs Hp Hn Hi Hk.
  { eexists. split; [done|]. cbn. lia. }
  cbn [read_addresses]. destruct (read_address_safe buf pos n Hp Hn) as ([e|[c a]] & -> & Hr);
    cbn [mbind option_bind]; [by eexists|].
  rewrite oset_aset by lia. cbn [mbind option_bind].
  destruct (IH (i + 1) (pos + c) (aset addrs i a)) as (r & -> & Hr'); zlen_simpl; [lia..|].
  eexists. split; [done|]. destruct r as [|[? p]]; [done|lia].
Qed.
Lemma client_read_addresses_safe k i token pos addrs :
  0 <= pos -> 0 <= i -> i + Z.of_nat k <= zlen addrs -> pos + 19 * Z.of_nat k <= zlen token ->
  exists l p, client_read_addresses k i token pos addrs = Some (l, p) /\
    pos <= p <= pos + 19 * Z.of_nat k /\ length l = length addrs.
Proof.
  revert i pos addrs. induction k as [|k IH]; intros i pos addrs Hp Hi Hk Ht.
  { eexists _, _. split; [done|]. cbn. split; [lia|done]. }
  cbn [client_read_addresses]. rewrite oget_aget by lia. cbn [mbind option_bind].
  set (len := if _ =? NETUDP_ADDRESS_IPV4 then 4 else _). assert (0 <= len <= 16) as Hlen by (unfold len; repeat case_if; lia).
  clearbody len.
  destruct (mread_safe token (pos + 1) len) as (d & -> & Hd); [lia..|]. cbn [mbind option_bind].
  destruct (data_safe d) as [b ->]; [lia|]. cbn [mbind option_bind].
  destruct (read_port_safe token (pos + 1 + len)) as [p ->]; [lia..|]. cbn [mbind option_bind].
  rewrite oset_aset by lia. cbn [mbind option_bind].
  edestruct (IH (i + 1) (pos + 1 + len + 2)) as (l & q & -> & Hq & Hlq); [| | |lia|]; zlen_simpl; [lia..|].
  eexists _, _. split; [done|]. rewrite length_aset in Hlq. split; [lia|done].
Qed.

(** The client's reading of any 2048 bytes; [num] is the count it finds. *)
Lemma client_read_safe token old :
  zlen token = 2048 -> length old = 32%nat ->
  exists num r, mread_u token (TOKEN_AFTER_PRIVATE + 4) 4 = Some num /\ client_read_token token old = Some r /\
    match r with
    | inl _ => num = 0 \/ 32 < num
    | inr (n, pub) => n = num /\ num <> 0 /\ num <= 32 /\ length (pub_addresses pub) = 32%nat
    end.
Proof.
  intros Ht Hold. unfold client_read_token, mread_u, TOKEN_AFTER_PRIVATE, TOKEN_PRIVATE_OFFSET,
    TOKEN_PRIVATE_ENCRYPTED_SIZE. cbv zeta. change (Z.of_nat 4) with 4.
  destruct (mread_safe token (61 + 1024) 4) as (? & -> & _); [lia..|].
  destruct (mread_safe token (61 + 1024 + 4) 4) as (nb & -> & _); [lia..|].
  cbn [mbind option_bind fmap option_fmap option_map].
  set (num := le_value nb). exists num. unfold NETUDP_MAX_SERVERS_PER_TOKEN in *.
  case_if; [eexists; split_and!; [done..|cbn; lia]|].
  destruct (client_read_addresses_safe (Z.to_nat num) 0 token (61 + 1024 + 4 + 4) old)
    as (l & p & -> & Hp & Hl); [lia|lia|unfold zlen; lia|lia|]. cbn [mbind option_bind].
  destruct (mread_safe token p 32) as (? & -> & _); [lia..|]. cbn [mbind option_bind].
  destruct (mread_safe token (p + 32) 32) as (? & -> & _); [lia..|].
  eexists. split; [done|]. split; [done|]. cbn [pub_addresses]. split_and!; [done|lia|lia|congruence].
Qed.

Lemma deserialize_safe buf :
  zlen buf = TOKEN_PRIVATE_SIZE -> exists r, deserialize_private_token buf TOKEN_PRIVATE_SIZE = Some r.
Proof.
  intros Hb. pose proof Hb as Hb'. unfold TOKEN_PRIVATE_SIZE in Hb'.
  unfold deserialize_private_token. rewrite (proj2 (Z.ltb_ge _ _)) by (vm_compute; done). cbv zeta.
  unfold mread_u. change (Z.of_nat 8) with 8; change (Z.of_nat 4) with 4.
  destruct (mread_safe buf 0 8) as (? & -> & _); [lia..|].
  destruct (mread_safe buf (0 + 8) 4) as (? & -> & _); [lia..|].
  destruct (mread_safe buf (0 + 8 + 4) 4) as (nb & -> & _); [lia..|]. cbn [mbind option_bind fmap option_fmap option_map].
  set (num := le_value nb). case_if; [by eexists|]. unfold NETUDP_MAX_SERVERS_PER_TOKEN in *.
  destruct (read_addresses_safe (Z.to_nat num) 0 buf TOKEN_PRIVATE_SIZE (0 + 8 + 4 + 4)
    (replicate 32 address_zero)) as ([e|[l p]] & -> & Hp); try (done || lia).
  { rewrite zlen_replicate. lia. }
  { by eexists. }
  cbn [mbind option_bind].
  destruct (mread_safe buf p 32) as (? & -> & _); [lia..|]. cbn [mbind option_bind].
  destruct (mread_safe buf (p + 32) 32) as (? & -> & _); [lia..|]. cbn [mbind option_bind].
  destruct (mread_safe buf (p + 32 + 32) 256) as (? & -> & _); [lia..|]. by eexists.
Qed.

(** No token, however malformed, makes the server or the client touch memory
    outside its buffers: validation of any 2048 bytes returns, and so does the
    client's reading of the public part.  The AEAD only has to return plaintexts
    of the ciphertext's length. *)
Theorem token_parsing_safe crypto_aead_unlock token pid key time sa old :
  (forall key nonce aad mac ct pt,
     crypto_aead_unlock key nonce aad mac ct = Some pt -> length pt = length ct) ->
  zlen token = 2048 -> length old = 32%nat ->
  (exists r, validate_connect_token crypto_aead_unlock token pid key time sa = Some r) /\
  (exists r, client_read_token token old = Some r).
Proof.
  intros Hlen Ht Hold. split.
  - unfold validate_connect_token, token_aad, TOKEN_VERSION_OFFSET, TOKEN_PROTOCOL_ID_OFFSET,
      TOKEN_EXPIRE_TS_OFFSET, TOKEN_NONCE_OFFSET, TOKEN_PRIVATE_OFFSET, TOKEN_PRIVATE_ENCRYPTED_SIZE,
      mread_u. change (Z.of_nat 8) with 8; change (Z.of_nat 4) with 4.
    destruct (mread_safe token 0 13) as (? & -> & _); [lia..|]. cbn [mbind option_bind].
    case_if; [by eexists|].
    destruct (mread_safe token 13 8) as (? & -> & _); [lia..|].
    destruct (mread_safe token 29 8) as (? & -> & _); [lia..|].
    destruct (mread_safe token 37 24) as (nonce & -> & _); [lia..|].
    destruct (mread_safe token 61 1024) as (enc & -> & Henc); [lia..|].
    cbn [mbind option_bind fmap option_fmap option_map].
    case_if; [by eexists|]. case_if; [by eexists|].
    destruct (Crypto.xchacha_decrypt _ _ _ _ _) as [plain|] eqn:Ed; [|by eexists].
    assert (zlen plain = TOKEN_PRIVATE_SIZE) as Hp.
    { unfold Crypto.xchacha_decrypt in Ed. case_if_in Ed; [done|]. apply Hlen in Ed.
      unfold TOKEN_PRIVATE_SIZE, zlen in *. rewrite Ed, length_take. lia. }
    destruct (deserialize_safe plain Hp) as [[e|out] ->]; cbn [mbind option_bind]; [by eexists|].
    destruct sa; [|by eexists]. case_if; by eexists.
  - destruct (client_read_safe token old Ht Hold) as (num & r & _ & -> & _). by eexists.
Qed.
Lemma token_parsing_safe_witness :
  (exists r, validate_connect_token demo_unlock (replicate 2048 255) 6 [] 5 None = Some r) /\
  (exists r, client_read_token (replicate 2048 255) (replicate 32 address_zero) = Some r).
Proof.
  apply token_parsing_safe; [|by vm_compute|reflexivity].
  intros key nonce aad mac ct pt. unfold demo_unlock. case_bool_decide; [|done]. by intros [= ->].
Defined.

End Token.
