(* ===== verification/Connection.v ===== *)
(** One connection (src/src/connection/connection.h): the packet-level state and,
    while it is active, the heap-allocated channels, reliable windows, reassembler
    and queue of delivered messages.

    The heartbeat and integrity fields, [fragment_send_id] and the cached socket
    address of the struct are left out: no code reads the former two, and the last
    is the address in the form of the operating system. *)

From S2P Require Import Prelude Bytes Double RingBuffer PacketTracker ReliableChannel Channel.
From S2P Require Import Fragment Address Rtt Bandwidth Stats PacketCrypto.

Module Connection.

Definition MAX_CHANNELS_PER_CONNECTION : Z := 4.
Definition NETUDP_MAX_MESSAGE_SIZE : Z := 288 * 1024.
Definition DELIVERED_SIZE : Z := 256.

(** [data] is the first [size] bytes of [uint8_t data[NETUDP_MTU]]. *)
Record DeliveredMessage : Type := mkDelivered {
  dm_data : bytes; dm_channel : Z; dm_sequence : Z; dm_valid : bool }.
#[global] Instance delivered_inhabited : Inhabited DeliveredMessage :=
  populate (mkDelivered [] 0 0 false).

Record ConnectionData : Type := mkData {
  channels : list Channel.channel;
  reliable_state : list Reliable.state;
  fragment_reassembler : Fragment.reassembler;
  delivered_messages : ring DeliveredMessage }.

Record Connection : Type := mkConn {
  active : bool;
  generation : Z;
  peer : Address.address;
  client_id : Z;
  user_data : bytes;
  key_epoch : Crypto.KeyEpoch;
  packet_tracker : PacketTracker.tracker;
  rtt : Rtt.estimator;
  num_channels : Z;
  cdata : option ConnectionData;
  bandwidth : Bandwidth.BandwidthBucket;
  budget : Bandwidth.QueuedBitsBudget;
  congestion : Bandwidth.CongestionControl;
  stats : Stats.ConnectionStats;
  connect_time : double;
  last_recv_time : double;
  last_send_time : double;
  last_keepalive_time : double;
  next_slow_tick : double;
  timeout_seconds : Z;
  pending_mask : Z;
  slot_id : Z }.

(** [Connection()]. *)
Definition fresh : Connection :=
  mkConn false 0 Address.address_zero 0 (replicate 256 0) Crypto.epoch_zero PacketTracker.reset
    Rtt.reset 0 None Bandwidth.bucket_default Bandwidth.budget_default Bandwidth.cc_default
    Stats.empty d0 d0 d0 d0 d0 10 0 65535.
#[global] Instance connection_inhabited : Inhabited Connection := populate fresh.

(** ** Assignment to one field *)

Definition set_active (c : Connection) (x : bool) : Connection :=
  mkConn x (generation c) (peer c) (client_id c) (user_data c) (key_epoch c)
    (packet_tracker c) (rtt c) (num_channels c) (cdata c) (bandwidth c) (budget c)
    (congestion c) (stats c) (connect_time c) (last_recv_time c) (last_send_time c)
    (last_keepalive_time c) (next_slow_tick c) (timeout_seconds c) (pending_mask c)
    (slot_id c).
Definition set_peer (c : Connection) (x : Address.address) : Connection :=
  mkConn (active c) (generation c) x (client_id c) (user_data c) (key_epoch c)
    (packet_tracker c) (rtt c) (num_channels c) (cdata c) (bandwidth c) (budget c)
    (congestion c) (stats c) (connect_time c) (last_recv_time c) (last_send_time c)
    (last_keepalive_time c) (next_slow_tick c) (timeout_seconds c) (pending_mask c)
    (slot_id c).
Definition set_client_id (c : Connection) (x : Z) : Connection :=
  mkConn (active c) (generation c) (peer c) x (user_data c) (key_epoch c)
    (packet_tracker c) (rtt c) (num_channels c) (cdata c) (bandwidth c) (budget c)
    (congestion c) (stats c) (connect_time c) (last_recv_time c) (last_send_time c)
    (last_keepalive_time c) (next_slow_tick c) (timeout_seconds c) (pending_mask c)
    (slot_id c).
Definition set_user_data (c : Connection) (x : bytes) : Connection :=
  mkConn (active c) (generation c) (peer c) (client_id c) x (key_epoch c)
    (packet_tracker c) (rtt c) (num_channels c) (cdata c) (bandwidth c) (budget c)
    (congestion c) (stats c) (connect_time c) (last_recv_time c) (last_send_time c)
    (last_keepalive_time c) (next_slow_tick c) (timeout_seconds c) (pending_mask c)
    (slot_id c).
Definition set_key_epoch (c : Connection) (x : Crypto.KeyEpoch) : Connection :=
  mkConn (active c) (generation c) (peer c) (client_id c) (user_data c) x
    (packet_tracker c) (rtt c) (num_channels c) (cdata c) (bandwidth c) (budget c)
    (congestion c) (stats c) (connect_time c) (last_recv_time c) (last_send_time c)
    (last_keepalive_time c) (next_slow_tick c) (timeout_seconds c) (pending_mask c)
    (slot_id c).
Definition set_packet_tracker (c : Connection) (x : PacketTracker.tracker) : Connection :=
  mkConn (active c) (generation c) (peer c) (client_id c) (user_data c) (key_epoch c) x
    (rtt c) (num_channels c) (cdata c) (bandwidth c) (budget c) (congestion c) (stats c)
    (connect_time c) (last_recv_time c) (last_send_time c) (last_keepalive_time c)
    (next_slow_tick c) (timeout_seconds c) (pending_mask c) (slot_id c).
Definition set_rtt (c : Connection) (x : Rtt.estimator) : Connection :=
  mkConn (active c) (generation c) (peer c) (client_id c) (user_data c) (key_epoch c)
    (packet_tracker c) x (num_channels c) (cdata c) (bandwidth c) (budget c) (congestion
    c) (stats c) (connect_time c) (last_recv_time c) (last_send_time c)
    (last_keepalive_time c) (next_slow_tick c) (timeout_seconds c) (pending_mask c)
    (slot_id c).
Definition set_num_channels (c : Connection) (x : Z) : Connection :=
  mkConn (active c) (generation c) (peer c) (client_id c) (user_data c) (key_epoch c)
    (packet_tracker c) (rtt c) x (cdata c) (bandwidth c) (budget c) (congestion c)
    (stats c) (connect_time c) (last_recv_time c) (last_send_time c)
    (last_keepalive_time c) (next_slow_tick c) (timeout_seconds c) (pending_mask c)
    (slot_id c).
Definition set_cdata (c : Connection) (x : option ConnectionData) : Connection :=
  mkConn (active c) (generation c) (peer c) (client_id c) (user_data c) (key_epoch c)
    (packet_tracker c) (rtt c) (num_channels c) x (bandwidth c) (budget c) (congestion
    c) (stats c) (connect_time c) (last_recv_time c) (last_send_time c)
    (last_keepalive_time c) (next_slow_tick c) (timeout_seconds c) (pending_mask c)
    (slot_id c).
Definition set_bandwidth (c : Connection) (x : Bandwidth.BandwidthBucket) : Connection :=
  mkConn (active c) (generation c) (peer c) (client_id c) (user_data c) (key_epoch c)
    (packet_tracker c) (rtt c) (num_channels c) (cdata c) x (budget c) (congestion c)
    (stats c) (connect_time c) (last_recv_time c) (last_send_time c)
    (last_keepalive_time c) (next_slow_tick c) (timeout_seconds c) (pending_mask c)
    (slot_id c).
Definition set_budget (c : Connection) (x : Bandwidth.QueuedBitsBudget) : Connection :=
  mkConn (active c) (generation c) (peer c) (client_id c) (user_data c) (key_epoch c)
    (packet_tracker c) (rtt c) (num_channels c) (cdata c) (bandwidth c) x (congestion c)
    (stats c) (connect_time c) (last_recv_time c) (last_send_time c)
    (last_keepalive_time c) (next_slow_tick c) (timeout_seconds c) (pending_mask c)
    (slot_id c).
Definition set_congestion (c : Connection) (x : Bandwidth.CongestionControl) : Connection :=
  mkConn (active c) (generation c) (peer c) (client_id c) (user_data c) (key_epoch c)
    (packet_tracker c) (rtt c) (num_channels c) (cdata c) (bandwidth c) (budget c) x
    (stats c) (connect_time c) (last_recv_time c) (last_send_time c)
    (last_keepalive_time c) (next_slow_tick c) (timeout_seconds c) (pending_mask c)
    (slot_id c).
Definition set_stats (c : Connection) (x : Stats.ConnectionStats) : Connection :=
  mkConn (active c) (generation c) (peer c) (client_id c) (user_data c) (key_epoch c)
    (packet_tracker c) (rtt c) (num_channels c) (cdata c) (bandwidth c) (budget c)
    (congestion c) x (connect_time c) (last_recv_time c) (last_send_time c)
    (last_keepalive_time c) (next_slow_tick c) (timeout_seconds c) (pending_mask c)
    (slot_id c).
Definition set_connect_time (c : Connection) (x : double) : Connection :=
  mkConn (active c) (generation c) (peer c) (client_id c) (user_data c) (key_epoch c)
    (packet_tracker c) (rtt c) (num_channels c) (cdata c) (bandwidth c) (budget c)
    (congestion c) (stats c) x (last_recv_time c) (last_send_time c)
    (last_keepalive_time c) (next_slow_tick c) (timeout_seconds c) (pending_mask c)
    (slot_id c).
Definition set_last_recv_time (c : Connection) (x : double) : Connection :=
  mkConn (active c) (generation c) (peer c) (client_id c) (user_data c) (key_epoch c)
    (packet_tracker c) (rtt c) (num_channels c) (cdata c) (bandwidth c) (budget c)
    (congestion c) (stats c) (connect_time c) x (last_send_time c) (last_keepalive_time
    c) (next_slow_tick c) (timeout_seconds c) (pending_mask c) (slot_id c).
Definition set_last_send_time (c : Connection) (x : double) : Connection :=
  mkConn (active c) (generation c) (peer c) (client_id c) (user_data c) (key_epoch c)
    (packet_tracker c) (rtt c) (num_channels c) (cdata c) (bandwidth c) (budget c)
    (congestion c) (stats c) (connect_time c) (last_recv_time c) x (last_keepalive_time
    c) (next_slow_tick c) (timeout_seconds c) (pending_mask c) (slot_id c).
Definition set_last_keepalive_time (c : Connection) (x : double) : Connection :=
  mkConn (active c) (generation c) (peer c) (client_id c) (user_data c) (key_epoch c)
    (packet_tracker c) (rtt c) (num_channels c) (cdata c) (bandwidth c) (budget c)
    (congestion c) (stats c) (connect_time c) (last_recv_time c) (last_send_time c) x
    (next_slow_tick c) (timeout_seconds c) (pending_mask c) (slot_id c).
Definition set_next_slow_tick (c : Connection) (x : double) : Connection :=
  mkConn (active c) (generation c) (peer c) (client_id c) (user_data c) (key_epoch c)
    (packet_tracker c) (rtt c) (num_channels c) (cdata c) (bandwidth c) (budget c)
    (congestion c) (stats c) (connect_time c) (last_recv_time c) (last_send_time c)
    (last_keepalive_time c) x (timeout_seconds c) (pending_mask c) (slot_id c).
Definition set_timeout_seconds (c : Connection) (x : Z) : Connection :=
  mkConn (active c) (generation c) (peer c) (client_id c) (user_data c) (key_epoch c)
    (packet_tracker c) (rtt c) (num_channels c) (cdata c) (bandwidth c) (budget c)
    (congestion c) (stats c) (connect_time c) (last_recv_time c) (last_send_time c)
    (last_keepalive_time c) (next_slow_tick c) x (pending_mask c) (slot_id c).
Definition set_pending_mask (c : Connection) (x : Z) : Connection :=
  mkConn (active c) (generation c) (peer c) (client_id c) (user_data c) (key_epoch c)
    (packet_tracker c) (rtt c) (num_channels c) (cdata c) (bandwidth c) (budget c)
    (congestion c) (stats c) (connect_time c) (last_recv_time c) (last_send_time c)
    (last_keepalive_time c) (next_slow_tick c) (timeout_seconds c) x (slot_id c).
Definition set_slot_id (c : Connection) (x : Z) : Connection :=
  mkConn (active c) (generation c) (peer c) (client_id c) (user_data c) (key_epoch c)
    (packet_tracker c) (rtt c) (num_channels c) (cdata c) (bandwidth c) (budget c)
    (congestion c) (stats c) (connect_time c) (last_recv_time c) (last_send_time c)
    (last_keepalive_time c) (next_slow_tick c) (timeout_seconds c) (pending_mask c) x.

(** ** Accessors of the heap data: [None] is a null or out-of-range access *)

Definition ch (d : ConnectionData) (i : Z) : option Channel.channel := oget (channels d) i.
Definition set_ch (d : ConnectionData) (i : Z) (x : Channel.channel) : ConnectionData :=
  mkData (aset (channels d) i x) (reliable_state d) (fragment_reassembler d) (delivered_messages d).
Definition rs (d : ConnectionData) (i : Z) : option Reliable.state := oget (reliable_state d) i.
Definition set_rs (d : ConnectionData) (i : Z) (x : Reliable.state) : ConnectionData :=
  mkData (channels d) (aset (reliable_state d) i x) (fragment_reassembler d) (delivered_messages d).
Definition set_frag (d : ConnectionData) (x : Fragment.reassembler) : ConnectionData :=
  mkData (channels d) (reliable_state d) x (delivered_messages d).
Definition set_delivered (d : ConnectionData) (x : ring DeliveredMessage) : ConnectionData :=
  mkData (channels d) (reliable_state d) (fragment_reassembler d) x.

(** [delivered().push_back(m)]: a full queue drops the message silently. *)
Definition deliver (d : ConnectionData) (m : DeliveredMessage) : ConnectionData :=
  set_delivered d (snd (RingBuffer.push_back DELIVERED_SIZE m (delivered_messages d))).

(** ** Life cycle *)

(** [ConnectionData()]. *)
Definition fresh_data : ConnectionData :=
  mkData (replicate (Z.to_nat MAX_CHANNELS_PER_CONNECTION) inhabitant)
    (replicate (Z.to_nat MAX_CHANNELS_PER_CONNECTION) Reliable.reset) inhabitant
    (RingBuffer.empty DELIVERED_SIZE).

Fixpoint init_channels (n : nat) (i : Z) (configs : list channel_config) (d : ConnectionData)
    : option ConnectionData :=
  match n with
  | O => Some d
  | S n =>
      c ← ch d i;
      cfg ← oget configs i;
      init_channels n (i + 1) configs
        (set_rs (set_ch d i (Channel.init c i cfg)) i Reliable.reset)
  end.

(** [alloc] is the outcome of the allocations: [None] when [new ConnectionData]
    fails, otherwise what the buffers of the reassembler get. *)
Definition init_subsystems (c : Connection) (alloc : option (Z -> option bytes))
    (channel_configs : list channel_config) (n_channels : Z) (time : double)
    : option Connection :=
  match alloc with
  | None => Some (set_cdata c None)
  | Some falloc =>
      let n := if MAX_CHANNELS_PER_CONNECTION <? n_channels
               then MAX_CHANNELS_PER_CONNECTION else n_channels in
      d ← init_channels (Z.to_nat n) 0 channel_configs fresh_data;
      let d := set_frag d (snd (Fragment.init falloc (fragment_reassembler d)
                                  NETUDP_MAX_MESSAGE_SIZE)) in
      let d := set_delivered d (RingBuffer.clear (delivered_messages d)) in
      let c := set_cdata (set_num_channels c n) (Some d) in
      let c := set_rtt (set_packet_tracker c PacketTracker.reset) Rtt.reset in
      let c := set_bandwidth c (Bandwidth.bucket_init (bandwidth c) time) in
      let c := set_congestion c (Bandwidth.cc_init Bandwidth.DEFAULT_MAX_RATE) in
      let c := set_stats c (Stats.set_throughput_time Stats.empty time) in
      let c := set_last_recv_time (set_connect_time c time) time in
      Some (set_last_keepalive_time (set_last_send_time c time) time)
  end.

(** [pending_mask], [bandwidth], [budget] and [next_slow_tick] keep their values. *)
Definition reset (c : Connection) : Connection :=
  mkConn false (u32 (generation c + 1)) Address.address_zero 0 (replicate 256 0)
    Crypto.epoch_zero PacketTracker.reset Rtt.reset 0 None (bandwidth c) (budget c)
    (Bandwidth.cc_reset (congestion c)) Stats.empty d0 d0 d0 d0 (next_slow_tick c) 10
    (pending_mask c) 65535.

(** ** The slow tick of an update (statistics, reassembly timeouts, congestion) *)

Definition cleanup_fragments (c : Connection) (time : double) : Connection :=
  match cdata c with
  | None => c
  | Some d => set_cdata c
      (Some (set_frag d (snd (Fragment.cleanup_timeout (fragment_reassembler d) time))))
  end.

(** ** Well-formed connections *)

Definition data_wf (d : ConnectionData) : Prop :=
  length (channels d) = 4%nat /\ length (reliable_state d) = 4%nat /\
  Forall Channel.wf (channels d) /\
  Forall (fun r => zlen (Reliable.recv_buffer_ r) = Reliable.RELIABLE_BUFFER_SIZE)
    (reliable_state d) /\
  Fragment.wf (fragment_reassembler d) /\
  Fragment.sized NETUDP_MAX_MESSAGE_SIZE (fragment_reassembler d) /\
  RingBuffer.wf DELIVERED_SIZE (delivered_messages d).
Definition wf (c : Connection) : Prop :=
  num_channels c <= MAX_CHANNELS_PER_CONNECTION /\
  PacketTracker.wf (packet_tracker c) /\
  exists d, cdata c = Some d /\ data_wf d.

Lemma delivered_pow2 : exists k, 0 <= k /\ DELIVERED_SIZE = 2 ^ k.
Proof. by exists 8. Qed.

(** The queue of delivered messages as a list; when 256 wait, one more is lost. *)
Definition delivered (d : ConnectionData) : list DeliveredMessage :=
  RingBuffer.contents DELIVERED_SIZE (delivered_messages d).
Definition enqueue (l : list DeliveredMessage) (m : DeliveredMessage) : list DeliveredMessage :=
  if zlen l <? DELIVERED_SIZE then l ++ [m] else l.

Lemma push_spec q m :
  RingBuffer.wf DELIVERED_SIZE q ->
  RingBuffer.wf DELIVERED_SIZE (snd (RingBuffer.push_back DELIVERED_SIZE m q)) /\
  RingBuffer.contents DELIVERED_SIZE (snd (RingBuffer.push_back DELIVERED_SIZE m q))
  = enqueue (RingBuffer.contents DELIVERED_SIZE q) m.
Proof.
  intros Hq. unfold enqueue. rewrite (RingBuffer.contents_length DELIVERED_SIZE q Hq).
  case_if.
  - by destruct (RingBuffer.push_back_spec DELIVERED_SIZE delivered_pow2 q m Hq E) as (q' & -> & ? & ?).
  - destruct Hq as (H1 & H2 & H3). rewrite RingBuffer.push_back_full by lia. by split.
Qed.
Lemma deliver_delivered d m :
  data_wf d -> data_wf (deliver d m) /\ delivered (deliver d m) = enqueue (delivered d) m.
Proof.
  intros (H1 & H2 & H3 & H4 & H5 & H6 & H7). destruct (push_spec (delivered_messages d) m H7) as [Hw Hc].
  split; [|exact Hc]. by split_and!.
Qed.
Lemma set_rs_wf d i r :
  data_wf d -> zlen (Reliable.recv_buffer_ r) = Reliable.RELIABLE_BUFFER_SIZE ->
  data_wf (set_rs d i r).
Proof.
  intros (H1 & H2 & H3 & H4 & H5 & H6 & H7) Hr. split_and!; try done; cbn.
  - by rewrite length_aset.
  - unfold aset. by apply Forall_insert.
Qed.
Lemma set_ch_wf d i x : data_wf d -> Channel.wf x -> data_wf (set_ch d i x).
Proof.
  intros (H1 & H2 & H3 & H4 & H5 & H6 & H7) Hx. split_and!; try done; cbn.
  - by rewrite length_aset.
  - unfold aset. by apply Forall_insert.
Qed.
Lemma set_frag_wf d r :
  data_wf d -> Fragment.wf r -> Fragment.sized NETUDP_MAX_MESSAGE_SIZE r -> data_wf (set_frag d r).
Proof. intros (H1 & H2 & H3 & H4 & H5 & H6 & H7) Hw Hs. by split_and!. Qed.
Lemma set_delivered_wf d q :
  data_wf d -> RingBuffer.wf DELIVERED_SIZE q -> data_wf (set_delivered d q).
Proof. intros (H1 & H2 & H3 & H4 & H5 & H6 & H7) Hq. by split_and!. Qed.
Lemma ch_wf d i : data_wf d -> 0 <= i < 4 -> exists x, ch d i = Some x /\ Channel.wf x.
Proof.
  intros (H1 & _ & H3 & _) Hi. unfold ch. rewrite oget_aget by (unfold zlen; lia).
  eexists. split; [done|]. eapply Forall_lookup_1; [exact H3|]. apply lookup_aget. unfold zlen; lia.
Qed.
Lemma rs_wf d i : data_wf d -> 0 <= i < 4 ->
  exists r, rs d i = Some r /\ zlen (Reliable.recv_buffer_ r) = Reliable.RELIABLE_BUFFER_SIZE.
Proof.
  intros (_ & H2 & _ & H4 & _) Hi. unfold rs. unfold oget. rewrite (proj2 (Z.leb_le 0 i)) by lia.
  destruct (lookup_lt_is_Some_2 (reliable_state d) (Z.to_nat i)) as [r Hr]; [lia|].
  exists r. split; [done|]. by eapply Forall_lookup_1 in H4.
Qed.

(** A connection whose allocations succeed starts well formed. *)
Lemma fresh_data_wf :
  length (channels fresh_data) = 4%nat /\ length (reliable_state fresh_data) = 4%nat /\
  Forall Channel.wf (channels fresh_data) /\
  Forall (fun r => zlen (Reliable.recv_buffer_ r) = Reliable.RELIABLE_BUFFER_SIZE)
    (reliable_state fresh_data) /\ RingBuffer.wf DELIVERED_SIZE (delivered_messages fresh_data).
Proof.
  split_and!; try done.
  - apply Forall_replicate. split; [by vm_compute|]. split; [done|].
    intros i j m m' eid Hi. done.
  - by apply Forall_replicate.
Qed.

End Connection.
