(* ===== verification/Receive.v ===== *)
(** Receiving data packets: the part of [server_handle_data_packet]
    (src/src/server.cpp) and [client_handle_data_packet] (src/src/client.cpp) that
    concerns one connection.

    Both decrypt, process the acknowledgement fields and walk over the frames of
    the payload; the client has no branch for fragments.  A result of [None] is
    an access outside an object. *)

From S2P Require Import Prelude Bytes Double RingBuffer Replay Wire PacketTracker ReliableChannel.
From S2P Require Import Channel Fragment Address Rtt Bandwidth Stats PacketCrypto Connection.

Module Receive.
Import Connection.

(** What the walk over a payload ends in. *)
Inductive outcome : Type :=
  | Stopped (c : Connection)
  | Disconnected (c : Connection) (reason : Z).

(** The walk is at [pos]; the connection and its heap data. *)
Record walk : Type := mkWalk { w_pos : Z; w_conn : Connection; w_data : ConnectionData }.
Definition walk_conn (w : walk) : Connection := set_cdata (w_conn w) (Some (w_data w)).
Definition count_messages (c : Connection) (n : Z) : Connection :=
  set_stats c (Stats.add_counters (stats c) n 0 0 0).
Definition count_fragments (c : Connection) (n : Z) : Connection :=
  set_stats c (Stats.add_counters (stats c) 0 n 0 0).

(** [memcpy(dmsg.data, src, n)] into [uint8_t data[NETUDP_MTU]]. *)
Definition message (data : bytes) (channel sequence : Z) : option DeliveredMessage :=
  _ ← guard_ub (zlen data <=? NETUDP_MTU);
  Some (mkDelivered data channel sequence true).

Definition on_unreliable (pt : bytes) (w : walk) : option (walk + outcome) :=
  let pt_len := zlen pt in
  let pos := w_pos w in
  channel ← oget pt pos;
  let pos := pos + 1 in
  msg_len ← mread_u pt pos 2;
  let pos := pos + 2 in
  if (pt_len <? pos + msg_len) || (num_channels (w_conn w) <=? channel)
  then Some (inr (Stopped (walk_conn w)))
  else
    data ← mread pt pos msg_len;
    m ← message data channel 0;
    Some (inl (mkWalk (pos + msg_len) (count_messages (w_conn w) 1) (deliver (w_data w) m))).

(** The callback of [deliver_ordered]: the queue and the count of messages. *)
Definition collect (channel : Z) (s : ring DeliveredMessage * Z) (data : bytes) (seq : Z)
    : ring DeliveredMessage * Z :=
  let copy_len := Z.min (zlen data) NETUDP_MTU in
  (snd (RingBuffer.push_back DELIVERED_SIZE
          (mkDelivered (take (Z.to_nat copy_len) data) channel seq true) (fst s)),
   snd s + 1).

(** A reliable message of a channel. *)
Definition on_message (channel msg_seq : Z) (data : bytes) (c : Connection) (d : ConnectionData)
    : option (Connection * ConnectionData) :=
  chan ← ch d channel;
  r ← rs d channel;
  if Channel.type chan =? NETUDP_CHANNEL_RELIABLE_ORDERED then
    let '(ok, r) := Reliable.buffer_received_ordered r msg_seq data in
    if ok then
      '(s, _, r) ← Reliable.deliver_ordered (collect channel) (delivered_messages d, 0) r;
      Some (count_messages c (snd s), set_delivered (set_rs d channel r) (fst s))
    else Some (c, set_rs d channel r)
  else if Channel.type chan =? NETUDP_CHANNEL_RELIABLE_UNORDERED then
    if negb (Reliable.is_received_unordered r msg_seq) then
      let r := Reliable.mark_received_unordered r msg_seq in
      let copy_len := Z.min (zlen data) NETUDP_MTU in
      m ← message (take (Z.to_nat copy_len) data) channel msg_seq;
      Some (count_messages c 1, deliver (set_rs d channel r) m)
    else Some (c, d)
  else Some (c, d).

Definition on_reliable (pt : bytes) (w : walk) : option (walk + outcome) :=
  let pt_len := zlen pt in
  let pos := w_pos w in
  channel ← oget pt pos;
  let pos := pos + 1 in
  msg_seq ← mread_u pt pos 2;
  let pos := pos + 2 in
  msg_len ← mread_u pt pos 2;
  let pos := pos + 2 in
  if (pt_len <? pos + msg_len) || (num_channels (w_conn w) <=? channel)
  then Some (inr (Stopped (walk_conn w)))
  else
    data ← mread pt pos msg_len;
    '(c, d) ← on_message channel msg_seq data (w_conn w) (w_data w);
    Some (inl (mkWalk (pos + msg_len) c d)).

Definition on_fragment (now : double) (pt : bytes) (w : walk) : option (walk + outcome) :=
  let pt_len := zlen pt in
  let pos := w_pos w in
  channel ← oget pt pos;
  let pos := pos + 1 in
  msg_id ← mread_u pt pos 2;
  let pos := pos + 2 in
  frag_idx ← oget pt pos;
  let pos := pos + 1 in
  frag_cnt ← oget pt pos;
  let pos := pos + 1 in
  let frag_len := pt_len - pos in
  if frag_len <=? 0 then Some (inr (Stopped (walk_conn w)))
  else
    data ← mread pt pos frag_len;
    '(complete, r) ← Fragment.on_fragment_received (fragment_reassembler (w_data w))
                       msg_id frag_idx frag_cnt data (NETUDP_MTU - 64) now;
    let d := set_frag (w_data w) r in
    match complete with
    | Some (buf, out_size) =>
        if 0 <? out_size then
          let copy_len := Z.min out_size NETUDP_MTU in
          src ← mread buf 0 copy_len;
          m ← message src channel 0;
          Some (inl (mkWalk pt_len (count_fragments (w_conn w) 2) (deliver d m)))
        else Some (inl (mkWalk pt_len (count_fragments (w_conn w) 1) d))
    | None => Some (inl (mkWalk pt_len (count_fragments (w_conn w) 1) d))
    end.

(** One turn of [while (pos < pt_len)]; [fragments] tells whether the side has the
    branch for fragments. *)
Definition frame_step (fragments : bool) (now : double) (pt : bytes) (w : walk)
    : walk + option outcome :=
  let pt_len := zlen pt in
  if negb (w_pos w <? pt_len) then inr (Some (Stopped (walk_conn w)))
  else
    match oget pt (w_pos w) with
    | None => inr None
    | Some frame_type =>
        let w := mkWalk (w_pos w + 1) (w_conn w) (w_data w) in
        let pos := w_pos w in
        let r :=
          if (frame_type =? Wire.FRAME_UNRELIABLE_DATA) && (pos + 3 <=? pt_len)
          then on_unreliable pt w
          else if (frame_type =? Wire.FRAME_RELIABLE_DATA) && (pos + 5 <=? pt_len)
          then on_reliable pt w
          else if fragments && (frame_type =? Wire.FRAME_FRAGMENT_DATA) && (pos + 5 <=? pt_len)
          then on_fragment now pt w
          else if frame_type =? Wire.FRAME_DISCONNECT then
            reason ← (if pos <? pt_len then oget pt pos else Some 0);
            Some (inr (Disconnected (walk_conn w) reason))
          else Some (inr (Stopped (walk_conn w))) in
        match r with
        | None => inr None
        | Some (inl w) => inl w
        | Some (inr o) => inr (Some o)
        end
    end.

(** Every turn advances [pos]. *)
Definition walk_frames (fragments : bool) (now : double) (pt : bytes) (w : walk)
    : option outcome :=
  match loop (Z.to_pos (zlen pt + 1)) (frame_step fragments now pt) w with
  | inr o => o
  | inl _ => None
  end.

(** The acknowledgement fields: packets acknowledged, a round-trip sample, and the
    packet itself noted as received (under the number 0, which is what the code
    passes). *)
Definition sample_rtt (c : Connection) (now send_time : double) (ack_delay_us : Z) : Connection :=
  if dgt send_time d0 then
    set_congestion (set_rtt c (Rtt.on_sample (rtt c) send_time now ack_delay_us))
      (Bandwidth.on_rtt_sample (congestion c))
  else c.
Definition process_ack_fields (c : Connection) (now : double) (f : PacketTracker.AckFields)
    : option Connection :=
  '(newly_acked, tr) ← PacketTracker.process_acks (packet_tracker c) f;
  let c := set_packet_tracker c tr in
  let c := set_congestion c
             (Nat.iter (Z.to_nat newly_acked) Bandwidth.on_packet_acked (congestion c)) in
  let send_time := PacketTracker.get_send_time tr (PacketTracker.ack f) in
  let c := sample_rtt c now send_time (PacketTracker.ack_delay_us f) in
  Some (set_packet_tracker c (PacketTracker.on_packet_received (packet_tracker c) 0 now)).

(** From the acknowledgement fields on. *)
Definition handle_payload (fragments : bool) (c : Connection) (now : double) (pt : bytes)
    : option outcome :=
  if zlen pt <? 8 then Some (Stopped c)
  else
    ack_fields ← PacketTracker.read_ack_fields pt 0;
    c ← process_ack_fields c now ack_fields;
    d ← cdata c;
    walk_frames fragments now pt (mkWalk 8 c d).

(** The client's copy of that code, "same logic as server side" (client.cpp), has
    no branch for fragments. *)
Definition client_payload (c : Connection) (now : double) (pt : bytes) : option outcome :=
  handle_payload false c now pt.

Section Sides.
Context `{Crypto.Aead} (blake2b_keyed : bytes -> bytes -> bytes).

(** The packet could not be decrypted, or what its payload did. *)
Inductive packet_result : Type := Rejected (c : Connection) | Accepted (o : outcome).

Definition note_received (c : Connection) (now : double) (packet_len : Z) : Connection :=
  set_stats (set_last_recv_time c now) (Stats.on_packet_received (stats c) packet_len).
Definition note_failure (c : Connection) : Connection :=
  set_stats c (Stats.add_counters (stats c) 0 0 0 1).

(** The connection's part of [server_handle_data_packet]: a header of three bytes,
    the grace window and the rekey announcement. *)
Definition server_packet (c : Connection) (protocol_id : Z) (now : double) (packet : bytes)
    : option packet_result :=
  if zlen packet <? 4 then Some (Accepted (Stopped c))
  else
    prefix ← oget packet 0;
    ct ← mread packet 3 (zlen packet - 3);
    let '(pt, e) := Crypto.receive_data blake2b_keyed (key_epoch c) protocol_id prefix ct now in
    let c := set_key_epoch c e in
    match pt with
    | None => Some (Rejected (note_failure c))
    | Some pt =>
        o ← handle_payload true (note_received c now (zlen packet)) now pt;
        Some (Accepted o)
    end.

(** The connection's part of [client_handle_data_packet]: a header of one byte. *)
Definition client_packet (c : Connection) (protocol_id : Z) (now : double) (packet : bytes)
    : option packet_result :=
  if zlen packet <? 2 then Some (Accepted (Stopped c))
  else
    prefix ← oget packet 0;
    ct ← mread packet 1 (zlen packet - 1);
    let '(pt, e) := Crypto.client_receive (key_epoch c) protocol_id prefix ct in
    let c := set_key_epoch c e in
    match pt with
    | None => Some (Rejected (note_failure c))
    | Some pt =>
        o ← client_payload (note_received c now (zlen packet)) now pt;
        Some (Accepted o)
    end.
End Sides.

(** * Memory safety *)

Definition outcome_conn (o : outcome) : Connection :=
  match o with Stopped c | Disconnected c _ => c end.

Lemma byte_at pt pos x : is_bytes pt -> oget pt pos = Some x -> 0 <= x < 256.
Proof.
  intros Hb H. unfold oget in H. case_if_in H; [|done].
  eapply Forall_lookup_1 in Hb; [|exact H]. exact Hb.
Qed.
Lemma byte_in pt pos : is_bytes pt -> 0 <= pos < zlen pt -> exists x, oget pt pos = Some x /\ 0 <= x < 256.
Proof.
  intros Hb Hp. exists pt.[pos]. pose proof (oget_aget pt pos Hp) as E. split; [done|].
  by apply byte_at in E.
Qed.
Lemma word_at pt pos n :
  is_bytes pt -> 0 <= pos -> pos + Z.of_nat n <= zlen pt ->
  exists v, mread_u pt pos n = Some v /\ 0 <= v < 2 ^ (8 * Z.of_nat n).
Proof.
  intros Hb H1 H2. unfold mread_u. rewrite mread_Some by lia. eexists. split; [done|].
  set (l := take _ _). assert (zlen l = Z.of_nat n) as Hl.
  { unfold l, zlen in *. rewrite length_take, length_drop. lia. }
  rewrite <- Hl. apply le_value_range. unfold l. by apply Forall_take, Forall_drop.
Qed.
Lemma bytes_at pt pos n :
  0 <= pos -> 0 <= n -> pos + n <= zlen pt -> exists d, mread pt pos n = Some d /\ zlen d = n.
Proof.
  intros H1 H2 H3. rewrite mread_Some by done. eexists. split; [done|].
  unfold zlen in *. rewrite length_take, length_drop. lia.
Qed.

Lemma collect_spec channel q n data seq :
  RingBuffer.wf DELIVERED_SIZE q ->
  RingBuffer.wf DELIVERED_SIZE (fst (collect channel (q, n) data seq)).
Proof. intros Hq. unfold collect. cbn [fst snd]. by apply push_spec. Qed.
Lemma collect_all channel l s :
  RingBuffer.wf DELIVERED_SIZE (fst s) ->
  RingBuffer.wf DELIVERED_SIZE
    (fst (foldl (fun s (m : bytes * Z) => collect channel s m.1 m.2) s l)).
Proof.
  revert s. induction l as [|m l IH]; intros s Hs; [done|]. cbn [foldl]. apply IH.
  destruct s as [q n]. by apply collect_spec.
Qed.

Lemma buffer_recv_len r seq data :
  zlen (Reliable.recv_buffer_ (snd (Reliable.buffer_received_ordered r seq data)))
  = zlen (Reliable.recv_buffer_ r).
Proof. unfold Reliable.buffer_received_ordered. repeat case_if; cbn; by rewrite ?zlen_aset. Qed.

Lemma message_ok data channel seq :
  zlen data <= NETUDP_MTU -> message data channel seq = Some (mkDelivered data channel seq true).
Proof. intros Hd. unfold message, guard_ub. by rewrite (proj2 (Z.leb_le _ _)) by done. Qed.
Lemma zlen_copy (data : bytes) : zlen (take (Z.to_nat (Z.min (zlen data) NETUDP_MTU)) data) <= NETUDP_MTU.
Proof. unfold zlen, NETUDP_MTU. rewrite length_take. lia. Qed.

Lemma on_message_safe channel seq data c d :
  data_wf d -> 0 <= channel < 4 ->
  exists n d', on_message channel seq data c d = Some (count_messages c n, d') /\ data_wf d' \/
    on_message channel seq data c d = Some (c, d') /\ data_wf d'.
Proof.
  intros Hd Hch. unfold on_message.
  destruct (ch_wf d channel Hd Hch) as (chan & -> & _). destruct (rs_wf d channel Hd Hch) as (r & -> & Hr).
  cbn [mbind option_bind]. case_if.
  - pose proof (buffer_recv_len r seq data) as Hlen.
    destruct (Reliable.buffer_received_ordered r seq data) as [ok r']. cbn [snd] in Hlen.
    rewrite Hr in Hlen. destruct ok.
    + destruct (Reliable.deliver_total r' [] Hlen) as (out & n & r'' & E1 & Hr'').
      rewrite (Reliable.deliver_fold (collect channel) _ _ _ _ _ E1). cbn [mbind option_bind].
      eexists _, _. left. split; [done|]. apply set_delivered_wf; [by apply set_rs_wf|].
      apply collect_all. cbn. by destruct Hd as (_ & _ & _ & _ & _ & _ & ?).
    + exists 0. eexists. right. split; [done|]. by apply set_rs_wf.
  - case_if; [|exists 0; eexists; by right]. case_if; [|exists 0; eexists; by right].
    rewrite message_ok by apply zlen_copy. cbn [mbind option_bind].
    eexists _, _. left. split; [done|]. apply deliver_delivered. apply set_rs_wf; [done|].
    unfold Reliable.mark_received_unordered. cbn. by rewrite zlen_aset.
Qed.

(** What a turn keeps: the connection up to its statistics, and the shape of the
    data; the walk advances. *)
Definition conn_ok (c c' : Connection) : Prop :=
  num_channels c' = num_channels c /\ packet_tracker c' = packet_tracker c.
Definition turn_ok (pt : bytes) (c0 : Connection) (w : walk) (r : option (walk + outcome)) : Prop :=
  match r with
  | Some (inl w') => w_pos w < w_pos w' <= zlen pt /\ conn_ok c0 (w_conn w') /\ data_wf (w_data w')
  | Some (inr o) => wf (outcome_conn o)
  | None => False
  end.
Definition walk_ok (pt : bytes) (c0 : Connection) (w : walk) : Prop :=
  0 <= w_pos w <= zlen pt /\ conn_ok c0 (w_conn w) /\ data_wf (w_data w).

Lemma walk_conn_wf pt c0 w : wf c0 -> walk_ok pt c0 w -> wf (walk_conn w).
Proof.
  intros (H1 & H2 & _) (_ & (E1 & E2) & Hd). unfold walk_conn. split_and!; cbn; [by rewrite E1|by rewrite E2|].
  by exists (w_data w).
Qed.

Lemma on_unreliable_safe pt c0 w :
  is_bytes pt -> zlen pt <= NETUDP_MTU + 12 -> wf c0 -> walk_ok pt c0 w -> 9 <= w_pos w ->
  w_pos w + 3 <= zlen pt -> turn_ok pt c0 w (on_unreliable pt w).
Proof.
  intros Hb Hl Hwf Hw H9 H3. pose proof (walk_conn_wf _ _ _ Hwf Hw) as Hwc.
  destruct Hw as (Hp & Hc & Hd). unfold on_unreliable.
  destruct (byte_in pt (w_pos w)) as (chan & -> & Hch); [done|lia|]. cbn [mbind option_bind].
  destruct (word_at pt (w_pos w + 1) 2) as (len & -> & Hlen); [done|lia..|]. cbn [mbind option_bind].
  case_if; [done|].
  destruct (bytes_at pt (w_pos w + 1 + 2) len) as (d & -> & Hdl); [lia..|]. cbn [mbind option_bind].
  rewrite message_ok by (unfold NETUDP_MTU in *; lia). cbn [mbind option_bind turn_ok w_pos w_conn w_data].
  split; [lia|]. split; [exact Hc|]. by apply deliver_delivered.
Qed.

Lemma on_reliable_safe pt c0 w :
  is_bytes pt -> wf c0 -> walk_ok pt c0 w -> w_pos w + 5 <= zlen pt ->
  turn_ok pt c0 w (on_reliable pt w).
Proof.
  intros Hb Hwf Hw H3. pose proof (walk_conn_wf _ _ _ Hwf Hw) as Hwc.
  destruct Hw as (Hp & Hc & Hd). unfold on_reliable.
  destruct (byte_in pt (w_pos w)) as (chan & -> & Hch); [done|lia|]. cbn [mbind option_bind].
  destruct (word_at pt (w_pos w + 1) 2) as (seq & -> & Hseq); [done|lia..|]. cbn [mbind option_bind].
  destruct (word_at pt (w_pos w + 1 + 2) 2) as (len & -> & Hlen); [done|lia..|]. cbn [mbind option_bind].
  case_if; [done|].
  destruct (bytes_at pt (w_pos w + 1 + 2 + 2) len) as (data & -> & Hdl); [lia..|]. cbn [mbind option_bind].
  destruct Hwf as (Hn & _). destruct Hc as [E1 E2]. unfold MAX_CHANNELS_PER_CONNECTION in Hn.
  destruct (on_message_safe chan seq data (w_conn w) (w_data w) Hd) as (n & d' & [[-> Hd']|[-> Hd']]);
    [lia| |]; cbn [mbind option_bind turn_ok w_pos w_conn w_data]; (split; [lia|]); by split_and!.
Qed.

Lemma on_fragment_turn_safe now pt c0 w :
  is_bytes pt -> wf c0 -> walk_ok pt c0 w -> w_pos w + 5 <= zlen pt ->
  turn_ok pt c0 w (on_fragment now pt w).
Proof.
  intros Hb Hwf Hw H3. pose proof (walk_conn_wf _ _ _ Hwf Hw) as Hwc.
  destruct Hw as (Hp & Hc & Hd). unfold on_fragment.
  destruct (byte_in pt (w_pos w)) as (chan & -> & Hch); [done|lia|]. cbn [mbind option_bind].
  destruct (word_at pt (w_pos w + 1) 2) as (id & -> & Hid); [done|lia..|]. cbn [mbind option_bind].
  destruct (byte_in pt (w_pos w + 1 + 2)) as (idx & -> & Ei); [done|lia|]. cbn [mbind option_bind].
  destruct (byte_in pt (w_pos w + 1 + 2 + 1)) as (cnt & -> & Ec); [done|lia|]. cbn [mbind option_bind].
  case_if; [done|].
  destruct (bytes_at pt (w_pos w + 1 + 2 + 1 + 1) (zlen pt - (w_pos w + 1 + 2 + 1 + 1)))
    as (data & -> & Hdl); [lia..|]. cbn [mbind option_bind].
  pose proof Hd as (_ & _ & _ & _ & Hfw & Hfs & _).
  destruct (Fragment.on_fragment_ok (fragment_reassembler (w_data w)) id idx cnt data
    (NETUDP_MTU - 64) now Hfw Ei Ec ltac:(by vm_compute)) as (res & r & Er & Hr).
  rewrite Er. cbn [mbind option_bind].
  destruct (Fragment.on_fragment_sized _ _ _ _ _ _ _ _ _ _ Hfw Hfs Er) as [Hrs Hbuf].
  pose proof (set_frag_wf _ _ Hd Hr Hrs) as Hd'.
  destruct res as [[buf n]|]; [case_if|]; cbn [turn_ok w_pos w_conn w_data];
    [|split; [lia|]; by split_and!..].
  specialize (Hbuf _ _ eq_refl). unfold NETUDP_MAX_MESSAGE_SIZE in Hbuf.
  destruct (bytes_at buf 0 (Z.min n NETUDP_MTU)) as (src & -> & Hs); [unfold NETUDP_MTU; lia..|].
  cbn [mbind option_bind]. rewrite message_ok by lia. cbn [mbind option_bind turn_ok w_pos w_conn w_data].
  split; [lia|]. split; [done|]. by apply deliver_delivered.
Qed.


(** One turn, and the whole walk. *)
Lemma frame_step_safe fragments now pt c0 w :
  is_bytes pt -> zlen pt <= NETUDP_MTU + 12 -> wf c0 -> walk_ok pt c0 w -> 8 <= w_pos w ->
  match frame_step fragments now pt w with
  | inl w' => w_pos w < w_pos w' /\ walk_ok pt c0 w'
  | inr o => exists o', o = Some o' /\ wf (outcome_conn o')
  end.
Proof.
  intros Hb Hl Hwf Hw H8. pose proof (walk_conn_wf _ _ _ Hwf Hw) as Hwc. pose proof Hw as (Hp & Hc & Hd).
  unfold frame_step. case_if; [by eexists|].
  destruct (byte_in pt (w_pos w)) as (ty & -> & Hty); [done|lia|].
  set (w1 := mkWalk (w_pos w + 1) _ _). cbv zeta.
  assert (walk_ok pt c0 w1) as Hw1 by (split; [cbn; lia|done]).
  set (r := if _ && _ then on_unreliable pt w1 else _).
  assert (turn_ok pt c0 w1 r) as Hr.
  { unfold r. repeat case_if.
    - apply on_unreliable_safe; try done; cbn in *; lia.
    - apply on_reliable_safe; try done; cbn in *; lia.
    - apply on_fragment_turn_safe; try done; cbn in *; lia.
    - destruct (byte_in pt (w_pos w1)) as (reason & -> & _); [done|cbn in *; lia|]. done.
    - done.
    - done. }
  clearbody r. destruct r as [[w'|o]|]; cbn [turn_ok] in Hr; [|by eexists|done].
  destruct Hr as (Hpos & Hc' & Hd'). cbn in Hpos. split; [lia|]. split_and!; try done; lia.
Qed.
Lemma walk_frames_safe fragments now pt c0 w :
  is_bytes pt -> zlen pt <= NETUDP_MTU + 12 -> wf c0 -> walk_ok pt c0 w -> 8 <= w_pos w ->
  exists o, walk_frames fragments now pt w = Some o /\ wf (outcome_conn o).
Proof.
  intros Hb Hl Hwf Hw H8. unfold walk_frames.
  destruct (loop_done (frame_step fragments now pt)
    (fun n w => n = zlen pt - w_pos w /\ walk_ok pt c0 w /\ 8 <= w_pos w)
    (fun o => exists o', o = Some o' /\ wf (outcome_conn o'))
    (Z.to_pos (zlen pt + 1)) (zlen pt - w_pos w) w) as (r & -> & o & -> & Ho).
  - intros n s (-> & (Hp & _) & _). lia.
  - intros n s s' (-> & Hs & H8') E0. pose proof (frame_step_safe fragments now pt c0 s Hb Hl Hwf Hs H8') as H.
    rewrite E0 in H. destruct H as [H1 H2]. exists (zlen pt - w_pos s'). split; [lia|]. split_and!; try done; lia.
  - intros n s r (-> & Hs & H8') E0. pose proof (frame_step_safe fragments now pt c0 s Hb Hl Hwf Hs H8') as H.
    by rewrite E0 in H.
  - done.
  - destruct Hw as (Hp & _). lia.
  - by exists o.
Qed.

Lemma tracker_received_wf t seq time :
  PacketTracker.wf t -> PacketTracker.wf (PacketTracker.on_packet_received t seq time).
Proof.
  intros Ht. unfold PacketTracker.on_packet_received. repeat case_if; try done; exact Ht.
Qed.

Lemma read_ack_ok pt :
  is_bytes pt -> 8 <= zlen pt -> exists f, PacketTracker.read_ack_fields pt 0 = Some f.
Proof.
  intros Hb Hl. unfold PacketTracker.read_ack_fields.
  destruct (word_at pt 0 2) as (a & -> & _); [done|lia..|].
  destruct (word_at pt (0 + 2) 4) as (bits & -> & _); [done|lia..|].
  destruct (word_at pt (0 + 6) 2) as (del & -> & _); [done|lia..|]. by eexists.
Qed.
Lemma read_ack_app acks rest :
  is_bytes acks -> zlen acks = 8 -> exists f, PacketTracker.read_ack_fields (acks ++ rest) 0 = Some f.
Proof.
  intros Hb Ha. assert (holds (acks ++ rest) 0 acks) as Hh by apply holds_here.
  destruct (read_ack_ok acks Hb ltac:(lia)) as [f Ef]. exists f. rewrite <- Ef.
  unfold PacketTracker.read_ack_fields, mread_u.
  assert (forall off n, 0 <= off -> 0 <= n -> off + n <= 8 ->
    mread (acks ++ rest) off n = mread acks off n) as E.
  { intros off n H1 H2 H3. rewrite !mread_Some by (zlen_simpl; pose proof (zlen_nonneg rest); lia).
    rewrite drop_app_le by (unfold zlen in *; lia). rewrite take_app_le; [done|].
    rewrite length_drop. unfold zlen in *. lia. }
  by rewrite !E by lia.
Qed.
Lemma process_ack_fields_ok c now f :
  wf c -> exists c', process_ack_fields c now f = Some c' /\ wf c' /\
    num_channels c' = num_channels c /\ cdata c' = cdata c /\ stats c' = stats c /\
    key_epoch c' = key_epoch c.
Proof.
  intros (Hn & Ht & Hd). unfold process_ack_fields.
  destruct (PacketTracker.process_acks_ok (packet_tracker c) f Ht) as (n & t & -> & Ht' & _).
  cbn [mbind option_bind]. eexists. split; [done|]. unfold sample_rtt.
  case_if; cbn; (split; [|done]); (split; [done|]); (split; [|done]); by apply tracker_received_wf.
Qed.

Lemma handle_payload_ok fragments c now pt :
  wf c -> is_bytes pt -> zlen pt <= NETUDP_MTU + 12 ->
  exists o, handle_payload fragments c now pt = Some o /\ wf (outcome_conn o).
Proof.
  intros Hwf Hb Hl. unfold handle_payload. case_if; [by eexists|].
  destruct (read_ack_ok pt) as [f ->]; [done|lia|]. rewrite Some_bind.
  destruct (process_ack_fields_ok c now f Hwf)
    as (c' & -> & Hwf' & _). rewrite Some_bind.
  pose proof Hwf' as (_ & _ & d & -> & Hd). rewrite Some_bind.
  apply (walk_frames_safe fragments now pt c'); [exact Hb|exact Hl|exact Hwf'| |cbn; lia].
  split; [cbn; lia|]. split; [by split|exact Hd].
Qed.

(** A payload of up to 1212 bytes, whatever its contents, is handled without
    touching memory outside the buffers, the walk over its frames terminates, and
    the connection stays well formed; on the server and on the client.  (A sender
    of this library puts at most 1200 bytes into a payload; for longer payloads
    see [long_message_overflows].) *)
Theorem payload_safe fragments c now pt :
  wf c -> is_bytes pt -> zlen pt <= NETUDP_MTU + 12 ->
  exists o, handle_payload fragments c now pt = Some o /\ wf (outcome_conn o).
Proof. apply handle_payload_ok. Qed.

(** A peer can make the receiver write past [data[NETUDP_MTU]]: an unreliable
    message of 1201 bytes in a payload that a packet of 1400 bytes can carry. *)
Definition long_payload : bytes :=
  replicate 8 0 ++ Wire.encode (Wire.Unreliable 0 (replicate 1201 7)).
Definition demo_data : ConnectionData :=
  mkData (channels fresh_data) (reliable_state fresh_data)
    (snd (Fragment.init (fun _ => Some (replicate 1200 0)) inhabitant 1200)) (delivered_messages fresh_data).
Definition demo_conn : Connection := set_cdata (set_num_channels fresh 2) (Some demo_data).
Lemma long_message_overflows :
  zlen long_payload <= 1400 - 3 - 16 /\ handle_payload true demo_conn d0 long_payload = None.
Proof. split; by vm_compute. Qed.


(** * Round trip of the frame grammar *)

(** The effect of one frame, without the wire. *)
Definition apply_frame (s : Connection * ConnectionData) (f : Wire.Frame)
    : option (Connection * ConnectionData) :=
  let '(c, d) := s in
  match f with
  | Wire.Unreliable channel data =>
      Some (count_messages c 1, deliver d (mkDelivered data channel 0 true))
  | Wire.Reliable channel seq data => on_message channel seq data c d
  | _ => None
  end.
Fixpoint apply_frames (fs : list Wire.Frame) (s : Connection * ConnectionData)
    : option (Connection * ConnectionData) :=
  match fs with
  | [] => Some s
  | f :: fs => s ← apply_frame s f; apply_frames fs s
  end.
Definition data_frame (n : Z) (f : Wire.Frame) : Prop :=
  match f with
  | Wire.Unreliable channel data => 0 <= channel < n /\ zlen data <= NETUDP_MTU
  | Wire.Reliable channel seq data => 0 <= channel < n /\ is_u16 seq /\ zlen data < 2 ^ 16
  | _ => False
  end.

Lemma apply_frame_ok n f c d :
  data_frame n f -> n <= 4 -> data_wf d ->
  exists c' d', apply_frame (c, d) f = Some (c', d') /\ data_wf d' /\ conn_ok c c'.
Proof.
  intros Hf Hn Hd. destruct f as [chan data|chan seq data| |]; cbn in *; try done.
  - eexists _, _. split; [done|]. split; [by apply deliver_delivered|done].
  - destruct (on_message_safe chan seq data c d Hd) as (k & d' & [[-> Hd']|[-> Hd']]); [lia| |];
      by eexists _, _.
Qed.

(** The fields of an encoded frame, at their offsets. *)
Lemma holds_unreliable pt pos chan data :
  holds pt pos (Wire.encode (Wire.Unreliable chan data)) ->
  holds pt pos [Wire.FRAME_UNRELIABLE_DATA] /\ holds pt (pos + 1) [chan] /\
  holds pt (pos + 1 + 1) (le_bytes 2 (zlen data)) /\ holds pt (pos + 1 + 1 + 2) data.
Proof.
  intros H. unfold Wire.encode in H. apply holds_app in H as [H1 H2].
  change ([Wire.FRAME_UNRELIABLE_DATA; chan]) with ([Wire.FRAME_UNRELIABLE_DATA] ++ [chan]) in H1.
  apply holds_app in H1 as [H0 H1]. apply holds_app in H2 as [H2 H3]. rewrite zlen_le_bytes in H3.
  change (zlen [Wire.FRAME_UNRELIABLE_DATA; chan]) with (1 + 1) in *.
  change (zlen [Wire.FRAME_UNRELIABLE_DATA]) with 1 in *. rewrite Z.add_assoc in H2, H3.
  by split_and!.
Qed.
Lemma holds_reliable pt pos chan seq data :
  holds pt pos (Wire.encode (Wire.Reliable chan seq data)) ->
  holds pt pos [Wire.FRAME_RELIABLE_DATA] /\ holds pt (pos + 1) [chan] /\
  holds pt (pos + 1 + 1) (le_bytes 2 seq) /\ holds pt (pos + 1 + 1 + 2) (le_bytes 2 (zlen data)) /\
  holds pt (pos + 1 + 1 + 2 + 2) data.
Proof.
  intros H. unfold Wire.encode in H. apply holds_app in H as [H1 H2].
  change ([Wire.FRAME_RELIABLE_DATA; chan]) with ([Wire.FRAME_RELIABLE_DATA] ++ [chan]) in H1.
  apply holds_app in H1 as [H0 H1]. apply holds_app in H2 as [H2 H3]. apply holds_app in H3 as [H3 H4].
  rewrite !zlen_le_bytes in *.
  change (zlen [Wire.FRAME_RELIABLE_DATA; chan]) with (1 + 1) in *.
  change (zlen [Wire.FRAME_RELIABLE_DATA]) with 1 in *. rewrite (Z.add_assoc pos 1 1) in H2, H3, H4.
  by split_and!.
Qed.

(** One turn of the walk at an encoded frame has the frame's effect. *)
Lemma step_frame fragments now pt pos c d f c' d' :
  holds pt pos (Wire.encode f) -> data_frame (num_channels c) f ->
  apply_frame (c, d) f = Some (c', d') ->
  frame_step fragments now pt (mkWalk pos c d) = inl (mkWalk (pos + zlen (Wire.encode f)) c' d').
Proof.
  intros Hh Hf Ha. pose proof (holds_bound _ _ _ Hh) as [Hp Hb]. revert Hb.
  rewrite Wire.zlen_encode. intros Hb.
  unfold frame_step. cbn [w_pos w_conn w_data].
  destruct f as [chan data|chan seq data| |]; cbn [data_frame] in Hf; try done;
    pose proof (zlen_nonneg data); rewrite (proj2 (Z.ltb_lt pos (zlen pt))) by lia; cbn [negb].
  - apply holds_unreliable in Hh as (H0 & H1 & H2 & H3). destruct Hf as [Hch Hl].
    rewrite (holds_oget _ _ _ H0), Z.eqb_refl, (proj2 (Z.leb_le _ _)) by lia. cbn [andb].
    unfold on_unreliable. cbn [w_pos w_conn w_data].
    rewrite (holds_oget _ _ _ H1), Some_bind.
    rewrite (holds_mread_u pt _ 2 _ H2), Some_bind by (unfold NETUDP_MTU in *; cbn; lia).
    rewrite (proj2 (Z.ltb_ge _ _)), (proj2 (Z.leb_gt _ _)) by lia. cbn [orb].
    rewrite (holds_mread pt _ _ _ H3), Some_bind, message_ok, Some_bind by done.
    cbn in Ha. injection Ha as <- <-. f_equal. f_equal. lia.
  - apply holds_reliable in Hh as (H0 & H1 & H2 & H3 & H4). destruct Hf as (Hch & Hseq & Hl).
    rewrite (holds_oget _ _ _ H0), Z.eqb_refl, (proj2 (Z.leb_le (pos + 1 + 5) _)) by lia.
    change (Wire.FRAME_RELIABLE_DATA =? Wire.FRAME_UNRELIABLE_DATA) with false. cbn [andb].
    unfold on_reliable. cbn [w_pos w_conn w_data].
    rewrite (holds_oget _ _ _ H1), Some_bind.
    rewrite (holds_mread_u pt _ 2 _ H2 Hseq), Some_bind.
    rewrite (holds_mread_u pt _ 2 _ H3), Some_bind by (cbn; lia).
    rewrite (proj2 (Z.ltb_ge _ _)), (proj2 (Z.leb_gt _ _)) by lia. cbn [orb].
    rewrite (holds_mread pt _ _ _ H4), Some_bind by done. cbn [apply_frame] in Ha. rewrite Ha, Some_bind.
    f_equal. f_equal. lia.
Qed.

Definition encode_all (fs : list Wire.Frame) : bytes := concat (Wire.encode <$> fs).
Lemma encode_all_cons f fs : encode_all (f :: fs) = Wire.encode f ++ encode_all fs.
Proof. done. Qed.
Lemma frames_fit n fs : Forall (data_frame n) fs -> zlen fs <= zlen (encode_all fs).
Proof.
  induction 1 as [|f fs Hf _ IH]; [done|]. rewrite encode_all_cons. zlen_simpl.
  rewrite Wire.zlen_encode. destruct f as [? data|? ? data| |]; try done; pose proof (zlen_nonneg data); lia.
Qed.

Lemma walk_nat fragments now pt fs : forall n pos c d,
  holds pt pos (encode_all fs) -> pos + zlen (encode_all fs) = zlen pt ->
  Forall (data_frame (num_channels c)) fs -> num_channels c <= 4 -> data_wf d ->
  (length fs < n)%nat ->
  exists c' d', apply_frames fs (c, d) = Some (c', d') /\ data_wf d' /\ conn_ok c c' /\
    loop_nat (frame_step fragments now pt) n (mkWalk pos c d)
    = inr (Some (Stopped (set_cdata c' (Some d')))).
Proof.
  induction fs as [|f fs IH]; intros n pos c d Hh Hend Hf Hn Hd Hlen; (destruct n as [|n]; [lia|]).
  { exists c, d. cbn [apply_frames loop_nat]. unfold frame_step. cbn [w_pos].
    change (encode_all []) with (@nil Z) in Hend. rewrite zlen_nil in Hend.
    rewrite (proj2 (Z.ltb_ge _ _)) by lia. by split_and!. }
  apply Forall_cons_iff in Hf as [Hf Hfs]. rewrite encode_all_cons in Hh, Hend.
  apply holds_app in Hh as [H1 H2]. rewrite zlen_app in Hend.
  destruct (apply_frame_ok _ _ c d Hf Hn Hd) as (c1 & d1 & Ha & Hd1 & Hc1).
  pose proof Hc1 as [E1 _].
  destruct (IH n (pos + zlen (Wire.encode f)) c1 d1) as (c2 & d2 & Ha2 & Hd2 & Hc2 & Hloop);
    [done|lia|by rewrite E1|lia|done|cbn in Hlen; lia|].
  exists c2, d2. cbn [apply_frames]. rewrite Ha, Some_bind. split; [done|]. split; [done|].
  split; [by destruct Hc2, Hc1; split; congruence|].
  cbn [loop_nat]. by rewrite (step_frame fragments now pt pos c d f c1 d1).
Qed.
Lemma walk_frames_encoded fragments now acks fs c d :
  zlen acks = 8 -> Forall (data_frame (num_channels c)) fs -> num_channels c <= 4 -> data_wf d ->
  exists c' d', apply_frames fs (c, d) = Some (c', d') /\ data_wf d' /\ conn_ok c c' /\
    walk_frames fragments now (acks ++ encode_all fs) (mkWalk 8 c d)
    = Some (Stopped (set_cdata c' (Some d'))).
Proof.
  intros Ha Hf Hn Hd. unfold walk_frames. rewrite loop_loop_nat.
  destruct (walk_nat fragments now (acks ++ encode_all fs) fs
    (Pos.to_nat (Z.to_pos (zlen (acks ++ encode_all fs) + 1))) 8 c d)
    as (c' & d' & E1 & E2 & E3 & E4); try done.
  - exists acks, []. by rewrite app_nil_r.
  - zlen_simpl. lia.
  - pose proof (frames_fit _ _ Hf). zlen_simpl. unfold zlen in *. lia.
  - exists c', d'. by rewrite E4.
Qed.


(** * Reliable-ordered channels, from payloads to the application's queue *)

Definition handle_payloads (fragments : bool) (now : double) : list bytes -> Connection -> option Connection :=
  fix go pts c :=
  match pts with
  | [] => Some c
  | pt :: pts =>
      o ← handle_payload fragments c now pt;
      match o with Stopped c => go pts c | Disconnected _ _ => None end
  end.

Definition to_message (chan : Z) (m : bytes * Z) : DeliveredMessage :=
  mkDelivered (take (Z.to_nat (Z.min (zlen m.1) NETUDP_MTU)) m.1) chan m.2 true.

Lemma foldl_enqueue l :
  forall q, zlen q <= DELIVERED_SIZE -> foldl enqueue q l = take (Z.to_nat DELIVERED_SIZE) (q ++ l).
Proof.
  induction l as [|m l IH]; intros q Hq; cbn [foldl].
  - rewrite app_nil_r, take_ge; [done|]. unfold zlen in *. lia.
  - unfold enqueue at 2. case_if.
    + rewrite IH by (zlen_simpl; cbn; lia). by rewrite <- app_assoc.
    + rewrite IH by done. rewrite !take_app_le by (unfold zlen in *; lia). done.
Qed.

Lemma collect_messages chan l : forall q n,
  RingBuffer.wf DELIVERED_SIZE q ->
  RingBuffer.contents DELIVERED_SIZE
    (fst (foldl (fun s (m : bytes * Z) => collect chan s m.1 m.2) (q, n) l))
  = foldl enqueue (RingBuffer.contents DELIVERED_SIZE q) (to_message chan <$> l).
Proof.
  induction l as [|m l IH]; intros q n Hq; [done|]. rewrite fmap_cons. cbn [foldl].
  unfold collect at 2. cbn [fst snd].
  destruct (push_spec q (to_message chan m) Hq) as [Hw Hc].
  rewrite IH by exact Hw. f_equal. exact Hc.
Qed.

(** The channel [chan] of [d] is reliable-ordered and its receiver is at [st]. *)
Definition ordered_at (chan : Z) (d : ConnectionData) (st : Reliable.state) : Prop :=
  data_wf d /\ rs d chan = Some st /\
  exists x, ch d chan = Some x /\ Channel.type x = NETUDP_CHANNEL_RELIABLE_ORDERED.

Lemma rs_set_rs d i r : data_wf d -> 0 <= i < 4 -> rs (set_rs d i r) i = Some r.
Proof.
  intros (_ & H2 & _) Hi. unfold rs, set_rs, oget, aset. cbn [reliable_state].
  rewrite (proj2 (Z.leb_le 0 i)) by lia. apply list_lookup_insert_eq. lia.
Qed.

Lemma on_message_ordered msg chan k c d st out out' st' :
  0 <= chan < 4 -> ordered_at chan d st -> Reliable.on_ordered msg (out, st) k = Some (out', st') ->
  exists c' d' new, on_message chan (u16 k) (msg k) c d = Some (c', d') /\ conn_ok c c' /\
    ordered_at chan d' st' /\ out' = out ++ new /\
    delivered d' = foldl enqueue (delivered d) (to_message chan <$> new).
Proof.
  intros Hch (Hd & Hr & x & Hx & Ht) Ho. unfold on_message. rewrite Hx, Some_bind, Hr, Some_bind.
  rewrite Ht, Z.eqb_refl. unfold Reliable.on_ordered in Ho.
  pose proof (buffer_recv_len st (u16 k) (msg k)) as Hlen.
  destruct (rs_wf d chan Hd Hch) as (r0 & E0 & Hst). rewrite Hr in E0. injection E0 as <-.
  destruct (Reliable.buffer_received_ordered st (u16 k) (msg k)) as [ok st1]. cbn [snd] in Hlen.
  rewrite Hst in Hlen. destruct ok.
  - destruct (Reliable.deliver_total st1 [] Hlen) as (new & n & st2 & E1 & Hst2).
    rewrite (Reliable.deliver_fold (collect chan) _ _ _ _ _ E1), Some_bind.
    rewrite (Reliable.deliver_fold Reliable.collect _ _ _ _ _ E1), Some_bind in Ho.
    cbn [fst snd] in Ho. injection Ho as <- <-.
    eexists _, _, new. split; [done|]. split; [done|].
    assert (RingBuffer.wf DELIVERED_SIZE (delivered_messages d)) as Hq by apply Hd.
    split; [|split].
    + split; [|split].
      * apply set_delivered_wf; [by apply set_rs_wf|]. by apply collect_all.
      * by apply rs_set_rs.
      * exists x. done.
    + clear. revert out. induction new as [|[b q] new IH]; intros out; cbn [foldl];
        [by rewrite app_nil_r|]. rewrite IH. unfold Reliable.collect. by rewrite <- app_assoc.
    + unfold delivered. cbn [set_delivered delivered_messages]. by apply collect_messages.
  - injection Ho as <- <-. exists c, (set_rs d chan st1), []. split; [done|]. split; [done|].
    split; [|by rewrite app_nil_r]. split; [by apply set_rs_wf|]. split; [by apply rs_set_rs|].
    by exists x.
Qed.

Definition ordered_frames (msg : Z -> bytes) (chan : Z) (ks : list Z) : list Wire.Frame :=
  (fun k => Wire.Reliable chan (u16 k) (msg k)) <$> ks.
Lemma apply_ordered msg chan ks : forall c d st out out' st',
  0 <= chan < 4 -> ordered_at chan d st -> Reliable.run_ordered msg (out, st) ks = Some (out', st') ->
  exists c' d' new, apply_frames (ordered_frames msg chan ks) (c, d) = Some (c', d') /\
    ordered_at chan d' st' /\ out' = out ++ new /\
    delivered d' = foldl enqueue (delivered d) (to_message chan <$> new).
Proof.
  induction ks as [|k ks IH]; intros c d st out out' st' Hch Hat Hrun.
  { cbn in Hrun. injection Hrun as <- <-. exists c, d, []. by rewrite app_nil_r. }
  cbn [Reliable.run_ordered] in Hrun.
  destruct (Reliable.on_ordered msg (out, st) k) as [[out1 st1]|] eqn:E1; [|done].
  rewrite Some_bind in Hrun.
  destruct (on_message_ordered msg chan k c d st out out1 st1 Hch Hat E1)
    as (c1 & d1 & new1 & Ea & _ & Hat1 & -> & Hd1).
  destruct (IH c1 d1 st1 _ _ _ Hch Hat1 Hrun) as (c2 & d2 & new2 & Ea2 & Hat2 & -> & Hd2).
  exists c2, d2, (new1 ++ new2). unfold ordered_frames. rewrite fmap_cons. cbn [apply_frames apply_frame].
  rewrite Ea, Some_bind. split; [done|]. split; [done|]. split; [by rewrite app_assoc|].
  rewrite Hd2, Hd1, fmap_app, foldl_app. done.
Qed.

(** One payload of such frames. *)
Lemma payload_ordered fragments c now msg chan ks acks d st out out' st' :
  wf c -> cdata c = Some d -> 0 <= chan < num_channels c -> ordered_at chan d st ->
  (forall k, zlen (msg k) <= 1200) -> is_bytes acks -> zlen acks = 8 ->
  Reliable.run_ordered msg (out, st) ks = Some (out', st') ->
  exists c' d' new,
    handle_payload fragments c now (acks ++ encode_all (ordered_frames msg chan ks))
    = Some (Stopped c') /\ wf c' /\ cdata c' = Some d' /\ num_channels c' = num_channels c /\
    ordered_at chan d' st' /\ out' = out ++ new /\
    delivered d' = foldl enqueue (delivered d) (to_message chan <$> new).
Proof.
  intros Hwf Hc Hch Hat Hm Hb Ha Hrun. pose proof Hwf as (Hn & _). unfold MAX_CHANNELS_PER_CONNECTION in Hn.
  unfold handle_payload. set (pt := acks ++ _). pose proof (zlen_nonneg (encode_all (ordered_frames msg chan ks))).
  rewrite (proj2 (Z.ltb_ge _ _)) by (unfold pt; zlen_simpl; lia).
  destruct (read_ack_app acks (encode_all (ordered_frames msg chan ks)) Hb Ha) as [f Ef].
  fold pt in Ef. rewrite Ef, Some_bind.
  destruct (process_ack_fields_ok c now f Hwf) as (c1 & -> & Hwf1 & En & Ed & _). rewrite Some_bind.
  rewrite Ed, Hc, Some_bind.
  destruct (apply_ordered msg chan ks c1 d st out out' st') as (c2 & d2 & new & Ea & Hat2 & Eo & Hdel);
    [lia|done|done|].
  destruct (walk_frames_encoded fragments now acks (ordered_frames msg chan ks) c1 d)
    as (c3 & d3 & Ea3 & Hd3 & Hc3 & Ew); try done.
  - apply Forall_fmap, Forall_true. intros k. cbn. rewrite En. split; [lia|].
    split; [apply u16_range|]. specialize (Hm k). lia.
  - lia.
  - apply Hat.
  - rewrite Ea in Ea3. injection Ea3 as <- <-. fold pt in Ew. rewrite Ew.
    eexists _, d2, new. split; [done|]. destruct Hc3 as [E1 E2]. destruct Hwf1 as (Hn1 & Ht1 & _).
    split; [|split; [done|split; [cbn; by rewrite E1, En|done]]].
    split; [cbn; by rewrite E1|]. split; [cbn; by rewrite E2|]. exists d2. split; [done|apply Hat2].
Qed.

Lemma run_ordered_app msg s ks ks' :
  Reliable.run_ordered msg s (ks ++ ks')
  = (s ← Reliable.run_ordered msg s ks; Reliable.run_ordered msg s ks').
Proof.
  revert s. induction ks as [|k ks IH]; intros s; [done|]. cbn.
  destruct (Reliable.on_ordered msg s k); [apply IH|done].
Qed.

Definition ordered_payloads (msg : Z -> bytes) (chan : Z) (pkts : list (bytes * list Z)) : list bytes :=
  (fun p => p.1 ++ encode_all (ordered_frames msg chan p.2)) <$> pkts.

Lemma payloads_ordered fragments now msg chan pkts : forall c d st out out' st',
  wf c -> cdata c = Some d -> 0 <= chan < num_channels c -> ordered_at chan d st ->
  (forall k, zlen (msg k) <= 1200) -> Forall (fun p => is_bytes p.1 /\ zlen p.1 = 8) pkts ->
  Reliable.run_ordered msg (out, st) (concat (snd <$> pkts)) = Some (out', st') ->
  exists c' d' new,
    handle_payloads fragments now (ordered_payloads msg chan pkts) c = Some c' /\
    wf c' /\ cdata c' = Some d' /\ out' = out ++ new /\
    delivered d' = foldl enqueue (delivered d) (to_message chan <$> new).
Proof.
  induction pkts as [|[acks ks] pkts IH]; intros c d st out out' st' Hwf Hc Hch Hat Hm Hp Hrun.
  { cbn in Hrun. injection Hrun as <- <-. exists c, d, []. by rewrite app_nil_r. }
  apply Forall_cons_iff in Hp as [[Hb Ha] Hp]. cbn [fst snd] in Hb, Ha.
  rewrite fmap_cons in Hrun. cbn [concat snd] in Hrun. rewrite run_ordered_app in Hrun.
  destruct (Reliable.run_ordered msg (out, st) ks) as [[out1 st1]|] eqn:E1; [|done].
  rewrite Some_bind in Hrun.
  destruct (payload_ordered fragments c now msg chan ks acks d st out out1 st1 Hwf Hc Hch Hat Hm Hb Ha E1)
    as (c1 & d1 & new1 & Eh & Hwf1 & Hc1 & En & Hat1 & -> & Hd1).
  destruct (IH c1 d1 st1 _ _ _ Hwf1 Hc1 ltac:(lia) Hat1 Hm Hp Hrun)
    as (c2 & d2 & new2 & Eh2 & Hwf2 & Hc2 & -> & Hd2).
  exists c2, d2, (new1 ++ new2). unfold ordered_payloads. rewrite fmap_cons.
  cbn [handle_payloads fst snd]. rewrite Eh, Some_bind. split_and!; try done.
  - by rewrite app_assoc.
  - by rewrite Hd2, Hd1, fmap_app, foldl_app.
Qed.

(** C11.  A reliable-ordered channel, from the wire to the application's queue:
    whatever payloads the messages arrive in, in whatever order, with whatever
    duplicates and losses, the queue holds messages 0..R-1 in order, each once,
    with its own bytes, channel and number (the first 256 of them, the queue's
    capacity), where R passes every n whose messages have all arrived within the
    window; no payload is refused. *)
Theorem ordered_channel_in_order fragments c d chan msg pkts now n :
  wf c -> cdata c = Some d -> 0 <= chan < num_channels c ->
  ordered_at chan d Reliable.reset -> delivered d = [] ->
  (forall k, zlen (msg k) <= 1200) -> Reliable.near_window msg (concat (snd <$> pkts)) ->
  Forall (fun p => is_bytes p.1 /\ zlen p.1 = 8) pkts ->
  exists c' d' R,
    handle_payloads fragments now (ordered_payloads msg chan pkts) c = Some c' /\
    cdata c' = Some d' /\
    delivered d' = take 256 ((fun k => mkDelivered (msg k) chan (u16 k) true) <$> seqZ 0 R) /\
    ((forall k, 0 <= k < n -> Reliable.arrived msg (concat (snd <$> pkts)) k) -> n <= R).
Proof.
  intros Hwf Hc Hch Hat Hdel Hm Hnear Hp.
  destruct (Reliable.run_receiver msg Hm _ Hnear) as (R & [out st] & Hrun & (Ho & H0 & _ & Hv & Hg) & _).
  destruct (payloads_ordered fragments now msg chan pkts c d Reliable.reset [] out st
    Hwf Hc Hch Hat Hm Hp Hrun) as (c' & d' & new & Eh & _ & Hc' & Eo & Hd').
  cbn [app fst snd] in *. subst new. exists c', d', R. split; [done|]. split; [done|]. split.
  - rewrite Hd', Hdel, foldl_enqueue by done. cbn [app]. f_equal. rewrite Ho.
    unfold Reliable.messages. rewrite <- list_fmap_compose. apply fmap_seqZ_ext. intros k _.
    unfold to_message. cbn [compose fst snd]. rewrite take_ge; [done|]. specialize (Hm k).
    unfold zlen, NETUDP_MTU in *. lia.
  - intros Hall. destruct (decide (n <= R)) as [|Hgt]; [done|exfalso].
    destruct (Hg R (Hall R ltac:(lia))) as [?|[_ Hv']]; [lia|congruence].
Qed.

(** A fresh connection with a reliable-ordered channel.  The reassembler's buffers
    are large, so it is kept abstract. *)
Lemma demo_reassembler : { r | Fragment.wf r /\ Fragment.sized NETUDP_MAX_MESSAGE_SIZE r }.
Proof.
  set (K := NETUDP_MAX_MESSAGE_SIZE). exists (snd (Fragment.init (fun _ => Some (replicate (Z.to_nat K) 0)) inhabitant K)).
  assert (0 <= K) as HK by done. clearbody K.
  apply Fragment.init_wf; [done|by apply Forall_replicate|].
  intros i. eexists. split; [reflexivity|]. rewrite zlen_replicate. lia.
Qed.
Definition demo_ordered : ConnectionData :=
  mkData (aset (channels fresh_data) 0 (Channel.init inhabitant 0 (mkChannelConfig 2 0 0 0)))
    (reliable_state fresh_data) (proj1_sig demo_reassembler) (delivered_messages fresh_data).
Definition demo_ordered_conn : Connection := set_cdata (set_num_channels fresh 1) (Some demo_ordered).

Lemma demo_ordered_wf : data_wf demo_ordered.
Proof.
  destruct fresh_data_wf as (H1 & H2 & H3 & H4 & H5). unfold demo_ordered.
  destruct (proj2_sig demo_reassembler) as [Hw Hs].
  unfold data_wf. cbn [channels reliable_state fragment_reassembler delivered_messages].
  rewrite length_aset. split_and!; try done. unfold aset. apply Forall_insert; [done|].
  by apply Channel.init_refines.
Qed.
Lemma demo_ordered_conn_wf : wf demo_ordered_conn.
Proof.
  split; [by vm_compute|]. split; [by vm_compute|]. exists demo_ordered. split; [done|apply demo_ordered_wf].
Qed.

Lemma payload_safe_witness :
  exists o, handle_payload true demo_ordered_conn d0 (replicate 200 255) = Some o /\ wf (outcome_conn o).
Proof.
  apply payload_safe; [exact demo_ordered_conn_wf|by apply Forall_replicate|by vm_compute].
Defined.
Lemma ordered_channel_in_order_witness :
  exists c' d' R,
    handle_payloads true d0
      (ordered_payloads Reliable.demo_msg 0 [(replicate 8 0, [1; 1]); (replicate 8 0, [0; 2])])
      demo_ordered_conn = Some c' /\ cdata c' = Some d' /\
    delivered d' = take 256 ((fun k => mkDelivered [k mod 256] 0 (u16 k) true) <$> seqZ 0 R) /\
    ((forall k, 0 <= k < 3 -> Reliable.arrived Reliable.demo_msg [1; 1; 0; 2] k) -> 3 <= R).
Proof.
  apply (ordered_channel_in_order true demo_ordered_conn demo_ordered 0 Reliable.demo_msg
    [(replicate 8 0, [1; 1]); (replicate 8 0, [0; 2])] d0 3).
  - exact demo_ordered_conn_wf.
  - reflexivity.
  - by vm_compute.
  - split; [exact demo_ordered_wf|]. split; [reflexivity|]. by eexists.
  - reflexivity.
  - intros k. by vm_compute.
  - intros l1 k l2 E. cbn [concat fmap list_fmap snd app] in E.
    destruct l1 as [|a [|b [|c [|e [|f l1]]]]]; simplify_list_eq; vm_compute; by split.
  - repeat constructor; by vm_compute.
Defined.

(** ** Unreliable channels *)

Definition unreliable_frames (l : list (Z * bytes)) : list Wire.Frame :=
  (fun m => Wire.Unreliable m.1 m.2) <$> l.
Lemma apply_unreliable l : forall c d, data_wf d ->
  exists c' d', apply_frames (unreliable_frames l) (c, d) = Some (c', d') /\
    delivered d' = foldl enqueue (delivered d) ((fun m => mkDelivered m.2 m.1 0 true) <$> l).
Proof.
  induction l as [|[chan data] l IH]; intros c d Hd; [by exists c, d|].
  unfold unreliable_frames. rewrite !fmap_cons. cbn [apply_frames apply_frame fst snd]. rewrite Some_bind.
  destruct (deliver_delivered d (mkDelivered data chan 0 true) Hd) as [Hd1 E1].
  destruct (IH (count_messages c 1) _ Hd1) as (c' & d' & Ea & Ed). exists c', d'. split; [exact Ea|].
  by rewrite Ed, E1.
Qed.

(** A payload of unreliable messages delivers exactly those messages, in
    order, on their channels, behind what the application has not read yet (up to
    the 256 places of its queue). *)
Theorem unreliable_messages_delivered fragments c d now acks (l : list (Z * bytes)) :
  wf c -> cdata c = Some d -> is_bytes acks -> zlen acks = 8 ->
  Forall (fun m => 0 <= m.1 < num_channels c /\ zlen m.2 <= NETUDP_MTU) l ->
  exists c' d',
    handle_payload fragments c now (acks ++ encode_all (unreliable_frames l)) = Some (Stopped c') /\
    wf c' /\ cdata c' = Some d' /\
    delivered d' = take 256 (delivered d ++ ((fun m => mkDelivered m.2 m.1 0 true) <$> l)).
Proof.
  intros Hwf Hc Hb Ha Hl. pose proof Hwf as (Hn & _ & d0' & E0 & Hd). rewrite Hc in E0. injection E0 as <-.
  unfold handle_payload. pose proof (zlen_nonneg (encode_all (unreliable_frames l))).
  rewrite (proj2 (Z.ltb_ge _ _)) by (zlen_simpl; lia).
  destruct (read_ack_app acks (encode_all (unreliable_frames l)) Hb Ha) as [f ->]. rewrite Some_bind.
  destruct (process_ack_fields_ok c now f Hwf) as (c1 & -> & Hwf1 & En & Ed & _). rewrite Some_bind.
  rewrite Ed, Hc, Some_bind.
  destruct (walk_frames_encoded fragments now acks (unreliable_frames l) c1 d)
    as (c3 & d3 & Ea3 & Hd3 & Hc3 & ->); try done.
  - apply Forall_fmap. eapply Forall_impl; [|exact Hl]. intros m Hm. cbn. by rewrite En.
  - by rewrite En.
  - destruct (apply_unreliable l c1 d Hd) as (c4 & d4 & Ea4 & Ed4). rewrite Ea4 in Ea3.
    injection Ea3 as <- <-. eexists _, d4. split; [done|]. destruct Hc3 as [E1 E2].
    destruct Hwf1 as (Hn1 & Ht1 & _). split; [|split; [done|]].
    + split; [cbn; by rewrite E1|]. split; [cbn; by rewrite E2|]. by exists d4.
    + rewrite Ed4, foldl_enqueue; [done|]. unfold delivered.
      destruct Hd as (_ & _ & _ & _ & _ & _ & Hq). rewrite RingBuffer.contents_length by done.
      apply Hq.
Qed.
Lemma unreliable_messages_delivered_witness :
  exists c' d',
    handle_payload false demo_ordered_conn d0
      (replicate 8 0 ++ encode_all (unreliable_frames [(0, [1; 2]); (0, [3])])) = Some (Stopped c') /\
    wf c' /\ cdata c' = Some d' /\
    delivered d' = [mkDelivered [1; 2] 0 0 true; mkDelivered [3] 0 0 true].
Proof.
  apply (unreliable_messages_delivered false demo_ordered_conn demo_ordered d0 (replicate 8 0)
    [(0, [1; 2]); (0, [3])]).
  - exact demo_ordered_conn_wf.
  - reflexivity.
  - by apply Forall_replicate.
  - reflexivity.
  - repeat constructor; by vm_compute.
Defined.

End Receive.
