(* ===== verification/Send.v ===== *)
(** Sending: the coalescing loops [server_send_pending] (src/src/server.cpp) and
    [client_send_pending] (src/src/client.cpp), and the keepalives.

    Both drain the channels in scheduling order into payloads of at most 1200
    bytes, each an acknowledgement followed by frames.  They differ in the
    scheduler (the server's uses the mask of pending channels), in the packet
    header and in that only the server changes keys; [Side] holds what differs.
    A result of [None] is an access outside an object. *)

From S2P Require Import Prelude Bytes Double RingBuffer Wire PacketTracker ReliableChannel.
From S2P Require Import Channel Bandwidth Stats PacketCrypto Connection Receive.

Module Send.
Import Connection Receive.

Definition NETUDP_MAX_PACKET_ON_WIRE : Z := 1400.
Definition kPayloadBudget : Z := NETUDP_MTU.

(** [seal] encrypts a payload and gives the prefix and the ciphertext; [header] is
    what precedes the ciphertext on the wire. *)
Record Side : Type := mkSide {
  fast : bool;
  seal : Crypto.KeyEpoch -> bytes -> double -> option (Z * bytes) * Crypto.KeyEpoch;
  header : Z -> bytes }.

Section Sides.
Context `{Crypto.Aead} (blake2b_keyed : bytes -> bytes -> bytes) (protocol_id : Z).

Definition server_side : Side :=
  mkSide true (fun e pt now => Crypto.send_data blake2b_keyed e protocol_id pt now)
    (fun prefix => [prefix]).
(** No key change, and the slot number behind the prefix. *)
Definition client_seal (e : Crypto.KeyEpoch) (pt : bytes) (now : double)
    : option (Z * bytes) * Crypto.KeyEpoch :=
  let prefix := 20 in
  let '(ct, e) := Crypto.packet_encrypt e protocol_id prefix pt in
  (match ct with Some ct => Some (prefix, ct) | None => None end, e).
Definition client_side (server_slot_id : Z) : Side :=
  mkSide false client_seal (fun prefix => [prefix] ++ le_bytes 2 server_slot_id).
End Sides.

(** The locals of the loop, the connection and the packets handed to the socket. *)
Record sending : Type := mkSending {
  s_conn : Connection;
  s_data : ConnectionData;
  payload : bytes;
  payload_pos : Z;
  frames_packed : Z;
  sent : list bytes }.
Definition with_conn (s : sending) (c : Connection) : sending :=
  mkSending c (s_data s) (payload s) (payload_pos s) (frames_packed s) (sent s).
Definition with_data (s : sending) (d : ConnectionData) : sending :=
  mkSending (s_conn s) d (payload s) (payload_pos s) (frames_packed s) (sent s).
Definition sending_conn (s : sending) : Connection := set_cdata (s_conn s) (Some (s_data s)).

Section Loop.
Context (side : Side) (now : double).

Definition next (s : sending) : Z * sending :=
  let c := s_conn s in
  let chans := channels (s_data s) in
  if fast side then
    let '(i, mask) := Channel.next_channel_fast chans (num_channels c) now (pending_mask c) in
    (i, with_conn s (set_pending_mask c mask))
  else (Channel.next_channel chans (num_channels c) now, s).

(** A new packet: the position is reset and the acknowledgement written. *)
Definition start_packet (s : sending) : option sending :=
  let ack := PacketTracker.build_ack_fields (packet_tracker (s_conn s)) now in
  '(n, buf) ← PacketTracker.write_ack_fields ack (payload s) 0;
  Some (mkSending (s_conn s) (s_data s) buf n 0 (sent s)).

(** Encrypt the payload and hand the packet to the socket; [false] when the
    encryption fails. *)
Definition transmit (s : sending) : option (bool * sending) :=
  let c := s_conn s in
  let c := set_packet_tracker c (snd (PacketTracker.send_packet (packet_tracker c) now)) in
  pt ← mread (payload s) 0 (payload_pos s);
  let '(r, e) := seal side (key_epoch c) pt now in
  let c := set_key_epoch c e in
  match r with
  | None => Some (false, with_conn s c)
  | Some (prefix, ct) =>
      let packet := header side prefix ++ ct in
      let total := zlen packet in
      _ ← guard_ub ((zlen ct <=? NETUDP_MAX_PACKET_ON_WIRE) && (total <=? NETUDP_MAX_PACKET_ON_WIRE));
      let c := set_last_send_time c now in
      let st := Stats.on_packet_sent (stats c) total in
      let c := set_stats c (Stats.add_counters st 0 0 (frames_packed s) 0) in
      let c := set_budget c (Bandwidth.consume (budget c) total) in
      Some (true, mkSending c (s_data s) (payload s) (payload_pos s) (frames_packed s)
                    (sent s ++ [packet]))
  end.

(** What the code does after the check for room: go on, leave the loop, return. *)
Inductive verdict : Type := Go | Break | Return.

Definition make_room (needed : Z) (s : sending) : option (verdict * sending) :=
  let remaining := kPayloadBudget - payload_pos s in
  if (remaining <? needed) && (0 <? frames_packed s) then
    '(ok, s) ← transmit s;
    if negb ok then Some (Break, s)
    else if negb (Bandwidth.can_send (budget (s_conn s))) then Some (Return, s)
    else s ← start_packet s; Some (Go, s)
  else Some (Go, s).

Definition is_reliable (ch_type : Z) : bool :=
  (ch_type =? NETUDP_CHANNEL_RELIABLE_ORDERED) || (ch_type =? NETUDP_CHANNEL_RELIABLE_UNORDERED).

(** Record a reliable message and write the frame; [false] when it does not fit. *)
Definition write_message (ch_idx ch_type : Z) (q : Channel.QueuedMessage) (s : sending)
    : option (bool * sending) :=
  let remaining := kPayloadBudget - payload_pos s in
  let data := Channel.q_data q in
  '(d, frame_len, buf) ←
    (if is_reliable ch_type then
       r ← rs (s_data s) ch_idx;
       let pkt_seq := PacketTracker.send_sequence_ (packet_tracker (s_conn s)) in
       let r := snd (Reliable.record_send r data pkt_seq now) in
       '(n, buf) ← Wire.write_reliable_frame (payload s) (payload_pos s) remaining (u8 ch_idx)
                     (Channel.q_sequence q) data;
       Some (set_rs (s_data s) ch_idx r, n, buf)
     else
       '(n, buf) ← Wire.write_unreliable_frame (payload s) (payload_pos s) remaining (u8 ch_idx) data;
       Some (s_data s, n, buf));
  if frame_len <? 0 then
    Some (false, mkSending (s_conn s) d buf (payload_pos s) (frames_packed s) (sent s))
  else
    Some (true, mkSending (s_conn s) d buf (payload_pos s + frame_len) (frames_packed s + 1) (sent s)).

(** One turn of [while (ch_idx >= 0)].  The loop is left with [true] when the
    remaining frames are still to be flushed and with [false] by a [return]. *)
Definition send_step (st : Z * sending) : (Z * sending) + option (bool * sending) :=
  let '(ch_idx, s) := st in
  if ch_idx <? 0 then inr (Some (true, s))
  else
    match ch (s_data s) ch_idx with
    | None => inr None
    | Some x =>
        let '(m, x) := Channel.dequeue_send x in
        let s := with_data s (set_ch (s_data s) ch_idx x) in
        match m with
        | None => inl (next s)
        | Some q =>
            let ch_type := Channel.type x in
            let frame_overhead := if is_reliable ch_type then 6 else 4 in
            let needed := frame_overhead + zlen (Channel.q_data q) in
            match make_room needed s with
            | None => inr None
            | Some (Break, s) => inr (Some (true, s))
            | Some (Return, s) => inr (Some (false, s))
            | Some (Go, s) =>
                match write_message ch_idx ch_type q s with
                | None => inr None
                | Some (false, s) => inr (Some (true, s))
                | Some (true, s) => inl (next s)
                end
            end
        end
    end.

(** Every turn takes a message off a queue, and four queues hold 256 each. *)
Definition SEND_TURNS : positive := 1026.

Definition send_pending (c : Connection) : option (Connection * list bytes) :=
  if negb (Bandwidth.can_send (budget c)) then Some (c, [])
  else
    d ← cdata c;
    s ← start_packet (mkSending c d (replicate (Z.to_nat NETUDP_MTU) 0) 0 0 []);
    match loop SEND_TURNS send_step (next s) with
    | inl _ => None
    | inr r =>
        '(flush, s) ← r;
        if flush && (0 <? frames_packed s) then
          '(_, s) ← transmit s;
          Some (sending_conn s, sent s)
        else Some (sending_conn s, sent s)
    end.

(** A packet of acknowledgements alone.  [note_keepalive] is the server's extra
    assignment. *)
Definition send_keepalive (seal_keepalive : Crypto.KeyEpoch -> bytes -> option bytes * Crypto.KeyEpoch)
    (note_keepalive : bool) (c : Connection) : option (Connection * list bytes) :=
  let ack := PacketTracker.build_ack_fields (packet_tracker c) now in
  '(_, buf) ← PacketTracker.write_ack_fields ack (replicate 8 0) 0;
  let c := set_packet_tracker c (snd (PacketTracker.send_packet (packet_tracker c) now)) in
  let '(ct, e) := seal_keepalive (key_epoch c) buf in
  let c := set_key_epoch c e in
  match ct with
  | None => Some (c, [])
  | Some ct =>
      if zlen ct <=? 0 then Some (c, [])
      else
        _ ← guard_ub (zlen ct <=? 64);
        let c := set_last_send_time c now in
        let c := if note_keepalive then set_last_keepalive_time c now else c in
        Some (c, [header side 21 ++ ct])
  end.
End Loop.

Section Entry.
Context `{Crypto.Aead} (blake2b_keyed : bytes -> bytes -> bytes) (protocol_id : Z).

Definition server_send_pending (c : Connection) (now : double) : option (Connection * list bytes) :=
  send_pending (server_side blake2b_keyed protocol_id) now c.
Definition client_send_pending (server_slot_id : Z) (c : Connection) (now : double)
    : option (Connection * list bytes) :=
  send_pending (client_side protocol_id server_slot_id) now c.
Definition server_send_keepalive (c : Connection) (now : double) : option (Connection * list bytes) :=
  send_keepalive (server_side blake2b_keyed protocol_id) now
    (fun e pt => Crypto.packet_encrypt e protocol_id 21 pt) true c.
Definition client_send_keepalive (server_slot_id : Z) (c : Connection) (now : double)
    : option (Connection * list bytes) :=
  send_keepalive (client_side protocol_id server_slot_id) now
    (fun e pt => Crypto.packet_encrypt e protocol_id 21 pt) false c.
End Entry.

(** * What the loop does *)

(** What a side promises to the loop. *)
Class SideOk (side : Side) : Prop := {
  seal_ok : forall e pt now, exists p ct e', seal side e pt now = (Some (p, ct), e') /\
    zlen ct <= zlen pt + 16;
  header_ok : forall p, zlen (header side p) <= 3 }.

#[export] Instance server_side_ok `{Crypto.Aead} blake pid :
  Crypto.aead_overhead <= 16 -> SideOk (server_side blake pid).
Proof.
  intros Ho. split; [|done]. intros e pt now. cbn [seal server_side]. unfold Crypto.send_data, Crypto.packet_encrypt.
  set (a1 := if _ && _ then _ else _). set (pre := if Crypto.rekey_pending a1 then _ else _).
  destruct (Crypto.aead_correct (Crypto.tx_key a1) (Crypto.build_nonce (Crypto.tx_nonce_counter a1))
    (Crypto.build_aad pid pre) pt) as (ct & -> & Hl & _). eexists _, _, _. split; [done|lia].
Qed.
#[export] Instance client_side_ok `{Crypto.Aead} pid slot :
  Crypto.aead_overhead <= 16 -> SideOk (client_side pid slot).
Proof.
  intros Ho. split; [|done]. intros e pt now. cbn [seal client_side]. unfold client_seal, Crypto.packet_encrypt.
  destruct (Crypto.aead_correct (Crypto.tx_key e) (Crypto.build_nonce (Crypto.tx_nonce_counter e))
    (Crypto.build_aad pid 20) pt) as (ct & -> & Hl & _). eexists _, _, _. split; [done|lia].
Qed.

Lemma send_packet_wf t time : PacketTracker.wf t -> PacketTracker.wf (snd (PacketTracker.send_packet t time)).
Proof.
  intros (H1 & H2 & H3). unfold PacketTracker.send_packet. cbn [snd].
  split; [cbn [PacketTracker.sent_]; by rewrite zlen_aset|]. split; [apply u16_range|exact H3].
Qed.

(** The packets of a list of payloads, sealed in order. *)
Fixpoint seal_all (side : Side) (now : double) (e : Crypto.KeyEpoch) (pts : list bytes)
    : option (list bytes * Crypto.KeyEpoch) :=
  match pts with
  | [] => Some ([], e)
  | pt :: pts =>
      match seal side e pt now with
      | (Some (p, ct), e) =>
          '(l, e) ← seal_all side now e pts;
          Some ((header side p ++ ct) :: l, e)
      | _ => None
      end
  end.
Lemma seal_all_snoc side now pts : forall e l e1 pt p ct e2,
  seal_all side now e pts = Some (l, e1) -> seal side e1 pt now = (Some (p, ct), e2) ->
  seal_all side now e (pts ++ [pt]) = Some (l ++ [header side p ++ ct], e2).
Proof.
  induction pts as [|x pts IH]; intros e l e1 pt p ct e2 H1 H2; cbn [seal_all app] in *.
  - injection H1 as <- <-. by rewrite H2.
  - destruct (seal side e x now) as [[[p' ct']|] e']; [|done].
    destruct (seal_all side now e' pts) as [[l' e'']|] eqn:E1; [|done].
    rewrite Some_bind in H1. injection H1 as <- <-.
    by rewrite (IH _ _ _ _ _ _ _ E1 H2), Some_bind.
Qed.

Definition queue (d : ConnectionData) (i : Z) : list Channel.QueuedMessage := Channel.qlist (channels d).[i].
Definition kind (d : ConnectionData) (i : Z) : Z := Channel.type (channels d).[i].
(** The frame of a message taken from channel [m.1]. *)
Definition frame_of (d : ConnectionData) (m : Z * Channel.QueuedMessage) : Wire.Frame :=
  if is_reliable (kind d m.1) then Wire.Reliable m.1 (Channel.q_sequence m.2) (Channel.q_data m.2)
  else Wire.Unreliable m.1 (Channel.q_data m.2).
Definition of_channel (i : Z) (ms : list (Z * Channel.QueuedMessage)) : list Channel.QueuedMessage :=
  snd <$> filter (fun m => m.1 = i) ms.
Definition payload_of (p : bytes * list Wire.Frame) : bytes := p.1 ++ encode_all p.2.
Definition payload_ok (p : bytes * list Wire.Frame) : Prop :=
  is_bytes p.1 /\ zlen p.1 = 8 /\ p.2 <> [] /\ zlen (payload_of p) <= NETUDP_MTU.

Lemma of_channel_snoc i ms m :
  of_channel i (ms ++ [m]) = of_channel i ms ++ (if decide (m.1 = i) then [m.2] else []).
Proof. unfold of_channel. rewrite list.filter_app, fmap_app. f_equal. rewrite filter_cons. by destruct (decide _). Qed.

Section Run.
Context (side : Side) `{!SideOk side} (now : double).
Context (c0 : Connection) (d0 : ConnectionData).

(** The payload under construction: an acknowledgement and the frames [cur]. *)
Record packing (s : sending) (acks : bytes) (cur : list Wire.Frame) : Prop := {
  pk_rest : exists rest, payload s = (acks ++ encode_all cur) ++ rest;
  pk_len : zlen (payload s) = NETUDP_MTU;
  pk_pos : payload_pos s = 8 + zlen (encode_all cur);
  pk_frames : frames_packed s = zlen cur;
  pk_acks : is_bytes acks /\ zlen acks = 8 }.

(** The rest of the state: the packets sent are the payloads [out], and the queues
    have lost the messages [ms]. *)
Record progress (s : sending) (out : list (bytes * list Wire.Frame))
    (ms : list (Z * Channel.QueuedMessage)) : Prop := {
  pg_sent : seal_all side now (key_epoch c0) (payload_of <$> out) = Some (sent s, key_epoch (s_conn s));
  pg_out : Forall payload_ok out;
  pg_conn : num_channels (s_conn s) = num_channels c0 /\ PacketTracker.wf (packet_tracker (s_conn s));
  pg_data : data_wf (s_data s);
  pg_same : delivered_messages (s_data s) = delivered_messages d0;
  pg_small : Forall (fun p => zlen p <= NETUDP_MTU + 19) (sent s);
  pg_range : Forall (fun m => 0 <= m.1 < num_channels c0) ms;
  pg_queues : forall i, 0 <= i < 4 ->
    kind (s_data s) i = kind d0 i /\ queue d0 i = of_channel i ms ++ queue (s_data s) i }.

Lemma packing_bound s acks cur : packing s acks cur -> zlen (acks ++ encode_all cur) <= NETUDP_MTU.
Proof.
  intros [(rest & Hp) Hl _ _ _]. rewrite Hp in Hl. zlen_simpl. pose proof (zlen_nonneg rest). lia.
Qed.
Lemma packing_payload s acks cur :
  packing s acks cur -> cur <> [] -> payload_ok (acks, cur).
Proof.
  intros Hp Hc. pose proof (packing_bound _ _ _ Hp). destruct Hp as [_ _ _ _ [Hb Ha]]. by split_and!.
Qed.
Lemma packing_conn s acks cur c d : packing s acks cur -> packing (with_data (with_conn s c) d) acks cur.
Proof. by intros [? ? ? ? ?]. Qed.

Lemma transmit_ok s acks cur out ms :
  packing s acks cur -> progress s out ms -> cur <> [] ->
  exists s', transmit side now s = Some (true, s') /\ packing s' acks cur /\
    progress s' (out ++ [(acks, cur)]) ms /\ s_data s' = s_data s /\
    pending_mask (s_conn s') = pending_mask (s_conn s).
Proof.
  intros Hpk Hpg Hc. pose proof (packing_bound _ _ _ Hpk) as Hb. pose proof Hpk as [(rest & Hp) Hl Hpos Hf [Hba Ha]].
  unfold transmit. assert (mread (payload s) 0 (payload_pos s) = Some (acks ++ encode_all cur)) as ->.
  { apply holds_mread; [rewrite Hp; apply holds_here|]. zlen_simpl. lia. }
  rewrite Some_bind. set (c1 := set_packet_tracker _ _).
  destruct (seal_ok (key_epoch c1) (acks ++ encode_all cur) now) as (p & ct & e & Es & Hct).
  rewrite Es. pose proof (header_ok p) as Hh. unfold NETUDP_MTU in Hb.
  assert (zlen (header side p ++ ct) <= NETUDP_MTU + 19) as Htot by (unfold NETUDP_MTU; zlen_simpl; lia).
  unfold guard_ub. rewrite (proj2 (Z.leb_le (zlen ct) _)), (proj2 (Z.leb_le (zlen (header side p ++ ct)) _))
    by (unfold NETUDP_MAX_PACKET_ON_WIRE, NETUDP_MTU in *; lia).
  cbn [andb]. rewrite Some_bind. eexists. split; [done|]. split; [by destruct Hpk; split|].
  destruct Hpg as [H1 H2 H3 H4 H4' H5 H5' H6]. split; [split; cbn [sent s_conn s_data]; try done|done].
  - rewrite fmap_app. eapply seal_all_snoc; [exact H1|]. exact Es.
  - apply Forall_app; split; [done|]. constructor; [|done]. by eapply packing_payload.
  - destruct H3 as [H3 Ht]. split; [done|]. by apply send_packet_wf.
  - apply Forall_app; split; [done|]. by constructor.
Qed.

Lemma start_packet_ok s out ms :
  zlen (payload s) = NETUDP_MTU -> progress s out ms ->
  exists s' acks, start_packet now s = Some s' /\ packing s' acks [] /\ progress s' out ms /\
    s_data s' = s_data s /\ s_conn s' = s_conn s.
Proof.
  intros Hl Hpg. unfold start_packet. set (f := PacketTracker.build_ack_fields _ _).
  set (acks := le_bytes 2 (PacketTracker.ack f) ++ le_bytes 4 (PacketTracker.ack_bits f)
                 ++ le_bytes 2 (PacketTracker.ack_delay_us f)).
  assert (zlen acks = 8) as Ha by (unfold acks; zlen_simpl; done).
  assert (PacketTracker.write_ack_fields f (payload s) 0 = Some (8, acks ++ drop 8 (payload s))) as ->.
  { unfold PacketTracker.write_ack_fields. unfold NETUDP_MTU in Hl.
    rewrite mwrite_chain by (zlen_simpl; change (Z.of_nat 2) with 2; change (Z.of_nat 4) with 4; lia).
    rewrite mwrite_chain by (zlen_simpl; change (Z.of_nat 2) with 2; change (Z.of_nat 4) with 4; lia).
    rewrite <- app_assoc. fold acks. rewrite mwrite_Some by lia. rewrite Some_bind. cbn [Z.to_nat take app].
    by do 3 f_equal. }
  rewrite Some_bind. eexists _, acks. split; [done|]. split; [|split; [by destruct Hpg; split|done]].
  split; cbn [payload payload_pos frames_packed]; try done.
  - exists (drop 8 (payload s)). change (encode_all []) with (@nil Z). by rewrite app_nil_r.
  - rewrite zlen_app, Ha. unfold NETUDP_MTU in *. unfold zlen in *. rewrite length_drop. lia.
  - split; [|done]. unfold acks. apply Forall_app; split; [apply le_bytes_is_bytes|].
    apply Forall_app; split; apply le_bytes_is_bytes.
Qed.

(** The frame a message of a channel of kind [t] travels in. *)
Definition frame_as (t i : Z) (q : Channel.QueuedMessage) : Wire.Frame :=
  if is_reliable t then Wire.Reliable i (Channel.q_sequence q) (Channel.q_data q)
  else Wire.Unreliable i (Channel.q_data q).
Lemma zlen_frame_as t i q :
  zlen (Wire.encode (frame_as t i q)) = (if is_reliable t then 6 else 4) + zlen (Channel.q_data q).
Proof. unfold frame_as. destruct (is_reliable t); by rewrite Wire.zlen_encode. Qed.

Lemma encode_all_snoc fs f : encode_all (fs ++ [f]) = encode_all fs ++ Wire.encode f.
Proof. unfold encode_all. rewrite fmap_app, concat_app. cbn. by rewrite app_nil_r. Qed.

(** Writing the frame itself, after the recording of a reliable message. *)
Definition record_message (i t : Z) (q : Channel.QueuedMessage) (s : sending) : option ConnectionData :=
  if is_reliable t then
    r ← rs (s_data s) i;
    Some (set_rs (s_data s) i (snd (Reliable.record_send r (Channel.q_data q)
            (PacketTracker.send_sequence_ (packet_tracker (s_conn s))) now)))
  else Some (s_data s).
Lemma write_message_frame i t q s :
  0 <= i < 4 ->
  write_message now i t q s
  = (d ← record_message i t q s;
     '(n, buf) ← Wire.write_frame (payload s) (payload_pos s) (kPayloadBudget - payload_pos s)
                   (frame_as t i q);
     if n <? 0 then Some (false, mkSending (s_conn s) d buf (payload_pos s) (frames_packed s) (sent s))
     else Some (true, mkSending (s_conn s) d buf (payload_pos s + n) (frames_packed s + 1) (sent s))).
Proof.
  intros Hi. unfold write_message, record_message, frame_as.
  rewrite !(u8_small i) by (unfold is_u8; lia). destruct (is_reliable t); cbn [Wire.write_frame].
  - destruct (rs (s_data s) i) as [r|]; [|done]. rewrite !Some_bind.
    by destruct (Wire.write_reliable_frame _ _ _ _ _ _) as [[n buf]|].
  - rewrite Some_bind. by destruct (Wire.write_unreliable_frame _ _ _ _ _) as [[n buf]|].
Qed.
Lemma record_message_ok i t q s out ms :
  0 <= i < 4 -> progress s out ms ->
  exists d, record_message i t q s = Some d /\ progress (with_data s d) out ms /\
    channels d = channels (s_data s).
Proof.
  intros Hi Hpg. unfold record_message. destruct (is_reliable t); [|exists (s_data s); split; [done|]; by destruct Hpg, s].
  destruct (rs_wf (s_data s) i (pg_data _ _ _ Hpg) Hi) as (r & -> & Hr). rewrite Some_bind.
  eexists. split; [done|]. split; [|done]. destruct Hpg as [H1 H2 H3 H4 H4' H5 H5' H6]. split; try done.
  cbn [with_data s_data]. apply set_rs_wf; [done|]. unfold Reliable.record_send. by case_if.
Qed.

Lemma write_message_ok i t q s acks cur out ms :
  0 <= i < 4 -> packing s acks cur -> progress s out ms ->
  exists b s', write_message now i t q s = Some (b, s') /\ progress s' out ms /\
    s_conn s' = s_conn s /\ channels (s_data s') = channels (s_data s) /\
    (b = true /\ packing s' acks (cur ++ [frame_as t i q]) \/
     b = false /\ packing s' acks cur /\
       NETUDP_MTU < payload_pos s + zlen (Wire.encode (frame_as t i q))).
Proof.
  intros Hi Hpk Hpg. rewrite write_message_frame by done.
  destruct (record_message_ok i t q s out ms Hi Hpg) as (d & -> & Hpg' & Hc). rewrite Some_bind.
  pose proof Hpk as [(rest & Hp) Hl Hpos Hf [Hba Ha]].
  pose proof (zlen_nonneg (encode_all cur)). unfold kPayloadBudget.
  set (f := frame_as t i q) in *. destruct (decide (zlen (Wire.encode f) <= NETUDP_MTU - payload_pos s)) as [Hfit|Hno].
  - rewrite Wire.write_frame_ok by lia. rewrite (mwrite_at _ _ _ (acks ++ encode_all cur)
      (take (length (Wire.encode f)) rest) (drop (length (Wire.encode f)) rest)).
    + rewrite !Some_bind. rewrite (proj2 (Z.ltb_ge _ 0)) by apply zlen_nonneg.
      eexists true, _. split; [done|]. split; [by destruct Hpg'; split|]. split; [done|]. split; [done|].
      left. split; [done|]. split; cbn [payload payload_pos frames_packed]; try done.
      * rewrite encode_all_snoc. eexists. by rewrite <- !app_assoc.
      * rewrite Hp in Hl. zlen_simpl. unfold zlen in *. rewrite length_drop. lia.
      * rewrite encode_all_snoc. zlen_simpl. lia.
      * zlen_simpl. cbn. lia.
    + by rewrite take_drop.
    + zlen_simpl. lia.
    + rewrite Hp in Hl. zlen_simpl. unfold zlen in *. rewrite length_take. lia.
  - rewrite Wire.write_frame_full by lia. rewrite Some_bind. change (-1 <? 0) with true. cbv iota.
    eexists false, _. split; [done|]. split; [by destruct Hpg'; split|]. split; [done|]. split; [done|].
    right. split; [done|]. split; [by destruct Hpk; split|lia].
Qed.

(** Room for the frame, or the packet is sent first. *)
Lemma make_room_ok needed s acks cur out ms :
  packing s acks cur -> progress s out ms ->
  exists v s' out', make_room side now needed s = Some (v, s') /\ progress s' out' ms /\
    s_data s' = s_data s /\ pending_mask (s_conn s') = pending_mask (s_conn s) /\
    match v with
    | Go => exists acks' cur', packing s' acks' cur' /\
              concat (snd <$> out') ++ cur' = concat (snd <$> out) ++ cur /\
              (cur' = [] \/ payload_pos s' + needed <= NETUDP_MTU)
    | Break => False
    | Return => concat (snd <$> out') = concat (snd <$> out) ++ cur /\
                Bandwidth.can_send (budget (s_conn s')) = false
    end.
Proof.
  intros Hpk Hpg. unfold make_room. destruct ((_ <? needed) && _) eqn:E.
  - apply andb_true_iff in E as [E1 E2]. bool_facts.
    assert (cur <> []) as Hc by (intros ->; rewrite (pk_frames _ _ _ Hpk) in E2; done).
    destruct (transmit_ok s acks cur out ms Hpk Hpg Hc) as (s1 & -> & Hpk1 & Hpg1 & Hd1 & Hm1).
    rewrite Some_bind. cbn [negb]. destruct (Bandwidth.can_send _) eqn:Eb; cbn [negb].
    + destruct (start_packet_ok s1 _ ms (pk_len _ _ _ Hpk1) Hpg1) as (s2 & acks2 & -> & Hpk2 & Hpg2 & Hd2 & Hc2).
      rewrite Some_bind. eexists Go, _, _. split; [done|]. split; [exact Hpg2|]. split; [congruence|].
      split; [congruence|]. eexists acks2, []. split; [done|]. split; [|by left].
      rewrite fmap_app, concat_app. cbn. by rewrite !app_nil_r.
    + eexists Return, _, _. split; [done|]. split; [exact Hpg1|]. split; [done|]. split; [done|].
      split; [|done]. rewrite fmap_app, concat_app. cbn. by rewrite app_nil_r.
  - eexists Go, s, out. split; [done|]. split; [done|]. split; [done|]. split; [done|].
    exists acks, cur. split; [done|]. split; [done|]. apply andb_false_iff in E as [E|E]; bool_facts.
    + right. unfold kPayloadBudget in E. lia.
    + left. rewrite (pk_frames _ _ _ Hpk) in E. unfold zlen in E. apply nil_length_inv. lia.
Qed.

(** Channel [j] has something to send now, and the side's scheduler looks at it: the
    client's looks at every channel, the server's at those its mask has. *)
Definition pending (d : ConnectionData) (j : Z) : bool := Channel.has_pending (channels d).[j] now.
Definition seen (c : Connection) (j : Z) : Prop := fast side = true -> Z.testbit (pending_mask c) j = true.
Definition followed (c : Connection) (d : ConnectionData) (j : Z) : Prop := pending d j = true -> seen c j.
Definition total (d : ConnectionData) : Z := sumZ ((fun i => zlen (queue d i)) <$> seqZ 0 4).

Lemma queue_set_ch d i x j :
  data_wf d -> 0 <= i < 4 -> 0 <= j < 4 ->
  (channels (set_ch d i x)).[j] = if decide (i = j) then x else (channels d).[j].
Proof. intros (H1 & _) Hi Hj. cbn [set_ch channels]. apply aget_aset; [lia|]. unfold zlen. lia. Qed.
Lemma total_set_ch d i x :
  data_wf d -> 0 <= i < 4 ->
  total (set_ch d i x) = total d - zlen (queue d i) + zlen (Channel.qlist x).
Proof.
  intros Hd Hi. unfold total.
  rewrite (sumZ_seqZ_update _ (fun i => zlen (queue d i)) 4 i Hi).
  - f_equal. unfold queue. rewrite queue_set_ch by done. by rewrite decide_True.
  - intros j Hj Hne. unfold queue. rewrite queue_set_ch by done. by rewrite decide_False.
Qed.

(** The state between two turns, at channel [i]. *)
Definition turn (n : Z) (st : Z * sending) : Prop :=
  exists acks cur out ms, packing st.2 acks cur /\ progress st.2 out ms /\
    concat (snd <$> out) ++ cur = frame_of d0 <$> ms /\ n = total (s_data st.2) /\
    (st.1 = -1 \/ 0 <= st.1 < num_channels c0 /\
       Channel.has_pending (channels (s_data st.2)).[st.1] now = true) /\
    (forall j, 0 <= j < num_channels c0 -> followed c0 d0 j ->
       followed (s_conn st.2) (s_data st.2) j /\ (st.1 = -1 -> pending (s_data st.2) j = false)).

(** What the loop is left with. *)
Definition left_with (r : option (bool * sending)) : Prop :=
  exists flush s acks cur out ms lost, r = Some (flush, s) /\ progress s out ms /\
    (concat (snd <$> out) ++ cur) ++ lost = frame_of d0 <$> ms /\
    (if flush : bool then packing s acks cur else cur = []) /\
    (lost = [] /\ flush = true /\
       (forall j, 0 <= j < num_channels c0 -> followed c0 d0 j -> pending (s_data s) j = false) \/
     (exists f, lost = [f] /\ flush = false /\ Bandwidth.can_send (budget (s_conn s)) = false) \/
     (exists f, lost = [f] /\ flush = true /\ NETUDP_MTU - 8 < zlen (Wire.encode f))).

Lemma next_turn s acks cur out ms :
  num_channels c0 <= 4 -> packing s acks cur -> progress s out ms ->
  concat (snd <$> out) ++ cur = frame_of d0 <$> ms ->
  (forall j, 0 <= j < num_channels c0 -> followed c0 d0 j -> followed (s_conn s) (s_data s) j) ->
  turn (total (s_data s)) (next side now s).
Proof.
  intros Hn Hpk Hpg Hfr Ht. pose proof (pg_conn _ _ _ Hpg) as [En _]. unfold next.
  destruct (fast side) eqn:Ef.
  - pose proof (Channel.next_channel_fast_range (channels (s_data s)) (num_channels (s_conn s)) now
      (pending_mask (s_conn s))) as Hr.
    pose proof (fun j => Channel.next_channel_fast_quiet (channels (s_data s)) (num_channels (s_conn s)) now
      (pending_mask (s_conn s)) j ltac:(lia)) as Hq.
    destruct (Channel.next_channel_fast _ _ _ _) as [i mask]. cbn [fst] in Hr.
    exists acks, cur, out, ms. cbn [fst snd].
    split; [by destruct Hpk; split|]. split; [by destruct Hpg; split|]. split; [done|]. split; [done|].
    split; [by rewrite <- En|]. intros j Hj Htd. rewrite En in Hq.
    destruct (Hq j Hj (fun Hp => Ht j Hj Htd Hp Ef)) as [Hc Hi]. split; [|exact Hi]. intros Hp _. by apply Hc.
  - pose proof (Channel.next_channel_range (channels (s_data s)) (num_channels (s_conn s)) now) as Hb.
    rewrite En in *. exists acks, cur, out, ms. cbn [fst snd]. split; [done|]. split; [done|]. split; [done|].
    split; [done|]. split.
    + destruct Hb as [[-> _]|(Hr & Hp & _)]; [by left|right; split; [lia|done]].
    + intros j Hj _. split; [intros _ Hf; by rewrite Ef in Hf|]. intros Hi.
      destruct Hb as [[_ Hq]|(Hr & _)]; [|lia]. apply Hq. lia.
Qed.

(** Taking a message off a pending channel. *)
Lemma dequeue_progress i s out ms :
  0 <= i < num_channels c0 -> num_channels c0 <= 4 -> progress s out ms ->
  Channel.has_pending (channels (s_data s)).[i] now = true ->
  exists x q x', ch (s_data s) i = Some x /\ Channel.dequeue_send x = (Some q, x') /\
    progress (with_data s (set_ch (s_data s) i x')) out (ms ++ [(i, q)]) /\
    total (set_ch (s_data s) i x') = total (s_data s) - 1 /\
    Channel.type x' = kind d0 i /\
    (forall j, 0 <= j < num_channels c0 ->
       followed (s_conn s) (s_data s) j -> followed (s_conn s) (set_ch (s_data s) i x') j).
Proof.
  intros Hi Hn Hpg Hp. pose proof (pg_data _ _ _ Hpg) as Hd. pose proof (pg_conn _ _ _ Hpg) as [En _].
  assert (0 <= i < zlen (channels (s_data s))) as Hi' by (destruct Hd as [Hl _]; unfold zlen; lia).
  set (x := (channels (s_data s)).[i]) in *.
  assert (Channel.wf x) as Hx.
  { destruct Hd as (_ & _ & H3 & _). eapply Forall_lookup_1; [exact H3|]. by apply lookup_aget. }
  destruct (Channel.dequeue_pending x now Hx Hp) as (q & x' & Eq & Hx' & Ql & Ec & _).
  exists x, q, x'. split; [unfold ch; by rewrite oget_aget|]. split; [done|].
  assert (Channel.type x' = kind (s_data s) i) as Hk by (unfold kind, Channel.type; by rewrite Ec).
  assert (queue (s_data s) i = q :: Channel.qlist x') as Hqi by exact Ql.
  split; [|split; [|split]].
  - destruct Hpg as [H1 H2 H3 H4 H4' H5 H5' H6]. split; try done; cbn [with_data s_data].
    + by apply set_ch_wf.
    + apply Forall_app; split; [done|]. by constructor.
    + intros j Hj. destruct (H6 j Hj) as [E1 E2]. unfold kind, queue in *.
      rewrite queue_set_ch by (done || lia). rewrite of_channel_snoc. cbn [fst snd].
      case_decide; [subst j|by rewrite app_nil_r].
      split; [by rewrite <- E1|]. rewrite E2, Hqi. by rewrite <- app_assoc.
  - rewrite total_set_ch by (done || lia). rewrite Hqi. zlen_simpl. lia.
  - rewrite Hk. by apply Hpg; lia.
  - intros j Hj Ht Hpj. apply Ht. unfold pending in *. rewrite queue_set_ch in Hpj by (done || lia).
    by case_decide; [subst j|].
Qed.

Lemma send_step_turn n st :
  num_channels c0 <= 4 -> turn n st ->
  match send_step side now st with
  | inl st' => turn (n - 1) st'
  | inr r => left_with r
  end.
Proof.
  intros Hn (acks & cur & out & ms & Hpk & Hpg & Hfr & -> & Hi & Ht). destruct st as [i s]. cbn [fst snd] in *.
  unfold send_step. destruct Hi as [->|[Hi Hp]].
  { change (-1 <? 0) with true. cbv iota. exists true, s, acks, cur, out, ms, [].
    split; [done|]. split; [done|]. split; [by rewrite app_nil_r|]. split; [done|]. left.
    split; [done|]. split; [done|]. intros j Hj Htd. by apply (Ht j). }
  rewrite (proj2 (Z.ltb_ge i 0)) by lia.
  destruct (dequeue_progress i s out ms Hi Hn Hpg Hp) as (x & q & x' & -> & -> & Hpg1 & Htot & Hk & Htd).
  set (s1 := with_data s _) in *.
  assert (packing s1 acks cur) as Hpk1 by by destruct Hpk; split.
  rewrite Hk. set (f := frame_as (kind d0 i) i q).
  assert (frame_of d0 <$> (ms ++ [(i, q)]) = (concat (snd <$> out) ++ cur) ++ [f]) as Hfr1.
  { rewrite fmap_app. by rewrite <- Hfr. }
  destruct (make_room_ok ((if is_reliable (kind d0 i) then 6 else 4) + zlen (Channel.q_data q))
    s1 acks cur out _ Hpk1 Hpg1) as (v & s2 & out2 & -> & Hpg2 & Hd2 & Hm2 & Hv).
  assert (forall j, 0 <= j < num_channels c0 -> followed c0 d0 j -> followed (s_conn s2) (s_data s2) j) as Ht2.
  { intros j Hj Hc. destruct (Ht j Hj Hc) as [Hc1 _]. apply (Htd j Hj) in Hc1. unfold followed, seen in *.
    by rewrite Hd2, Hm2. }
  destruct v; [|done|].
  - destruct Hv as (acks2 & cur2 & Hpk2 & Hfr2 & Hroom).
    destruct (write_message_ok i (kind d0 i) q s2 acks2 cur2 out2 _ ltac:(lia) Hpk2 Hpg2)
      as (b & s3 & -> & Hpg3 & Hc3 & Hd3 & [[-> Hpk3]|(-> & Hpk3 & Hbig)]).
    + replace (total (s_data s) - 1) with (total (s_data s3)).
      * eapply next_turn; [done|exact Hpk3|exact Hpg3| |].
        -- rewrite app_assoc, Hfr2. symmetry. exact Hfr1.
        -- unfold followed, pending, seen in *. by rewrite Hc3, Hd3.
      * rewrite <- Htot. unfold total, queue. by rewrite Hd3, Hd2.
    + exists true, s3, acks2, cur2, out2, (ms ++ [(i, q)]), [f]. split; [done|]. split; [done|].
      split; [by rewrite Hfr2|]. split; [done|]. right. right. exists f. split; [done|]. split; [done|].
      fold f in Hbig. destruct Hroom as [->|Hroom].
      * rewrite (pk_pos _ _ _ Hpk2) in Hbig. change (zlen (encode_all [])) with 0 in Hbig. lia.
      * rewrite <- zlen_frame_as with (i := i) in Hroom. fold f in Hroom. lia.
  - destruct Hv as [Hfr2 Hb]. exists false, s2, acks, [], out2, (ms ++ [(i, q)]), [f].
    split; [done|]. split; [done|]. split; [by rewrite app_nil_r, Hfr2|]. split; [done|].
    right. left. by exists f.
Qed.

Lemma total_bound d : data_wf d -> 0 <= total d <= 1024.
Proof.
  intros (H1 & _ & H3 & _). unfold total.
  assert (forall i, 0 <= i < 4 -> 0 <= zlen (queue d i) <= 256) as Hq.
  { intros i Hi. unfold queue. assert (Channel.wf (channels d).[i]) as (Hw & _).
    { eapply Forall_lookup_1; [exact H3|]. apply lookup_aget. unfold zlen. lia. }
    unfold Channel.qlist. rewrite RingBuffer.contents_length by done. apply Hw. }
  split.
  - apply sumZ_nonneg, Forall_fmap, Forall_true. intros i. apply zlen_nonneg.
  - etrans; [apply (sumZ_bound _ 256)|done]. apply Forall_fmap, list.Forall_forall.
    intros i Hi%elem_of_seqZ. cbn. apply Hq. lia.
Qed.

Lemma send_loop st n :
  num_channels c0 <= 4 -> data_wf (s_data st.2) -> turn n st ->
  exists r, loop SEND_TURNS (send_step side now) st = inr r /\ left_with r.
Proof.
  intros Hn Hd Ht. apply (loop_done (send_step side now) turn left_with SEND_TURNS n st).
  - intros m s (? & ? & ? & ? & _ & Hpg & _ & -> & _). apply total_bound. apply Hpg.
  - intros m s s' Hs E. exists (m - 1). split; [lia|]. pose proof (send_step_turn m s Hn Hs) as H.
    by rewrite E in H.
  - intros m s r Hs E. pose proof (send_step_turn m s Hn Hs) as H. by rewrite E in H.
  - done.
  - destruct Ht as (? & ? & ? & ? & _ & Hpg & _ & -> & _). pose proof (total_bound _ Hd). unfold SEND_TURNS. lia.
Qed.
End Run.

(** What one call of the loop does, on every path. *)
Record sends (side : Side) (now : double) (c : Connection) (d : ConnectionData)
    (c' : Connection) (pkts : list bytes) (d' : ConnectionData)
    (out : list (bytes * list Wire.Frame)) (ms : list (Z * Channel.QueuedMessage))
    (lost : list Wire.Frame) : Prop := {
  sn_wf : wf c';
  sn_data : cdata c' = Some d' /\ delivered_messages d' = delivered_messages d;
  sn_sealed : seal_all side now (key_epoch c) (payload_of <$> out) = Some (pkts, key_epoch c');
  sn_payloads : Forall payload_ok out;
  sn_packets : Forall (fun p => zlen p <= NETUDP_MTU + 19) pkts;
  sn_range : Forall (fun m => 0 <= m.1 < num_channels c) ms;
  sn_queues : forall i, 0 <= i < 4 ->
    kind d' i = kind d i /\ queue d i = of_channel i ms ++ queue d' i;
  sn_frames : concat (snd <$> out) ++ lost = frame_of d <$> ms;
  sn_lost : lost = [] \/
    exists f, lost = [f] /\
      (Bandwidth.can_send (budget c') = false \/ NETUDP_MTU - 8 < zlen (Wire.encode f));
  sn_all : lost = [] -> Bandwidth.can_send (budget c) = true ->
    forall j, 0 <= j < num_channels c -> followed side now c d j -> pending now d' j = false }.

Arguments sn_wf {_ _ _ _ _ _ _ _ _ _} _.
Arguments sn_data {_ _ _ _ _ _ _ _ _ _} _.
Arguments sn_sealed {_ _ _ _ _ _ _ _ _ _} _.
Arguments sn_payloads {_ _ _ _ _ _ _ _ _ _} _.
Arguments sn_packets {_ _ _ _ _ _ _ _ _ _} _.
Arguments sn_range {_ _ _ _ _ _ _ _ _ _} _.
Arguments sn_queues {_ _ _ _ _ _ _ _ _ _} _.
Arguments sn_frames {_ _ _ _ _ _ _ _ _ _} _.
Arguments sn_lost {_ _ _ _ _ _ _ _ _ _} _.
Arguments sn_all {_ _ _ _ _ _ _ _ _ _} _.

Lemma progress_wf side now c0 d0 s out ms :
  num_channels c0 <= 4 -> progress side now c0 d0 s out ms -> wf (sending_conn s).
Proof.
  intros Hn [_ _ [En Ht] Hd _ _ _ _]. split; [cbn; by rewrite En|]. split; [exact Ht|]. by exists (s_data s).
Qed.

Lemma send_pending_sends side `{!SideOk side} now c d :
  wf c -> cdata c = Some d ->
  exists c' pkts d' out ms lost, send_pending side now c = Some (c', pkts) /\
    sends side now c d c' pkts d' out ms lost.
Proof.
  intros Hwf Hc. pose proof Hwf as (Hn & Ht & d' & E' & Hd). rewrite Hc in E'. injection E' as <-.
  unfold MAX_CHANNELS_PER_CONNECTION in Hn. unfold send_pending.
  destruct (Bandwidth.can_send (budget c)) eqn:Eb; cbn [negb].
  2: { exists c, [], d, [], [], []. split; [done|]. split; try done; [by left|congruence]. }
  rewrite Hc, Some_bind. set (s0 := mkSending _ _ _ _ _ _).
  assert (progress side now c d s0 [] []) as Hpg0 by by split.
  destruct (start_packet_ok side now c d s0 [] []) as (s1 & acks1 & -> & Hpk1 & Hpg1 & Hd1 & Hc1); [done|done|].
  rewrite Some_bind.
  assert (turn side now c d (total (s_data s1)) (next side now s1)) as Hturn.
  { eapply next_turn; [done|exact Hpk1|exact Hpg1|done|]. by rewrite Hd1, Hc1. }
  assert (data_wf (s_data (next side now s1).2)) as Hdn
    by (destruct Hturn as (? & ? & ? & ? & _ & Hp & _); apply Hp).
  destruct (send_loop side now c d (next side now s1) _ Hn Hdn Hturn)
    as (r & -> & flush & s & acks & cur & out & ms & lost & -> & Hpg & Hfr & Hpk & Hend).
  rewrite Some_bind.
  assert ((if flush then packing s acks cur else cur = []) -> flush = true -> frames_packed s = zlen cur) as Hfp.
  { intros Hp ->. apply Hp. }
  destruct (flush && (0 <? frames_packed s)) eqn:Ef.
  - apply andb_true_iff in Ef as [-> Ef]. bool_facts.
    assert (cur <> []) as Hne by (intros ->; rewrite (pk_frames _ _ _ Hpk) in Ef; done).
    destruct (transmit_ok side now c d s acks cur out ms Hpk Hpg Hne) as (s' & -> & Hpk' & Hpg' & Hd' & _).
    rewrite Some_bind. eexists _, _, (s_data s'), _, ms, lost. split; [done|].
    pose proof (progress_wf _ _ _ _ _ _ _ Hn Hpg') as Hwf'. pose proof Hpg' as [H1 H2 H3 H4 H4' H5 H5' H6].
    split; try done.
    + rewrite fmap_app, concat_app. cbn. by rewrite app_nil_r.
    + destruct Hend as [[-> _]|[(f & -> & ? & ?)|(f & -> & ? & ?)]]; [by left|done|]. right. exists f. eauto.
    + intros -> _ j Hj Htd. destruct Hend as [(_ & _ & Hq)|[(f & ? & _)|(f & ? & _)]]; [|done..].
      rewrite Hd'. by apply Hq.
  - assert (cur = []) as ->.
    { destruct flush; [|done]. cbn [andb] in Ef. bool_facts. rewrite Hfp in Ef by done.
      unfold zlen in Ef. apply nil_length_inv. lia. }
    rewrite app_nil_r in Hfr. eexists _, _, (s_data s), out, ms, lost. split; [done|].
    pose proof (progress_wf _ _ _ _ _ _ _ Hn Hpg) as Hwf'. pose proof Hpg as [H1 H2 H3 H4 H4' H5 H5' H6].
    split; try done.
    + destruct Hend as [[-> _]|[(f & -> & ? & ?)|(f & -> & ? & ?)]]; [by left|right; exists f; eauto..].
    + intros -> _ j Hj Htd. destruct Hend as [(_ & _ & Hq)|[(f & ? & _)|(f & ? & _)]]; [|done..]. by apply Hq.
Qed.

(** C30.  The sending loop of server and client terminates on every well-formed
    connection and stays inside its buffers: it returns within the bound on its
    turns, the connection is well formed again, and every packet fits 1219 bytes
    (1200 of payload, a tag of 16 and a header of up to 3), which is below the
    1400 of the packet buffers. *)
Theorem send_pending_terminates side `{!SideOk side} now c :
  wf c ->
  exists c' pkts, send_pending side now c = Some (c', pkts) /\ wf c' /\
    Forall (fun p => zlen p <= NETUDP_MTU + 19) pkts.
Proof.
  intros Hwf. pose proof Hwf as (_ & _ & d & Hc & _).
  destruct (send_pending_sends side now c d Hwf Hc) as (c' & pkts & d' & out & ms & lost & E & Hs).
  exists c', pkts. split; [done|]. split; [apply Hs|apply Hs].
Qed.

(** C29.  What the sending loop sends: the packets are, in order, the encryptions
    of payloads of at most 1200 bytes, each an acknowledgement followed by frames;
    the frames are those of the messages taken off the queues, each once and in
    the order they were taken, front first per channel.  At most one message is
    taken and not sent, and only when the bandwidth budget ran out or its frame
    exceeds the 1192 bytes of an empty payload.  When nothing is left behind that
    way and the budget allowed sending at all, no channel the scheduler looks at has
    pending messages afterwards.  A client's looks at every channel, and a server's at
    those of its pending mask when the call starts: a channel that is pending and not
    in the mask is not sent from ([Channel.fast_path_forgets_nagle] shows how that
    comes about). *)
Theorem send_pending_sends_queued side `{!SideOk side} now c d :
  wf c -> cdata c = Some d ->
  exists c' d' pkts out ms lost,
    send_pending side now c = Some (c', pkts) /\ cdata c' = Some d' /\
    seal_all side now (key_epoch c) (payload_of <$> out) = Some (pkts, key_epoch c') /\
    Forall payload_ok out /\
    (forall i, 0 <= i < 4 -> queue d i = of_channel i ms ++ queue d' i) /\
    concat (snd <$> out) ++ lost = frame_of d <$> ms /\
    (lost = [] \/ exists f, lost = [f] /\
       (Bandwidth.can_send (budget c') = false \/ 1192 < zlen (Wire.encode f))) /\
    (lost = [] -> Bandwidth.can_send (budget c) = true ->
     forall j, 0 <= j < num_channels c -> seen side c j -> pending now d' j = false).
Proof.
  intros Hwf Hc.
  destruct (send_pending_sends side now c d Hwf Hc) as (c' & pkts & d' & out & ms & lost & E & Hs).
  exists c', d', pkts, out, ms, lost. split; [done|]. destruct Hs as [H1 [H2 _] H3 H4 H5 _ H6 H7 H8 H9].
  split_and!; try done; [intros i Hi; by apply H6|]. intros Hl Hb j Hj Hsn. apply H9; [done..|]. by intros _.
Qed.

(** A connection with one queued message on its reliable-ordered channel. *)
Definition demo_queued : ConnectionData :=
  set_ch demo_ordered 0
    (snd (Channel.queue_send (Channel.init inhabitant 0 (mkChannelConfig 2 0 0 0)) [7; 8] 0)).
Definition demo_sender : Connection := set_cdata (set_num_channels fresh 1) (Some demo_queued).
Lemma demo_sender_wf : wf demo_sender.
Proof.
  split; [done|]. split; [by vm_compute|]. exists demo_queued. split; [done|].
  apply set_ch_wf; [exact demo_ordered_wf|].
  destruct (Channel.queue_send_refines (Channel.init inhabitant 0 (mkChannelConfig 2 0 0 0)) ([], 0) [7; 8] 0 0)
    as [_ [Hw _]]; [by apply Channel.init_refines|exact Hw].
Qed.
Lemma demo_side_ok : SideOk (client_side (H := Crypto.xor_aead) 7 3).
Proof. apply client_side_ok. by vm_compute. Qed.
Lemma send_pending_terminates_witness :
  exists c' pkts,
    send_pending (client_side (H := Crypto.xor_aead) 7 3) Double.d0 demo_sender = Some (c', pkts) /\ wf c' /\
    Forall (fun p => zlen p <= NETUDP_MTU + 19) pkts.
Proof.
  apply (send_pending_terminates (client_side (H := Crypto.xor_aead) 7 3) (SideOk0 := demo_side_ok)).
  exact demo_sender_wf.
Defined.
Lemma send_pending_sends_queued_witness :
  exists c' d' pkts out ms lost,
    send_pending (client_side (H := Crypto.xor_aead) 7 3) Double.d0 demo_sender = Some (c', pkts) /\
    cdata c' = Some d' /\
    seal_all (client_side (H := Crypto.xor_aead) 7 3) Double.d0 (key_epoch demo_sender) (payload_of <$> out)
    = Some (pkts, key_epoch c') /\
    Forall payload_ok out /\
    (forall i, 0 <= i < 4 -> queue demo_queued i = of_channel i ms ++ queue d' i) /\
    concat (snd <$> out) ++ lost = frame_of demo_queued <$> ms /\
    (lost = [] \/ exists f, lost = [f] /\
       (Bandwidth.can_send (budget c') = false \/ 1192 < zlen (Wire.encode f))) /\
    (lost = [] -> Bandwidth.can_send (budget demo_sender) = true ->
     forall j, 0 <= j < num_channels demo_sender ->
     seen (client_side (H := Crypto.xor_aead) 7 3) demo_sender j -> pending Double.d0 d' j = false).
Proof.
  apply (send_pending_sends_queued (client_side (H := Crypto.xor_aead) 7 3) (SideOk0 := demo_side_ok)).
  - exact demo_sender_wf.
  - reflexivity.
Defined.

End Send.
