(* ===== verification/Delivery.v ===== *)
(** Sending and receiving together: what [client_send_pending] puts on the wire,
    [server_handle_data_packet] delivers, and the other way round.

    The packets of one sending are received in order; the composition is stated
    against [Receive.apply_frames], the effect of frames without a wire. *)

From S2P Require Import Prelude Bytes Double RingBuffer Replay Wire PacketTracker ReliableChannel.
From S2P Require Import Channel Bandwidth PacketCrypto Connection Receive Send.

Module Delivery.
Import Connection Receive Send.

(** Receiving packets one after the other; every one must be accepted. *)
Definition receive_all (receive : Connection -> bytes -> option packet_result)
    : list bytes -> Connection -> option Connection :=
  fix go pkts c :=
  match pkts with
  | [] => Some c
  | pkt :: pkts =>
      r ← receive c pkt;
      match r with Accepted (Stopped c) => go pkts c | _ => None end
  end.

(** The effect of frames on the data does not depend on the connection, and the
    keys are not touched. *)
Lemma on_message_data chan seq data c d c1 d1 :
  on_message chan seq data c d = Some (c1, d1) ->
  key_epoch c1 = key_epoch c /\ forall c', exists c1', on_message chan seq data c' d = Some (c1', d1).
Proof.
  intros H. unfold on_message in *. destruct (ch d chan); [|done]. destruct (rs d chan) as [r|]; [|done].
  rewrite Some_bind in H. rewrite Some_bind in H. setoid_rewrite Some_bind. setoid_rewrite Some_bind.
  repeat case_if; try (injection H as <- <-; split; [done|]; by eexists).
  - destruct (Reliable.buffer_received_ordered _ _ _) as [[] r'];
      [|injection H as <- <-; split; [done|]; by eexists].
    destruct (Reliable.deliver_ordered _ _ _) as [[[s n] r'']|]; [|done].
    rewrite Some_bind in H. injection H as <- <-. split; [done|]. intros c'. rewrite Some_bind. by eexists.
  - destruct (message _ _ _); [|done]. rewrite Some_bind in H. injection H as <- <-.
    split; [done|]. intros c'. rewrite Some_bind. by eexists.
Qed.
Lemma apply_frame_data f c d c1 d1 :
  apply_frame (c, d) f = Some (c1, d1) ->
  key_epoch c1 = key_epoch c /\ forall c', exists c1', apply_frame (c', d) f = Some (c1', d1).
Proof.
  destruct f; cbn; try done; [|apply on_message_data].
  intros [= <- <-]. split; [done|]. by eexists.
Qed.
Lemma apply_frames_data fs : forall c d c1 d1,
  apply_frames fs (c, d) = Some (c1, d1) ->
  key_epoch c1 = key_epoch c /\ forall c', exists c1', apply_frames fs (c', d) = Some (c1', d1).
Proof.
  induction fs as [|f fs IH]; intros c d c1 d1 H; cbn [apply_frames] in *.
  { injection H as <- <-. split; [done|]. by eexists. }
  destruct (apply_frame (c, d) f) as [[c2 d2]|] eqn:E; [|done]. rewrite Some_bind in H.
  destruct (apply_frame_data _ _ _ _ _ E) as [Ek E']. destruct (IH _ _ _ _ H) as [Ek' H'].
  split; [congruence|]. intros c'. destruct (E' c') as [c2' ->]. rewrite Some_bind. apply H'.
Qed.
Lemma apply_frames_app fs fs' s :
  apply_frames (fs ++ fs') s = (s ← apply_frames fs s; apply_frames fs' s).
Proof.
  revert s. induction fs as [|f fs IH]; intros s; [done|]. cbn [app apply_frames].
  destruct (apply_frame s f); [|done]. rewrite !Some_bind. apply IH.
Qed.

(** A payload of data frames has the effect of its frames. *)
Lemma payload_frames fragments c d now acks fs :
  wf c -> cdata c = Some d -> is_bytes acks -> zlen acks = 8 -> Forall (data_frame (num_channels c)) fs ->
  exists c' d', handle_payload fragments c now (acks ++ encode_all fs) = Some (Stopped c') /\
    wf c' /\ cdata c' = Some d' /\ num_channels c' = num_channels c /\ key_epoch c' = key_epoch c /\
    exists cx, apply_frames fs (c, d) = Some (cx, d').
Proof.
  intros Hwf Hc Hb Ha Hf. pose proof Hwf as (Hn & _). unfold MAX_CHANNELS_PER_CONNECTION in Hn.
  unfold handle_payload. pose proof (zlen_nonneg (encode_all fs)).
  rewrite (proj2 (Z.ltb_ge _ _)) by (zlen_simpl; lia).
  destruct (read_ack_app acks (encode_all fs) Hb Ha) as [f ->]. rewrite Some_bind.
  destruct (process_ack_fields_ok c now f Hwf) as (c1 & -> & Hwf1 & En & Ed & _ & Ek). rewrite Some_bind.
  rewrite Ed, Hc, Some_bind. pose proof Hwf1 as (_ & _ & d1 & Ed1 & Hd1). rewrite Ed, Hc in Ed1. injection Ed1 as <-.
  destruct (walk_frames_encoded fragments now acks fs c1 d) as (c3 & d3 & Ea & Hd3 & [E1 E2] & ->);
    [done|by rewrite En|lia|done|].
  destruct Hwf1 as (Hn1 & Ht1 & _).
  eexists _, d3. split; [done|]. split; [|split; [done|split; [cbn; congruence|split; [|]]]].
  - split; [cbn; by rewrite E1|]. split; [cbn; by rewrite E2|]. by exists d3.
  - cbn. rewrite <- Ek. by eapply apply_frames_data.
  - by eapply apply_frames_data.
Qed.

(** ** Links *)

(** What a pair of sender and receiver promises: a payload sealed by the one is
    accepted by the other and has the effect of its frames, for as many packets as
    the link has room for. *)
Class Link (side : Side) (receive : Connection -> bytes -> option packet_result) (now : double) : Type := {
  linked : Z -> Crypto.KeyEpoch -> Crypto.KeyEpoch -> Prop;
  link_accepts : forall n e c d acks fs,
    wf c -> cdata c = Some d -> 0 <= n -> linked (n + 1) e (key_epoch c) ->
    is_bytes acks -> zlen acks = 8 -> zlen (acks ++ encode_all fs) <= NETUDP_MTU ->
    Forall (data_frame (num_channels c)) fs ->
    exists p ct e' c' d', seal side e (acks ++ encode_all fs) now = (Some (p, ct), e') /\
      receive c (header side p ++ ct) = Some (Accepted (Stopped c')) /\
      wf c' /\ cdata c' = Some d' /\ num_channels c' = num_channels c /\
      linked n e' (key_epoch c') /\ exists cx, apply_frames fs (c, d) = Some (cx, d') }.

Lemma link_accepts_all `{Link side receive now} n pts : forall e c d pkts e',
  wf c -> cdata c = Some d -> 0 <= n -> linked (n + zlen pts) e (key_epoch c) ->
  Forall (fun p => is_bytes p.1 /\ zlen p.1 = 8 /\ Forall (data_frame (num_channels c)) p.2) pts ->
  Forall payload_ok pts ->
  seal_all side now e (payload_of <$> pts) = Some (pkts, e') ->
  exists c' d', receive_all receive pkts c = Some c' /\
    wf c' /\ cdata c' = Some d' /\ num_channels c' = num_channels c /\ linked n e' (key_epoch c') /\
    exists cx, apply_frames (concat (snd <$> pts)) (c, d) = Some (cx, d').
Proof.
  induction pts as [|[acks fs] pts IH]; intros e c d pkts e' Hwf Hc Hn Hs Hp Hok Hseal.
  { cbn in Hseal. injection Hseal as <- <-. rewrite zlen_nil, Z.add_0_r in Hs.
    exists c, d. split_and!; try done. by exists c. }
  apply Forall_cons_iff in Hp as [(Hb & Ha & Hf) Hp]. cbn [fst snd] in *. rewrite zlen_cons in Hs.
  apply Forall_cons_iff in Hok as [(_ & _ & _ & Hl) Hok].
  pose proof (zlen_nonneg pts). replace (n + (1 + zlen pts)) with (n + zlen pts + 1) in Hs by lia.
  destruct (link_accepts (n + zlen pts) e c d acks fs Hwf Hc ltac:(lia) Hs Hb Ha Hl Hf)
    as (p & ct & e1 & c1 & d1 & Es & Er & Hwf1 & Hc1 & En1 & Hs1 & cx1 & Ea1).
  rewrite fmap_cons in Hseal. cbn [seal_all] in Hseal.
  change (payload_of (acks, fs)) with (acks ++ encode_all fs) in Hseal. rewrite Es in Hseal.
  destruct (seal_all _ _ e1 _) as [[l e2]|] eqn:El; [|done]. rewrite Some_bind in Hseal.
  injection Hseal as <- <-.
  destruct (IH e1 c1 d1 l e2 Hwf1 Hc1 Hn Hs1 ltac:(by rewrite En1) Hok El)
    as (c2 & d2 & Er2 & Hwf2 & Hc2 & En2 & Hs2 & cx2 & Ea2).
  exists c2, d2. cbn [receive_all]. rewrite Er, Some_bind.
  split_and!; try done; [congruence|]. rewrite fmap_cons. cbn [concat snd]. rewrite apply_frames_app, Ea1, Some_bind.
  by eapply apply_frames_data.
Qed.

(** ** The two links *)

Section Links.
Context `{Crypto.Aead} (blake : bytes -> bytes -> bytes) (pid slot : Z).

(** An accepted packet, once its payload is known. *)
Lemma accepted_payload fragments c d now k n acks fs :
  wf c -> cdata c = Some d -> is_bytes acks -> zlen acks = 8 -> Forall (data_frame (num_channels c)) fs ->
  exists c' d', handle_payload fragments (note_received (set_key_epoch c k) now n) now (acks ++ encode_all fs)
      = Some (Stopped c') /\ wf c' /\ cdata c' = Some d' /\ num_channels c' = num_channels c /\
    key_epoch c' = k /\ exists cx, apply_frames fs (c, d) = Some (cx, d').
Proof.
  intros Hwf Hc Hb Ha Hf.
  destruct (payload_frames fragments (note_received (set_key_epoch c k) now n) d now acks fs)
    as (c' & d' & E & Hwf' & Hc' & En & Ek & cx & Ea); try done.
  exists c', d'. split_and!; try done. by eapply apply_frames_data.
Qed.

(** Client to server: no key change, and room below the counter's limit. *)
#[export] Program Instance client_link now now' :
  Link (client_side pid slot) (fun c pkt => server_packet blake c pid now' pkt) now := {|
  linked n a b := Crypto.in_step a b /\ Crypto.tx_nonce_counter a + n < 2 ^ 63 |}.
Next Obligation.
  intros now now' n e c d acks fs Hwf Hc Hn0 [Hs Hn] Hb Ha Hl Hf. pose proof (zlen_nonneg (encode_all fs)).
  destruct (Crypto.packet_step blake e (key_epoch c) pid 20 (acks ++ encode_all fs) now' Hs)
    as (ct & k' & Ee & Hct & _ & Er & Hin); [zlen_simpl; lia|done|].
  exists 20, ct. cbn [seal client_side]. unfold client_seal. rewrite Ee.
  unfold server_packet. set (pkt := header _ _ ++ ct).
  assert (zlen pkt = 3 + zlen ct) as Hlen by (unfold pkt; zlen_simpl; done).
  rewrite (proj2 (Z.ltb_ge _ _)) by lia. change (oget pkt 0) with (Some 20). rewrite Some_bind.
  rewrite (mread_at pkt 3 _ (header (client_side pid slot) 20) ct []), Some_bind
    by (rewrite ?app_nil_r; done || lia). rewrite Er.
  destruct (accepted_payload true c d now' k' (zlen pkt) acks fs Hwf Hc Hb Ha Hf)
    as (c' & d' & -> & Hwf' & Hc' & En & Ek & Ea). rewrite Some_bind.
  eexists _, c', d'. split_and!; try done.
  - rewrite Ek. apply Hin. lia.
  - cbn. rewrite u64_small; [lia|]. destruct Hs as (_ & _ & _ & _ & ? & _). unfold is_u64. lia.
Qed.

(** Server to client, while no key change is due (the client does not follow one)
    and after the first packet, which opens the connection. *)
#[export] Program Instance server_link now now' :
  Link (server_side blake pid) (fun c pkt => client_packet c pid now' pkt) now := {|
  linked n a b := Crypto.in_step a b /\ 1 <= Crypto.tx_nonce_counter a /\
    Crypto.tx_nonce_counter a + n < Crypto.REKEY_NONCE_THRESHOLD /\ 0 <= Crypto.bytes_transmitted a /\
    Crypto.bytes_transmitted a + n * NETUDP_MTU < Crypto.REKEY_BYTES_THRESHOLD /\
    dgt (Crypto.epoch_start_time a) Double.d0 = false |}.
Next Obligation.
  intros now now' n e c d acks fs Hwf Hc Hn0 (Hs & H1 & Hn & Hb0 & Hbytes & Ht) Hb Ha Hl Hf.
  pose proof (zlen_nonneg (encode_all fs)).
  unfold Crypto.REKEY_NONCE_THRESHOLD, Crypto.REKEY_BYTES_THRESHOLD, NETUDP_MTU in *.
  destruct (Crypto.packet_step blake e (key_epoch c) pid 20 (acks ++ encode_all fs) now' Hs)
    as (ct & k' & Ee & Hct & Ed & _ & Hin); [zlen_simpl; lia|done|].
  assert (Crypto.should_rekey e now = false) as Hre.
  { unfold Crypto.should_rekey, Crypto.REKEY_NONCE_THRESHOLD, Crypto.REKEY_BYTES_THRESHOLD.
    rewrite Ht, (proj2 (Z.leb_gt _ (Crypto.tx_nonce_counter e))), (proj2 (Z.leb_gt _ (Crypto.bytes_transmitted e)))
      by lia. done. }
  pose proof Hs as (_ & _ & _ & Hpend & Hctr & Hinv & _).
  exists 20, ct. cbn [seal server_side]. unfold Crypto.send_data. rewrite Hre. cbn [andb]. rewrite Hpend, Ee.
  cbn [Crypto.rekey_pending Crypto.count_tx]. rewrite Hpend.
  unfold client_packet. set (pkt := header _ _ ++ ct).
  assert (zlen pkt = 1 + zlen ct) as Hlen by (unfold pkt; zlen_simpl; done).
  rewrite (proj2 (Z.ltb_ge _ _)) by lia. change (oget pkt 0) with (Some 20). rewrite Some_bind.
  rewrite (mread_at pkt 1 _ (header (server_side blake pid) 20) ct []), Some_bind
    by (rewrite ?app_nil_r; done || lia).
  unfold Crypto.client_receive. rewrite (Crypto.client_expects _ _ Hs H1), Ed. unfold client_payload.
  destruct (accepted_payload false c d now' k' (zlen pkt) acks fs Hwf Hc Hb Ha Hf)
    as (c' & d' & -> & Hwf' & Hc' & En & Ek & Ea). rewrite Some_bind.
  eexists _, c', d'. split; [done|]. split; [done|]. split; [done|]. split; [done|]. split; [done|]. split; [|done].
  rewrite Ek. cbn [Crypto.tx_nonce_counter Crypto.bytes_transmitted Crypto.epoch_start_time Crypto.count_tx].
  rewrite !u64_small by (unfold is_u64; zlen_simpl; lia). zlen_simpl. split; [apply Hin; lia|]. split_and!; try done; lia.
Qed.
End Links.

(** ** How much one call can send *)

Lemma of_channel_sum ms :
  Forall (fun m : Z * Channel.QueuedMessage => 0 <= m.1 < 4) ms ->
  sumZ ((fun i => zlen (of_channel i ms)) <$> seqZ 0 4) = zlen ms.
Proof.
  induction 1 as [|m ms Hm _ IH]; [done|]. rewrite zlen_cons, <- IH.
  assert (forall i, zlen (of_channel i (m :: ms)) = zlen (of_channel i ms) + (if decide (m.1 = i) then 1 else 0)) as E.
  { intros i. unfold of_channel. rewrite filter_cons. case_decide; [rewrite fmap_cons, zlen_cons|]; lia. }
  rewrite (sumZ_seqZ_update _ (fun i => zlen (of_channel i ms)) 4 m.1 Hm).
  - rewrite E, decide_True by done. lia.
  - intros j Hj Hne. rewrite E, decide_False by done. lia.
Qed.
Lemma sumZ_le (f g : Z -> Z) l : (forall i, i ∈ l -> f i <= g i) -> sumZ (f <$> l) <= sumZ (g <$> l).
Proof.
  induction l as [|x l IH]; intros Hle; [done|]. rewrite !fmap_cons. cbn [sumZ].
  pose proof (Hle x ltac:(left)). pose proof (IH (fun i Hi => Hle i ltac:(by right))). lia.
Qed.
Lemma encode_elem f fs : f ∈ fs -> zlen (Wire.encode f) <= zlen (encode_all fs).
Proof.
  induction fs as [|g fs IH]; intros Hf; [by apply not_elem_of_nil in Hf|].
  rewrite encode_all_cons. zlen_simpl. apply elem_of_cons in Hf as [->|Hf].
  - pose proof (zlen_nonneg (encode_all fs)). lia.
  - pose proof (zlen_nonneg (Wire.encode g)). specialize (IH Hf). lia.
Qed.
Lemma payloads_count out :
  Forall payload_ok out -> zlen out <= zlen (concat (snd <$> out)).
Proof.
  induction 1 as [|p out (_ & _ & Hne & _) _ IH]; [done|]. rewrite fmap_cons. cbn [concat]. zlen_simpl.
  destruct (p.2) as [|f fs]; [done|]. rewrite zlen_cons. pose proof (zlen_nonneg fs). lia.
Qed.

Section Sent.
Context (side : Side) (now : double) (c : Connection) (d : ConnectionData).
Context (c' : Connection) (pkts : list bytes) (d' : ConnectionData) (out : list (bytes * list Wire.Frame))
        (ms : list (Z * Channel.QueuedMessage)) (lost : list Wire.Frame).
Context (Hwf : wf c) (Hc : cdata c = Some d) (Hs : sends side now c d c' pkts d' out ms lost).

Lemma sent_count : zlen out <= 1024.
Proof.
  destruct Hwf as (Hn & _ & d1 & E1 & Hd). rewrite Hc in E1. injection E1 as <-.
  unfold MAX_CHANNELS_PER_CONNECTION in Hn.
  pose proof (payloads_count _ (sn_payloads Hs)) as H1.
  pose proof (sn_frames Hs) as H2. apply (f_equal zlen) in H2.
  rewrite zlen_app in H2. pose proof (zlen_nonneg lost).
  assert (zlen (frame_of d <$> ms) = zlen ms) as H3 by (unfold zlen; by rewrite length_fmap).
  rewrite <- (of_channel_sum ms) in H3.
  - pose proof (total_bound d Hd) as [_ Ht]. unfold total in Ht.
    assert (sumZ ((fun i => zlen (of_channel i ms)) <$> seqZ 0 4)
      <= sumZ ((fun i => zlen (queue d i)) <$> seqZ 0 4)); [|lia].
    apply sumZ_le. intros i Hi%elem_of_seqZ.
    destruct (sn_queues Hs i ltac:(lia)) as [_ ->].
    rewrite zlen_app. pose proof (zlen_nonneg (queue d' i)). lia.
  - eapply Forall_impl; [|exact (sn_range Hs)]. intros m Hm. cbn in Hm. lia.
Qed.

(** Every frame sent is one the receiver can parse. *)
Lemma sent_frames_valid n :
  num_channels c <= n -> (forall i q, 0 <= i < 4 -> q ∈ queue d i -> is_u16 (Channel.q_sequence q)) ->
  Forall (fun p => is_bytes p.1 /\ zlen p.1 = 8 /\ Forall (data_frame n) p.2) out.
Proof.
  intros Hn Hq. destruct Hwf as (Hn4 & _). unfold MAX_CHANNELS_PER_CONNECTION in Hn4.
  apply list.Forall_forall. intros p Hp.
  pose proof (sn_payloads Hs) as Hok. rewrite list.Forall_forall in Hok.
  destruct (Hok p Hp) as (Hb & Ha & _ & Hl). split; [done|]. split; [done|].
  apply list.Forall_forall. intros f Hf.
  assert (f ∈ frame_of d <$> ms) as Hin.
  { rewrite <- (sn_frames Hs). apply elem_of_app. left.
    apply list_elem_of_In, in_concat. exists p.2. split; apply list_elem_of_In; [|done].
    by apply list_elem_of_fmap_2. }
  apply list_elem_of_fmap in Hin as (m & -> & Hm).
  pose proof (sn_range Hs) as Hrange. rewrite list.Forall_forall in Hrange.
  specialize (Hrange m Hm).
  assert (is_u16 (Channel.q_sequence m.2)) as Hseq.
  { apply (Hq m.1); [lia|]. destruct (sn_queues Hs m.1 ltac:(lia)) as [_ ->].
    apply elem_of_app. left. unfold of_channel. apply list_elem_of_fmap. exists m. split; [done|].
    by apply list_elem_of_filter. }
  pose proof (encode_elem _ _ Hf) as Hlen. unfold payload_of in Hl. rewrite zlen_app, Ha in Hl.
  unfold NETUDP_MTU in *. rewrite Wire.zlen_encode in Hlen.
  unfold frame_of in *. destruct (is_reliable (kind d m.1)); cbn in *; split_and!; unfold NETUDP_MTU; try lia; apply Hseq.
Qed.
End Sent.

(** What an unreliable message becomes in the receiver's queue. *)
Definition as_delivered (m : Z * Channel.QueuedMessage) : DeliveredMessage :=
  mkDelivered (Channel.q_data m.2) m.1 0 true.
Lemma frames_unreliable d ms :
  (forall i, is_reliable (kind d i) = false) ->
  frame_of d <$> ms = unreliable_frames ((fun m => (m.1, Channel.q_data m.2)) <$> ms).
Proof.
  intros Hk. unfold unreliable_frames. rewrite <- list_fmap_compose. apply list_fmap_ext.
  intros j m _. unfold frame_of. by rewrite Hk.
Qed.
Lemma delivered_bound d : data_wf d -> zlen (delivered d) <= DELIVERED_SIZE.
Proof.
  intros (_ & _ & _ & _ & _ & _ & Hq). unfold delivered. rewrite RingBuffer.contents_length by done. apply Hq.
Qed.
Lemma deliver_unreliable c d ms cx d' :
  data_wf d -> apply_frames (unreliable_frames ((fun m => (m.1, Channel.q_data m.2)) <$> ms)) (c, d) = Some (cx, d') ->
  delivered d' = take 256 (delivered d ++ (as_delivered <$> ms)).
Proof.
  intros Hd Ha. destruct (apply_unreliable ((fun m => (m.1, Channel.q_data m.2)) <$> ms) c d Hd)
    as (c1 & d1 & Ea & Ed). rewrite Ha in Ea. injection Ea as <- <-.
  rewrite Ed, foldl_enqueue by by apply delivered_bound. by rewrite <- list_fmap_compose.
Qed.

(** What a sender and its receiver are after one sending, the packets received in
    order. *)
Lemma messages_reach_peer side `{!SideOk side} `{!Link side receive now} n a da b db :
  wf a -> cdata a = Some da -> wf b -> cdata b = Some db ->
  num_channels a <= num_channels b -> 0 <= n ->
  (forall k, 0 <= k <= 1024 -> linked (n + k) (key_epoch a) (key_epoch b)) ->
  (forall i q, 0 <= i < 4 -> q ∈ queue da i -> is_u16 (Channel.q_sequence q)) ->
  exists a' da' pkts b' db' ms sent lost,
    send_pending side now a = Some (a', pkts) /\ cdata a' = Some da' /\
    receive_all receive pkts b = Some b' /\
    cdata b' = Some db' /\ linked n (key_epoch a') (key_epoch b') /\
    (forall i, 0 <= i < 4 -> queue da i = of_channel i ms ++ queue da' i) /\
    sent ++ lost = ms /\ zlen lost <= 1 /\
    (exists cx, apply_frames (frame_of da <$> sent) (b, db) = Some (cx, db')) /\
    ((forall i, is_reliable (kind da i) = false) ->
       delivered db' = take 256 (delivered db ++ (as_delivered <$> sent))).
Proof.
  intros Hwfa Hca Hwfb Hcb Hn Hn0 Hlink Hseq.
  destruct (send_pending_sends side now a da Hwfa Hca) as (a' & pkts & da' & out & ms & lost & Esend & Hs).
  pose proof (sent_count _ _ _ _ _ _ _ _ _ _ Hwfa Hca Hs) as Hcount. pose proof (zlen_nonneg out).
  pose proof (sent_frames_valid _ _ _ _ _ _ _ _ _ _ Hwfa Hs _ Hn Hseq) as Hvalid.
  destruct (link_accepts_all n out (key_epoch a) b db pkts (key_epoch a')
    Hwfb Hcb Hn0 (Hlink (zlen out) ltac:(lia)) Hvalid (sn_payloads Hs) (sn_sealed Hs))
    as (b' & db' & Er & _ & Hcb' & _ & Hin & cx & Ea).
  pose proof (sn_frames Hs) as Hfr. pose proof (sn_data Hs) as [Hca' _].
  set (k := length (concat (snd <$> out))). exists a', da', pkts, b', db', ms, (take k ms), (drop k ms).
  assert (concat (snd <$> out) = frame_of da <$> take k ms) as Hsent.
  { rewrite fmap_take, <- Hfr. unfold k. by rewrite take_app_length. }
  rewrite Hsent in Ea. split; [done|]. split; [done|]. split; [done|]. split; [done|]. split; [done|].
  split; [intros i Hi; by apply (sn_queues Hs)|]. split; [by rewrite take_drop|]. split; [|split; [by exists cx|]].
  - assert (zlen lost <= 1) as Hlost by (by destruct (sn_lost Hs) as [->|(f & -> & _)]).
    assert (zlen (drop k ms) = zlen lost) as ->; [|done].
    apply (f_equal (fun l => zlen (drop k l))) in Hfr. rewrite <- fmap_drop in Hfr. unfold k in *.
    rewrite drop_app_length in Hfr. rewrite Hfr. unfold zlen. by rewrite length_fmap.
  - intros Hk. rewrite frames_unreliable in Ea by done. eapply deliver_unreliable; [|exact Ea].
    destruct Hwfb as (_ & _ & d1 & E1 & Hd). rewrite Hcb in E1. by injection E1 as <-.
Qed.

(** C2.  Messages queued on the client reach the server: the packets of one
    [client_send_pending], received in order, are all accepted, keep the two sides
    in step, and have on the server exactly the effect of the queued messages in
    the order the scheduler took them; nothing is corrupted, duplicated, reordered
    or refused on the way.  For unreliable channels that means they are appended
    to the application's queue, up to its 256 places.  At most one message is left
    behind, which happens as the sending loop's property says. *)
Theorem client_messages_reach_server `{Crypto.Aead} blake pid slot cc dc sc ds now now' :
  Crypto.aead_overhead <= 16 -> wf cc -> cdata cc = Some dc -> wf sc -> cdata sc = Some ds ->
  num_channels cc <= num_channels sc -> Crypto.in_step (key_epoch cc) (key_epoch sc) ->
  Crypto.tx_nonce_counter (key_epoch cc) < 2 ^ 62 ->
  (forall i q, 0 <= i < 4 -> q ∈ queue dc i -> is_u16 (Channel.q_sequence q)) ->
  exists cc' dc' pkts sc' ds' ms sent lost,
    client_send_pending pid slot cc now = Some (cc', pkts) /\ cdata cc' = Some dc' /\
    receive_all (fun c pkt => server_packet blake c pid now' pkt) pkts sc = Some sc' /\
    cdata sc' = Some ds' /\ Crypto.in_step (key_epoch cc') (key_epoch sc') /\
    (forall i, 0 <= i < 4 -> queue dc i = of_channel i ms ++ queue dc' i) /\
    sent ++ lost = ms /\ zlen lost <= 1 /\
    (exists cx, apply_frames (frame_of dc <$> sent) (sc, ds) = Some (cx, ds')) /\
    ((forall i, is_reliable (kind dc i) = false) ->
       delivered ds' = take 256 (delivered ds ++ (as_delivered <$> sent))).
Proof.
  intros Ho Hwfc Hcc Hwfs Hcs Hn Hstep Hctr Hseq. pose proof (client_side_ok pid slot Ho).
  destruct (messages_reach_peer (client_side pid slot) (Link0 := client_link blake pid slot now now') 0 cc dc sc ds)
    as (cc' & dc' & pkts & sc' & ds' & ms & sent & lost & H1 & H2 & H3 & H4 & [H5 _] & H6); try done.
  - intros k Hk. cbn [linked client_link]. split; [done|lia].
  - by exists cc', dc', pkts, sc', ds', ms, sent, lost.
Qed.

(** C3.  And messages queued on the server reach the client in the same way, after
    the first packet and as long as no key change falls due: fewer than [2^30]
    packets and bytes in the first epoch.  (The client has no code for the packet
    that announces new keys.) *)
Theorem server_messages_reach_client `{Crypto.Aead} blake pid sc ds cc dc now now' :
  Crypto.aead_overhead <= 16 -> wf sc -> cdata sc = Some ds -> wf cc -> cdata cc = Some dc ->
  num_channels sc <= num_channels cc -> Crypto.in_step (key_epoch sc) (key_epoch cc) ->
  1 <= Crypto.tx_nonce_counter (key_epoch sc) < 2 ^ 29 ->
  0 <= Crypto.bytes_transmitted (key_epoch sc) < 2 ^ 29 ->
  dgt (Crypto.epoch_start_time (key_epoch sc)) Double.d0 = false ->
  (forall i q, 0 <= i < 4 -> q ∈ queue ds i -> is_u16 (Channel.q_sequence q)) ->
  exists sc' ds' pkts cc' dc' ms sent lost,
    server_send_pending blake pid sc now = Some (sc', pkts) /\ cdata sc' = Some ds' /\
    receive_all (fun c pkt => client_packet c pid now' pkt) pkts cc = Some cc' /\
    cdata cc' = Some dc' /\ Crypto.in_step (key_epoch sc') (key_epoch cc') /\
    (forall i, 0 <= i < 4 -> queue ds i = of_channel i ms ++ queue ds' i) /\
    sent ++ lost = ms /\ zlen lost <= 1 /\
    (exists cx, apply_frames (frame_of ds <$> sent) (cc, dc) = Some (cx, dc')) /\
    ((forall i, is_reliable (kind ds i) = false) ->
       delivered dc' = take 256 (delivered dc ++ (as_delivered <$> sent))).
Proof.
  intros Ho Hwfs Hcs Hwfc Hcc Hn Hstep Hctr Hbytes Ht Hseq. pose proof (server_side_ok blake pid Ho).
  destruct (messages_reach_peer (server_side blake pid) (Link0 := server_link blake pid now now') 0 sc ds cc dc)
    as (sc' & ds' & pkts & cc' & dc' & ms & sent & lost & H1 & H2 & H3 & H4 & [H5 _] & H6); try done.
  - intros k Hk. cbn [linked server_link].
    unfold Crypto.REKEY_NONCE_THRESHOLD, Crypto.REKEY_BYTES_THRESHOLD, NETUDP_MTU.
    split; [done|]. split; [lia|]. split; [lia|]. split; [lia|]. split; [lia|done].
  - by exists sc', ds', pkts, cc', dc', ms, sent, lost.
Qed.

Definition demo_receiver : Connection := demo_ordered_conn.
Lemma demo_in_step e : Crypto.tx_key e = Crypto.rx_key e -> Crypto.rekey_pending e = false ->
  Crypto.tx_nonce_counter e = 0 -> Crypto.replay e = Replay.reset -> Crypto.in_step e e.
Proof.
  intros H1 H2 H3 H4. unfold Crypto.in_step, Crypto.expected_nonce. rewrite H3, H4. split_and!; try done.
  apply Replay.inv_reset.
Qed.
Lemma demo_sequences i q : 0 <= i < 4 -> q ∈ queue demo_queued i -> is_u16 (Channel.q_sequence q).
Proof.
  intros Hi. assert (i = 0 \/ i = 1 \/ i = 2 \/ i = 3) as [->|[->|[->| ->]]] by lia; intros Hq%list_elem_of_In.
  - change (queue demo_queued 0) with [Channel.mkQueued [7; 8] 0 0 0 true] in Hq.
    destruct Hq as [<-|Hq]; [by vm_compute|destruct Hq].
  - by change (queue demo_queued 1) with (@nil Channel.QueuedMessage) in Hq.
  - by change (queue demo_queued 2) with (@nil Channel.QueuedMessage) in Hq.
  - by change (queue demo_queued 3) with (@nil Channel.QueuedMessage) in Hq.
Qed.
Lemma client_messages_reach_server_witness :
  exists cc' dc' pkts sc' ds' ms sent lost,
    client_send_pending (H := Crypto.xor_aead) 7 3 demo_sender Double.d0 = Some (cc', pkts) /\
    cdata cc' = Some dc' /\
    receive_all (fun c pkt => server_packet (H := Crypto.xor_aead) (fun k m => k) c 7 Double.d0 pkt) pkts
      demo_receiver = Some sc' /\
    cdata sc' = Some ds' /\ Crypto.in_step (key_epoch cc') (key_epoch sc') /\
    (forall i, 0 <= i < 4 -> queue demo_queued i = of_channel i ms ++ queue dc' i) /\
    sent ++ lost = ms /\ zlen lost <= 1 /\
    (exists cx, apply_frames (frame_of demo_queued <$> sent) (demo_receiver, demo_ordered) = Some (cx, ds')) /\
    ((forall i, is_reliable (kind demo_queued i) = false) ->
       delivered ds' = take 256 (delivered demo_ordered ++ (as_delivered <$> sent))).
Proof.
  apply (client_messages_reach_server (H := Crypto.xor_aead) (fun k m => k) 7 3 demo_sender demo_queued
    demo_receiver demo_ordered Double.d0 Double.d0).
  - by vm_compute.
  - exact demo_sender_wf.
  - reflexivity.
  - exact demo_ordered_conn_wf.
  - reflexivity.
  - by vm_compute.
  - by apply demo_in_step.
  - by vm_compute.
  - exact demo_sequences.
Defined.

(** Both sides after the first packet from the server. *)
Definition demo_second : Crypto.KeyEpoch :=
  Crypto.set_replay (Crypto.count_tx Crypto.epoch_zero 14) (Replay.advance Replay.reset 0).
Lemma demo_second_in_step : Crypto.in_step demo_second demo_second.
Proof.
  unfold Crypto.in_step. split; [done|]. split; [done|]. split; [done|]. split; [done|]. split; [by vm_compute|].
  split; [|by vm_compute]. apply (Replay.inv_advance Replay.reset []); [apply Replay.inv_reset|by vm_compute..].
Qed.
Lemma server_messages_reach_client_witness :
  exists sc' ds' pkts cc' dc' ms sent lost,
    server_send_pending (H := Crypto.xor_aead) (fun k m => k) 7 (set_key_epoch demo_sender demo_second) Double.d0
    = Some (sc', pkts) /\
    cdata sc' = Some ds' /\
    receive_all (fun c pkt => client_packet (H := Crypto.xor_aead) c 7 Double.d0 pkt) pkts
      (set_key_epoch demo_receiver demo_second) = Some cc' /\
    cdata cc' = Some dc' /\ Crypto.in_step (key_epoch sc') (key_epoch cc') /\
    (forall i, 0 <= i < 4 -> queue demo_queued i = of_channel i ms ++ queue ds' i) /\
    sent ++ lost = ms /\ zlen lost <= 1 /\
    (exists cx, apply_frames (frame_of demo_queued <$> sent)
       (set_key_epoch demo_receiver demo_second, demo_ordered) = Some (cx, dc')) /\
    ((forall i, is_reliable (kind demo_queued i) = false) ->
       delivered dc' = take 256 (delivered demo_ordered ++ (as_delivered <$> sent))).
Proof.
  apply (server_messages_reach_client (H := Crypto.xor_aead) (fun k m => k) 7 (set_key_epoch demo_sender demo_second)
    demo_queued (set_key_epoch demo_receiver demo_second) demo_ordered Double.d0 Double.d0).
  - by vm_compute.
  - exact demo_sender_wf.
  - reflexivity.
  - exact demo_ordered_conn_wf.
  - reflexivity.
  - by vm_compute.
  - exact demo_second_in_step.
  - by vm_compute.
  - by vm_compute.
  - by vm_compute.
  - exact demo_sequences.
Defined.

End Delivery.
