(* ===== verification/IndexSet.v ===== *)
(** Sets of slot numbers as a compact array with a reverse map: the structure behind
    the server's list of active slots (src/src/server.cpp) and the members of a
    group (src/src/group/group.h).

    [items] is the array, of which the first [count] entries are the set, and [pos]
    maps a number to its position, -1 when absent.  Insertion appends; removal moves
    the last entry into the gap.  A result of [None] is an access outside an array. *)

From S2P Require Import Prelude.

Module IndexSet.

Record iset : Type := mkISet { items : list Z; count : Z; pos : list Z }.

(** [pos[x] = count; items[count] = x; count++]. *)
Definition append (s : iset) (x : Z) : option iset :=
  p ← oset (pos s) x (count s);
  l ← oset (items s) (count s) x;
  Some (mkISet l (count s + 1) p).

(** [last = --count; if (p < last) { items[p] = items[last]; pos[items[p]] = p }
    pos[x] = -1]. *)
Definition swap_remove (s : iset) (x p : Z) : option iset :=
  let last := count s - 1 in
  '(l, q) ←
    (if p <? last then
       moved ← oget (items s) last;
       l ← oset (items s) p moved;
       q ← oset (pos s) moved p;
       Some (l, q)
     else Some (items s, pos s));
  q ← oset q x (-1);
  Some (mkISet l last q).

(** * The set it stands for *)

Definition members (s : iset) : list Z := take (Z.to_nat (count s)) (items s).

Record wf (s : iset) : Prop := {
  is_count : 0 <= count s <= zlen (items s);
  is_items : forall i, 0 <= i < count s ->
    0 <= (items s).[i] < zlen (pos s) /\ (pos s).[(items s).[i]] = i;
  is_pos : forall x, 0 <= x < zlen (pos s) ->
    (pos s).[x] = -1 \/ 0 <= (pos s).[x] < count s /\ (items s).[(pos s).[x]] = x }.

Lemma elem_members s x :
  wf s -> x ∈ members s <-> exists i, 0 <= i < count s /\ (items s).[i] = x.
Proof.
  intros [Hc _ _]. unfold members. rewrite list_elem_of_lookup. split.
  - intros [j Hj]. apply lookup_take_Some in Hj as [Hj Hl]. exists (Z.of_nat j).
    split; [lia|]. apply aget_Some; [lia|]. by rewrite Nat2Z.id.
  - intros (i & Hi & <-). exists (Z.to_nat i). apply lookup_take_Some. split; [|lia].
    apply lookup_aget. lia.
Qed.

(** Membership is what the reverse map says. *)
Lemma member_pos s x : wf s -> x ∈ members s <-> 0 <= x < zlen (pos s) /\ 0 <= (pos s).[x].
Proof.
  intros Hs. rewrite elem_members by done. destruct Hs as [Hc Hi Hp]. split.
  - intros (i & Hr & <-). destruct (Hi i Hr) as [H1 H2]. rewrite H2. lia.
  - intros [Hx H0]. destruct (Hp x Hx) as [?|[Hr E]]; [lia|]. by exists (pos s).[x].
Qed.
Lemma members_NoDup s : wf s -> NoDup (members s).
Proof.
  intros Hs. apply NoDup_alt. intros i j x Hi Hj. unfold members in *.
  apply lookup_take_Some in Hi as [Hi Hil], Hj as [Hj Hjl]. destruct Hs as [Hc Hit _].
  assert ((items s).[Z.of_nat i] = x) as E1 by (apply aget_Some; [lia|]; by rewrite Nat2Z.id).
  assert ((items s).[Z.of_nat j] = x) as E2 by (apply aget_Some; [lia|]; by rewrite Nat2Z.id).
  destruct (Hit (Z.of_nat i) ltac:(lia)) as [_ P1]. destruct (Hit (Z.of_nat j) ltac:(lia)) as [_ P2].
  rewrite E1 in P1. rewrite E2 in P2. lia.
Qed.
Lemma zlen_members s : wf s -> zlen (members s) = count s.
Proof. intros [Hc _ _]. unfold members, zlen in *. rewrite length_take. lia. Qed.

Lemma append_spec s x :
  wf s -> 0 <= x < zlen (pos s) -> (pos s).[x] = -1 -> count s < zlen (items s) ->
  exists s', append s x = Some s' /\ wf s' /\ members s' = members s ++ [x] /\
    zlen (items s') = zlen (items s) /\ zlen (pos s') = zlen (pos s).
Proof.
  intros Hs Hx Hfree Hroom. pose proof Hs as [Hc Hi Hp]. unfold append.
  rewrite (oset_aset (pos s) x) by done. rewrite Some_bind, (oset_aset (items s)) by lia. rewrite Some_bind.
  eexists. split; [done|]. split; [|split; [|cbn [items pos]; by rewrite !zlen_aset]].
  - split; cbn [items pos count]; rewrite ?zlen_aset; [lia| |].
    + intros i Hr. rewrite (aget_aset (items s)) by lia. case_decide as E0.
      * subst i. split; [done|]. by apply aget_aset_eq.
      * destruct (Hi i ltac:(lia)) as [H1 H2]. split; [done|].
        rewrite aget_aset_ne; [done|lia|lia|]. intros E1. rewrite <- E1 in H2. lia.
    + intros y Hy. rewrite (aget_aset (pos s)) by lia. case_decide as E0.
      * subst y. right. split; [lia|]. apply aget_aset_eq. lia.
      * destruct (Hp y Hy) as [H1|[H1 H2]]; [by left|]. right. split; [lia|].
        rewrite aget_aset_ne; [done|lia..].
  - unfold members. cbn [items count]. replace (Z.to_nat (count s + 1)) with (S (Z.to_nat (count s))) by lia.
    erewrite take_S_r; [|unfold aset; apply list_lookup_insert_eq; unfold zlen in *; lia].
    f_equal. unfold aset. rewrite take_insert_ge; [done|lia].
Qed.

Lemma swap_remove_spec s x :
  wf s -> x ∈ members s ->
  exists s', swap_remove s x (pos s).[x] = Some s' /\ wf s' /\
    (forall y, y ∈ members s' <-> y ∈ members s /\ y <> x) /\
    zlen (items s') = zlen (items s) /\ zlen (pos s') = zlen (pos s) /\ (pos s').[x] = -1.
Proof.
  intros Hs Hx. pose proof Hx as Hx'. apply member_pos in Hx' as [Hxr Hx0]; [|done].
  pose proof Hs as [Hc Hi Hp]. destruct (Hp x Hxr) as [?|[Hpx Ex]]; [lia|].
  set (p := (pos s).[x]) in *. set (last := count s - 1). unfold swap_remove. fold last.
  assert (exists l q, (if p <? last then
       moved ← oget (items s) last; l ← oset (items s) p moved; q ← oset (pos s) moved p; Some (l, q)
     else Some (items s, pos s)) = Some (l, q) /\ zlen l = zlen (items s) /\ zlen q = zlen (pos s) /\
     (forall i, 0 <= i < last -> l.[i] = if decide (i = p) then (items s).[last] else (items s).[i]) /\
     (forall y, 0 <= y < zlen (pos s) -> y <> x ->
        q.[y] = if decide (y = (items s).[last]) then p else (pos s).[y])) as (l & q & -> & Hl & Hq & Al & Aq).
  { destruct (Hi last ltac:(lia)) as [Hm Hml]. case_if.
    - rewrite oget_aget, Some_bind by lia. rewrite (oset_aset (items s)), Some_bind by lia.
      rewrite (oset_aset (pos s)), Some_bind by lia. eexists _, _. split; [done|]. rewrite !zlen_aset.
      split; [done|]. split; [done|]. split.
      + intros i Hr. rewrite aget_aset by lia. repeat case_decide; done || lia.
      + intros y Hy _. rewrite aget_aset by lia. repeat case_decide; done || lia.
    - exists (items s), (pos s). split; [done|]. split; [done|]. split; [done|]. split.
      + intros i Hr. rewrite decide_False; [done|lia].
      + intros y Hy Hne. case_decide as E0; [|done]. subst y.
        assert (p = last) as Ep by lia. rewrite <- Ep, Ex in Hne. done. }
  rewrite Some_bind, oset_aset, Some_bind by lia.
  assert (forall y, 0 <= y < zlen (pos s) -> (aset q x (-1)).[y] = if decide (y = x) then -1
            else if decide (y = (items s).[last]) then p else (pos s).[y]) as Aq'.
  { intros y Hy. rewrite aget_aset by lia. destruct (decide (y = x)) as [->|Hne]; [by rewrite decide_True|].
    rewrite decide_False by congruence. by apply Aq. }
  destruct (Hi last ltac:(lia)) as [Hm Hml].
  assert (wf (mkISet l last (aset q x (-1)))) as Hwf'.
  { split; cbn [items pos count]; rewrite ?zlen_aset; [lia| |].
    - intros i Hr. rewrite Al by done. case_decide as E0.
      + rewrite Hq. split; [done|]. rewrite Aq' by done.
        rewrite decide_False by (intros E1; rewrite E1 in Hml; fold p in Hml; lia). by rewrite decide_True.
      + destruct (Hi i ltac:(lia)) as [H1 H2]. rewrite Hq. split; [done|]. rewrite Aq' by done.
        rewrite decide_False by (intros E1; rewrite E1 in H2; fold p in H2; lia).
        rewrite decide_False; [done|]. intros E1. rewrite E1, Hml in H2. lia.
    - intros y Hy. rewrite Hq in Hy. rewrite Aq' by done. case_decide as E0; [by left|].
      case_decide as E1.
      + right. subst y. assert (p < last) by (destruct (decide (p = last)) as [Ep|]; [|lia];
          rewrite <- Ep, Ex in E0; done). split; [lia|]. rewrite Al by lia. by rewrite decide_True.
      + destruct (Hp y Hy) as [?|[H1 H2]]; [by left|]. right.
        assert ((pos s).[y] <> last) by (intros E2; rewrite E2 in H2; done).
        split; [lia|]. rewrite Al by lia. rewrite decide_False; [done|].
        intros E2. rewrite E2, Ex in H2. done. }
  eexists. split; [done|]. split; [exact Hwf'|]. split; [|].
  - intros y. rewrite !member_pos by done. cbn [pos]. rewrite zlen_aset, Hq. split.
    + intros [Hy H0]. rewrite Aq' in H0 by done. case_decide as E0; [lia|]. split; [|done]. split; [done|].
      case_decide as E1; [subst y; lia|done].
    + intros [[Hy H0] Hne]. split; [done|]. rewrite Aq' by done. rewrite decide_False by done.
      case_decide; [lia|done].
  - cbn [items pos]. rewrite zlen_aset. split; [done|]. split; [done|]. apply aget_aset_eq. lia.
Qed.

End IndexSet.
