(* ===== verification/Group.v ===== *)
(** Multicast groups (src/src/group/group.h): a group is a set of client slots.

    The arrays of a group are slices of pools the server allocates; here each group
    has its own, and [None] is a null pointer.  A result of [None] of an operation
    is an access outside an array. *)

From stdpp Require Import gmap.
From S2P Require Import Prelude IndexSet.

Module Group.

Definition kMaxGroupMembers : Z := 8192.

Record Group : Type := mkGroup {
  active : bool;
  group_id : Z;
  members : list Z;
  member_count : Z;
  member_capacity : Z;
  slot_to_pos : option (list Z) }.
(** [Group{}]. *)
Definition empty : Group := mkGroup false (-1) [] 0 0 None.
#[global] Instance group_inhabited : Inhabited Group := populate empty.

(** The members and their reverse map. *)
Definition with_set (g : Group) (s : IndexSet.iset) : Group :=
  mkGroup (active g) (group_id g) (IndexSet.items s) (IndexSet.count s) (member_capacity g)
    (Some (IndexSet.pos s)).

Definition add (g : Group) (slot : Z) : option (bool * Group) :=
  match slot_to_pos g with
  | None => Some (false, g)
  | Some sp =>
      if slot <? 0 then Some (false, g)
      else
        p ← oget sp slot;
        if 0 <=? p then Some (false, g)
        else if member_capacity g <=? member_count g then Some (false, g)
        else s ← IndexSet.append (IndexSet.mkISet (members g) (member_count g) sp) slot;
             Some (true, with_set g s)
  end.

Definition remove (g : Group) (slot : Z) : option (bool * Group) :=
  match slot_to_pos g with
  | None => Some (false, g)
  | Some sp =>
      if slot <? 0 then Some (false, g)
      else
        p ← oget sp slot;
        if p <? 0 then Some (false, g)
        else s ← IndexSet.swap_remove (IndexSet.mkISet (members g) (member_count g) sp) slot p;
             Some (true, with_set g s)
  end.

Definition has (g : Group) (slot : Z) : option bool :=
  match slot_to_pos g with
  | None => Some false
  | Some sp => if slot <? 0 then Some false else p ← oget sp slot; Some (0 <=? p)
  end.

(** [member_buf] and [slot_buf] are uninitialised; only the latter is filled. *)
Definition init (id max_clients : Z) (member_buf : list Z) (capacity : Z) : Group :=
  mkGroup true id member_buf 0 capacity (Some (replicate (Z.to_nat max_clients) (-1))).

Fixpoint clear_from (l sp : list Z) : option (list Z) :=
  match l with
  | [] => Some sp
  | x :: l => sp ← oset sp x (-1); clear_from l sp
  end.
Definition clear (g : Group) : option Group :=
  sp ← match slot_to_pos g with
       | Some sp =>
           if 0 <? member_count g then
             sp ← clear_from (take (Z.to_nat (member_count g)) (members g)) sp; Some (Some sp)
           else Some (Some sp)
       | None => Some None
       end;
  Some (mkGroup (active g) (group_id g) (members g) 0 (member_capacity g) sp).

(** The result of [reset] is [Group{}]; the arrays go back to the pools. *)
Definition reset (g : Group) : option Group := _ ← clear g; Some empty.

(** * The set of members *)

Definition view (g : Group) : option IndexSet.iset :=
  sp ← slot_to_pos g; Some (IndexSet.mkISet (members g) (member_count g) sp).
Definition wf (max_clients : Z) (g : Group) : Prop :=
  exists s, view g = Some s /\ IndexSet.wf s /\ zlen (IndexSet.pos s) = max_clients /\
    member_count g <= member_capacity g <= zlen (members g).
Definition member_list (g : Group) : list Z := take (Z.to_nat (member_count g)) (members g).

Lemma view_members g s : view g = Some s -> member_list g = IndexSet.members s.
Proof. unfold view. destruct (slot_to_pos g); [|done]. by intros [= <-]. Qed.
Lemma view_Some g s :
  view g = Some s -> slot_to_pos g = Some (IndexSet.pos s) /\
    IndexSet.items s = members g /\ IndexSet.count s = member_count g.
Proof. unfold view. destruct (slot_to_pos g); [|done]. by intros [= <-]. Qed.

(** A removal makes the set smaller. *)
Lemma removed_count s s' x :
  IndexSet.wf s -> IndexSet.wf s' -> x ∈ IndexSet.members s ->
  (forall y, y ∈ IndexSet.members s' <-> y ∈ IndexSet.members s /\ y <> x) ->
  IndexSet.count s' < IndexSet.count s.
Proof.
  intros Hs Hs' Hx Hm. rewrite <- (IndexSet.zlen_members s' Hs'), <- (IndexSet.zlen_members s Hs).
  assert (length (x :: IndexSet.members s') <= length (IndexSet.members s))%nat as Hle.
  { apply submseteq_length, NoDup_submseteq.
    - constructor; [|by apply IndexSet.members_NoDup]. intros Hx'. apply Hm in Hx'. by destruct Hx'.
    - intros y [->|Hy]%elem_of_cons; [done|]. by apply Hm. }
  cbn in Hle. unfold zlen. lia.
Qed.

Section Ops.
Context (max_clients : Z).

Lemma group_init_wf id cap buf :
  0 <= max_clients -> 0 <= cap <= zlen buf -> wf max_clients (init id max_clients buf cap) /\
  member_list (init id max_clients buf cap) = [].
Proof.
  intros Hm Hc. split; [|done]. eexists. split; [done|]. cbn [IndexSet.pos members member_count member_capacity init].
  rewrite zlen_replicate. split; [|lia]. split; cbn; [lia|lia|]. intros x Hx. left.
  rewrite zlen_replicate in Hx. rewrite aget_replicate; [done|lia].
Qed.

(** [add] succeeds exactly on a new member of a group with room. *)
Lemma add_spec g x :
  wf max_clients g -> x < max_clients ->
  exists g', add g x = Some (bool_decide (0 <= x /\ (x ∉ member_list g) /\ member_count g < member_capacity g), g') /\
    wf max_clients g' /\ member_capacity g' = member_capacity g /\ active g' = active g /\
    (member_list g' = member_list g ++ [x] /\ (0 <= x /\ (x ∉ member_list g) /\ member_count g < member_capacity g) \/
     g' = g /\ ~ (0 <= x /\ (x ∉ member_list g) /\ member_count g < member_capacity g)).
Proof.
  intros (s & Hv & Hs & Hlen & Hcap) Hx. pose proof (view_Some _ _ Hv) as (Esp & Ei & Ec).
  rewrite (view_members _ _ Hv). unfold add. rewrite Esp.
  destruct (decide (0 <= x /\ (x ∉ IndexSet.members s) /\ member_count g < member_capacity g)) as [Hy|Hn].
  - rewrite bool_decide_true by done. destruct Hy as (H0 & Hnew & Hroom).
    rewrite (proj2 (Z.ltb_ge _ _)) by lia. rewrite oget_aget, Some_bind by lia.
    assert ((IndexSet.pos s).[x] = -1) as Hp.
    { destruct (IndexSet.is_pos _ Hs x ltac:(lia)) as [?|[Hr E]]; [done|]. exfalso. apply Hnew.
      apply IndexSet.member_pos; [done|lia]. }
    rewrite Hp. change (0 <=? -1) with false. cbv iota. rewrite (proj2 (Z.leb_gt _ _)) by lia.
    destruct (IndexSet.append_spec s x Hs ltac:(lia) Hp) as (s' & Ea & Hs' & Hm & Hl1 & Hl2);
      [rewrite Ei, Ec; lia|]. rewrite <- Ei, <- Ec. destruct s as [l n sp]. cbn [IndexSet.items IndexSet.count IndexSet.pos] in *.
    rewrite Ea, Some_bind.
    eexists. split; [done|]. assert (view (with_set g s') = Some s') as Hv' by by destruct s'.
    split; [|split; [done|split; [done|left; split; [by rewrite (view_members _ _ Hv')|split; [done|]; split; [done|lia]]]]].
    exists s'. split; [done|]. split; [done|]. split; [by rewrite Hl2|]. cbn [with_set member_count members member_capacity].
    rewrite Hl1, Ei, <- (IndexSet.zlen_members s' Hs'), Hm, zlen_app, (IndexSet.zlen_members _ Hs).
    cbn [IndexSet.count]. rewrite Ec. change (zlen [x]) with 1. lia.
  - rewrite bool_decide_false by done. exists g. split; [|split; [by exists s|split; [done|split; [done|by right]]]].
    case_if; [done|]. rewrite oget_aget, Some_bind by lia. case_if; [done|]. case_if; [done|].
    exfalso. apply Hn. split; [done|]. split; [|done]. rewrite IndexSet.member_pos by done. lia.
Qed.

Lemma group_remove_spec g x :
  wf max_clients g -> x < max_clients ->
  exists g', remove g x = Some (bool_decide (x ∈ member_list g), g') /\ wf max_clients g' /\
    member_capacity g' = member_capacity g /\ active g' = active g /\ forall y, y ∈ member_list g' <-> y ∈ member_list g /\ y <> x.
Proof.
  intros (s & Hv & Hs & Hlen & Hcap) Hx. pose proof (view_Some _ _ Hv) as (Esp & Ei & Ec).
  rewrite (view_members _ _ Hv). unfold remove. rewrite Esp.
  destruct (decide (x ∈ IndexSet.members s)) as [Hin|Hn].
  - rewrite bool_decide_true by done. pose proof Hin as Hin'.
    apply IndexSet.member_pos in Hin' as [Hr H0]; [|done].
    rewrite (proj2 (Z.ltb_ge x _)) by lia. rewrite oget_aget, Some_bind by lia.
    rewrite (proj2 (Z.ltb_ge _ _)) by lia.
    destruct (IndexSet.swap_remove_spec s x Hs Hin) as (s' & Ea & Hs' & Hm & Hl1 & Hl2 & _).
    rewrite <- Ei, <- Ec. destruct s as [l n sp]. cbn [IndexSet.items IndexSet.count IndexSet.pos] in *.
    rewrite Ea, Some_bind.
    eexists. split; [done|]. assert (view (with_set g s') = Some s') as Hv' by by destruct s'.
    split; [|split; [done|split; [done|by rewrite (view_members _ _ Hv')]]].
    exists s'. split; [done|]. split; [done|]. split; [by rewrite Hl2|]. cbn [with_set member_count members member_capacity].
    pose proof (removed_count _ _ x Hs Hs' Hin Hm) as Hcnt. cbn [IndexSet.count] in Hcnt.
    rewrite Hl1, Ei. lia.
  - rewrite bool_decide_false by done. exists g. split; [|split; [by exists s|split; [done|split; [done|]]]].
    + case_if; [done|]. rewrite oget_aget, Some_bind by lia. case_if; [done|].
      exfalso. apply Hn. apply IndexSet.member_pos; [done|lia].
    + intros y. rewrite (view_members _ _ Hv). split; [|by intros []].
      intros Hy. split; [done|]. by intros ->.
Qed.

Lemma has_spec g x :
  wf max_clients g -> x < max_clients -> has g x = Some (bool_decide (x ∈ member_list g)).
Proof.
  intros (s & Hv & Hs & Hlen & Hcap) Hx. pose proof (view_Some _ _ Hv) as (Esp & Ei & Ec).
  rewrite (view_members _ _ Hv). unfold has. rewrite Esp.
  case_if; [rewrite bool_decide_false; [done|]; rewrite IndexSet.member_pos by done; lia|].
  rewrite oget_aget, Some_bind by lia. f_equal. symmetry.
  destruct (decide (0 <= (IndexSet.pos s).[x])) as [H0|H0].
  - rewrite bool_decide_true, (proj2 (Z.leb_le _ _)) by (done || apply IndexSet.member_pos; done || lia). done.
  - rewrite bool_decide_false, (proj2 (Z.leb_gt _ _)) by (lia || rewrite IndexSet.member_pos by done; lia). done.
Qed.

Lemma clear_from_spec l sp :
  (forall x, x ∈ l -> 0 <= x < zlen sp) ->
  exists sp', clear_from l sp = Some sp' /\ zlen sp' = zlen sp /\
    forall y, 0 <= y < zlen sp -> sp'.[y] = if decide (y ∈ l) then -1 else sp.[y].
Proof.
  revert sp. induction l as [|x l IH]; intros sp Hl; cbn [clear_from].
  - exists sp. split; [done|]. split; [done|]. intros y Hy. rewrite decide_False; [done|apply not_elem_of_nil].
  - rewrite oset_aset, Some_bind by (apply Hl; left). destruct (IH (aset sp x (-1))) as (sp' & E1 & E2 & E3).
    { intros y Hy. rewrite zlen_aset. apply Hl. by right. }
    rewrite zlen_aset in *. exists sp'. split; [done|]. split; [done|]. intros y Hy. rewrite E3 by done.
    pose proof (Hl x ltac:(left)). rewrite (aget_aset sp) by lia. destruct (decide (y ∈ l)) as [H1|H1].
    + rewrite decide_True by by right. done.
    + destruct (decide (x = y)) as [->|Hne]; [rewrite decide_True by left; done|].
      rewrite decide_False; [done|]. intros [->|?]%elem_of_cons; done.
Qed.
Lemma clear_spec g :
  wf max_clients g -> exists g', clear g = Some g' /\ wf max_clients g' /\ member_list g' = [] /\
    member_capacity g' = member_capacity g.
Proof.
  intros (s & Hv & Hs & Hlen & Hcap). pose proof (view_Some _ _ Hv) as (Esp & Ei & Ec).
  unfold clear. rewrite Esp. pose proof (IndexSet.is_count _ Hs) as Hcount. rewrite Ei, Ec in Hcount.
  assert (exists sp', (if 0 <? member_count g then
      sp ← clear_from (take (Z.to_nat (member_count g)) (members g)) (IndexSet.pos s); Some (Some sp)
    else Some (Some (IndexSet.pos s))) = Some (Some sp') /\ zlen sp' = max_clients /\
    forall y, 0 <= y < max_clients -> sp'.[y] = -1) as (sp' & -> & Hl' & Hall).
  { change (take _ _) with (member_list g). rewrite (view_members _ _ Hv). case_if.
    - destruct (clear_from_spec (IndexSet.members s) (IndexSet.pos s)) as (sp' & -> & E2 & E3).
      { intros x Hx. by apply IndexSet.member_pos in Hx as [? _]. }
      rewrite Some_bind. exists sp'. split; [done|]. split; [lia|]. intros y Hy. rewrite E3 by lia.
      case_decide as Hm; [done|]. destruct (IndexSet.is_pos _ Hs y ltac:(lia)) as [?|[Hr _]]; [done|].
      exfalso. apply Hm. apply IndexSet.member_pos; [done|lia].
    - exists (IndexSet.pos s). split; [done|]. split; [done|]. intros y Hy.
      destruct (IndexSet.is_pos _ Hs y ltac:(lia)) as [?|[Hr _]]; [done|]. rewrite Ec in Hr. lia. }
  rewrite Some_bind. eexists. split; [done|]. split; [|done]. eexists. split; [done|].
  cbn [IndexSet.pos members member_count member_capacity]. split; [|lia]. split; cbn; [lia|lia|].
  intros x Hx. left. apply Hall. lia.
Qed.
End Ops.

(** ** Traces *)

Inductive op : Type := Add (slot : Z) | Remove (slot : Z) | Has (slot : Z) | Clear.
Definition in_range (max_clients : Z) (o : op) : Prop :=
  match o with Add x | Remove x | Has x => x < max_clients | Clear => True end.

Definition step (g : Group) (o : op) : option (bool * Group) :=
  match o with
  | Add x => add g x
  | Remove x => remove g x
  | Has x => b ← has g x; Some (b, g)
  | Clear => g ← clear g; Some (true, g)
  end.
Fixpoint run (g : Group) (os : list op) : option (list bool * Group) :=
  match os with
  | [] => Some ([], g)
  | o :: os => '(b, g) ← step g o; '(bs, g) ← run g os; Some (b :: bs, g)
  end.

(** The reference: a finite set of at most [cap] slots. *)
Definition ref_step (cap : Z) (X : gset Z) (o : op) : bool * gset Z :=
  match o with
  | Add x => let ok := bool_decide (0 <= x /\ (x ∉ X) /\ Z.of_nat (size X) < cap) in
             (ok, if ok then X ∪ {[x]} else X)
  | Remove x => (bool_decide (x ∈ X), X ∖ {[x]})
  | Has x => (bool_decide (x ∈ X), X)
  | Clear => (true, ∅)
  end.
Fixpoint ref_run (cap : Z) (X : gset Z) (os : list op) : list bool * gset Z :=
  match os with
  | [] => ([], X)
  | o :: os => let '(b, X) := ref_step cap X o in
               let '(bs, X) := ref_run cap X os in (b :: bs, X)
  end.

Record stands_for (max_clients cap : Z) (g : Group) (X : gset Z) : Prop := {
  sf_wf : wf max_clients g;
  sf_cap : member_capacity g = cap;
  sf_set : forall y, y ∈ member_list g <-> y ∈ X }.

Lemma member_size max_clients g (X : gset Z) :
  wf max_clients g -> (forall y, y ∈ member_list g <-> y ∈ X) -> Z.of_nat (size X) = member_count g.
Proof.
  intros (s & Hv & Hs & _) HX. pose proof (view_Some _ _ Hv) as (_ & _ & Ec).
  rewrite (view_members _ _ Hv) in HX. rewrite <- Ec, <- (IndexSet.zlen_members s Hs).
  assert (X = list_to_set (IndexSet.members s)) as -> by set_solver.
  rewrite size_list_to_set by by apply IndexSet.members_NoDup. done.
Qed.

Lemma group_step_refines max_clients cap g X o :
  stands_for max_clients cap g X -> in_range max_clients o ->
  exists g', step g o = Some (fst (ref_step cap X o), g') /\ stands_for max_clients cap g' (snd (ref_step cap X o)).
Proof.
  intros [Hwf Hcap HX] Hr. pose proof (member_size _ _ _ Hwf HX) as Hsz. destruct o as [x|x|x|]; cbn [step ref_step fst snd].
  - destruct (add_spec max_clients g x Hwf Hr) as (g' & E & Hwf' & Hc' & _ & Hcase). exists g'.
    rewrite E, Hsz, Hcap. split; [do 2 f_equal; apply bool_decide_ext; by rewrite HX|].
    rewrite Hcap, HX in Hcase. destruct Hcase as [[Hm Hok]|[-> Hno]].
    + rewrite bool_decide_true by done. split; [done|congruence|]. intros y. rewrite Hm. set_solver.
    + rewrite bool_decide_false by done. by split.
  - destruct (group_remove_spec max_clients g x Hwf Hr) as (g' & E & Hwf' & Hc' & _ & Hm). exists g'.
    rewrite E. split; [do 2 f_equal; apply bool_decide_ext; by rewrite HX|].
    split; [done|congruence|]. intros y. rewrite Hm, HX. set_solver.
  - rewrite (has_spec max_clients g x Hwf Hr), Some_bind. exists g.
    split; [do 2 f_equal; apply bool_decide_ext; by rewrite HX|by split].
  - destruct (clear_spec max_clients g Hwf) as (g' & -> & Hwf' & Hm & Hc'). rewrite Some_bind.
    exists g'. split; [done|]. split; [done|congruence|]. rewrite Hm. set_solver.
Qed.

(** A group is a set of at most [capacity] slots: over any sequence of
    additions, removals, queries and clearings of slots below [max_clients], every
    result is that of the set, and the compact array holds exactly its elements,
    each once. *)
Theorem group_refines_set max_clients id cap buf os :
  0 <= max_clients -> 0 <= cap <= zlen buf -> Forall (in_range max_clients) os ->
  exists g, run (init id max_clients buf cap) os = Some (fst (ref_run cap ∅ os), g) /\
    NoDup (member_list g) /\ forall y, y ∈ member_list g <-> y ∈ snd (ref_run cap ∅ os).
Proof.
  intros Hm Hc Hos. destruct (group_init_wf max_clients id cap buf Hm Hc) as [Hwf He].
  assert (stands_for max_clients cap (init id max_clients buf cap) ∅) as Hsf
    by (split; [done|done|rewrite He; set_solver]).
  clear Hwf He. revert Hsf. generalize (init id max_clients buf cap), (∅ : gset Z).
  induction Hos as [|o os Ho Hos IH]; intros g X Hsf; cbn [run ref_run].
  - exists g. split; [done|]. destruct Hsf as [(s & Hv & Hs & _) _ HX]. split; [|done].
    rewrite (view_members _ _ Hv). by apply IndexSet.members_NoDup.
  - destruct (group_step_refines _ _ _ _ _ Hsf Ho) as (g1 & -> & Hsf1). rewrite Some_bind.
    destruct (ref_step cap X o) as [b X1]. cbn [fst snd] in *. destruct (IH g1 X1 Hsf1) as (g2 & -> & Hnd & HX).
    rewrite Some_bind. destruct (ref_run cap X1 os) as [bs X2]. cbn [fst snd] in *. by exists g2.
Qed.
Lemma group_refines_set_witness :
  exists g, run (init 0 8 [0; 0; 0] 3) [Add 5; Add 2; Add 5; Add 7; Add 1; Remove 5; Has 5; Has 7; Add 1]
    = Some ([true; true; false; true; false; true; false; true; true], g) /\
    NoDup (member_list g) /\ forall y, y ∈ member_list g <-> y ∈ ({[2; 7; 1]} : gset Z).
Proof.
  destruct (group_refines_set 8 0 3 [0; 0; 0]
    [Add 5; Add 2; Add 5; Add 7; Add 1; Remove 5; Has 5; Has 7; Add 1]) as (g & E & Hnd & Hm).
  - lia.
  - by vm_compute.
  - repeat constructor; by vm_compute.
  - exists g. split; [exact E|]. split; [exact Hnd|]. intros y. rewrite (Hm y).
    replace (snd (ref_run 3 ∅ _)) with ({[2; 7; 1]} : gset Z); [done|vm_compute; reflexivity].
Defined.

(** Without the range the reverse map is read outside its array: the public
    [netudp_group_remove] and [netudp_group_has] pass the caller's number on. *)
Lemma remove_out_of_range max_clients id cap buf x :
  0 <= max_clients <= x -> remove (init id max_clients buf cap) x = None.
Proof.
  intros Hx. unfold remove, init. cbn [slot_to_pos]. rewrite (proj2 (Z.ltb_ge _ _)) by lia.
  unfold oget. rewrite (proj2 (Z.leb_le _ _)) by lia. rewrite lookup_ge_None_2; [done|]. rewrite length_replicate. lia.
Qed.

End Group.
