(* ===== verification/Slots.v ===== *)
(** Allocation of client slots (src/src/server.cpp): the compact list of active slots
    with its reverse map, and the stack of free slots.

    Theorem: in every reachable state the active and the free slots partition
    [0 .. max_clients - 1]. *)

From S2P Require Import Prelude IndexSet.

Module Slots.

(** [active_slots], [active_count] and [slot_to_active] are [act]. *)
Record slots : Type := mkSlots {
  act : IndexSet.iset;
  free_slots : list Z;
  free_count : Z }.

(** The part of [netudp_server_start]: [top = slot 0]. *)
Definition start (max_clients : Z) : slots :=
  mkSlots (IndexSet.mkISet (replicate (Z.to_nat max_clients) 0) 0 (replicate (Z.to_nat max_clients) (-1)))
    ((fun i => max_clients - 1 - i) <$> seqZ 0 max_clients) max_clients.

(** Taking a slot off the free stack and entering it in the active list. *)
Definition allocate (s : slots) : option (option Z * slots) :=
  if free_count s <=? 0 then Some (None, s)
  else
    let free := free_count s - 1 in
    slot ← oget (free_slots s) free;
    a ← IndexSet.append (act s) slot;
    Some (Some slot, mkSlots a (free_slots s) free).

(** [server_deactivate_slot], apart from the groups. *)
Definition deactivate (s : slots) (slot : Z) : option slots :=
  active_pos ← oget (IndexSet.pos (act s)) slot;
  if active_pos <? 0 then Some s
  else
    a ← IndexSet.swap_remove (act s) slot active_pos;
    f ← oset (free_slots s) (free_count s) slot;
    Some (mkSlots a f (free_count s + 1)).

(** * The partition *)

Definition actives (s : slots) : list Z := IndexSet.members (act s).
Definition frees (s : slots) : list Z := take (Z.to_nat (free_count s)) (free_slots s).

Record wf (n : Z) (s : slots) : Prop := {
  sl_act : IndexSet.wf (act s);
  sl_sizes : zlen (IndexSet.items (act s)) = n /\ zlen (IndexSet.pos (act s)) = n /\ zlen (free_slots s) = n;
  sl_free : 0 <= free_count s <= n;
  sl_nodup : NoDup (frees s);
  sl_split : forall x, x ∈ frees s <-> 0 <= x < n /\ (x ∉ actives s) }.

Lemma active_range n s x : wf n s -> x ∈ actives s -> 0 <= x < n.
Proof. intros [Ha (_ & Hp & _) _ _ _] Hx. apply IndexSet.member_pos in Hx as [? _]; [lia|done]. Qed.

Lemma wf_partition n s : wf n s -> actives s ++ frees s ≡ₚ seqZ 0 n.
Proof.
  intros Hs. pose proof Hs as [Ha _ _ Hnd Hsp]. apply NoDup_Permutation.
  - apply list.NoDup_app. split; [by apply IndexSet.members_NoDup|]. split; [|done].
    intros x Hx Hf. apply Hsp in Hf as [_ Hf]. done.
  - apply NoDup_seqZ.
  - intros x. rewrite elem_of_app, Hsp, elem_of_seqZ. split.
    + intros [Hx|[Hx _]]; [|lia]. pose proof (active_range n s x Hs Hx). lia.
    + intros Hx. destruct (decide (x ∈ actives s)); [by left|right; split; [lia|done]].
Qed.
Lemma wf_counts n s : 0 <= n -> wf n s -> IndexSet.count (act s) + free_count s = n.
Proof.
  intros Hn Hs. pose proof (wf_partition n s Hs) as Hp. apply Permutation_length in Hp.
  rewrite length_app, length_seqZ in Hp. destruct Hs as [Ha (_ & _ & Hf) Hfc _ _].
  pose proof (IndexSet.zlen_members _ Ha) as Hm. unfold actives, frees, zlen in *. rewrite length_take in Hp. lia.
Qed.

Lemma start_wf n : 0 <= n -> wf n (start n) /\ actives (start n) = [].
Proof.
  intros Hn. split; [|done].
  assert (frees (start n) = (fun i => n - 1 - i) <$> seqZ 0 n) as Hf.
  { unfold frees, start. cbn [free_count free_slots]. apply take_ge. rewrite length_fmap, length_seqZ. lia. }
  split.
  - split; cbn; [rewrite zlen_replicate; lia|lia|]. intros x Hx. rewrite zlen_replicate in Hx.
    left. apply aget_replicate. lia.
  - cbn. rewrite !zlen_replicate. unfold zlen. rewrite length_fmap, length_seqZ. lia.
  - cbn. lia.
  - rewrite Hf. apply NoDup_fmap_2; [intros x y; lia|]. apply NoDup_seqZ.
  - intros x. rewrite Hf, list_elem_of_fmap. split.
    + intros (i & -> & Hi%elem_of_seqZ). split; [lia|]. apply not_elem_of_nil.
    + intros [Hx _]. exists (n - 1 - x). split; [lia|]. apply elem_of_seqZ. lia.
Qed.

Lemma frees_snoc (l : list Z) c x :
  0 <= c < zlen l -> l !! Z.to_nat c = Some x -> take (Z.to_nat (c + 1)) l = take (Z.to_nat c) l ++ [x].
Proof. intros Hc Hx. replace (Z.to_nat (c + 1)) with (S (Z.to_nat c)) by lia. by apply take_S_r. Qed.

(** A free slot is taken, unless none is left: then every slot is active. *)
Lemma allocate_spec n s :
  0 <= n -> wf n s ->
  exists r s', allocate s = Some (r, s') /\ wf n s' /\
    match r with
    | Some x => 0 <= x < n /\ (x ∉ actives s) /\ actives s' = actives s ++ [x] /\ frees s = frees s' ++ [x]
    | None => s' = s /\ IndexSet.count (act s) = n
    end.
Proof.
  intros Hn Hs. pose proof (wf_counts n s Hn Hs) as Hcnt.
  pose proof Hs as [Ha (Hi & Hp & Hf) Hfc Hnd Hsp]. unfold allocate. case_if.
  { exists None, s. split; [done|]. split; [done|]. split; [done|]. lia. }
  set (c := free_count s - 1). assert (0 <= c < zlen (free_slots s)) as Hc by lia.
  set (x := (free_slots s).[c]). rewrite oget_aget, Some_bind by done. fold x.
  assert (frees s = take (Z.to_nat c) (free_slots s) ++ [x]) as Hsplit.
  { unfold frees. replace (free_count s) with (c + 1) by lia. apply frees_snoc; [done|]. by apply lookup_aget. }
  assert (x ∈ frees s) as Hx by (rewrite Hsplit; apply elem_of_app; right; by left).
  apply Hsp in Hx as [Hxr Hxn].
  assert ((IndexSet.pos (act s)).[x] = -1) as Hpx.
  { destruct (IndexSet.is_pos _ Ha x ltac:(lia)) as [?|[Hr _]]; [done|]. exfalso. apply Hxn.
    apply IndexSet.member_pos; [done|lia]. }
  destruct (IndexSet.append_spec (act s) x Ha ltac:(lia) Hpx ltac:(lia)) as (a & -> & Ha' & Hm & Hl1 & Hl2).
  rewrite Some_bind. eexists (Some x), _. split; [done|]. rewrite Hsplit in Hnd, Hsp.
  apply list.NoDup_app in Hnd as (Hnd & Hdis & _). split; [|done].
  split; cbn [act free_slots free_count]; try done; [lia|lia|].
  intros y. unfold frees, actives in *. cbn [act free_slots free_count]. rewrite Hm, elem_of_app, list_elem_of_singleton. split.
  - intros Hy. pose proof (Hdis y Hy) as Hne. destruct (proj1 (Hsp y)) as [Hr Hno]; [apply elem_of_app; by left|].
    split; [done|]. intros [?| ->]; [done|]. apply Hne. by left.
  - intros [Hr Hno]. assert (y ∈ take (Z.to_nat c) (free_slots s) ++ [x]) as Hy.
    { apply Hsp. split; [done|]. intros ?. apply Hno. by left. }
    apply elem_of_app in Hy as [Hy|Hy]; [done|]. apply list_elem_of_singleton in Hy as ->. exfalso. apply Hno. by right.
Qed.

Lemma deactivate_spec n s x :
  0 <= n -> wf n s -> 0 <= x < n ->
  exists s', deactivate s x = Some s' /\ wf n s' /\
    forall y, y ∈ actives s' <-> y ∈ actives s /\ y <> x.
Proof.
  intros Hn Hs Hx. pose proof (wf_counts n s Hn Hs) as Hcnt.
  pose proof Hs as [Ha (Hi & Hp & Hf) Hfc Hnd Hsp]. unfold deactivate.
  rewrite oget_aget, Some_bind by lia. case_if.
  { exists s. split; [done|]. split; [done|]. intros y. split; [|by intros []]. intros Hy. split; [done|].
    intros ->. apply IndexSet.member_pos in Hy as [_ Hy]; [lia|done]. }
  assert (x ∈ IndexSet.members (act s)) as Hm by (apply IndexSet.member_pos; [done|lia]).
  destruct (IndexSet.swap_remove_spec (act s) x Ha Hm) as (a & -> & Ha' & Hm' & Hl1 & Hl2 & _). rewrite Some_bind.
  pose proof (IndexSet.is_count _ Ha) as Hc.
  assert (0 < IndexSet.count (act s)) as Hpos.
  { rewrite <- (IndexSet.zlen_members _ Ha). destruct (IndexSet.members (act s)); [by apply not_elem_of_nil in Hm|].
    rewrite zlen_cons. pose proof (zlen_nonneg l). lia. }
  rewrite oset_aset, Some_bind by lia. eexists. split; [done|]. split; [|exact Hm'].
  assert (take (Z.to_nat (free_count s + 1)) (aset (free_slots s) (free_count s) x) = frees s ++ [x]) as Hfr.
  { rewrite (frees_snoc _ _ x).
    - f_equal. unfold aset, frees. apply take_insert_ge. lia.
    - rewrite zlen_aset. lia.
    - unfold aset. apply list_lookup_insert_eq. unfold zlen in *. lia. }
  split; cbn [act free_slots free_count]; rewrite ?zlen_aset; [done|lia|lia| |].
  - unfold frees. cbn [free_slots free_count]. rewrite Hfr. apply list.NoDup_app. split; [done|]. split; [|apply NoDup_singleton].
    intros y Hy Hyx. apply list_elem_of_singleton in Hyx as ->. apply Hsp in Hy as [_ Hy]. done.
  - intros y. unfold frees at 1. cbn [free_slots free_count]. rewrite Hfr, elem_of_app, list_elem_of_singleton, Hsp.
    unfold actives. cbn [act]. rewrite Hm'. split.
    + intros [[Hr Hno]| ->]; [|split; [done|tauto]]. split; [done|]. tauto.
    + intros [Hr Hno]. destruct (decide (y = x)) as [->|]; [by right|]. left. split; [done|]. tauto.
Qed.

(** ** Reachable states *)

(** What the server does to the slots, in any order. *)
Inductive step : slots -> slots -> Prop :=
  | step_allocate s r s' : allocate s = Some (r, s') -> step s s'
  | step_deactivate s x s' : deactivate s x = Some s' -> step s s'.
Inductive reachable (max_clients : Z) : slots -> Prop :=
  | reach_start : reachable max_clients (start max_clients)
  | reach_step s s' : reachable max_clients s -> step s s' -> reachable max_clients s'.

Lemma deactivate_range n s x s' : wf n s -> deactivate s x = Some s' -> 0 <= x < n.
Proof.
  intros [_ (_ & Hp & _) _ _ _] E. unfold deactivate in E.
  destruct (oget (IndexSet.pos (act s)) x) as [p|] eqn:Ep; [|done]. unfold oget in Ep.
  case_if_in Ep; [|done]. apply lookup_lt_Some in Ep. unfold zlen in Hp. lia.
Qed.
Lemma reachable_wf n s : 0 <= n -> reachable n s -> wf n s.
Proof.
  intros Hn. induction 1 as [|s s' _ IH Hst]; [by apply start_wf|]. revert IH.
  destruct Hst as [s r s' E|s x s' E]; intros IH.
  - destruct (allocate_spec n _ Hn IH) as (r' & t & E' & Ht & _). rewrite E in E'. by injection E' as <- <-.
  - pose proof (deactivate_range _ _ _ _ IH E) as Hx.
    destruct (deactivate_spec n _ x Hn IH Hx) as (t & E' & Ht & _). rewrite E in E'. by injection E' as <-.
Qed.

(** Slot bookkeeping is a partition: in every state reachable by allocating and
    releasing slots, in any order and however often, the active slots and the free
    slots together are each of 0..max_clients-1 exactly once; and the next
    operation stays inside the arrays: a slot can be allocated unless all are
    active, and the slot it returns was not active. *)
Theorem slots_partition max_clients s :
  0 <= max_clients -> reachable max_clients s ->
  actives s ++ frees s ≡ₚ seqZ 0 max_clients /\
  (exists r s', allocate s = Some (r, s') /\
     match r with
     | Some x => 0 <= x < max_clients /\ (x ∉ actives s) /\ actives s' = actives s ++ [x]
     | None => zlen (actives s) = max_clients
     end) /\
  (forall x, 0 <= x < max_clients -> exists s', deactivate s x = Some s' /\
     forall y, y ∈ actives s' <-> y ∈ actives s /\ y <> x).
Proof.
  intros Hn Hr. pose proof (reachable_wf _ _ Hn Hr) as Hs. split; [by apply wf_partition|]. split.
  - destruct (allocate_spec _ s Hn Hs) as (r & s' & E & _ & H). exists r, s'. split; [done|].
    destruct r; [by destruct H as (? & ? & ? & _)|]. destruct H as [_ H]. unfold actives. rewrite IndexSet.zlen_members; [done|apply Hs].
  - intros x Hx. destruct (deactivate_spec _ s x Hn Hs Hx) as (s' & E & _ & H). by exists s'.
Qed.
(** Three allocations and a release. *)
Definition demo : option slots :=
  '(_, s) ← allocate (start 3); '(_, s) ← allocate s; '(_, s) ← allocate s; deactivate s 1.
Lemma demo_reachable s : demo = Some s -> reachable 3 s.
Proof.
  unfold demo. destruct (allocate (start 3)) as [[r1 s1]|] eqn:E1; [|done]. rewrite Some_bind.
  destruct (allocate s1) as [[r2 s2]|] eqn:E2; [|done]. rewrite Some_bind.
  destruct (allocate s2) as [[r3 s3]|] eqn:E3; [|done]. rewrite Some_bind. intros E4.
  eapply reach_step; [|by eapply step_deactivate]. eapply reach_step; [|by eapply step_allocate].
  eapply reach_step; [|by eapply step_allocate]. eapply reach_step; [apply reach_start|by eapply step_allocate].
Qed.
Lemma slots_partition_witness :
  exists s, demo = Some s /\ actives s ++ frees s ≡ₚ seqZ 0 3 /\ actives s = [0; 2].
Proof.
  eexists. split; [reflexivity|]. split; [|vm_compute; reflexivity].
  apply (slots_partition 3 _ ltac:(lia)). apply demo_reachable. reflexivity.
Defined.

End Slots.
