(* ===== verification/Server.v ===== *)
(** The server (src/src/server.cpp): its state, the handling of packets, the update
    and the API that the application calls.

    This is the single-threaded mode without the network simulator; the sockets, the
    queues between threads, the worker threads and the simulator are in files of their
    own.  What goes to the socket and to the application's callbacks is recorded in
    [out], oldest first.  Heap failures other than [alloc]'s are left out.
    A result of [None] is an access outside an object. *)

From stdpp Require Import gmap.
From S2P Require Import Prelude Bytes Double RingBuffer HashMap Replay PacketTracker ReliableChannel Channel.
From S2P Require Import Fragment Address Rtt Bandwidth Ddos Stats RateLimiter PacketCrypto ConnectToken.
From S2P Require Import Connection Receive Send IndexSet Group Slots.

Definition NETUDP_ERROR_NO_BUFFERS : Z := -3.
Definition NETUDP_ERROR_NOT_CONNECTED : Z := -5.
Definition NETUDP_ERROR_NOT_INITIALIZED : Z := -11.

Module Server.
Import Address Connection Receive Send.

Record Config : Type := mkConfig {
  protocol_id : Z;
  private_key : bytes;
  cfg_channels : list channel_config;
  cfg_num_channels : Z;
  cfg_max_groups : Z;
  cfg_pacing_slices : Z }.

Record FingerprintValue : Type := mkFingerprint { fp_address : address; fp_expire_time : Z }.
#[global] Instance fingerprint_inhabited : Inhabited FingerprintValue :=
  populate (mkFingerprint address_zero 0).

(** A packet handed to the socket, and calls of the application's callbacks. *)
Inductive event : Type :=
  | Sent (dest : address) (packet : bytes)
  | OnConnect (slot client_id : Z) (user_data : bytes)
  | OnDisconnect (slot reason : Z)
  | Handled (slot : Z) (data : bytes) (channel : Z).

Record Server : Type := mkServer {
  running : bool;
  max_clients : Z;
  cfg : Config;
  limiter : RateLimiter.buckets;
  ddos : Ddos.DDoSMonitor;
  connections : list Connection;
  fingerprint_map : hash_map Z FingerprintValue;
  current_time : double;
  last_cleanup_time : double;
  handlers : list bool;
  address_to_slot : hash_map bytes Z;
  sl : Slots.slots;
  groups : list Group.Group;
  max_groups : Z;
  group_free_stack : list Z;
  group_free_count : Z;
  pacing_slices : Z;
  pacing_current_slice : Z;
  out : list event }.

Definition set_limiter (s : Server) (x : RateLimiter.buckets) : Server :=
  mkServer (running s) (max_clients s) (cfg s) x (ddos s) (connections s) (fingerprint_map s)
    (current_time s) (last_cleanup_time s) (handlers s) (address_to_slot s) (sl s) (groups s)
    (max_groups s) (group_free_stack s) (group_free_count s) (pacing_slices s)
    (pacing_current_slice s) (out s).
Definition set_ddos (s : Server) (x : Ddos.DDoSMonitor) : Server :=
  mkServer (running s) (max_clients s) (cfg s) (limiter s) x (connections s) (fingerprint_map s)
    (current_time s) (last_cleanup_time s) (handlers s) (address_to_slot s) (sl s) (groups s)
    (max_groups s) (group_free_stack s) (group_free_count s) (pacing_slices s)
    (pacing_current_slice s) (out s).
Definition set_connections (s : Server) (x : list Connection) : Server :=
  mkServer (running s) (max_clients s) (cfg s) (limiter s) (ddos s) x (fingerprint_map s)
    (current_time s) (last_cleanup_time s) (handlers s) (address_to_slot s) (sl s) (groups s)
    (max_groups s) (group_free_stack s) (group_free_count s) (pacing_slices s)
    (pacing_current_slice s) (out s).
Definition set_fingerprint_map (s : Server) (x : hash_map Z FingerprintValue) : Server :=
  mkServer (running s) (max_clients s) (cfg s) (limiter s) (ddos s) (connections s) x
    (current_time s) (last_cleanup_time s) (handlers s) (address_to_slot s) (sl s) (groups s)
    (max_groups s) (group_free_stack s) (group_free_count s) (pacing_slices s)
    (pacing_current_slice s) (out s).
Definition set_current_time (s : Server) (x : double) : Server :=
  mkServer (running s) (max_clients s) (cfg s) (limiter s) (ddos s) (connections s)
    (fingerprint_map s) x (last_cleanup_time s) (handlers s) (address_to_slot s) (sl s) (groups
    s) (max_groups s) (group_free_stack s) (group_free_count s) (pacing_slices s)
    (pacing_current_slice s) (out s).
Definition set_last_cleanup_time (s : Server) (x : double) : Server :=
  mkServer (running s) (max_clients s) (cfg s) (limiter s) (ddos s) (connections s)
    (fingerprint_map s) (current_time s) x (handlers s) (address_to_slot s) (sl s) (groups s)
    (max_groups s) (group_free_stack s) (group_free_count s) (pacing_slices s)
    (pacing_current_slice s) (out s).
Definition set_address_to_slot (s : Server) (x : hash_map bytes Z) : Server :=
  mkServer (running s) (max_clients s) (cfg s) (limiter s) (ddos s) (connections s)
    (fingerprint_map s) (current_time s) (last_cleanup_time s) (handlers s) x (sl s) (groups s)
    (max_groups s) (group_free_stack s) (group_free_count s) (pacing_slices s)
    (pacing_current_slice s) (out s).
Definition set_sl (s : Server) (x : Slots.slots) : Server :=
  mkServer (running s) (max_clients s) (cfg s) (limiter s) (ddos s) (connections s)
    (fingerprint_map s) (current_time s) (last_cleanup_time s) (handlers s) (address_to_slot s)
    x (groups s) (max_groups s) (group_free_stack s) (group_free_count s) (pacing_slices s)
    (pacing_current_slice s) (out s).
Definition set_groups (s : Server) (x : list Group.Group) : Server :=
  mkServer (running s) (max_clients s) (cfg s) (limiter s) (ddos s) (connections s)
    (fingerprint_map s) (current_time s) (last_cleanup_time s) (handlers s) (address_to_slot s)
    (sl s) x (max_groups s) (group_free_stack s) (group_free_count s) (pacing_slices s)
    (pacing_current_slice s) (out s).
Definition set_pacing_current_slice (s : Server) (x : Z) : Server :=
  mkServer (running s) (max_clients s) (cfg s) (limiter s) (ddos s) (connections s)
    (fingerprint_map s) (current_time s) (last_cleanup_time s) (handlers s) (address_to_slot s)
    (sl s) (groups s) (max_groups s) (group_free_stack s) (group_free_count s) (pacing_slices s)
    x (out s).
Definition set_out (s : Server) (x : list event) : Server :=
  mkServer (running s) (max_clients s) (cfg s) (limiter s) (ddos s) (connections s)
    (fingerprint_map s) (current_time s) (last_cleanup_time s) (handlers s) (address_to_slot s)
    (sl s) (groups s) (max_groups s) (group_free_stack s) (group_free_count s) (pacing_slices s)
    (pacing_current_slice s) x.
Definition set_handlers (s : Server) (v_handlers : list bool) : Server :=
  mkServer (running s) (max_clients s) (cfg s) (limiter s) (ddos s) (connections s)
    (fingerprint_map s) (current_time s) (last_cleanup_time s) v_handlers (address_to_slot s)
    (sl s) (groups s) (max_groups s) (group_free_stack s) (group_free_count s) (pacing_slices s)
    (pacing_current_slice s) (out s).
Definition set_group_stack (s : Server) (v_groups : list Group.Group) (v_group_free_stack : list Z) (v_group_free_count : Z) : Server :=
  mkServer (running s) (max_clients s) (cfg s) (limiter s) (ddos s) (connections s)
    (fingerprint_map s) (current_time s) (last_cleanup_time s) (handlers s) (address_to_slot s)
    (sl s) v_groups (max_groups s) v_group_free_stack v_group_free_count (pacing_slices s)
    (pacing_current_slice s) (out s).

Definition FINGERPRINTS : Z := 2048.
Definition ADDRESSES : Z := 4096.

(** The hash policy hashes the bytes of the key as they lie in memory. *)
Definition address_key (a : address) : bytes := a_data a ++ le_bytes 2 (a_port a) ++ [a_type a; 0].
Definition fp_hash (k : Z) : Z := fnv1a (le_bytes 8 k).
Definition find_slot (s : Server) (a : address) : option Z :=
  FixedHashMap.find ADDRESSES fnv1a (address_key a) (address_to_slot s).

Definition conn (s : Server) (slot : Z) : option Connection := oget (connections s) slot.
Definition set_conn (s : Server) (slot : Z) (c : Connection) : Server :=
  set_connections s (aset (connections s) slot c).
Definition emit (s : Server) (l : list event) : Server := set_out s (out s ++ l).
Definition bad_packet (s : Server) : Server := set_ddos s (Ddos.on_bad_packet (ddos s)).
Definition packets_to (c : Connection) (l : list bytes) : list event := Sent (peer c) <$> l.

(** ** Life cycle *)

(** [netudp_server_create], once the socket is open. *)
Definition netudp_server_create (config : Config) (time : double) : Server :=
  mkServer false 0 config (FixedHashMap.empty RateLimiter.CAPACITY) Ddos.reset []
    (FixedHashMap.empty FINGERPRINTS) time d0 (replicate 256 false) (FixedHashMap.empty ADDRESSES)
    (Slots.start 0) [] 0 [] 0 0 0 [].

Definition netudp_server_start (s : Server) (n : Z) : Server :=
  if n <=? 0 then s
  else
    let mg := if cfg_max_groups (cfg s) <=? 0 then 256 else cfg_max_groups (cfg s) in
    mkServer true n (cfg s) (limiter s) (ddos s) (replicate (Z.to_nat n) fresh) (fingerprint_map s)
      (current_time s) (last_cleanup_time s) (handlers s) (address_to_slot s) (Slots.start n)
      (replicate (Z.to_nat mg) Group.empty) mg ((fun i => mg - 1 - i) <$> seqZ 0 mg) mg
      (cfg_pacing_slices (cfg s)) 0 (out s).

(** The connections are reset and freed; what is kept is kept. *)
Definition netudp_server_stop (s : Server) : Server :=
  mkServer false (max_clients s) (cfg s) (limiter s) (ddos s) [] (fingerprint_map s) (current_time s)
    (last_cleanup_time s) (handlers s) (FixedHashMap.clear (address_to_slot s))
    (Slots.mkSlots (IndexSet.mkISet [] 0 []) [] 0) [] 0 [] 0 (pacing_slices s)
    (pacing_current_slice s) (out s).

Fixpoint remove_from_groups (gs : list Group.Group) (slot : Z) : option (list Group.Group) :=
  match gs with
  | [] => Some []
  | g :: gs =>
      g ← (if Group.active g then '(_, g) ← Group.remove g slot; Some g else Some g);
      gs ← remove_from_groups gs slot;
      Some (g :: gs)
  end.

Definition server_deactivate_slot (s : Server) (slot : Z) : option Server :=
  active_pos ← oget (IndexSet.pos (Slots.act (sl s))) slot;
  if active_pos <? 0 then Some s
  else
    l ← Slots.deactivate (sl s) slot;
    gs ← remove_from_groups (groups s) slot;
    Some (set_groups (set_sl s l) gs).

(** The callback, the address table, the slot and the connection. *)
Definition drop_client (s : Server) (slot reason : Z) : option Server :=
  let s := emit s [OnDisconnect slot reason] in
  c ← conn s slot;
  '(_, t) ← FixedHashMap.remove ADDRESSES fnv1a (address_key (peer c)) (address_to_slot s);
  let s := set_address_to_slot s t in
  s ← server_deactivate_slot s slot;
  Some (set_conn s slot (reset c)).

(** ** Packets *)

Section Packets.
Context `{Crypto.Aead} (blake2b_keyed blake2b_keyed_64 : bytes -> bytes -> bytes)
        (crypto_aead_unlock : bytes -> bytes -> bytes -> bytes -> bytes -> option bytes)
        (alloc : option (Z -> option bytes)).

Definition set_keys (e : Crypto.KeyEpoch) (tx rx : bytes) : Crypto.KeyEpoch :=
  Crypto.mkEpoch tx rx (Crypto.old_rx_key e) 0 (Crypto.bytes_transmitted e) (Crypto.epoch_start_time e)
    (Crypto.epoch_number e) (Crypto.grace_packets_remaining e) (Crypto.rekey_pending e) Replay.reset.

(** The connection of a newly allocated slot. *)
Definition open_connection (s : Server) (c : Connection) (slot : Z) (from : address)
    (priv : Token.PrivateConnectToken) : option Connection :=
  let c := set_slot_id (set_peer (set_active c true) from) (u16 slot) in
  let c := set_user_data (set_client_id c (Token.client_id priv)) (Token.user_data priv) in
  let c := set_key_epoch c (set_keys (key_epoch c) (Token.server_to_client_key priv)
                              (Token.client_to_server_key priv)) in
  let c := set_timeout_seconds c (Token.timeout_seconds priv) in
  init_subsystems c alloc (cfg_channels (cfg s)) (cfg_num_channels (cfg s)) (current_time s).

(** The packet that tells the client its slot. *)
Definition send_accepted (s : Server) (c : Connection) (slot : Z) : option (Connection * list bytes) :=
  let now := current_time s in
  payload ← mwrite (replicate 14 0) 0 (le_bytes 2 (u16 slot));
  payload ← mwrite payload 2 (le_bytes 4 (max_clients s));
  '(_, payload) ← PacketTracker.write_ack_fields
                    (PacketTracker.build_ack_fields (packet_tracker c) now) payload 6;
  let c := set_packet_tracker c (snd (PacketTracker.send_packet (packet_tracker c) now)) in
  let '(ct, e) := Crypto.packet_encrypt (key_epoch c) (protocol_id (cfg s)) 21 payload in
  let c := set_key_epoch c e in
  match ct with
  | None => Some (c, [])
  | Some ct =>
      if zlen ct <=? 0 then Some (c, [])
      else
        _ ← guard_ub (zlen ct <=? 64);
        Some (set_last_keepalive_time (set_last_send_time c now) now, [[21] ++ ct])
  end.

(** A slot for an accepted token, and the connection in it. *)
Definition accept_client (s : Server) (from : address) (priv : Token.PrivateConnectToken) : option Server :=
  '(slot, l) ← Slots.allocate (sl s);
  match slot with
  | None => Some s
  | Some slot =>
      let s := set_sl s l in
      c ← conn s slot;
      let s := set_address_to_slot s
                 (snd (FixedHashMap.insert ADDRESSES fnv1a (address_key from) slot (address_to_slot s))) in
      c ← open_connection s c slot from priv;
      let s := emit (set_conn s slot c) [OnConnect slot (Token.client_id priv) (Token.user_data priv)] in
      '(c, pkts) ← send_accepted s c slot;
      Some (emit (set_conn s slot c) (packets_to c pkts))
  end.

Definition connected (s : Server) (client_id : Z) : bool :=
  existsb (fun c => active c && (Connection.client_id c =? client_id)) (connections s).

(** The token of a request: [None] when it is refused. *)
Definition request_token (s : Server) (packet : bytes) : option (option (bytes * Z * Token.PrivateConnectToken)) :=
  if negb (zlen packet =? 1078) then Some None
  else
    v ← mread packet 1 13;
    if negb (bool_decide (v = Crypto.NETUDP_VERSION_INFO)) then Some None
    else
      pkt_protocol_id ← mread_u packet 14 8;
      if negb (pkt_protocol_id =? protocol_id (cfg s)) then Some None
      else
        expire_ts ← mread_u packet 22 8;
        if expire_ts <=? d_to_u64 (current_time s) then Some None
        else
          p ← mread packet 14 8;
          e ← mread packet 22 8;
          let aad := v ++ p ++ e in
          nonce ← mread packet 30 24;
          encrypted ← mread packet 54 Token.TOKEN_PRIVATE_ENCRYPTED_SIZE;
          match Crypto.xchacha_decrypt crypto_aead_unlock (private_key (cfg s)) nonce aad encrypted with
          | None => Some None
          | Some decrypted =>
              r ← Token.deserialize_private_token decrypted Token.TOKEN_PRIVATE_SIZE;
              match r with
              | inl _ => Some None
              | inr priv => Some (Some (encrypted, expire_ts, priv))
              end
          end.

Definition server_handle_connection_request (s : Server) (from : address) (packet : bytes) : option Server :=
  r ← request_token s packet;
  match r with
  | None => Some s
  | Some (encrypted, expire_ts, priv) =>
      if connected s (Token.client_id priv) then Some s
      else
        let fp_key := le_value (Token.compute_token_fingerprint blake2b_keyed_64
                                  (private_key (cfg s)) encrypted) in
        let replayed :=
          match FixedHashMap.find FINGERPRINTS fp_hash fp_key (fingerprint_map s) with
          | Some v => negb (netudp_address_equal (fp_address v) from)
          | None => false
          end in
        if replayed then Some s
        else
          let s := set_fingerprint_map s
                     (snd (FixedHashMap.insert FINGERPRINTS fp_hash fp_key
                             (mkFingerprint from expire_ts) (fingerprint_map s))) in
          accept_client s from priv
  end.

Definition server_handle_data_packet (s : Server) (slot : Z) (packet : bytes) : option Server :=
  c ← conn s slot;
  r ← server_packet blake2b_keyed c (protocol_id (cfg s)) (current_time s) packet;
  match r with
  | Rejected c => Some (bad_packet (set_conn s slot c))
  | Accepted (Stopped c) => Some (set_conn s slot c)
  | Accepted (Disconnected c reason) => drop_client (set_conn s slot c) slot reason
  end.

(** The slot a data packet is for: the one it names when that is the sender's, or
    else the sender's in the address table. *)
Definition packet_slot (s : Server) (from : address) (data : bytes) : option (option Z) :=
  named ←
    (if 4 <=? zlen data then
       wire_slot ← mread_u data 1 2;
       if wire_slot <? u16 (max_clients s) then
         cand ← conn s wire_slot;
         Some (if active cand && netudp_address_equal (peer cand) from then Some wire_slot else None)
       else Some None
     else Some None);
  Some (match named with Some slot => Some slot | None => find_slot s from end).

Definition server_dispatch_packet (s : Server) (from : address) (data : bytes) : option Server :=
  prefix ← oget data 0;
  let packet_type := Z.land prefix 15 in
  if (packet_type =? 0) && (zlen data =? 1078) then
    if negb (Ddos.should_process_new_connection (ddos s)) then Some s
    else server_handle_connection_request s from data
  else if ((4 <=? packet_type) && (packet_type <=? 6)) || (prefix =? Crypto.PACKET_PREFIX_DATA_REKEY) then
    slot ← packet_slot s from data;
    match slot with
    | Some slot => server_handle_data_packet s slot data
    | None => Some (bad_packet s)
    end
  else Some (bad_packet s).

(** One packet from the socket: unknown senders are rate limited. *)
Definition receive_packet (s : Server) (from : address) (data : bytes) : option Server :=
  let '(ok, s) :=
    match find_slot s from with
    | Some _ => (true, s)
    | None => let '(ok, l) := RateLimiter.allow (limiter s) from (current_time s) in (ok, set_limiter s l)
    end in
  if ok then server_dispatch_packet s from data else Some (bad_packet s).
Fixpoint receive_packets (s : Server) (l : list (address * bytes)) : option Server :=
  match l with
  | [] => Some s
  | (from, data) :: l => s ← receive_packet s from data; receive_packets s l
  end.

(** ** The update *)

(** One turn of the loop over the active list at position [a]. *)
Definition timeout_step (time : double) (st : Z * Server) : (Z * Server) + option Server :=
  let '(a, s) := st in
  if negb (a <? IndexSet.count (Slots.act (sl s))) then inr (Some s)
  else
    match (i ← oget (IndexSet.items (Slots.act (sl s))) a; c ← conn s i; Some (i, c)) with
    | None => inr None
    | Some (i, c) =>
        if dgt (dsub time (last_recv_time c)) (d_of_Z (timeout_seconds c)) then
          match drop_client s i (-4) with
          | None => inr None
          | Some s => inl (a, s)
          end
        else inl (a + 1, s)
    end.
Definition check_timeouts (s : Server) (time : double) : option Server :=
  match loop (Z.to_pos (IndexSet.count (Slots.act (sl s)) + 1)) (timeout_step time) (0, s) with
  | inr r => r
  | inl _ => None
  end.

Definition slow_tick (c : Connection) (time : double) : Connection :=
  if dge time (next_slow_tick c) then
    let c := set_next_slow_tick c (dadd time (dlit 1 10)) in
    let st := Stats.update_throughput (stats c) time in
    let c := set_stats c (Stats.set_rates st (Rtt.ping_ms (rtt c)) (Bandwidth.send_rate_ (congestion c))
                            (Bandwidth.max_send_rate_ (congestion c))) in
    let c := cleanup_fragments c time in
    set_congestion c (Bandwidth.evaluate (congestion c))
  else c.

(** What an update does for one connection, and the packets it sends. *)
Definition update_connection (pid : Z) (c : Connection) (time dt : double) : option (Connection * list bytes) :=
  let needs_keepalive := dgt (dsub time (last_send_time c)) (d_of_Z 1) in
  if (pending_mask c =? 0) && negb needs_keepalive then Some (slow_tick c time, [])
  else
    let c := set_bandwidth c (Bandwidth.bucket_refill (bandwidth c) time) in
    let c := set_budget c (Bandwidth.refill (budget c) dt (Bandwidth.send_rate_ (congestion c))) in
    '(c, pkts) ← server_send_pending blake2b_keyed pid c time;
    '(c, keep) ← (if needs_keepalive then server_send_keepalive blake2b_keyed pid c time else Some (c, []));
    Some (slow_tick c time, pkts ++ keep).

(** The part of the active list an update serves, and the next one's number. *)
Definition pacing_slice (active_count slices current : Z) : Z * Z * Z :=
  if (1 <? slices) && (slices <? active_count) then
    let per_slice := Z.quot active_count slices in
    let remainder := Z.rem active_count slices in
    let k := Z.rem current slices in
    let slice_start := k * per_slice + (if k <? remainder then k else remainder) in
    let this_slice := per_slice + (if k <? remainder then 1 else 0) in
    (slice_start, slice_start + this_slice, Z.rem (k + 1) slices)
  else (0, active_count, current).

Fixpoint update_slots (n : nat) (a : Z) (s : Server) (time dt : double) : option Server :=
  match n with
  | O => Some s
  | S n =>
      i ← oget (IndexSet.items (Slots.act (sl s))) a;
      c ← conn s i;
      '(c', pkts) ← update_connection (protocol_id (cfg s)) c time dt;
      update_slots n (a + 1) (emit (set_conn s i c') (packets_to c' pkts)) time dt
  end.

(** The update after the packets are handled: time-outs, the connections, the limiter. *)
Definition update_rest (s : Server) (time dt : double) : option Server :=
  s ← check_timeouts s time;
  let '(first, last, next) := pacing_slice (IndexSet.count (Slots.act (sl s))) (pacing_slices s)
                                (pacing_current_slice s) in
  let s := set_pacing_current_slice s next in
  s ← update_slots (Z.to_nat (last - first)) first s time dt;
  if dgt (dsub time (last_cleanup_time s)) (d_of_Z 1)
  then l ← RateLimiter.cleanup (limiter s) time; Some (set_last_cleanup_time (set_limiter s l) time)
  else Some s.

(** [arrived] is what the socket has. *)
Definition netudp_server_update (s : Server) (time : double) (arrived : list (address * bytes)) : option Server :=
  if negb (running s) then Some s
  else
    let dt := dsub time (current_time s) in
    let s := set_current_time s time in
    let s := set_ddos s (Ddos.update (ddos s) dt) in
    s ← receive_packets s arrived;
    update_rest s time dt.

(** ** Sending *)

(** [server_send_pending(server, slot)]. *)
Definition send_pending_slot (s : Server) (slot : Z) : option Server :=
  c ← conn s slot;
  '(c', pkts) ← server_send_pending blake2b_keyed (protocol_id (cfg s)) c (current_time s);
  Some (emit (set_conn s slot c') (packets_to c' pkts)).

(** The checks [netudp_server_send] and [netudp_server_send_state] share: an error,
    or the connection, its data and the channel. *)
Definition send_target (s : Server) (client_index channel : Z)
    : option (Z + Connection * ConnectionData * Channel.channel) :=
  if negb (running s) then Some (inl NETUDP_ERROR_NOT_INITIALIZED)
  else if (client_index <? 0) || (max_clients s <=? client_index)
  then Some (inl NETUDP_ERROR_INVALID_PARAM)
  else
    c ← conn s client_index;
    if negb (active c) then Some (inl NETUDP_ERROR_NOT_CONNECTED)
    else if (channel <? 0) || (num_channels c <=? channel) then Some (inl NETUDP_ERROR_INVALID_PARAM)
    else d ← cdata c; x ← ch d channel; Some (inr (c, d, x)).

(** After the message is queued: the mask and the Nagle timer. *)
Definition queued (s : Server) (client_index channel : Z) (c : Connection) (d : ConnectionData)
    (x : Channel.channel) : Server :=
  let c := set_pending_mask c (Z.lor (pending_mask c) (u8 (Z.shiftl 1 channel))) in
  set_conn s client_index (set_cdata c (Some (set_ch d channel (Channel.start_nagle x (current_time s))))).

Definition netudp_server_send (s : Server) (client_index channel : Z) (data : bytes) (flags : Z)
    : option (Z * Server) :=
  t ← send_target s client_index channel;
  match t with
  | inl e => Some (e, s)
  | inr (c, d, x) =>
      let '(ok, x) := Channel.queue_send x data flags in
      if negb ok
      then Some (NETUDP_ERROR_NO_BUFFERS, set_conn s client_index (set_cdata c (Some (set_ch d channel x))))
      else
        let s := queued s client_index channel c d x in
        if has_flag flags NETUDP_SEND_NO_DELAY then
          c ← conn s client_index;
          d ← cdata c;
          x ← ch d channel;
          let s := set_conn s client_index (set_cdata c (Some (set_ch d channel (Channel.flush x)))) in
          s ← send_pending_slot s client_index;
          Some (NETUDP_OK, s)
        else Some (NETUDP_OK, s)
  end.

Definition netudp_server_send_state (s : Server) (client_index channel entity_id : Z) (data : bytes)
    : option (Z * Server) :=
  t ← send_target s client_index channel;
  match t with
  | inl e => Some (e, s)
  | inr (c, d, x) =>
      if is_reliable (Channel.type x) then Some (NETUDP_ERROR_INVALID_PARAM, s)
      else
        let '(ok, x) := Channel.queue_send_state x data 0 entity_id in
        if negb ok
        then Some (NETUDP_ERROR_NO_BUFFERS, set_conn s client_index (set_cdata c (Some (set_ch d channel x))))
        else Some (NETUDP_OK, queued s client_index channel c d x)
  end.

(** Sending the same message to a list of clients; results are ignored. *)
Fixpoint send_each (l : list Z) (s : Server) (channel : Z) (data : bytes) (flags : Z) : option Server :=
  match l with
  | [] => Some s
  | slot :: l => '(_, s) ← netudp_server_send s slot channel data flags; send_each l s channel data flags
  end.
Fixpoint send_state_each (l : list Z) (s : Server) (channel entity_id : Z) (data : bytes) : option Server :=
  match l with
  | [] => Some s
  | slot :: l => '(_, s) ← netudp_server_send_state s slot channel entity_id data;
                 send_state_each l s channel entity_id data
  end.

Definition netudp_server_broadcast (s : Server) (channel : Z) (data : bytes) (flags : Z) : option Server :=
  if negb (running s) then Some s else send_each (Slots.actives (sl s)) s channel data flags.
Definition netudp_server_broadcast_except (s : Server) (except_client channel : Z) (data : bytes) (flags : Z)
    : option Server :=
  if negb (running s) then Some s
  else send_each (filter (fun slot => slot <> except_client) (Slots.actives (sl s))) s channel data flags.

Fixpoint flush_channels (n : nat) (i : Z) (d : ConnectionData) : option ConnectionData :=
  match n with
  | O => Some d
  | S n => x ← ch d i; flush_channels n (i + 1) (set_ch d i (Channel.flush x))
  end.
Definition netudp_server_flush (s : Server) (client_index : Z) : option Server :=
  if negb (running s) then Some s
  else if (client_index <? 0) || (max_clients s <=? client_index) then Some s
  else
    c ← conn s client_index;
    if negb (active c) then Some s
    else
      d ← cdata c;
      d ← flush_channels (Z.to_nat (num_channels c)) 0 d;
      send_pending_slot (set_conn s client_index (set_cdata c (Some d))) client_index.

(** ** Receiving *)

(** [netudp_message_t]. *)
Record Message : Type := mkMessage { m_data : bytes; m_channel : Z; m_client_index : Z; m_number : Z }.

(** The loop over the queue of delivered messages; [Handled] are the messages a
    registered handler took. *)
Definition receive_step (handlers : list bool) (client_index max_messages : Z)
    (st : ring DeliveredMessage * list Message * list event)
    : (ring DeliveredMessage * list Message * list event)
      + (ring DeliveredMessage * list Message * list event) :=
  let '(q, ms, ev) := st in
  if negb (zlen ms <? max_messages) || RingBuffer.is_empty q then inr st
  else
    match RingBuffer.pop_front DELIVERED_SIZE q with
    | (None, q) => inr (q, ms, ev)
    | (Some m, q) =>
        if negb (dm_valid m) then inl (q, ms, ev)
        else if (1 <=? zlen (dm_data m)) && handlers.[(dm_data m).[0]]
        then inl (q, ms, ev ++ [Handled client_index (dm_data m) (dm_channel m)])
        else inl (q, ms ++ [mkMessage (dm_data m) (dm_channel m) client_index (dm_sequence m)], ev)
    end.
Definition netudp_server_receive (s : Server) (client_index max_messages : Z) : option (list Message * Server) :=
  if negb (running s) then Some ([], s)
  else if (client_index <? 0) || (max_clients s <=? client_index) then Some ([], s)
  else
    c ← conn s client_index;
    if negb (active c) then Some ([], s)
    else
      d ← cdata c;
      match loop 257 (receive_step (handlers s) client_index max_messages) (delivered_messages d, [], []) with
      | inl _ => None
      | inr (q, ms, ev) =>
          Some (ms, emit (set_conn s client_index (set_cdata c (Some (set_delivered d q)))) ev)
      end.

(** [for (a = 0; a < active_count && total < max_messages; ++a)]. *)
Fixpoint receive_each (l : list Z) (s : Server) (total max_messages : Z) : option (list Message * Server) :=
  match l with
  | [] => Some ([], s)
  | slot :: l =>
      if negb (total <? max_messages) then Some ([], s)
      else
        '(ms, s) ← netudp_server_receive s slot (max_messages - total);
        '(ms', s) ← receive_each l s (total + zlen ms) max_messages;
        Some (ms ++ ms', s)
  end.
Definition netudp_server_receive_batch (s : Server) (max_messages : Z) : option (Z + list Message * Server) :=
  if max_messages <=? 0 then Some (inl NETUDP_ERROR_INVALID_PARAM)
  else r ← receive_each (Slots.actives (sl s)) s 0 max_messages; Some (inr r).

(** ** Groups *)

Definition group_capacity (s : Server) : Z :=
  if max_clients s <? Group.kMaxGroupMembers then max_clients s else Group.kMaxGroupMembers.
Definition netudp_group_create (s : Server) : option (Z * Server) :=
  if negb (running s) then Some (-1, s)
  else if group_free_count s <=? 0 then Some (-1, s)
  else
    let n := group_free_count s - 1 in
    idx ← oget (group_free_stack s) n;
    let cap := group_capacity s in
    let g := Group.init idx (max_clients s) (replicate (Z.to_nat cap) 0) cap in
    gs ← oset (groups s) idx g;
    Some (idx, set_group_stack s gs (group_free_stack s) n).

Definition group_of (s : Server) (group_id : Z) : option (option Group.Group) :=
  if (group_id <? 0) || (max_groups s <=? group_id) then Some None
  else g ← oget (groups s) group_id; Some (if Group.active g then Some g else None).

Definition netudp_group_destroy (s : Server) (group_id : Z) : option Server :=
  g ← group_of s group_id;
  match g with
  | None => Some s
  | Some g =>
      g ← Group.reset g;
      st ← oset (group_free_stack s) (group_free_count s) group_id;
      Some (set_group_stack s (aset (groups s) group_id g) st (group_free_count s + 1))
  end.

Definition netudp_group_add (s : Server) (group_id client_index : Z) : option (Z * Server) :=
  g ← group_of s group_id;
  match g with
  | None => Some (NETUDP_ERROR_INVALID_PARAM, s)
  | Some g =>
      if (client_index <? 0) || (max_clients s <=? client_index) then Some (NETUDP_ERROR_INVALID_PARAM, s)
      else
        c ← conn s client_index;
        if negb (active c) then Some (NETUDP_ERROR_NOT_CONNECTED, s)
        else
          '(ok, g) ← Group.add g client_index;
          Some (if (ok : bool) then NETUDP_OK else NETUDP_ERROR_NO_BUFFERS, set_groups s (aset (groups s) group_id g))
  end.

(** The client number goes to the group unchecked. *)
Definition netudp_group_remove (s : Server) (group_id client_index : Z) : option (Z * Server) :=
  g ← group_of s group_id;
  match g with
  | None => Some (NETUDP_ERROR_INVALID_PARAM, s)
  | Some g =>
      '(ok, g) ← Group.remove g client_index;
      Some (if (ok : bool) then NETUDP_OK else NETUDP_ERROR_INVALID_PARAM, set_groups s (aset (groups s) group_id g))
  end.

Definition netudp_group_send (s : Server) (group_id channel : Z) (data : bytes) (flags : Z) : option Server :=
  if negb (running s) then Some s
  else
    g ← group_of s group_id;
    match g with
    | None => Some s
    | Some g => send_each (Group.member_list g) s channel data flags
    end.
Definition netudp_group_send_except (s : Server) (group_id except_client channel : Z) (data : bytes) (flags : Z)
    : option Server :=
  if negb (running s) then Some s
  else
    g ← group_of s group_id;
    match g with
    | None => Some s
    | Some g => send_each (filter (fun slot => slot <> except_client) (Group.member_list g)) s channel data flags
    end.
Definition netudp_group_send_state (s : Server) (group_id channel entity_id : Z) (data : bytes) : option Server :=
  if negb (running s) then Some s
  else
    g ← group_of s group_id;
    match g with
    | None => Some s
    | Some g => send_state_each (Group.member_list g) s channel entity_id data
    end.
Definition netudp_group_count (s : Server) (group_id : Z) : option Z :=
  g ← group_of s group_id;
  Some (match g with Some g => Group.member_count g | None => 0 end).
Definition netudp_group_has (s : Server) (group_id client_index : Z) : option Z :=
  if (group_id <? 0) || (max_groups s <=? group_id) then Some 0
  else
    g ← oget (groups s) group_id;
    b ← Group.has g client_index;
    Some (if b : bool then 1 else 0).

Definition netudp_server_set_packet_handler (s : Server) (packet_type : Z) (registered : bool) : Server :=
  if 255 <? packet_type then s else set_handlers s (aset (handlers s) packet_type registered).
End Packets.

End Server.
