(* ===== verification/ConnSafety.v ===== *)
(** What the operations of the server on one connection keep: the connection stays
    well formed and keeps its identity, and none of them leaves its objects.

    [server_packet] and [server_send_pending] are those of Receive.v and Send.v;
    the update and the opening of a connection are those of Server.v. *)

From stdpp Require Import gmap.
From S2P Require Import Prelude Bytes Double RingBuffer HashMap Replay PacketTracker ReliableChannel Channel.
From S2P Require Import Fragment Address Rtt Bandwidth Ddos Stats RateLimiter PacketCrypto ConnectToken.
From S2P Require Import Connection Receive Send IndexSet Group Slots Server.

Module ConnSafety.
Import Address Connection Receive Send Server.

(** What identifies the client of a slot; traffic never changes it. *)
Definition tag (c : Connection) : bool * address * Z * Z := (active c, peer c, client_id c, slot_id c).
Definition keeps (c c' : Connection) : Prop := wf c' /\ tag c' = tag c.

Lemma frame_step_tag fragments now pt w :
  match frame_step fragments now pt w with
  | inl w' => tag (w_conn w') = tag (w_conn w)
  | inr (Some o) => tag (outcome_conn o) = tag (w_conn w)
  | inr None => True
  end.
Proof.
  unfold frame_step, on_unreliable, on_reliable, on_fragment, on_message, guard_ub.
  repeat (case_match || simplify_option_eq || done).
Qed.

Lemma walk_frames_tag fragments now pt w o :
  walk_frames fragments now pt w = Some o -> tag (outcome_conn o) = tag (w_conn w).
Proof.
  unfold walk_frames. destruct (loop _ _ _) as [|r] eqn:E; [done|]. intros ->.
  refine (loop_inv _ (fun w' => tag (w_conn w') = tag (w_conn w))
    (fun r => match r with Some o => tag (outcome_conn o) = tag (w_conn w) | None => True end)
    _ _ _ _ eq_refl E).
  intros w' Hw. pose proof (frame_step_tag fragments now pt w') as H.
  destruct (frame_step fragments now pt w') as [|[]]; congruence.
Qed.

(** The connection after a packet. *)
Definition result_conn (r : packet_result) : Connection :=
  match r with Rejected c => c | Accepted o => outcome_conn o end.

Section Aead.
Context `{Crypto.Aead} (blake2b_keyed : bytes -> bytes -> bytes).

(** What the primitives promise besides inverting each other: they write bytes, as
    many as they read less the tag. *)
Class AeadBytes : Prop := {
  aead_small : Crypto.aead_overhead <= 16;
  aead_opens : forall key nonce aad ct pt, is_bytes ct ->
    Crypto.g_aead_decrypt key nonce aad ct = Some pt -> is_bytes pt /\ zlen pt = zlen ct - Crypto.aead_overhead }.
Context `{AeadBytes}.

Lemma receive_data_opens e pid prefix ct now pt e' :
  is_bytes ct -> Crypto.receive_data blake2b_keyed e pid prefix ct now = (Some pt, e') ->
  is_bytes pt /\ zlen pt = zlen ct - Crypto.aead_overhead.
Proof.
  intros Hb. unfold Crypto.receive_data, Crypto.packet_decrypt, Crypto.packet_decrypt_grace.
  intros E. repeat (case_match || simplify_option_eq || done); by eapply aead_opens.
Qed.

(** The longest packet whose payload cannot overrun a message slot. *)
Definition MAX_SAFE_PACKET : Z := NETUDP_MTU + 12 + 3 + Crypto.aead_overhead.

Lemma process_ack_fields_tag c now f c' : process_ack_fields c now f = Some c' -> tag c' = tag c.
Proof. unfold process_ack_fields, sample_rtt. intros E. repeat (case_match || simplify_option_eq || done). Qed.
Lemma handle_payload_tag fragments c now pt o :
  handle_payload fragments c now pt = Some o -> tag (outcome_conn o) = tag c.
Proof.
  unfold handle_payload. intros E. case_if_in E; [by simplify_eq|].
  destruct (PacketTracker.read_ack_fields pt 0) as [f|]; [|done]. rewrite Some_bind in E.
  destruct (process_ack_fields c now f) as [c1|] eqn:E1; [|done]. rewrite Some_bind in E.
  destruct (cdata c1) as [d|]; [|done]. rewrite Some_bind in E.
  apply walk_frames_tag in E. apply process_ack_fields_tag in E1. by rewrite E.
Qed.

Lemma ciphertext packet n :
  is_bytes packet -> 0 <= n <= zlen packet ->
  exists ct, mread packet n (zlen packet - n) = Some ct /\ is_bytes ct /\ zlen ct = zlen packet - n.
Proof.
  intros Hb Hl. rewrite mread_Some by lia. eexists. split; [done|].
  split; [by apply Forall_take, Forall_drop|]. unfold zlen in *. rewrite length_take, length_drop. lia.
Qed.
(** The payload of an authentic packet. *)
Lemma payload_keeps fragments c e now pt n :
  wf c -> is_bytes pt -> zlen pt <= NETUDP_MTU + 12 ->
  exists o, handle_payload fragments (note_received (set_key_epoch c e) now n) now pt = Some o /\
    keeps c (outcome_conn o).
Proof.
  intros Hwf Hb Hl. set (c1 := note_received _ _ _). assert (keeps c c1) as [Hw1 Ht1] by by split.
  destruct (handle_payload_ok fragments c1 now pt Hw1 Hb Hl) as (o & Eo & Ho).
  exists o. split; [done|]. split; [done|]. rewrite <- Ht1. by eapply handle_payload_tag.
Qed.

Lemma server_packet_keeps c pid now packet :
  wf c -> is_bytes packet -> zlen packet <= MAX_SAFE_PACKET ->
  exists r, server_packet blake2b_keyed c pid now packet = Some r /\ keeps c (result_conn r).
Proof.
  intros Hwf Hb Hl. unfold server_packet. case_if; [by eexists|].
  destruct (byte_in packet 0 Hb ltac:(lia)) as (prefix & -> & _). rewrite Some_bind.
  destruct (ciphertext packet 3 Hb ltac:(lia)) as (ct & -> & Hct & Hctl). rewrite Some_bind.
  destruct (Crypto.receive_data _ _ _ _ _ _) as [[pt|] e] eqn:Er; [|by eexists].
  destruct (receive_data_opens _ _ _ _ _ _ _ Hct Er) as [Hpt Hptl].
  destruct (payload_keeps true c e now pt (zlen packet)) as (o & -> & Ho);
    [done|done|unfold MAX_SAFE_PACKET in Hl; lia|].
  rewrite Some_bind. by eexists.
Qed.

(** *** Sending *)

Lemma transmit_tag side now s b s' : transmit side now s = Some (b, s') -> tag (s_conn s') = tag (s_conn s).
Proof.
  unfold transmit, guard_ub. intros E. repeat (case_match || simplify_option_eq || done).
Qed.
Lemma next_tag side now s : tag (s_conn (snd (next side now s))) = tag (s_conn s).
Proof. unfold next. repeat case_match; done. Qed.
Lemma start_packet_tag now s s' : start_packet now s = Some s' -> s_conn s' = s_conn s.
Proof. unfold start_packet. intros E. repeat (case_match || simplify_option_eq || done). Qed.
Lemma make_room_tag side now n s v s' : make_room side now n s = Some (v, s') -> tag (s_conn s') = tag (s_conn s).
Proof.
  unfold make_room. intros E. case_if_in E; [|by simplify_eq].
  destruct (transmit side now s) as [[ok s1]|] eqn:E1; [|done]. rewrite Some_bind in E.
  apply transmit_tag in E1. destruct ok; cbn [negb] in E; [|by injection E as <- <-]. destruct (Bandwidth.can_send _); cbn [negb] in E; [|by injection E as <- <-].
  destruct (start_packet now s1) as [s2|] eqn:E2; [|done]. rewrite Some_bind in E.
  apply start_packet_tag in E2. injection E as <- <-. by rewrite E2.
Qed.
Lemma write_message_conn now i ty q s b s' : write_message now i ty q s = Some (b, s') -> s_conn s' = s_conn s.
Proof. unfold write_message. intros E. repeat (case_match || simplify_option_eq || done). Qed.
Lemma send_step_tag side now st :
  match send_step side now st with
  | inl st' => tag (s_conn st'.2) = tag (s_conn st.2)
  | inr (Some (_, s)) => tag (s_conn s) = tag (s_conn st.2)
  | inr None => True
  end.
Proof.
  destruct st as [i s]. unfold send_step. case_if; [done|]. destruct (ch (s_data s) i) as [x|]; [|done].
  destruct (Channel.dequeue_send x) as [[q|] x']; cbv zeta; [|by rewrite next_tag].
  destruct (make_room _ _ _ _) as [[v s1]|] eqn:E1; [|done]. apply make_room_tag in E1.
  destruct v; [|done..].
  destruct (write_message _ _ _ _ _) as [[b s2]|] eqn:E2; [|done]. apply write_message_conn in E2.
  destruct b; [rewrite next_tag|]; rewrite E2; exact E1.
Qed.
Lemma send_pending_tag side now c c' pkts : send_pending side now c = Some (c', pkts) -> tag c' = tag c.
Proof.
  unfold send_pending. intros E. case_if_in E; [by simplify_eq|].
  destruct (cdata c) as [d|]; [|done]. rewrite Some_bind in E.
  destruct (start_packet _ _) as [s|] eqn:Es; [|done]. rewrite Some_bind in E. apply start_packet_tag in Es.
  destruct (loop _ _ _) as [|r] eqn:El; [done|].
  assert (match r with Some (_, s') => tag (s_conn s') = tag c | None => True end) as Hr.
  { refine (loop_inv _ (fun st => tag (s_conn st.2) = tag c) (fun r => match r with
      Some (_, s') => tag (s_conn s') = tag c | None => True end) _ _ _ _ _ El).
    - intros st Hst. pose proof (send_step_tag side now st) as H1.
      destruct (send_step side now st) as [|[[]|]]; [congruence..|done].
    - by rewrite next_tag, Es. }
  destruct r as [[b s']|]; [|done]. rewrite Some_bind in E. case_if_in E.
  - destruct (transmit side now s') as [[b' s'']|] eqn:E2; [|done]. rewrite Some_bind in E.
    apply transmit_tag in E2. injection E as <- <-. rewrite <- Hr. by rewrite <- E2.
  - injection E as <- <-. by rewrite <- Hr.
Qed.

Lemma server_send_pending_keeps pid c now :
  wf c -> exists c' pkts, server_send_pending blake2b_keyed pid c now = Some (c', pkts) /\ keeps c c'.
Proof.
  intros Hwf. pose proof Hwf as (_ & _ & d & Hd & _). pose proof (server_side_ok blake2b_keyed pid aead_small).
  destruct (send_pending_sends (server_side blake2b_keyed pid) now c d Hwf Hd)
    as (c' & pkts & d' & out & ms & lost & E & Hs).
  exists c', pkts. split; [exact E|]. split; [apply Hs|]. by eapply send_pending_tag.
Qed.

Lemma write_ack_ok f buf pos :
  0 <= pos -> pos + 8 <= zlen buf ->
  exists buf', PacketTracker.write_ack_fields f buf pos = Some (8, buf') /\ zlen buf' = zlen buf.
Proof.
  intros H1 H2. unfold PacketTracker.write_ack_fields.
  rewrite !mwrite_chain by (zlen_simpl; simpl; lia). set (d := (_ ++ _) ++ _).
  assert (zlen d = 8) as Hd by (unfold d; zlen_simpl; lia).
  destruct (mwrite buf pos d) as [b|] eqn:E.
  - exists b. split; [done|]. by apply mwrite_zlen in E.
  - rewrite mwrite_Some in E by lia. done.
Qed.
Lemma encrypt_ok e pid prefix pt :
  exists ct e', Crypto.packet_encrypt e pid prefix pt = (Some ct, e') /\ zlen ct <= zlen pt + 16.
Proof.
  unfold Crypto.packet_encrypt.
  destruct (Crypto.aead_correct (Crypto.tx_key e) (Crypto.build_nonce (Crypto.tx_nonce_counter e))
    (Crypto.build_aad pid prefix) pt) as (ct & -> & Hl & _). eexists _, _. split; [done|].
  pose proof aead_small. lia.
Qed.

Lemma send_keepalive_keeps side note pid c now :
  wf c -> exists c' pkts,
    send_keepalive side now (fun e pt => Crypto.packet_encrypt e pid 21 pt) note c = Some (c', pkts) /\ keeps c c'.
Proof.
  intros (Hn & Ht & Hd). unfold send_keepalive.
  destruct (write_ack_ok (PacketTracker.build_ack_fields (packet_tracker c) now) (replicate 8 0) 0)
    as (buf & -> & Hl); [done|done|]. rewrite Some_bind. rewrite zlen_replicate in Hl.
  set (c1 := set_packet_tracker _ _). assert (wf c1) as Hw1 by (split_and!; [done|by apply send_packet_wf|done]).
  destruct (encrypt_ok (key_epoch c1) pid 21 buf) as (ct & e' & -> & Hct).
  case_if; [by eexists _, _|]. unfold guard_ub. rewrite (proj2 (Z.leb_le (zlen ct) 64)) by lia.
  rewrite Some_bind. destruct note; by eexists _, _.
Qed.

Lemma cleanup_fragments_keeps c time : wf c -> keeps c (cleanup_fragments c time).
Proof.
  intros (Hn & Ht & d & Hd & Hwd). unfold cleanup_fragments. rewrite Hd. split; [|done].
  split; [done|]. split; [done|]. eexists. split; [done|]. pose proof Hwd as (_ & _ & _ & _ & Hf & Hs & _).
  destruct (Fragment.cleanup_wf _ _ time Hf Hs). by apply set_frag_wf.
Qed.
Lemma keeps_trans c1 c2 c3 : keeps c1 c2 -> keeps c2 c3 -> keeps c1 c3.
Proof. intros [_ E1] [Hw E2]. split; [done|congruence]. Qed.
Lemma keeps_refl c : wf c -> keeps c c.
Proof. by split. Qed.

Lemma slow_tick_keeps c time : wf c -> keeps c (slow_tick c time).
Proof.
  intros Hwf. unfold slow_tick. case_if; [|by apply keeps_refl]. set (c1 := set_stats _ _).
  assert (keeps c c1) as H1 by by split.
  assert (keeps c1 (cleanup_fragments c1 time)) as [H2 H3] by (apply cleanup_fragments_keeps, H1).
  eapply keeps_trans; [exact H1|]. by split.
Qed.

Lemma update_connection_keeps pid c time dt :
  wf c -> exists c' pkts, update_connection blake2b_keyed pid c time dt = Some (c', pkts) /\ keeps c c'.
Proof.
  intros Hwf. unfold update_connection. case_if; [eexists _, _; split; [done|]; by apply slow_tick_keeps|].
  set (c1 := set_budget _ _). assert (keeps c c1) as H1 by by split.
  destruct (server_send_pending_keeps pid c1 time) as (c2 & pkts & -> & H2); [apply H1|]. rewrite Some_bind.
  assert (exists c3 keep,
    (if dgt (dsub time (last_send_time c)) (d_of_Z 1) then server_send_keepalive blake2b_keyed pid c2 time
     else Some (c2, [])) = Some (c3, keep) /\ keeps c2 c3) as (c3 & keep & -> & H3).
  { case_if; [apply send_keepalive_keeps, H2|]. eexists _, _. split; [done|]. apply keeps_refl, H2. }
  rewrite Some_bind. eexists _, _. split; [done|].
  eapply keeps_trans; [exact H1|]. eapply keeps_trans; [exact H2|]. eapply keeps_trans; [exact H3|].
  apply slow_tick_keeps, H3.
Qed.
End Aead.

(** ** Opening a connection *)

(** The part of [data_wf] that does not depend on allocation. *)
Definition base_wf (d : ConnectionData) : Prop :=
  length (channels d) = 4%nat /\ length (reliable_state d) = 4%nat /\
  Forall Channel.wf (channels d) /\
  Forall (fun r => zlen (Reliable.recv_buffer_ r) = Reliable.RELIABLE_BUFFER_SIZE) (reliable_state d).

Lemma init_channels_ok n : forall i configs d,
  base_wf d -> 0 <= i -> i + Z.of_nat n <= 4 -> i + Z.of_nat n <= zlen configs ->
  exists d', init_channels n i configs d = Some d' /\ base_wf d' /\
    fragment_reassembler d' = fragment_reassembler d /\ delivered_messages d' = delivered_messages d.
Proof.
  induction n as [|n IH]; intros i configs d (H1 & H2 & H3 & H4) Hi H5 H6; [by exists d|].
  cbn [init_channels]. unfold ch. rewrite (oget_aget (channels d)), Some_bind by (unfold zlen; lia).
  destruct (lookup_lt_is_Some_2 configs (Z.to_nat i)) as [cfg Hcfg]; [unfold zlen in H6; lia|].
  unfold oget. rewrite (proj2 (Z.leb_le 0 i)), Hcfg, Some_bind by lia.
  set (d1 := set_rs _ _ _).
  destruct (IH (i + 1) configs d1) as (d' & -> & Hd' & E1 & E2); [|lia..|by exists d'].
  assert (Channel.wf (Channel.init (channels d).[i] i cfg)) as Hi'.
  { apply Channel.init_refines. assert (Channel.wf (channels d).[i]) as Hc; [|apply Hc].
    eapply Forall_lookup_1; [exact H3|]. apply lookup_aget. unfold zlen. lia. }
  split_and!; cbn; rewrite ?length_aset; try done; unfold aset; by apply Forall_insert.
Qed.

Lemma init_subsystems_ok c falloc configs n time :
  (forall i, exists b, falloc i = Some b /\ zlen b = NETUDP_MAX_MESSAGE_SIZE) -> 4 <= zlen configs ->
  exists c', init_subsystems c (Some falloc) configs n time = Some c' /\ wf c' /\ tag c' = tag c /\
    key_epoch c' = key_epoch c /\ num_channels c' = Z.min 4 n.
Proof.
  intros Ha Hc. unfold init_subsystems. set (m := if _ <? n then _ else n).
  assert (m <= 4) as Hm by (unfold m, MAX_CHANNELS_PER_CONNECTION; case_if; lia).
  pose proof fresh_data_wf as (F1 & F2 & F3 & F4 & F5).
  destruct (init_channels_ok (Z.to_nat m) 0 configs fresh_data) as (d & -> & Hd & E1 & E2);
    [by split_and!|lia..|]. rewrite Some_bind.
  destruct (Fragment.init_wf falloc (fragment_reassembler d) NETUDP_MAX_MESSAGE_SIZE) as [Hf Hs].
  { by rewrite E1. }
  { rewrite E1. apply Forall_replicate. by split. }
  { exact Ha. }
  eexists. split; [done|]. split; [|split; [done|split; [done|]]].
  2: { cbn [num_channels]. unfold m, MAX_CHANNELS_PER_CONNECTION. case_if; cbn; lia. }
  split; [exact Hm|]. split; [by vm_compute|].
  eexists. split; [done|]. destruct Hd as (D1 & D2 & D3 & D4).
  split_and!; try done. cbn [set_delivered set_frag delivered_messages].
  apply (RingBuffer.clear_wf DELIVERED_SIZE delivered_pow2). by rewrite E2.
Qed.

End ConnSafety.
