(* ===== verification/ServerSafety.v ===== *)
(** Memory safety of the server (src/src/server.cpp): whatever the application calls
    and whatever arrives from the network, within the limits stated, the server
    stays inside its objects and keeps its tables consistent.

    First the invariant of the server, then that every call keeps it. *)

From stdpp Require Import gmap.
From S2P Require Import Prelude Bytes Double RingBuffer HashMap Replay PacketTracker ReliableChannel Channel.
From S2P Require Import Fragment Address Rtt Bandwidth Ddos Stats RateLimiter PacketCrypto ConnectToken.
From S2P Require Import Connection Receive Send IndexSet Group Slots Server ConnSafety.

Module ServerSafety.
Import Address Connection Receive Send Server ConnSafety.

(** * The invariant *)

(** The connections of the active slots [act] are active and well formed; the keys of
    the others are wiped. *)
Record conns_wf (n : Z) (act : list Z) (cs : list Connection) : Prop := {
  cw_len : zlen cs = n;
  cw_active : forall i, 0 <= i < n -> active cs.[i] = true <-> i ∈ act;
  cw_wf : forall i, i ∈ act -> wf cs.[i];
  cw_idle : forall i, 0 <= i < n -> i ∉ act -> key_epoch cs.[i] = Crypto.epoch_zero }.

(** An address in the table is that of the client in the slot it leads to. *)
Record table_wf (act : list Z) (cs : list Connection) (t : hash_map bytes Z) : Prop := {
  tw_map : FixedHashMap.wf ADDRESSES fnv1a t;
  tw_entry : forall k slot, FixedHashMap.to_map t !! k = Some slot ->
    slot ∈ act /\ address_key (peer cs.[slot]) = k }.

(** The members of a group are connected clients. *)
Definition group_in (n : Z) (act : list Z) (g : Group.Group) : Prop :=
  if Group.active g then Group.wf n g /\ (forall x, x ∈ Group.member_list g -> x ∈ act) else g = Group.empty.

(** The stack holds the numbers of the unused groups. *)
Record groups_wf (n : Z) (act : list Z) (gs : list Group.Group) (mg : Z) (stack : list Z) (count : Z) : Prop := {
  gw_len : zlen gs = mg /\ zlen stack = mg;
  gw_group : Forall (group_in n act) gs;
  gw_count : 0 <= count <= mg;
  gw_nodup : NoDup (take (Z.to_nat count) stack);
  gw_free : forall x, x ∈ take (Z.to_nat count) stack <->
    0 <= x /\ (Group.active <$> gs) !! Z.to_nat x = Some false }.

Record server_wf (s : Server) : Prop := {
  sw_clients : 0 < max_clients s;
  sw_slots : Slots.wf (max_clients s) (sl s);
  sw_conns : conns_wf (max_clients s) (Slots.actives (sl s)) (connections s);
  sw_table : table_wf (Slots.actives (sl s)) (connections s) (address_to_slot s);
  sw_groups : groups_wf (max_clients s) (Slots.actives (sl s)) (groups s) (max_groups s)
                (group_free_stack s) (group_free_count s);
  sw_pacing : 0 <= pacing_current_slice s;
  sw_prints : FixedHashMap.wf FINGERPRINTS fp_hash (fingerprint_map s);
  sw_limiter : FixedHashMap.wf RateLimiter.CAPACITY fnv1a (limiter s) }.

Lemma active_slot s slot : server_wf s -> slot ∈ Slots.actives (sl s) -> 0 <= slot < max_clients s.
Proof. intros Hs. apply Slots.active_range, Hs. Qed.
Lemma conn_at s slot :
  server_wf s -> 0 <= slot < max_clients s -> conn s slot = Some (connections s).[slot].
Proof. intros Hs Hr. unfold conn. apply oget_aget. by rewrite (cw_len _ _ _ (sw_conns _ Hs)). Qed.

(** ** Traffic on one connection *)

Lemma conns_set n act cs slot c :
  (forall i, i ∈ act -> 0 <= i < n) ->
  conns_wf n act cs -> slot ∈ act -> keeps cs.[slot] c -> conns_wf n act (aset cs slot c).
Proof.
  intros Hact [Hl Ha Hw Hid] Hin [Hc Ht]. pose proof (Hact _ Hin). split.
  - by rewrite zlen_aset.
  - intros i Hi. rewrite aget_aset by lia. case_decide; [subst|by apply Ha].
    rewrite <- Ha by done. assert (active c = active cs.[i]) as -> by (unfold tag in Ht; congruence). done.
  - intros i Hi. pose proof (Hact _ Hi). rewrite aget_aset by lia. case_decide; [done|by apply Hw].
  - intros i Hi Hn. rewrite aget_aset_ne; [by apply Hid|lia|lia|by intros ->].
Qed.
Lemma table_set act cs t slot c :
  (forall i, i ∈ act -> 0 <= i < zlen cs) -> slot ∈ act -> peer c = peer cs.[slot] ->
  table_wf act cs t -> table_wf act (aset cs slot c) t.
Proof.
  intros Hact Hin Hp [Hm He]. split; [done|]. intros k x Hk. destruct (He k x Hk) as [H1 H2]. split; [done|].
  pose proof (Hact _ Hin). pose proof (Hact _ H1).
  rewrite aget_aset by lia. case_decide; [|done]. subst x. by rewrite Hp.
Qed.
Lemma set_conn_wf s slot c :
  server_wf s -> slot ∈ Slots.actives (sl s) -> keeps (connections s).[slot] c -> server_wf (set_conn s slot c).
Proof.
  intros Hs Hin Hk. pose proof (active_slot s slot Hs Hin) as Hr. pose proof Hs as [H1 H2 H3 H4 H5 H6 H7 H8].
  split; try done; cbn.
  - apply conns_set; try done. intros i Hi. by apply (active_slot s).
  - apply table_set; [|done| |done]; [intros i Hi; rewrite (cw_len _ _ _ H3); by apply (active_slot s)|]. destruct Hk as [_ Ht]. unfold tag in Ht. congruence.
Qed.

(** ** Dropping a client *)

(** [act'] is [act] without [slot]. *)
Definition without (act act' : list Z) (slot : Z) : Prop := forall y, y ∈ act' <-> y ∈ act /\ y <> slot.

Lemma remove_from_groups_ok n act act' slot gs :
  slot < n -> without act act' slot -> Forall (group_in n act) gs ->
  exists gs', remove_from_groups gs slot = Some gs' /\ Forall (group_in n act') gs' /\
    Group.active <$> gs' = Group.active <$> gs.
Proof.
  intros Hs Hw. induction 1 as [|g gs Hg _ IH]; [by exists []|]. cbn [remove_from_groups].
  destruct IH as (gs' & E & Hgs & Ha). unfold group_in in Hg. destruct (Group.active g) eqn:Eg.
  - destruct Hg as [Hg Hm]. destruct (Group.group_remove_spec n g slot Hg Hs) as (g' & -> & Hg' & _ & Ha' & Hm').
    rewrite !Some_bind, E, Some_bind. eexists. split; [done|]. cbn [fmap list_fmap]. rewrite Ha, Ha', Eg.
    split; [|done]. constructor; [|done]. unfold group_in. rewrite Ha', Eg. split; [done|].
    intros x Hx. apply Hm' in Hx as [Hx Hne]. apply Hw. split; [by apply Hm|done].
  - rewrite Some_bind, E, Some_bind. eexists. split; [done|]. cbn [fmap list_fmap]. rewrite Ha. split; [|done].
    constructor; [|done]. unfold group_in. by rewrite Eg.
Qed.

Lemma addresses_pow2 : exists k, 0 <= k /\ ADDRESSES = 2 ^ k.
Proof. by exists 12. Qed.
Lemma table_remove act act' cs t slot :
  without act act' slot -> table_wf act cs t ->
  exists b t', FixedHashMap.remove ADDRESSES fnv1a (address_key (peer cs.[slot])) t = Some (b, t') /\
    table_wf act' cs t'.
Proof.
  intros Hw [Hm He]. destruct (FixedHashMap.remove_spec ADDRESSES fnv1a addresses_pow2 t
    (address_key (peer cs.[slot])) Hm) as (t' & -> & Ht' & Em).
  eexists _, t'. split; [done|]. split; [done|]. intros k x. rewrite Em, lookup_delete_Some. intros [Hne Hk].
  destruct (He k x Hk) as [H1 H2]. split; [|done]. apply Hw. split; [done|]. intros ->. by apply Hne.
Qed.
Lemma conns_reset n act act' cs slot :
  (forall i, i ∈ act -> 0 <= i < n) -> slot ∈ act -> without act act' slot ->
  conns_wf n act cs -> conns_wf n act' (aset cs slot (reset cs.[slot])).
Proof.
  intros Hact Hin Hw [Hl Ha Hwf Hid]. pose proof (Hact _ Hin). split.
  - by rewrite zlen_aset.
  - intros i Hi. pose proof (Hw i) as Hwi. pose proof (Ha i Hi) as Hai. rewrite aget_aset by lia.
    case_decide; [subst; cbn; split; [done|]; intros Hx; apply Hwi in Hx; tauto|]. rewrite Hai, Hwi. split; [|by intros []]. by split.
  - intros i Hi. apply Hw in Hi as [Hi Hne]. pose proof (Hact _ Hi). rewrite aget_aset_ne by lia. by apply Hwf.
  - intros i Hi Hn. rewrite aget_aset by lia. case_decide; [done|]. apply Hid; [done|].
    intros Hi'. apply Hn, Hw. by split.
Qed.
Lemma table_other act cs t slot c :
  (forall i, i ∈ act -> 0 <= i < zlen cs) -> slot ∉ act -> 0 <= slot ->
  table_wf act cs t -> table_wf act (aset cs slot c) t.
Proof.
  intros Hact Hin H0 [Hm He]. split; [done|]. intros k x Hk. destruct (He k x Hk) as [H1 H2]. split; [done|].
  pose proof (Hact _ H1). rewrite aget_aset by lia. case_decide; [by subst|done].
Qed.

Lemma server_deactivate_slot_ok s slot :
  Slots.wf (max_clients s) (sl s) -> 0 <= max_clients s -> slot ∈ Slots.actives (sl s) ->
  groups_wf (max_clients s) (Slots.actives (sl s)) (groups s) (max_groups s) (group_free_stack s) (group_free_count s) ->
  exists l gs, server_deactivate_slot s slot = Some (set_groups (set_sl s l) gs) /\
    Slots.wf (max_clients s) l /\ without (Slots.actives (sl s)) (Slots.actives l) slot /\
    groups_wf (max_clients s) (Slots.actives l) gs (max_groups s) (group_free_stack s) (group_free_count s).
Proof.
  intros Hsl Hm Hin [[G1 G2] G3 G4 G5 G6]. pose proof (Slots.active_range _ _ _ Hsl Hin) as Hr.
  pose proof Hsl as [Ha (_ & Hp & _) _ _ _]. unfold server_deactivate_slot.
  rewrite (oget_aget (IndexSet.pos _)), Some_bind by lia.
  apply (IndexSet.member_pos _ _ Ha) in Hin as [_ H0]. rewrite (proj2 (Z.ltb_ge _ _)) by lia.
  destruct (Slots.deactivate_spec _ _ slot Hm Hsl Hr) as (l & -> & Hl & Hw). rewrite Some_bind.
  destruct (remove_from_groups_ok _ _ (Slots.actives l) slot _ (proj2 Hr) Hw G3) as (gs & -> & Hgs & Eg).
  rewrite Some_bind. exists l, gs. split; [done|]. split; [done|]. split; [done|]. split; try done.
  - split; [|done]. rewrite <- G1. unfold zlen. f_equal. apply (f_equal length) in Eg. by rewrite !length_fmap in Eg.
  - by rewrite Eg.
Qed.

Lemma drop_client_ok s slot reason :
  server_wf s -> slot ∈ Slots.actives (sl s) ->
  exists s', drop_client s slot reason = Some s' /\ server_wf s' /\
    without (Slots.actives (sl s)) (Slots.actives (sl s')) slot.
Proof.
  intros Hs Hin. pose proof (active_slot s slot Hs Hin) as Hr. pose proof Hs as [H1 H2 H3 H4 H5 H6 H7 H8].
  unfold drop_client. change (conn (emit s _) slot) with (conn s slot).
  rewrite (conn_at s slot Hs Hr), Some_bind.
  destruct (FixedHashMap.remove_spec ADDRESSES fnv1a addresses_pow2 (address_to_slot s)
    (address_key (peer (connections s).[slot])) (tw_map _ _ _ H4)) as (t & Et & _).
  change (address_to_slot (emit s _)) with (address_to_slot s). rewrite Et, Some_bind.
  set (s1 := set_address_to_slot _ _).
  destruct (server_deactivate_slot_ok s1 slot) as (l & gs & -> & Hl & Hw & Hg); [done|cbn; lia|done|done|].
  rewrite Some_bind. eexists. split; [done|]. split; [|done]. split; try done; cbn in *.
  - apply (conns_reset _ (Slots.actives (sl s))); try done. intros i Hi. by apply (active_slot s).
  - apply table_other.
    + intros i Hi. apply Hw in Hi as [Hi _]. rewrite (cw_len _ _ _ H3). by apply (active_slot s).
    + intros Hi. by apply Hw in Hi as [_ ?].
    + lia.
    + destruct (table_remove _ _ _ _ _ Hw H4) as (b & t' & E & Ht'). congruence.
Qed.

(** ** Accepting a client *)

Lemma groups_grow n act act' gs mg stack count :
  (forall x, x ∈ act -> x ∈ act') -> groups_wf n act gs mg stack count -> groups_wf n act' gs mg stack count.
Proof.
  intros Hsub [G1 G2 G3 G4 G5]. split; try done. eapply Forall_impl; [|exact G2]. intros g. unfold group_in.
  destruct (Group.active g); [|done]. intros [Hw Hm]. split; [done|]. intros x Hx. by apply Hsub, Hm.
Qed.
Lemma conns_open n act cs slot c :
  (forall i, i ∈ act -> 0 <= i < n) -> slot ∉ act -> 0 <= slot < n -> wf c -> active c = true ->
  conns_wf n act cs -> conns_wf n (act ++ [slot]) (aset cs slot c).
Proof.
  intros Hact Hnew Hr Hc Ha [Hl Hca Hwf Hid]. split.
  - by rewrite zlen_aset.
  - intros i Hi. rewrite aget_aset, elem_of_app, list_elem_of_singleton by lia.
    case_decide; [subst; rewrite Ha; tauto|]. rewrite Hca by done. split; [by left|]. by intros [?| ->].
  - intros i [Hi|Hi]%elem_of_app.
    + pose proof (Hact i Hi). rewrite aget_aset by lia. case_decide; [done|]. by apply Hwf.
    + apply list_elem_of_singleton in Hi as ->. by rewrite aget_aset_eq by lia.
  - intros i Hi Hn. rewrite elem_of_app, list_elem_of_singleton in Hn. rewrite aget_aset_ne; [|lia|lia|intros ->; tauto].
    apply Hid; [done|tauto].
Qed.
Lemma table_insert act cs t slot c :
  (forall i, i ∈ act -> 0 <= i < zlen cs) -> slot ∉ act -> 0 <= slot < zlen cs ->
  table_wf act cs t ->
  table_wf (act ++ [slot]) (aset cs slot c)
    (snd (FixedHashMap.insert ADDRESSES fnv1a (address_key (peer c)) slot t)).
Proof.
  intros Hact Hnew Hr Ht. pose proof (table_other act cs t slot c Hact Hnew ltac:(lia) Ht) as [Hm He].
  assert (forall k x, FixedHashMap.to_map t !! k = Some x ->
    x ∈ act ++ [slot] /\ address_key (peer (aset cs slot c).[x]) = k) as He'.
  { intros k x Hk. destruct (He k x Hk). split; [|done]. apply elem_of_app. by left. }
  destruct (FixedHashMap.insert_cases ADDRESSES fnv1a addresses_pow2 t (address_key (peer c)) slot Hm)
    as [Ht' [Em|(-> & _)]]; [|by split].
  split; [done|]. intros k x. rewrite Em. destruct (decide (address_key (peer c) = k)) as [<-|Hne].
  - rewrite lookup_insert_eq. intros [= <-]. rewrite aget_aset_eq by lia. split; [|done].
    apply elem_of_app. right. by apply list_elem_of_singleton.
  - rewrite lookup_insert_ne by done. apply He'.
Qed.

(** * Every call keeps the invariant *)

Section Calls.
Context `{Crypto.Aead} `{!AeadBytes} (blake2b_keyed blake2b_keyed_64 : bytes -> bytes -> bytes)
        (crypto_aead_unlock : bytes -> bytes -> bytes -> bytes -> bytes -> option bytes)
        (falloc : Z -> option bytes).
Context (unlock_len : forall key nonce aad mac ct pt,
           crypto_aead_unlock key nonce aad mac ct = Some pt -> length pt = length ct)
        (falloc_ok : forall i, exists b, falloc i = Some b /\ zlen b = NETUDP_MAX_MESSAGE_SIZE).

(** A token that was used once stays bound to the address it came from. *)
Definition fp_kept (m m' : hash_map Z FingerprintValue) : Prop :=
  forall k v, FixedHashMap.to_map m !! k = Some v ->
    exists v', FixedHashMap.to_map m' !! k = Some v' /\
      netudp_address_equal (fp_address v) (fp_address v') = true.
Lemma fp_kept_refl m : fp_kept m m.
Proof. intros k v Hk. exists v. split; [done|]. apply Token.address_equal_refl. Qed.
Lemma fp_kept_trans m1 m2 m3 : fp_kept m1 m2 -> fp_kept m2 m3 -> fp_kept m1 m3.
Proof.
  intros H1 H2 k v Hk. destruct (H1 k v Hk) as (v' & Hk' & E1). destruct (H2 k v' Hk') as (v'' & Hk'' & E2).
  exists v''. split; [done|]. by eapply address_equal_trans.
Qed.
#[local] Hint Resolve fp_kept_refl : core.

(** What calls keep: the configuration, and the fingerprints of used tokens. *)
Definition same_setup (s s' : Server) : Prop :=
  cfg s' = cfg s /\ max_clients s' = max_clients s /\ running s' = running s /\ max_groups s' = max_groups s /\
  fp_kept (fingerprint_map s) (fingerprint_map s').
(** A call that returns, in a server that is well formed again. *)
Definition good (s s' : Server) : Prop := server_wf s' /\ same_setup s s'.

Lemma good_trans s1 s2 s3 : good s1 s2 -> good s2 s3 -> good s1 s3.
Proof.
  intros [_ (A1 & A2 & A3 & A4 & A5)] [Hw (B1 & B2 & B3 & B4 & B5)]. split; [done|].
  split_and!; [congruence..|by eapply fp_kept_trans].
Qed.
Lemma good_refl s : server_wf s -> good s s.
Proof. done. Qed.
Lemma good_set_conn s slot c :
  server_wf s -> slot ∈ Slots.actives (sl s) -> keeps (connections s).[slot] c -> good s (set_conn s slot c).
Proof. intros Hs Hin Hk. split; [by apply set_conn_wf|done]. Qed.
Lemma good_emit s l : server_wf s -> good s (emit s l).
Proof. intros [? ? ? ? ? ? ?]. by split. Qed.
Lemma good_bad_packet s : server_wf s -> good s (bad_packet s).
Proof. intros [? ? ? ? ? ? ?]. by split. Qed.

Lemma good_drop s slot reason :
  server_wf s -> slot ∈ Slots.actives (sl s) ->
  exists s', drop_client s slot reason = Some s' /\ good s s' /\
    without (Slots.actives (sl s)) (Slots.actives (sl s')) slot.
Proof.
  intros Hs Hin. destruct (drop_client_ok s slot reason Hs Hin) as (s' & E & Hs' & Hw).
  exists s'. split; [done|]. split; [|done]. split; [done|]. unfold drop_client, server_deactivate_slot in E.
  repeat (case_match || simplify_option_eq || done).
Qed.

Lemma good_limiter s from t :
  server_wf s -> good s (set_limiter s (snd (RateLimiter.allow (limiter s) from t))).
Proof.
  intros Hs. split; [|done]. pose proof (RateLimiter.allow_wf _ from t (sw_limiter _ Hs)).
  by destruct Hs; split.
Qed.

Lemma send_accepted_keeps s c slot :
  wf c -> exists c' pkts, send_accepted s c slot = Some (c', pkts) /\ keeps c c'.
Proof.
  intros Hwf. pose proof Hwf as (Hn & Ht & Hd). unfold send_accepted.
  rewrite mwrite_Some, Some_bind by (rewrite ?zlen_le_bytes; done). set (p1 := take _ _ ++ _).
  assert (zlen p1 = 14) as E1 by (unfold p1, zlen; by rewrite !length_app, length_le_bytes).
  rewrite mwrite_Some, Some_bind by (rewrite ?zlen_le_bytes; lia). set (p2 := take _ p1 ++ _).
  assert (zlen p2 = 14) as E2.
  { unfold p2, zlen in *. rewrite !length_app, length_take, length_drop, length_le_bytes. lia. }
  destruct (write_ack_ok (PacketTracker.build_ack_fields (packet_tracker c) (current_time s)) p2 6)
    as (p3 & -> & E3); [lia..|]. rewrite Some_bind.
  set (c1 := set_packet_tracker _ _). assert (wf c1) as Hw1 by (split_and!; [done|by apply send_packet_wf|done]).
  destruct (encrypt_ok (key_epoch c1) (protocol_id (cfg s)) 21 p3) as (ct & e' & -> & Hct).
  case_if; [by eexists _, _|]. unfold guard_ub. rewrite (proj2 (Z.leb_le (zlen ct) 64)) by lia.
  rewrite Some_bind. by eexists _, _.
Qed.

Lemma open_connection_ok s c slot from priv :
  4 <= zlen (cfg_channels (cfg s)) ->
  exists c', open_connection (Some falloc) s c slot from priv = Some c' /\ wf c' /\
    tag c' = (true, from, Token.client_id priv, u16 slot).
Proof.
  intros Hc. unfold open_connection. set (c0 := set_timeout_seconds _ _).
  destruct (init_subsystems_ok c0 falloc (cfg_channels (cfg s)) (cfg_num_channels (cfg s)) (current_time s)
    falloc_ok Hc) as (c' & -> & Hw & Ht & _). by exists c'.
Qed.

Lemma accept_client_ok s from priv :
  4 <= zlen (cfg_channels (cfg s)) -> server_wf s ->
  exists s', accept_client (Some falloc) s from priv = Some s' /\ good s s'.
Proof.
  intros Hc Hs. pose proof Hs as [H1 H2 H3 H4 H5 H6 H7 H8]. unfold accept_client.
  destruct (Slots.allocate_spec (max_clients s) (sl s) ltac:(lia) H2) as (r & l & -> & Hl & Hr).
  rewrite Some_bind. destruct r as [slot|]; [|by exists s]. destruct Hr as (Hr & Hnew & Ea & _).
  change (conn (set_sl s l) slot) with (conn s slot). rewrite (conn_at s slot Hs Hr), Some_bind.
  set (s1 := set_address_to_slot _ _).
  destruct (open_connection_ok s1 (connections s).[slot] slot from priv Hc) as (c & -> & Hwc & Htc).
  rewrite Some_bind.
  set (s2 := emit _ _). assert (good s s2) as G2.
  { split; [|done]. split; try done; unfold s2, s1; cbn.
    - rewrite Ea. apply conns_open; try done; [intros i Hi; by apply (active_slot s)|]. unfold tag in Htc. congruence.
    - rewrite Ea. assert (peer c = from) as <- by (unfold tag in Htc; congruence).
      apply table_insert; try done; rewrite (cw_len _ _ _ H3); [intros i Hi; by apply (active_slot s)|done].
    - eapply groups_grow; [|exact H5]. intros x Hx. rewrite Ea. apply elem_of_app. by left. }
  destruct (send_accepted_keeps s2 c slot Hwc) as (c' & pkts & -> & Hk). rewrite Some_bind.
  eexists. split; [done|].
  assert (good s2 (set_conn s2 slot c')) as G3.
  { apply good_set_conn; [apply G2| |].
    - unfold s2, s1. cbn. rewrite Ea. apply elem_of_app. right. by apply list_elem_of_singleton.
    - unfold s2, s1. cbn. by rewrite aget_aset_eq by (rewrite (cw_len _ _ _ H3); lia). }
  eapply good_trans; [exact G2|]. eapply good_trans; [exact G3|]. apply good_emit, G3.
Qed.
(** ** Packets *)

Lemma request_token_ok s packet : exists r, request_token crypto_aead_unlock s packet = Some r.
Proof.
  unfold request_token, mread_u. change (Z.of_nat 8) with 8. case_if; [by eexists|].
  destruct (Token.mread_safe packet 1 13) as (? & -> & _); [lia..|]. rewrite Some_bind. case_if; [by eexists|].
  destruct (Token.mread_safe packet 14 8) as (? & -> & _); [lia..|]. cbn [fmap option_fmap option_map].
  rewrite Some_bind. case_if; [by eexists|].
  destruct (Token.mread_safe packet 22 8) as (? & -> & _); [lia..|]. cbn [fmap option_fmap option_map].
  rewrite Some_bind. case_if; [by eexists|]. rewrite !Some_bind.
  destruct (Token.mread_safe packet 30 24) as (nonce & -> & _); [lia..|]. rewrite Some_bind.
  unfold Token.TOKEN_PRIVATE_ENCRYPTED_SIZE.
  destruct (Token.mread_safe packet 54 1024) as (enc & -> & Henc); [lia..|]. rewrite Some_bind.
  destruct (Crypto.xchacha_decrypt _ _ _ _ _) as [plain|] eqn:Ed; [|by eexists].
  destruct (Token.deserialize_safe plain) as [[e|priv] ->]; [|by eexists..].
  unfold Crypto.xchacha_decrypt in Ed. case_if_in Ed; [done|]. apply unlock_len in Ed.
  unfold Token.TOKEN_PRIVATE_SIZE, zlen in *. rewrite Ed, length_take. lia.
Qed.

Lemma fingerprints_pow2 : exists k, 0 <= k /\ FINGERPRINTS = 2 ^ k.
Proof. by exists 11. Qed.
Lemma fp_insert_kept m k v :
  FixedHashMap.wf FINGERPRINTS fp_hash m ->
  match FixedHashMap.find FINGERPRINTS fp_hash k m with
  | Some v0 => negb (netudp_address_equal (fp_address v0) (fp_address v))
  | None => false
  end = false ->
  FixedHashMap.wf FINGERPRINTS fp_hash (snd (FixedHashMap.insert FINGERPRINTS fp_hash k v m)) /\
  fp_kept m (snd (FixedHashMap.insert FINGERPRINTS fp_hash k v m)).
Proof.
  intros Hm Hf. rewrite (FixedHashMap.find_spec FINGERPRINTS fp_hash fingerprints_pow2) in Hf by done.
  destruct (FixedHashMap.insert_cases FINGERPRINTS fp_hash fingerprints_pow2 m k v Hm) as [Hw [E|(-> & _)]];
    [|by split]. split; [done|]. intros k' v' Hk'. rewrite E. destruct (decide (k = k')) as [<-|Hne].
  - rewrite lookup_insert_eq. exists v. split; [done|]. rewrite Hk' in Hf. by destruct (netudp_address_equal _ _).
  - rewrite lookup_insert_ne by done. exists v'. split; [done|]. apply Token.address_equal_refl.
Qed.

Lemma connection_request_ok s from packet :
  4 <= zlen (cfg_channels (cfg s)) -> server_wf s ->
  exists s', server_handle_connection_request blake2b_keyed_64 crypto_aead_unlock (Some falloc) s from packet
    = Some s' /\ good s s'.
Proof.
  intros Hc Hs. unfold server_handle_connection_request.
  destruct (request_token_ok s packet) as [[[[enc ts] priv]|] ->]; rewrite Some_bind; [|by exists s].
  case_if; [by exists s|]. destruct (match FixedHashMap.find _ _ _ _ with Some _ => _ | None => _ end) eqn:Ef;
    [by exists s|]. set (s1 := set_fingerprint_map _ _).
  assert (good s s1) as G1.
  { destruct (fp_insert_kept _ _ (mkFingerprint from ts) (sw_prints _ Hs) Ef) as [Hw Hk].
    split; [by destruct Hs; split|]. by split_and!. }
  destruct (accept_client_ok s1 from priv Hc) as (s2 & -> & G2); [apply G1|].
  exists s2. split; [done|]. exact (good_trans _ _ _ G1 G2).
Qed.

Lemma data_packet_ok s slot packet :
  server_wf s -> slot ∈ Slots.actives (sl s) -> is_bytes packet -> zlen packet <= MAX_SAFE_PACKET ->
  exists s', server_handle_data_packet blake2b_keyed s slot packet = Some s' /\ good s s'.
Proof.
  intros Hs Hin Hb Hl. pose proof (active_slot s slot Hs Hin) as Hr. unfold server_handle_data_packet.
  rewrite (conn_at s slot Hs Hr), Some_bind.
  destruct (server_packet_keeps blake2b_keyed (connections s).[slot] (protocol_id (cfg s)) (current_time s) packet)
    as (r & -> & Hk); [by apply (cw_wf _ _ _ (sw_conns _ Hs))|done|done|]. rewrite Some_bind.
  pose proof (good_set_conn s slot _ Hs Hin Hk) as G1.
  destruct r as [c|[c|c reason]]; cbn [result_conn outcome_conn] in *.
  - eexists. split; [done|]. eapply good_trans; [exact G1|]. apply good_bad_packet, G1.
  - by eexists.
  - destruct (good_drop (set_conn s slot c) slot reason) as (s' & -> & G2 & _); [apply G1|done|].
    exists s'. split; [done|]. exact (good_trans _ _ _ G1 G2).
Qed.

(** The slot found for a data packet is that of a connected client. *)
Lemma packet_slot_ok s from data :
  server_wf s -> is_bytes data ->
  exists r, packet_slot s from data = Some r /\ forall slot, r = Some slot -> slot ∈ Slots.actives (sl s).
Proof.
  intros Hs Hb.
  assert (forall slot, find_slot s from = Some slot -> slot ∈ Slots.actives (sl s)) as Hfind.
  { intros slot. unfold find_slot. destruct (sw_table _ Hs) as [Hm He].
    rewrite (FixedHashMap.find_spec ADDRESSES fnv1a addresses_pow2) by done. intros Hk. by apply He in Hk as [? _]. }
  unfold packet_slot. case_if; [|rewrite Some_bind; eauto].
  destruct (word_at data 1 2 Hb) as (w & -> & Hw); [lia..|]. rewrite Some_bind. case_if; [|rewrite Some_bind; eauto].
  assert (0 <= w < max_clients s) as Hr.
  { pose proof (sw_clients _ Hs). unfold u16 in *. mlia. }
  rewrite (conn_at s w Hs Hr), !Some_bind. case_if; [|eauto]. eexists. split; [done|]. intros slot [= <-].
  by apply (cw_active _ _ _ (sw_conns _ Hs)).
Qed.

(** A packet the socket may hand over. *)
Definition packet_ok (data : bytes) : Prop := is_bytes data /\ 1 <= zlen data <= MAX_SAFE_PACKET.

Lemma dispatch_ok s from data :
  4 <= zlen (cfg_channels (cfg s)) -> server_wf s -> packet_ok data ->
  exists s', server_dispatch_packet blake2b_keyed blake2b_keyed_64 crypto_aead_unlock (Some falloc) s from data
    = Some s' /\ good s s'.
Proof.
  intros Hc Hs [Hb Hl]. unfold server_dispatch_packet. destruct (byte_in data 0 Hb ltac:(lia)) as (p & -> & _).
  rewrite Some_bind. case_if; [case_if; [by exists s|by apply connection_request_ok]|].
  case_if; [|eexists; split; [done|by apply good_bad_packet]].
  destruct (packet_slot_ok s from data Hs Hb) as ([slot|] & -> & Hslot); rewrite Some_bind.
  - apply data_packet_ok; try done; [by apply Hslot|lia].
  - eexists. split; [done|by apply good_bad_packet].
Qed.
Lemma receive_packet_ok s from data :
  4 <= zlen (cfg_channels (cfg s)) -> server_wf s -> packet_ok data ->
  exists s', receive_packet blake2b_keyed blake2b_keyed_64 crypto_aead_unlock (Some falloc) s from data
    = Some s' /\ good s s'.
Proof.
  intros Hc Hs Hd. unfold receive_packet. destruct (find_slot s from); [by apply dispatch_ok|].
  pose proof (good_limiter s from (current_time s) Hs) as G1.
  destruct (RateLimiter.allow _ _ _) as [ok l]. cbn [snd] in G1.
  destruct ok.
  - destruct (dispatch_ok (set_limiter s l) from data Hc (proj1 G1) Hd) as (s' & -> & G2).
    exists s'. split; [done|]. exact (good_trans _ _ _ G1 G2).
  - eexists. split; [done|]. eapply good_trans; [exact G1|]. apply good_bad_packet, G1.
Qed.
Lemma receive_packets_ok l : forall s,
  4 <= zlen (cfg_channels (cfg s)) -> server_wf s -> Forall (fun p => packet_ok p.2) l ->
  exists s', receive_packets blake2b_keyed blake2b_keyed_64 crypto_aead_unlock (Some falloc) s l
    = Some s' /\ good s s'.
Proof.
  induction l as [|[from data] l IH]; intros s Hc Hs Hl; cbn [receive_packets]; [by exists s|].
  inversion Hl as [|? ? Hd Hl']; subst.
  destruct (receive_packet_ok s from data Hc Hs Hd) as (s1 & -> & G1). rewrite Some_bind.
  destruct (IH s1) as (s2 & -> & G2); [by destruct G1 as [_ (-> & _)]|apply G1|done|].
  exists s2. split; [done|]. exact (good_trans _ _ _ G1 G2).
Qed.
(** ** The update *)

Lemma active_at s a :
  server_wf s -> 0 <= a < IndexSet.count (Slots.act (sl s)) ->
  exists i, oget (IndexSet.items (Slots.act (sl s))) a = Some i /\ i ∈ Slots.actives (sl s).
Proof.
  intros Hs Ha. destruct (sw_slots _ Hs) as [Hset _ _ _ _]. pose proof (IndexSet.is_count _ Hset).
  exists (IndexSet.items (Slots.act (sl s))).[a]. rewrite oget_aget by lia. split; [done|].
  apply IndexSet.elem_members; [done|]. by exists a.
Qed.

(** One client fewer. *)
Lemma without_count s s' slot :
  server_wf s -> server_wf s' -> slot ∈ Slots.actives (sl s) ->
  without (Slots.actives (sl s)) (Slots.actives (sl s')) slot ->
  IndexSet.count (Slots.act (sl s)) = IndexSet.count (Slots.act (sl s')) + 1.
Proof.
  intros Hs Hs' Hin Hw.
  pose proof (Slots.sl_act _ _ (sw_slots _ Hs)) as H1. pose proof (Slots.sl_act _ _ (sw_slots _ Hs')) as H2.
  rewrite <- (IndexSet.zlen_members _ H1), <- (IndexSet.zlen_members _ H2).
  assert (IndexSet.members (Slots.act (sl s)) ≡ₚ slot :: IndexSet.members (Slots.act (sl s'))) as E.
  { apply NoDup_Permutation; [by apply IndexSet.members_NoDup| |].
    - constructor; [|by apply IndexSet.members_NoDup]. intros Hx. by apply Hw in Hx as [_ ?].
    - intros x. rewrite elem_of_cons. fold (Slots.actives (sl s)) (Slots.actives (sl s')). rewrite (Hw x).
      split; [|intros [-> |[? _]]; done]. intros Hx. destruct (decide (x = slot)); [by left|by right]. }
  apply Permutation_length in E. unfold zlen. rewrite E. cbn [length]. lia.
Qed.

Definition timeouts_left (s0 : Server) (n : Z) (st : Z * Server) : Prop :=
  n = IndexSet.count (Slots.act (sl st.2)) - st.1 /\ 0 <= st.1 <= IndexSet.count (Slots.act (sl st.2)) /\ good s0 st.2.

Lemma timeout_step_ok s0 time n st :
  timeouts_left s0 n st ->
  match timeout_step time st with
  | inl st' => exists n', n' < n /\ timeouts_left s0 n' st'
  | inr r => exists s', r = Some s' /\ good s0 s'
  end.
Proof.
  destruct st as [a s]. intros (-> & Ha & G). cbn [fst snd] in *. unfold timeout_step. case_if; [eauto|].
  destruct (active_at s a (proj1 G) ltac:(lia)) as (i & -> & Hi). rewrite Some_bind.
  rewrite (conn_at s i (proj1 G)) by (apply active_slot; [apply G|done]). rewrite Some_bind. case_if.
  - destruct (good_drop s i (-4) (proj1 G) Hi) as (s' & -> & G' & Hw).
    pose proof (without_count s s' i (proj1 G) (proj1 G') Hi Hw) as Hc.
    exists (IndexSet.count (Slots.act (sl s')) - a). split; [lia|]. split; [done|]. cbn [fst snd]. split; [lia|].
    exact (good_trans _ _ _ G G').
  - exists (IndexSet.count (Slots.act (sl s)) - (a + 1)). split; [lia|]. split; [done|]. cbn [fst snd]. split; [lia|done].
Qed.
Lemma check_timeouts_ok s time : server_wf s -> exists s', check_timeouts s time = Some s' /\ good s s'.
Proof.
  intros Hs. unfold check_timeouts. pose proof (IndexSet.is_count _ (Slots.sl_act _ _ (sw_slots _ Hs))) as Hc.
  destruct (loop_done (timeout_step time) (timeouts_left s) (fun r => exists s', r = Some s' /\ good s s')
    (Z.to_pos (IndexSet.count (Slots.act (sl s)) + 1)) (IndexSet.count (Slots.act (sl s))) (0, s))
    as (r & -> & s' & -> & G).
  - intros n st (-> & ? & _). lia.
  - intros n st st' Hst E. pose proof (timeout_step_ok s time n st Hst) as H'. by rewrite E in H'.
  - intros n st r Hst E. pose proof (timeout_step_ok s time n st Hst) as H'. by rewrite E in H'.
  - split; [cbn; lia|]. cbn. split; [lia|by apply good_refl].
  - lia.
  - by exists s'.
Qed.

Lemma update_slots_ok n : forall a s time dt,
  server_wf s -> 0 <= a -> a + Z.of_nat n <= IndexSet.count (Slots.act (sl s)) ->
  exists s', update_slots blake2b_keyed n a s time dt = Some s' /\ good s s'.
Proof.
  induction n as [|n IH]; intros a s time dt Hs Ha Hn; cbn [update_slots]; [by exists s|].
  destruct (active_at s a Hs ltac:(lia)) as (i & -> & Hi). rewrite Some_bind.
  rewrite (conn_at s i Hs), Some_bind by (by apply active_slot).
  destruct (update_connection_keeps blake2b_keyed (protocol_id (cfg s)) (connections s).[i] time dt)
    as (c & pkts & -> & Hk); [by apply (cw_wf _ _ _ (sw_conns _ Hs))|]. rewrite Some_bind.
  pose proof (good_set_conn s i c Hs Hi Hk) as G0.
  pose proof (good_trans _ _ _ G0 (good_emit _ (packets_to c pkts) (proj1 G0))) as G1.
  destruct (IH (a + 1) (emit (set_conn s i c) (packets_to c pkts)) time dt) as (s' & -> & G2);
    [apply G1|lia|cbn; lia|].
  exists s'. split; [done|]. exact (good_trans _ _ _ G1 G2).
Qed.

(** A slice lies inside the active list. *)
Lemma pacing_slice_range count slices current :
  0 <= count -> 0 <= current ->
  exists first last next, pacing_slice count slices current = (first, last, next) /\
    0 <= first /\ first <= last <= count /\ 0 <= next.
Proof.
  intros Hc Hcur. unfold pacing_slice. case_if; [|by eexists _, _, _; split_and!].
  eexists _, _, _. split; [done|]. rewrite !Z.rem_mod_nonneg, Z.quot_div_nonneg by (try apply Z.mod_pos_bound; lia).
  pose proof (Z.mod_pos_bound current slices ltac:(lia)). pose proof (Z.mod_pos_bound count slices ltac:(lia)).
  pose proof (Z.div_mod count slices ltac:(lia)). set (k := current mod slices) in *. set (r := count mod slices) in *.
  set (q := count / slices) in *. assert (0 <= q) by (apply Z.div_pos; lia).
  assert ((k + 1) * q <= slices * q) by nia. assert (0 <= k * q) by nia.
  pose proof (Z.mod_pos_bound (k + 1) slices ltac:(lia)).
  rewrite (Z.rem_mod_nonneg (k + 1)) by lia. repeat case_if; split_and!; lia.
Qed.

Lemma update_rest_ok s time dt :
  server_wf s -> exists s', update_rest blake2b_keyed s time dt = Some s' /\ good s s'.
Proof.
  intros Hs. unfold update_rest.
  destruct (check_timeouts_ok s time Hs) as (s3 & -> & G). rewrite Some_bind. pose proof (proj1 G) as H3.
  destruct (pacing_slice_range (IndexSet.count (Slots.act (sl s3))) (pacing_slices s3) (pacing_current_slice s3))
    as (first & last & next & -> & Hf & Hl & Hn);
    [apply (IndexSet.is_count _ (Slots.sl_act _ _ (sw_slots _ H3)))|apply (sw_pacing _ H3)|].
  cbv beta iota zeta. set (s4 := set_pacing_current_slice s3 next).
  assert (good s3 s4) as G4 by (split; [|done]; by destruct H3; split).
  destruct (update_slots_ok (Z.to_nat (last - first)) first s4 time dt)
    as (s5 & -> & G5); [apply G4|done|cbn; lia|]. rewrite Some_bind.
  pose proof (good_trans _ _ _ G (good_trans _ _ _ G4 G5)) as G6.
  case_if; [|by exists s5]. destruct G6 as [W6 G6].
  destruct (RateLimiter.limiter_cleanup_wf _ time (sw_limiter _ W6)) as (l & -> & Hl'). rewrite Some_bind.
  eexists. split; [done|]. split; [|done]. by destruct W6; split.
Qed.
Lemma update_ok s time arrived :
  4 <= zlen (cfg_channels (cfg s)) -> server_wf s -> Forall (fun p => packet_ok p.2) arrived ->
  exists s', netudp_server_update blake2b_keyed blake2b_keyed_64 crypto_aead_unlock (Some falloc) s time arrived
    = Some s' /\ good s s'.
Proof.
  intros Hc Hs Hp. unfold netudp_server_update. case_if; [by exists s|]. cbv zeta.
  set (s1 := set_ddos _ _). assert (good s s1) as G1 by (split; [|done]; by destruct Hs; split).
  destruct (receive_packets_ok arrived s1 Hc (proj1 G1) Hp) as (s2 & -> & G2). rewrite Some_bind.
  destruct (update_rest_ok s2 time (dsub time (current_time s)) (proj1 G2)) as (s3 & -> & G3).
  exists s3. split; [done|]. exact (good_trans _ _ _ G1 (good_trans _ _ _ G2 G3)).
Qed.

(** ** Sending *)

Lemma set_cdata_keeps c d : wf c -> data_wf d -> keeps c (set_cdata c (Some d)).
Proof. intros (H1 & H2 & _) Hd. split; [|done]. split_and!; [done..|]. by exists d. Qed.

Lemma send_pending_slot_ok s slot :
  server_wf s -> slot ∈ Slots.actives (sl s) ->
  exists s', send_pending_slot blake2b_keyed s slot = Some s' /\ good s s'.
Proof.
  intros Hs Hin. unfold send_pending_slot. rewrite (conn_at s slot Hs), Some_bind by (by apply active_slot).
  destruct (server_send_pending_keeps blake2b_keyed (protocol_id (cfg s)) (connections s).[slot] (current_time s))
    as (c & pkts & -> & Hk); [by apply (cw_wf _ _ _ (sw_conns _ Hs))|]. rewrite Some_bind.
  eexists. split; [done|]. pose proof (good_set_conn s slot c Hs Hin Hk) as G.
  exact (good_trans _ _ _ G (good_emit _ _ (proj1 G))).
Qed.

(** The errors of [send_target], and what it finds otherwise. *)
Lemma send_target_ok s i channel :
  server_wf s ->
  exists t, send_target s i channel = Some t /\
    match t with
    | inl e => e = NETUDP_ERROR_NOT_INITIALIZED \/ e = NETUDP_ERROR_INVALID_PARAM \/ e = NETUDP_ERROR_NOT_CONNECTED
    | inr (c, d, x) => i ∈ Slots.actives (sl s) /\ c = (connections s).[i] /\ wf c /\ cdata c = Some d /\
        data_wf d /\ ch d channel = Some x /\ Channel.wf x /\ 0 <= channel < 4
    end.
Proof.
  intros Hs. unfold send_target. case_if; [eexists; split; [done|]; cbn; tauto|]. case_if; [eexists; split; [done|]; cbn; tauto|].
  rewrite (conn_at s i Hs), Some_bind by lia. case_if; [eexists; split; [done|]; cbn; tauto|].
  assert (i ∈ Slots.actives (sl s)) as Hin by (apply (cw_active _ _ _ (sw_conns _ Hs)); [lia|done]).
  pose proof (cw_wf _ _ _ (sw_conns _ Hs) i Hin) as Hwf. pose proof Hwf as (Hn & _ & d & Hd & Hwd).
  case_if; [eexists; split; [done|]; cbn; tauto|]. rewrite Hd, Some_bind. unfold MAX_CHANNELS_PER_CONNECTION in Hn.
  destruct (ch_wf d channel Hwd) as (x & Hx & Hwx); [lia|]. rewrite Hx, Some_bind.
  eexists. split; [done|]. cbn. split_and!; try done; lia.
Qed.
Lemma ch_set d channel x : data_wf d -> 0 <= channel < 4 -> ch (set_ch d channel x) channel = Some x.
Proof.
  intros (H1 & _) Hc. unfold ch, set_ch. cbn [channels]. rewrite oget_aget by (rewrite zlen_aset; unfold zlen; lia).
  f_equal. apply aget_aset_eq. unfold zlen. lia.
Qed.

(** The connection found, with another channel in the place of [x]. *)
Lemma good_set_ch s i channel c d x :
  server_wf s -> i ∈ Slots.actives (sl s) -> c = (connections s).[i] -> wf c -> data_wf d -> Channel.wf x ->
  good s (set_conn s i (set_cdata c (Some (set_ch d channel x)))).
Proof.
  intros Hs Hin -> Hwf Hd Hx. apply good_set_conn; try done. apply set_cdata_keeps; [done|]. by apply set_ch_wf.
Qed.
Lemma good_queued s i channel c d x :
  server_wf s -> i ∈ Slots.actives (sl s) -> c = (connections s).[i] -> wf c -> data_wf d -> Channel.wf x ->
  good s (queued s i channel c d x).
Proof.
  intros Hs Hin -> Hwf Hd Hx. apply good_set_conn; try done.
  assert (keeps (connections s).[i] (set_pending_mask (connections s).[i]
    (Z.lor (pending_mask (connections s).[i]) (u8 (Z.shiftl 1 channel))))) as Hk by by split.
  eapply keeps_trans; [exact Hk|]. apply set_cdata_keeps; [apply Hk|]. apply set_ch_wf; [done|].
  by apply Channel.start_nagle_wf.
Qed.

Lemma send_ok s i channel data flags :
  server_wf s -> exists r s', netudp_server_send blake2b_keyed s i channel data flags = Some (r, s') /\ good s s'.
Proof.
  intros Hs. unfold netudp_server_send. destruct (send_target_ok s i channel Hs) as ([e|[[c d] x]] & -> & Ht);
    rewrite Some_bind; [by eexists _, _|]. destruct Ht as (Hin & Ec & Hwf & Hcd & Hwd & Hx & Hwx & Hch).
  pose proof (Channel.queue_send_impl_wf x data flags 0 Hwx) as Hwq.
  unfold Channel.queue_send. destruct (Channel.queue_send_impl x data flags 0) as [ok x']. cbn [snd] in Hwq.
  destruct ok; cbn [negb]; [|eexists _, _; split; [done|]; by apply good_set_ch].
  pose proof (good_queued s i channel c d x' Hs Hin Ec Hwf Hwd Hwq) as G1. cbv zeta.
  case_if; [|by eexists _, _]. set (s1 := queued _ _ _ _ _ _) in *.
  assert (i ∈ Slots.actives (sl s1)) as Hin1 by done.
  rewrite (conn_at s1 i (proj1 G1)), Some_bind by (apply active_slot; [apply G1|done]).
  pose proof (cw_wf _ _ _ (sw_conns _ (proj1 G1)) i Hin1) as Hwf1. pose proof Hwf1 as (_ & _ & d1 & Hd1 & Hwd1).
  rewrite Hd1, Some_bind. destruct (ch_wf d1 channel Hwd1 Hch) as (x1 & -> & Hwx1). rewrite Some_bind.
  pose proof (good_set_ch s1 i channel _ d1 (Channel.flush x1) (proj1 G1) Hin1 eq_refl Hwf1 Hwd1
    (Channel.flush_wf _ Hwx1)) as G2.
  destruct (send_pending_slot_ok _ i (proj1 G2) Hin1) as (s3 & -> & G3). rewrite Some_bind.
  eexists _, _. split; [done|]. exact (good_trans _ _ _ G1 (good_trans _ _ _ G2 G3)).
Qed.
Lemma send_state_ok s i channel eid data :
  server_wf s -> exists r s', netudp_server_send_state s i channel eid data = Some (r, s') /\ good s s'.
Proof.
  intros Hs. unfold netudp_server_send_state. destruct (send_target_ok s i channel Hs) as ([e|[[c d] x]] & -> & Ht);
    rewrite Some_bind; [by eexists _, _|]. destruct Ht as (Hin & Ec & Hwf & Hcd & Hwd & Hx & Hwx & Hch).
  case_if; [by eexists _, _|]. unfold Channel.queue_send_state.
  pose proof (Channel.queue_send_impl_wf x data (Z.lor 0 Channel.NETUDP_SEND_STATE) eid Hwx) as Hwq.
  destruct (Channel.queue_send_impl _ _ _ _) as [ok x']. cbn [snd] in Hwq.
  destruct ok; cbn [negb]; eexists _, _; (split; [done|]); [by apply good_queued|by apply good_set_ch].
Qed.
Lemma send_each_ok l : forall s channel data flags,
  server_wf s -> exists s', send_each blake2b_keyed l s channel data flags = Some s' /\ good s s'.
Proof.
  induction l as [|i l IH]; intros s channel data flags Hs; cbn [send_each]; [by exists s|].
  destruct (send_ok s i channel data flags Hs) as (r & s1 & -> & G1). rewrite Some_bind.
  destruct (IH s1 channel data flags (proj1 G1)) as (s2 & -> & G2). exists s2. split; [done|].
  exact (good_trans _ _ _ G1 G2).
Qed.
Lemma send_state_each_ok l : forall s channel eid data,
  server_wf s -> exists s', send_state_each l s channel eid data = Some s' /\ good s s'.
Proof.
  induction l as [|i l IH]; intros s channel eid data Hs; cbn [send_state_each]; [by exists s|].
  destruct (send_state_ok s i channel eid data Hs) as (r & s1 & -> & G1). rewrite Some_bind.
  destruct (IH s1 channel eid data (proj1 G1)) as (s2 & -> & G2). exists s2. split; [done|].
  exact (good_trans _ _ _ G1 G2).
Qed.

Lemma flush_channels_ok n : forall i d,
  data_wf d -> 0 <= i -> i + Z.of_nat n <= 4 -> exists d', flush_channels n i d = Some d' /\ data_wf d'.
Proof.
  induction n as [|n IH]; intros i d Hd Hi Hn; cbn [flush_channels]; [by exists d|].
  destruct (ch_wf d i Hd ltac:(lia)) as (x & -> & Hx). rewrite Some_bind.
  apply IH; [|lia..]. by apply set_ch_wf.
Qed.
Lemma client_at s i :
  server_wf s -> 0 <= i < max_clients s -> active (connections s).[i] = true ->
  i ∈ Slots.actives (sl s) /\ wf (connections s).[i].
Proof.
  intros Hs Hi Ha. apply (cw_active _ _ _ (sw_conns _ Hs)) in Ha; [|done].
  split; [done|]. by apply (cw_wf _ _ _ (sw_conns _ Hs)).
Qed.
Lemma flush_ok s i : server_wf s -> exists s', netudp_server_flush blake2b_keyed s i = Some s' /\ good s s'.
Proof.
  intros Hs. unfold netudp_server_flush. case_if; [by exists s|]. case_if; [by exists s|].
  rewrite (conn_at s i Hs), Some_bind by lia. case_if; [by exists s|].
  destruct (client_at s i Hs ltac:(lia)) as [Hin Hwf]; [done|]. pose proof Hwf as (Hn & _ & d & Hd & Hwd).
  rewrite Hd, Some_bind. unfold MAX_CHANNELS_PER_CONNECTION in Hn.
  destruct (flush_channels_ok (Z.to_nat (num_channels (connections s).[i])) 0 d Hwd) as (d' & -> & Hwd'); [lia|lia|].
  rewrite Some_bind.
  pose proof (good_set_conn s i _ Hs Hin (set_cdata_keeps _ d' Hwf Hwd')) as G1.
  destruct (send_pending_slot_ok _ i (proj1 G1) Hin) as (s2 & -> & G2). exists s2. split; [done|].
  exact (good_trans _ _ _ G1 G2).
Qed.

(** ** Receiving *)

(** What the application gets out of the messages [l] taken off a client's queue:
    the messages themselves, or calls of the handlers it registered. *)
Definition takes_handler (handlers : list bool) (m : DeliveredMessage) : bool :=
  (1 <=? zlen (dm_data m)) && handlers.[(dm_data m).[0]].
Definition received (handlers : list bool) (i : Z) (l : list DeliveredMessage) : list Message :=
  (fun m => mkMessage (dm_data m) (dm_channel m) i (dm_sequence m))
    <$> filter (fun m => dm_valid m = true /\ takes_handler handlers m = false) l.
Definition handled (i : Z) (handlers : list bool) (l : list DeliveredMessage) : list event :=
  (fun m => Handled i (dm_data m) (dm_channel m))
    <$> filter (fun m => dm_valid m = true /\ takes_handler handlers m = true) l.

Definition receiving (h : list bool) (i max : Z) (l : list DeliveredMessage) (n : Z)
    (st : ring DeliveredMessage * list Message * list event) : Prop :=
  let '(q, ms, ev) := st in
  RingBuffer.wf DELIVERED_SIZE q /\ n = zlen (RingBuffer.contents DELIVERED_SIZE q) /\ zlen ms <= Z.max 0 max /\
  exists taken, l = taken ++ RingBuffer.contents DELIVERED_SIZE q /\ ms = received h i taken /\ ev = handled i h taken.
(** The loop stops when it has [max] messages or nothing is left. *)
Definition received_all (h : list bool) (i max : Z) (l : list DeliveredMessage)
    (st : ring DeliveredMessage * list Message * list event) : Prop :=
  let '(q, ms, ev) := st in
  RingBuffer.wf DELIVERED_SIZE q /\ zlen ms <= Z.max 0 max /\
  (zlen ms = Z.max 0 max \/ RingBuffer.contents DELIVERED_SIZE q = []) /\
  exists taken, l = taken ++ RingBuffer.contents DELIVERED_SIZE q /\ ms = received h i taken /\ ev = handled i h taken.

Lemma received_snoc h i l m :
  received h i (l ++ [m]) = received h i l ++ (if decide (dm_valid m = true /\ takes_handler h m = false)
    then [mkMessage (dm_data m) (dm_channel m) i (dm_sequence m)] else []).
Proof. unfold received. rewrite list.filter_app, fmap_app, filter_cons. by destruct (decide _). Qed.
Lemma handled_snoc h i l m :
  handled i h (l ++ [m]) = handled i h l ++ (if decide (dm_valid m = true /\ takes_handler h m = true)
    then [Handled i (dm_data m) (dm_channel m)] else []).
Proof. unfold handled. rewrite list.filter_app, fmap_app, filter_cons. by destruct (decide _). Qed.

Lemma receive_step_ok h i max l n st :
  receiving h i max l n st ->
  match receive_step h i max st with
  | inl st' => receiving h i max l (n - 1) st' /\ 0 < n
  | inr st' => received_all h i max l st'
  end.
Proof.
  destruct st as [[q ms] ev]. intros (Hq & -> & Hms & taken & El & Em & Ee). unfold receive_step, RingBuffer.is_empty.
  pose proof (RingBuffer.contents_length DELIVERED_SIZE q Hq) as Hc.
  pose proof (zlen_nonneg ms). destruct (zlen ms <? max) eqn:E1; cbn [negb orb]; bool_facts.
  2: { split; [done|]. split; [lia|]. split; [left; lia|eauto]. }
  case_if.
  { split; [done|]. split; [lia|]. split; [|eauto]. right. destruct (RingBuffer.contents DELIVERED_SIZE q); [done|].
    rewrite zlen_cons in Hc. pose proof (zlen_nonneg l0). lia. }
  assert (0 < RingBuffer.size_ q) as Hp by (destruct Hq; lia).
  destruct (RingBuffer.pop_front_spec DELIVERED_SIZE delivered_pow2 q Hq Hp) as (m & q' & -> & Hq' & Ec).
  rewrite Ec in El. rewrite Ec, zlen_cons. pose proof (zlen_nonneg (RingBuffer.contents DELIVERED_SIZE q')).
  assert (l = (taken ++ [m]) ++ RingBuffer.contents DELIVERED_SIZE q') as El' by by rewrite <- app_assoc.
  fold (takes_handler h m). destruct (dm_valid m) eqn:Ev; cbn [negb].
  - destruct (takes_handler h m) eqn:Et; (split; [|lia]); (split; [done|]); (split; [lia|]).
    + split; [lia|]. exists (taken ++ [m]). split; [done|]. rewrite received_snoc, handled_snoc.
      rewrite decide_False, decide_True by (rewrite ?Et; intuition congruence). by rewrite app_nil_r, Em, Ee.
    + split; [zlen_simpl; lia|]. exists (taken ++ [m]). split; [done|]. rewrite received_snoc, handled_snoc.
      rewrite decide_True, decide_False by (rewrite ?Et; intuition congruence). by rewrite app_nil_r, Em, Ee.
  - split; [|lia]. split; [done|]. split; [lia|]. split; [lia|]. exists (taken ++ [m]). split; [done|].
    rewrite received_snoc, handled_snoc. rewrite !decide_False by (rewrite Ev; intuition congruence). by rewrite !app_nil_r.
Qed.
Lemma receive_loop_ok h i max q :
  RingBuffer.wf DELIVERED_SIZE q ->
  exists st, loop 257 (receive_step h i max) (q, [], []) = inr st /\
    received_all h i max (RingBuffer.contents DELIVERED_SIZE q) st.
Proof.
  intros Hq. pose proof (RingBuffer.contents_length DELIVERED_SIZE q Hq) as Hc.
  eapply (loop_done (receive_step h i max) (fun n st => 0 <= n /\ receiving h i max _ n st) _ _
    (zlen (RingBuffer.contents DELIVERED_SIZE q))).
  - by intros n st [? _].
  - intros n st st' [_ Hst] E. pose proof (receive_step_ok h i max _ n st Hst) as H'. rewrite E in H'.
    exists (n - 1). split; [lia|]. split; [lia|]. apply H'.
  - intros n st r [_ Hst] E. pose proof (receive_step_ok h i max _ n st Hst) as H'. by rewrite E in H'.
  - split; [apply zlen_nonneg|]. split; [done|]. split; [done|]. split; [change (zlen []) with 0; lia|].
    exists []. split_and!; done.
  - rewrite Hc. destruct Hq as (_ & _ & Hs). unfold DELIVERED_SIZE in Hs. lia.
Qed.

Lemma receive_ok s i max :
  server_wf s -> exists ms s', netudp_server_receive s i max = Some (ms, s') /\ good s s' /\ zlen ms <= Z.max 0 max.
Proof.
  intros Hs. unfold netudp_server_receive. assert (zlen (@nil Message) <= Z.max 0 max) as Hnil
    by (change (zlen []) with 0; lia).
  case_if; [by eexists _, _|]. case_if; [by eexists _, _|].
  rewrite (conn_at s i Hs), Some_bind by lia. case_if; [by eexists _, _|].
  destruct (client_at s i Hs ltac:(lia)) as [Hin Hwf]; [done|]. pose proof Hwf as (Hn & _ & d & Hd & Hwd).
  rewrite Hd, Some_bind. pose proof Hwd as (_ & _ & _ & _ & _ & _ & Hq).
  destruct (receive_loop_ok (handlers s) i max (delivered_messages d) Hq) as ([[q ms] ev] & -> & Hq' & Hm & _).
  eexists _, _. split; [done|]. split; [|done].
  pose proof (good_set_conn s i _ Hs Hin (set_cdata_keeps _ _ Hwf (set_delivered_wf d q Hwd Hq'))) as G.
  exact (good_trans _ _ _ G (good_emit _ _ (proj1 G))).
Qed.
Lemma receive_each_ok l : forall s total max,
  server_wf s -> exists ms s', receive_each l s total max = Some (ms, s') /\ good s s'.
Proof.
  induction l as [|i l IH]; intros s total max Hs; cbn [receive_each]; [by eexists _, _|].
  case_if; [by eexists _, _|]. destruct (receive_ok s i (max - total) Hs) as (ms & s1 & -> & G1 & _).
  rewrite Some_bind. destruct (IH s1 (total + zlen ms) max (proj1 G1)) as (ms' & s2 & -> & G2). rewrite Some_bind.
  eexists _, _. split; [done|]. exact (good_trans _ _ _ G1 G2).
Qed.

(** ** Groups *)

Lemma group_at n act gs mg stack count id :
  groups_wf n act gs mg stack count -> 0 <= id < mg ->
  gs !! Z.to_nat id = Some gs.[id] /\ group_in n act gs.[id].
Proof.
  intros [[Hl _] Hg _ _ _] Hi. assert (gs !! Z.to_nat id = Some gs.[id]) as E by (apply lookup_aget; lia).
  split; [done|]. by eapply Forall_lookup_1 in Hg.
Qed.
Lemma actives_set (gs : list Group.Group) id g :
  Group.active <$> aset gs id g = <[Z.to_nat id := Group.active g]> (Group.active <$> gs).
Proof. unfold aset. by rewrite list_fmap_insert. Qed.
(** A group that stays in use, or unused. *)
Lemma groups_set n act gs mg stack count id g :
  groups_wf n act gs mg stack count -> 0 <= id < mg -> group_in n act g ->
  Group.active g = Group.active gs.[id] -> groups_wf n act (aset gs id g) mg stack count.
Proof.
  intros Hw Hi Hg Ha. destruct (group_at _ _ _ _ _ _ id Hw Hi) as [El _].
  destruct Hw as [[G1 G1'] G2 G3 G4 G5]. split; try done.
  - by rewrite zlen_aset.
  - unfold aset. by apply Forall_insert.
  - rewrite actives_set, Ha, list_insert_id; [done|]. by rewrite list_lookup_fmap, El.
Qed.

Lemma groups_take n act gs mg stack count g :
  groups_wf n act gs mg stack count -> 0 < count -> group_in n act g -> Group.active g = true ->
  exists id, oget stack (count - 1) = Some id /\ 0 <= id < mg /\
    groups_wf n act (aset gs id g) mg stack (count - 1).
Proof.
  intros Hw Hc Hg Ha. pose proof Hw as [[G1 G1'] G2 G3 G4 G5].
  exists stack.[count - 1]. set (id := stack.[count - 1]).
  assert (take (Z.to_nat count) stack = take (Z.to_nat (count - 1)) stack ++ [id]) as Et.
  { replace count with (count - 1 + 1) at 1 by lia. apply Slots.frees_snoc; [lia|]. apply lookup_aget. lia. }
  rewrite Et in G4. apply list.NoDup_app in G4 as (G4 & Hnot & _).
  assert (id ∉ take (Z.to_nat (count - 1)) stack) as Hid by (intros Hx; apply (Hnot _ Hx); by apply list_elem_of_singleton).
  assert (0 <= id /\ (Group.active <$> gs) !! Z.to_nat id = Some false) as [H1 H2].
  { apply G5. rewrite Et. apply elem_of_app. right. by apply list_elem_of_singleton. }
  assert (id < mg) as H3.
  { apply lookup_lt_Some in H2. rewrite length_fmap in H2. unfold zlen in G1. lia. }
  split; [apply oget_aget; lia|]. split; [lia|]. split; try done; try lia.
  - by rewrite zlen_aset.
  - unfold aset. by apply Forall_insert.
  - intros x. rewrite actives_set, Ha. split.
    + intros Hx. assert (x <> id) as Hne by by intros ->.
      destruct (proj1 (G5 x)) as [Hx0 Hxl]; [rewrite Et; apply elem_of_app; by left|]. split; [done|].
      rewrite list_lookup_insert_ne; [done|lia].
    + intros [Hx0 Hxl]. destruct (decide (x = id)) as [->|Hne].
      * rewrite list_lookup_insert_eq in Hxl; [done|]. by eapply lookup_lt_Some.
      * rewrite list_lookup_insert_ne in Hxl by lia. assert (x ∈ take (Z.to_nat count) stack) as Hx by (by apply G5).
        rewrite Et in Hx. apply elem_of_app in Hx as [?|Hx]; [done|]. by apply list_elem_of_singleton in Hx.
Qed.

Lemma groups_release n act gs mg stack count id :
  groups_wf n act gs mg stack count -> 0 <= id < mg -> Group.active gs.[id] = true ->
  oset stack count id = Some (aset stack count id) /\
  groups_wf n act (aset gs id Group.empty) mg (aset stack count id) (count + 1).
Proof.
  intros Hw Hi Ha. destruct (group_at _ _ _ _ _ _ id Hw Hi) as [El _]. destruct Hw as [[G1 G1'] G2 G3 G4 G5].
  assert (id ∉ take (Z.to_nat count) stack) as Hid.
  { intros Hx. apply G5 in Hx as [_ Hx]. rewrite list_lookup_fmap, El in Hx. cbn in Hx. congruence. }
  assert (count < mg) as Hlt.
  { assert (length (id :: take (Z.to_nat count) stack) <= length (seqZ 0 mg))%nat as Hle.
    { apply submseteq_length, NoDup_submseteq; [by constructor|]. intros x [-> |Hx]%elem_of_cons; apply elem_of_seqZ; [lia|].
      apply G5 in Hx as [Hx0 Hx]. apply lookup_lt_Some in Hx. rewrite length_fmap in Hx. unfold zlen in G1. lia. }
    rewrite length_seqZ in Hle. cbn [length] in Hle. rewrite length_take in Hle. unfold zlen in G1'. lia. }
  split; [apply oset_aset; lia|].
  assert (take (Z.to_nat (count + 1)) (aset stack count id) = take (Z.to_nat count) stack ++ [id]) as Et.
  { rewrite (Slots.frees_snoc _ count id); [|rewrite zlen_aset; lia|].
    - f_equal. unfold aset. by rewrite take_insert_ge by lia.
    - unfold aset. apply list_lookup_insert_eq. unfold zlen in G1'. lia. }
  split; rewrite ?Et, ?zlen_aset; try done; try lia.
  - unfold aset. by apply Forall_insert.
  - apply list.NoDup_app. split; [done|]. split; [|apply NoDup_singleton].
    intros x Hx Hx'. apply list_elem_of_singleton in Hx' as ->. done.
  - intros x. rewrite elem_of_app, list_elem_of_singleton, actives_set, G5.
    destruct (decide (x = id)) as [->|Hne].
    + rewrite list_lookup_insert_eq by (rewrite length_fmap; unfold zlen in G1; lia). cbn. split; [intros _; split; [lia|done]|by right].
    + split.
      * intros [[H1 H2]|?]; [|done]. split; [done|]. by rewrite list_lookup_insert_ne by lia.
      * intros [H1 H2]. left. split; [done|]. by rewrite list_lookup_insert_ne in H2 by lia.
Qed.

Lemma group_of_ok s id :
  server_wf s -> exists r, group_of s id = Some r /\
    match r with
    | Some g => 0 <= id < max_groups s /\ g = (groups s).[id] /\ Group.active g = true /\
        Group.wf (max_clients s) g /\ (forall x, x ∈ Group.member_list g -> x ∈ Slots.actives (sl s))
    | None => True
    end.
Proof.
  intros Hs. unfold group_of. case_if; [by eexists|].
  destruct (group_at _ _ _ _ _ _ id (sw_groups _ Hs) ltac:(lia)) as [_ Hg].
  rewrite oget_aget, Some_bind by (destruct (sw_groups _ Hs) as [[-> _] _ _ _ _]; lia).
  eexists. split; [done|]. unfold group_in in Hg. destruct (Group.active (groups s).[id]) eqn:Ea; [|done].
  split; [lia|]. done.
Qed.
Lemma good_groups s gs st n :
  server_wf s -> groups_wf (max_clients s) (Slots.actives (sl s)) gs (max_groups s) st n ->
  good s (set_group_stack s gs st n).
Proof. intros [? ? ? ? ? ? ?] Hg. by split. Qed.

Lemma group_create_ok s : server_wf s -> exists id s', netudp_group_create s = Some (id, s') /\ good s s'.
Proof.
  intros Hs. unfold netudp_group_create. case_if; [by eexists _, _|]. case_if; [by eexists _, _|].
  pose proof (sw_clients _ Hs) as Hn.
  assert (forall id, group_in (max_clients s) (Slots.actives (sl s)) (Group.init id (max_clients s)
    (replicate (Z.to_nat (group_capacity s)) 0) (group_capacity s))) as Hg.
  { intros id. destruct (Group.group_init_wf (max_clients s) id (group_capacity s)
      (replicate (Z.to_nat (group_capacity s)) 0)) as [Hw Hm].
    - lia.
    - rewrite zlen_replicate. unfold group_capacity, Group.kMaxGroupMembers. case_if; lia.
    - split; [done|]. rewrite Hm. by intros x ?%elem_of_nil. }
  pose proof (sw_groups _ Hs) as Hgs. pose proof Hgs as [[Hl _] _ _ _ _].
  destruct (groups_take _ _ _ _ _ _ (Group.init (group_free_stack s).[group_free_count s - 1] (max_clients s)
    (replicate (Z.to_nat (group_capacity s)) 0) (group_capacity s)) Hgs ltac:(lia) (Hg _) eq_refl)
    as (id & Eid & Hid & Hw).
  assert (id = (group_free_stack s).[group_free_count s - 1]) as Heq.
  { rewrite oget_aget in Eid; [congruence|]. destruct Hgs as [[_ ?] _ ? _ _]. lia. }
  rewrite Eid, Some_bind. subst id. rewrite oset_aset, Some_bind by (rewrite Hl; lia).
  eexists _, _. split; [done|]. by apply good_groups.
Qed.
Lemma group_destroy_ok s id : server_wf s -> exists s', netudp_group_destroy s id = Some s' /\ good s s'.
Proof.
  intros Hs. unfold netudp_group_destroy.
  destruct (group_of_ok s id Hs) as ([g|] & -> & Hg); rewrite Some_bind; [|by exists s].
  destruct Hg as (Hid & -> & Ha & Hw & _). unfold Group.reset.
  destruct (Group.clear_spec (max_clients s) _ Hw) as (g' & -> & _). rewrite !Some_bind.
  destruct (groups_release _ _ _ _ _ _ id (sw_groups _ Hs) Hid Ha) as [-> Hgw]. rewrite Some_bind.
  eexists. split; [done|]. by apply good_groups.
Qed.
Lemma good_set_group s id g :
  server_wf s -> 0 <= id < max_groups s -> Group.active g = true -> Group.active (groups s).[id] = true ->
  Group.wf (max_clients s) g -> (forall x, x ∈ Group.member_list g -> x ∈ Slots.actives (sl s)) ->
  good s (set_groups s (aset (groups s) id g)).
Proof.
  intros Hs Hid Ha Ha' Hw Hm. split; [|done]. pose proof Hs as [? ? ? ? Hg ? ?]. split; try done.
  apply groups_set; try done; [unfold group_in; by rewrite Ha|congruence].
Qed.
Lemma group_add_ok s id i : server_wf s -> exists r s', netudp_group_add s id i = Some (r, s') /\ good s s'.
Proof.
  intros Hs. unfold netudp_group_add.
  destruct (group_of_ok s id Hs) as ([g|] & -> & Hg); rewrite Some_bind; [|by eexists _, _].
  destruct Hg as (Hid & -> & Ha & Hw & Hm). case_if; [by eexists _, _|].
  rewrite (conn_at s i Hs), Some_bind by lia. case_if; [by eexists _, _|].
  destruct (client_at s i Hs ltac:(lia)) as [Hin _]; [done|].
  destruct (Group.add_spec (max_clients s) _ i Hw ltac:(lia)) as (g' & -> & Hw' & _ & Ha' & Hcase).
  rewrite Some_bind. eexists _, _. split; [done|]. apply good_set_group; try done; [congruence|].
  intros x Hx. destruct Hcase as [[Em _]|[-> _]]; [|by apply Hm]. rewrite Em in Hx.
  apply elem_of_app in Hx as [Hx|Hx]; [by apply Hm|]. by apply list_elem_of_singleton in Hx as ->.
Qed.
Lemma group_remove_ok s id i :
  server_wf s -> i < max_clients s -> exists r s', netudp_group_remove s id i = Some (r, s') /\ good s s'.
Proof.
  intros Hs Hi. unfold netudp_group_remove.
  destruct (group_of_ok s id Hs) as ([g|] & -> & Hg); rewrite Some_bind; [|by eexists _, _].
  destruct Hg as (Hid & -> & Ha & Hw & Hm).
  destruct (Group.group_remove_spec (max_clients s) _ i Hw Hi) as (g' & -> & Hw' & _ & Ha' & Hm').
  rewrite Some_bind. eexists _, _. split; [done|]. apply good_set_group; try done; [congruence|].
  intros x Hx. by apply Hm, Hm'.
Qed.
Lemma group_has_ok s id i : server_wf s -> i < max_clients s -> exists r, netudp_group_has s id i = Some r.
Proof.
  intros Hs Hi. unfold netudp_group_has. case_if; [by eexists|].
  destruct (group_at _ _ _ _ _ _ id (sw_groups _ Hs) ltac:(lia)) as [_ Hg].
  rewrite oget_aget, Some_bind by (destruct (sw_groups _ Hs) as [[-> _] _ _ _ _]; lia).
  unfold group_in in Hg. destruct (Group.active (groups s).[id]).
  - rewrite (Group.has_spec (max_clients s) _ i), Some_bind by tauto. by eexists.
  - rewrite Hg. unfold Group.has. destruct (i <? 0); by eexists.
Qed.

(** ** Sequences of calls *)

(** What the application can call while the server runs. *)
Inductive call : Type :=
  | Update (time : double) (arrived : list (address * bytes))
  | Send (client_index channel : Z) (data : bytes) (flags : Z)
  | SendState (client_index channel entity_id : Z) (data : bytes)
  | Broadcast (channel : Z) (data : bytes) (flags : Z)
  | BroadcastExcept (except_client channel : Z) (data : bytes) (flags : Z)
  | Flush (client_index : Z)
  | Receive (client_index max_messages : Z)
  | ReceiveBatch (max_messages : Z)
  | GroupCreate
  | GroupDestroy (group_id : Z)
  | GroupAdd (group_id client_index : Z)
  | GroupRemove (group_id client_index : Z)
  | GroupHas (group_id client_index : Z)
  | GroupSend (group_id channel : Z) (data : bytes) (flags : Z)
  | GroupSendExcept (group_id except_client channel : Z) (data : bytes) (flags : Z)
  | GroupSendState (group_id channel entity_id : Z) (data : bytes)
  | SetHandler (packet_type : Z) (registered : bool).

Definition perform (s : Server) (c : call) : option Server :=
  match c with
  | Update time arrived =>
      netudp_server_update blake2b_keyed blake2b_keyed_64 crypto_aead_unlock (Some falloc) s time arrived
  | Send i channel data flags => snd <$> netudp_server_send blake2b_keyed s i channel data flags
  | SendState i channel eid data => snd <$> netudp_server_send_state s i channel eid data
  | Broadcast channel data flags => netudp_server_broadcast blake2b_keyed s channel data flags
  | BroadcastExcept i channel data flags => netudp_server_broadcast_except blake2b_keyed s i channel data flags
  | Flush i => netudp_server_flush blake2b_keyed s i
  | Receive i n => snd <$> netudp_server_receive s i n
  | ReceiveBatch n => r ← netudp_server_receive_batch s n; Some (match r with inl _ => s | inr (_, s) => s end)
  | GroupCreate => snd <$> netudp_group_create s
  | GroupDestroy id => netudp_group_destroy s id
  | GroupAdd id i => snd <$> netudp_group_add s id i
  | GroupRemove id i => snd <$> netudp_group_remove s id i
  | GroupHas id i => _ ← netudp_group_has s id i; Some s
  | GroupSend id channel data flags => netudp_group_send blake2b_keyed s id channel data flags
  | GroupSendExcept id i channel data flags => netudp_group_send_except blake2b_keyed s id i channel data flags
  | GroupSendState id channel eid data => netudp_group_send_state s id channel eid data
  | SetHandler ty b => Some (netudp_server_set_packet_handler s ty b)
  end.
Fixpoint run (s : Server) (l : list call) : option Server :=
  match l with
  | [] => Some s
  | c :: l => s ← perform s c; run s l
  end.

(** The limits on calls: packets as the library sends them, and client numbers
    below [n] for the two group functions that do not check them. *)
Definition call_ok (n : Z) (c : call) : Prop :=
  match c with
  | Update _ arrived => Forall (fun p => packet_ok p.2) arrived
  | GroupRemove _ i | GroupHas _ i => i < n
  | _ => True
  end.

Lemma snd_good {A} s (o : option (A * Server)) :
  (exists r s', o = Some (r, s') /\ good s s') -> exists s', snd <$> o = Some s' /\ good s s'.
Proof. intros (r & s' & -> & G). by exists s'. Qed.

Lemma perform_ok s c :
  4 <= zlen (cfg_channels (cfg s)) -> server_wf s -> call_ok (max_clients s) c ->
  exists s', perform s c = Some s' /\ good s s'.
Proof.
  intros Hc Hs Hok. destruct c; cbn [perform call_ok] in *.
  - by apply update_ok.
  - by apply snd_good, send_ok.
  - by apply snd_good, send_state_ok.
  - unfold netudp_server_broadcast. case_if; [by exists s|by apply send_each_ok].
  - unfold netudp_server_broadcast_except. case_if; [by exists s|by apply send_each_ok].
  - by apply flush_ok.
  - apply snd_good. destruct (receive_ok s client_index max_messages Hs) as (ms & s' & E & G & _). by eexists _, _.
  - unfold netudp_server_receive_batch. case_if; [by eexists|].
    destruct (receive_each_ok (Slots.actives (sl s)) s 0 max_messages Hs) as (ms & s' & -> & G).
    rewrite !Some_bind. by exists s'.
  - by apply snd_good, group_create_ok.
  - by apply group_destroy_ok.
  - by apply snd_good, group_add_ok.
  - by apply snd_good, group_remove_ok.
  - destruct (group_has_ok s group_id client_index Hs Hok) as [r ->]. by exists s.
  - unfold netudp_group_send. case_if; [by exists s|].
    destruct (group_of_ok s group_id Hs) as ([g|] & -> & _); rewrite Some_bind; [by apply send_each_ok|by exists s].
  - unfold netudp_group_send_except. case_if; [by exists s|].
    destruct (group_of_ok s group_id Hs) as ([g|] & -> & _); rewrite Some_bind; [by apply send_each_ok|by exists s].
  - unfold netudp_group_send_state. case_if; [by exists s|].
    destruct (group_of_ok s group_id Hs) as ([g|] & -> & _); rewrite Some_bind; [by apply send_state_each_ok|by exists s].
  - unfold netudp_server_set_packet_handler. eexists. split; [done|]. case_if; [done|].
    split; [|done]. by destruct Hs; split.
Qed.
Lemma run_ok l : forall s,
  4 <= zlen (cfg_channels (cfg s)) -> server_wf s -> Forall (call_ok (max_clients s)) l ->
  exists s', run s l = Some s' /\ good s s'.
Proof.
  induction l as [|c l IH]; intros s Hc Hs Hl; cbn [run]; [by exists s|]. inversion Hl as [|? ? Hok Hl']; subst.
  destruct (perform_ok s c Hc Hs Hok) as (s1 & -> & G1). rewrite Some_bind.
  pose proof G1 as [Hs1 (E1 & E2 & _)].
  destruct (IH s1) as (s2 & -> & G2); [by rewrite E1|done|by rewrite E2|].
  exists s2. split; [done|]. exact (good_trans _ _ _ G1 G2).
Qed.
End Calls.

(** ** The start *)

Lemma fresh_groups_wf n mg :
  0 <= mg -> groups_wf n [] (replicate (Z.to_nat mg) Group.empty) mg ((fun i => mg - 1 - i) <$> seqZ 0 mg) mg.
Proof.
  intros Hm. assert (length ((fun i => mg - 1 - i) <$> seqZ 0 mg) = Z.to_nat mg) as Hl
    by by rewrite length_fmap, length_seqZ.
  split; rewrite ?(take_ge ((fun i => mg - 1 - i) <$> _)) by lia; try lia.
  - unfold zlen. rewrite length_replicate, Hl. lia.
  - by apply Forall_replicate.
  - apply NoDup_fmap_2; [intros x y Hxy; lia|apply NoDup_seqZ].
  - intros x. rewrite list_elem_of_fmap, fmap_replicate, lookup_replicate. split.
    + intros (y & -> & Hy). apply elem_of_seqZ in Hy. split; [lia|]. split; [done|lia].
    + intros [H1 [_ H2]]. exists (mg - 1 - x). split; [lia|]. apply elem_of_seqZ. lia.
Qed.
Lemma started_wf config time n :
  0 < n -> server_wf (netudp_server_start (netudp_server_create config time) n).
Proof.
  intros Hn. unfold netudp_server_start. rewrite (proj2 (Z.leb_gt n 0)) by done. cbv zeta.
  destruct (Slots.start_wf n ltac:(lia)) as [Hsl Ha].
  split; cbn [max_clients sl connections address_to_slot groups max_groups group_free_stack group_free_count
    pacing_current_slice fingerprint_map limiter cfg netudp_server_create]; rewrite ?Ha; [done|exact Hsl| | | |done| |apply RateLimiter.limiter_empty_wf].
  - split; [rewrite zlen_replicate; lia| |by intros i ?%elem_of_nil|].
    + intros i Hi. rewrite aget_replicate by lia. split; [done|by intros ?%elem_of_nil].
    + intros i Hi _. by rewrite aget_replicate by lia.
  - destruct (FixedHashMap.hm_empty_wf (V := Z) ADDRESSES fnv1a addresses_pow2) as [Hw He].
    split; [exact Hw|]. intros k slot. rewrite He. by rewrite lookup_empty.
  - apply fresh_groups_wf. destruct (cfg_max_groups config <=? 0) eqn:E; bool_facts; lia.
  - apply (FixedHashMap.hm_empty_wf FINGERPRINTS fp_hash fingerprints_pow2).
Qed.

Section Theorems.
Context `{Crypto.Aead} `{!AeadBytes} (blake2b_keyed blake2b_keyed_64 : bytes -> bytes -> bytes)
        (crypto_aead_unlock : bytes -> bytes -> bytes -> bytes -> bytes -> option bytes)
        (falloc : Z -> option bytes).

(** C4.  Between start and stop, whatever the calls of [call] and their arguments, in
    any order and with any contents of the packets an update handles, the server never
    accesses memory outside its objects, every call returns, and its tables stay
    consistent: the active list and the free stack split the slots, exactly the
    connections of active slots are active and they are well formed, every entry of
    the address table leads to the client with that address, groups contain connected
    clients only, and the stack of free groups is exact.  This holds within the limits
    of [call_ok], which the code does not check: a packet has 1 to 1215 bytes and the
    tag (the receive buffers take more, and a longer data packet overruns the buffer it
    is decrypted to), and netudp_group_remove and netudp_group_has get client numbers
    below max_clients.  Assumed are allocations that succeed and AEAD primitives that
    write as many bytes as they read less the tag.  Stopping, starting again and the
    statistics getters are not among the calls. *)
Theorem server_stays_safe config time n calls :
  (forall key nonce aad mac ct pt,
     crypto_aead_unlock key nonce aad mac ct = Some pt -> length pt = length ct) ->
  (forall i, exists b, falloc i = Some b /\ zlen b = NETUDP_MAX_MESSAGE_SIZE) ->
  0 < n -> 4 <= zlen (cfg_channels config) -> Forall (call_ok n) calls ->
  exists s, run blake2b_keyed blake2b_keyed_64 crypto_aead_unlock falloc
      (netudp_server_start (netudp_server_create config time) n) calls = Some s /\
    server_wf s /\ max_clients s = n /\ running s = true.
Proof.
  intros Hu Hf Hn Hc Hcalls. set (s0 := netudp_server_start _ _).
  assert (cfg s0 = config /\ max_clients s0 = n /\ running s0 = true) as (E1 & E2 & E3).
  { unfold s0, netudp_server_start. by rewrite (proj2 (Z.leb_gt n 0)) by done. }
  destruct (run_ok blake2b_keyed blake2b_keyed_64 crypto_aead_unlock falloc Hu Hf calls s0)
    as (s & E & Hw & (F1 & F2 & F3 & _)); [by rewrite E1|by apply started_wf|by rewrite E2|].
  exists s. split; [done|]. split; [done|]. by rewrite F2, F3.
Qed.
End Theorems.

#[export] Instance none_aead_bytes : AeadBytes (H := Crypto.none_aead).
Proof. split; [done|]. intros key nonce aad ct pt Hb [= <-]. split; [done|]. cbn. lia. Qed.

(** A server for two clients with three channels, as an example. *)
Definition demo_alloc (i : Z) : option bytes := Some (replicate (Z.to_nat NETUDP_MAX_MESSAGE_SIZE) 0).
Lemma demo_alloc_ok i : exists b, demo_alloc i = Some b /\ zlen b = NETUDP_MAX_MESSAGE_SIZE.
Proof.
  exists (replicate (Z.to_nat NETUDP_MAX_MESSAGE_SIZE) 0). split; [reflexivity|].
  rewrite zlen_replicate. apply Z2Nat.id. unfold NETUDP_MAX_MESSAGE_SIZE. lia.
Qed.
Definition demo_config : Config :=
  mkConfig 6 (replicate 32 1) (replicate 255 (mkChannelConfig 0 0 0 0)) 3 0 0.
Definition demo_client : address := mkAddress [10; 0; 0; 1; 0; 0; 0; 0; 0; 0; 0; 0; 0; 0; 0; 0] 7777 1.
Definition demo_hash (key data : bytes) : bytes := take 64 (data ++ replicate 64 0).
Definition demo_calls : list call :=
  [GroupCreate; Update (d_of_Z 1) [(demo_client, 0 :: replicate 1077 3); (demo_client, [20; 0; 0; 9; 9])];
   GroupAdd 0 1; Send 0 0 [1; 2; 3] 0; Broadcast 1 [7] 0; GroupRemove 0 1; Receive 0 16; ReceiveBatch 8;
   Update (d_of_Z 12) []].
Lemma demo_unlock_len key nonce aad mac ct pt : Token.demo_unlock key nonce aad mac ct = Some pt -> length pt = length ct.
Proof. unfold Token.demo_unlock. case_match; congruence. Qed.
Lemma demo_calls_ok : Forall (call_ok (H := Crypto.none_aead) 2) demo_calls.
Proof.
  assert (forall l, forallb (fun b => (0 <=? b) && (b <? 256)) l = true -> is_bytes l) as Hb.
  { intros l Hl. apply list.Forall_forall. intros b Hx. rewrite forallb_forall in Hl.
    apply list_elem_of_In in Hx. specialize (Hl b Hx). unfold is_u8. lia. }
  repeat constructor; cbn [call_ok snd]; try done; (apply Hb; by vm_compute) || by vm_compute.
Qed.
Lemma server_stays_safe_witness :
  exists s, run (H := Crypto.none_aead) demo_hash demo_hash Token.demo_unlock demo_alloc
      (netudp_server_start (netudp_server_create demo_config d0) 2) demo_calls = Some s /\
    server_wf s /\ max_clients s = 2 /\ running s = true.
Proof.
  apply (server_stays_safe (H := Crypto.none_aead) demo_hash demo_hash Token.demo_unlock demo_alloc demo_config d0 2).
  - exact demo_unlock_len.
  - exact demo_alloc_ok.
  - reflexivity.
  - vm_compute. discriminate.
  - exact demo_calls_ok.
Defined.

End ServerSafety.
