(* ===== verification/ServerApi.v ===== *)
(** What the server's API does for the application (src/src/server.cpp): the result
    codes of sending, the order of received messages, the pacing of updates and the
    refusal of replayed tokens.  All of it holds in every state that satisfies the
    invariant of ServerSafety.v. *)

From stdpp Require Import gmap.
From S2P Require Import Prelude Bytes Double RingBuffer HashMap PacketTracker ReliableChannel Channel.
From S2P Require Import Fragment Address Ddos RateLimiter PacketCrypto ConnectToken.
From S2P Require Import Connection Receive Send IndexSet Group Slots Server ConnSafety ServerSafety.

Module ServerApi.
Import Address Connection Receive Send Server ConnSafety ServerSafety.

(** * Sending *)

(** The result [netudp_server_send] documents, in the order of its checks. *)
Definition send_code (s : Server) (i channel : Z) (data : bytes) : Z :=
  if negb (running s) then NETUDP_ERROR_NOT_INITIALIZED
  else if (i <? 0) || (max_clients s <=? i) then NETUDP_ERROR_INVALID_PARAM
  else if negb (active (connections s).[i]) then NETUDP_ERROR_NOT_CONNECTED
  else if (channel <? 0) || (num_channels (connections s).[i] <=? channel) then NETUDP_ERROR_INVALID_PARAM
  else
    match cdata (connections s).[i] with
    | None => NETUDP_ERROR_NO_BUFFERS
    | Some d =>
        if (zlen data <=? 0) || (NETUDP_MTU <? zlen data) || (Channel.QUEUE_SIZE <=? zlen (queue d channel))
        then NETUDP_ERROR_NO_BUFFERS else NETUDP_OK
    end.

(** The message waits at the end of the channel's queue and the channel is marked
    as pending; nothing else changed. *)
Definition message_queued (s s' : Server) (i channel : Z) (data : bytes) (flags : Z) : Prop :=
  exists d x c', cdata (connections s).[i] = Some d /\ ch d channel = Some x /\
    s' = set_conn s i c' /\
    (exists x', cdata c' = Some (set_ch d channel x') /\
       Channel.qlist x' = Channel.qlist x ++ [Channel.mkQueued data (Channel.send_seq_ x) 0 flags true]) /\
    pending_mask c' = Z.lor (pending_mask (connections s).[i]) (2 ^ channel) /\ tag c' = tag (connections s).[i].

Lemma queue_send_cases x data flags :
  Channel.wf x ->
  Channel.queue_send x data flags =
    (if (zlen data <=? 0) || (NETUDP_MTU <? zlen data) || (Channel.QUEUE_SIZE <=? zlen (Channel.qlist x))
     then (false, x) else (true, snd (Channel.queue_send x data flags))) /\
  ((zlen data <=? 0) || (NETUDP_MTU <? zlen data) || (Channel.QUEUE_SIZE <=? zlen (Channel.qlist x)) = false ->
   Channel.qlist (snd (Channel.queue_send x data flags))
   = Channel.qlist x ++ [Channel.mkQueued data (Channel.send_seq_ x) 0 flags true]).
Proof.
  intros Hwf. unfold Channel.queue_send.
  assert (Channel.refines x (Channel.qlist x, Channel.send_seq_ x)) as Hr.
  { split; [done|]. split; [done|]. symmetry. apply u16_small, Hwf. }
  destruct (Channel.queue_send_refines x _ data flags 0 Hr) as [E1 (_ & E2 & _)].
  assert (zlen (Channel.qlist x) = RingBuffer.size_ (Channel.send_queue_ x)) as Hlen.
  { apply (RingBuffer.contents_length Channel.QUEUE_SIZE), Hwf. }
  pose proof Hwf as ((_ & _ & Hsz) & _). unfold Channel.ref_send, Channel.ref_append in *.
  unfold Channel.queue_send_impl, Channel.queue_append, RingBuffer.full in *.
  destruct ((zlen data <=? 0) || (NETUDP_MTU <? zlen data)) eqn:Ed; [done|]. cbn [orb].
  rewrite andb_false_r in *. cbn [andb] in *. rewrite Hlen in *.
  destruct (RingBuffer.size_ (Channel.send_queue_ x) =? Channel.QUEUE_SIZE) eqn:Ef.
  - rewrite (proj2 (Z.leb_le _ _)) by lia. done.
  - rewrite (proj2 (Z.leb_gt _ _)) in * by lia. split; [done|]. intros _. rewrite E2. cbn. by rewrite u16_small by apply Hwf.
Qed.

Lemma set_ch_same d channel x : ch d channel = Some x -> set_ch d channel x = d.
Proof.
  unfold ch, oget, set_ch. case_if; [|done]. intros Hx. destruct d. cbn in *. f_equal.
  unfold aset. by apply list_insert_id.
Qed.
Lemma set_conn_same s i c d :
  conn s i = Some c -> cdata c = Some d -> set_conn s i (set_cdata c (Some d)) = s.
Proof.
  unfold conn, oget, set_conn. case_if; [|done]. intros Hc Hd.
  assert (set_cdata c (Some d) = c) as -> by (destruct c; cbn in *; by rewrite Hd).
  destruct s. cbn in *. unfold set_connections. cbn. f_equal. unfold aset. by apply list_insert_id.
Qed.

Section Send.
Context `{Crypto.Aead} `{!AeadBytes} (blake2b_keyed : bytes -> bytes -> bytes).

(** The channel is flushed and the connection's sending loop runs once, with the
    effect [Send.sends] describes; nothing else changed. *)
Definition sent_at_once (s s' : Server) (i channel : Z) : Prop :=
  exists d x c' pkts d' out ms lost,
    cdata (connections s).[i] = Some d /\ ch d channel = Some x /\
    s' = emit (set_conn s i c') (packets_to c' pkts) /\
    let d1 := set_ch d channel (Channel.flush x) in
    sends (server_side blake2b_keyed (protocol_id (cfg s))) (current_time s)
      (set_cdata (connections s).[i] (Some d1)) d1 c' pkts d' out ms lost.

Lemma set_conn_twice s i c c' : set_conn (set_conn s i c) i c' = set_conn s i c'.
Proof. unfold set_conn, set_connections. cbn. f_equal. unfold aset. apply list_insert_insert_eq. Qed.
Lemma send_at_once s i channel d x :
  server_wf s -> i ∈ Slots.actives (sl s) -> cdata (connections s).[i] = Some d -> ch d channel = Some x ->
  exists s', send_pending_slot blake2b_keyed
      (set_conn s i (set_cdata (connections s).[i] (Some (set_ch d channel (Channel.flush x))))) i = Some s' /\
    sent_at_once s s' i channel.
Proof.
  intros Hs Hi Hd Hx. pose proof (active_slot s i Hs Hi) as Hr.
  pose proof (cw_wf _ _ _ (sw_conns _ Hs) i Hi) as (Hn & Ht & d' & Hd' & Hwd). rewrite Hd in Hd'. injection Hd' as <-.
  set (d1 := set_ch d channel (Channel.flush x)). set (c1 := set_cdata _ (Some d1)).
  assert (wf c1) as Hw.
  { split; [done|]. split; [done|]. exists d1. split; [done|]. apply set_ch_wf; [done|].
    apply Channel.flush_wf. unfold ch, oget in Hx. case_if_in Hx; [|done].
    destruct Hwd as (_ & _ & H3 & _). by eapply Forall_lookup_1. }
  unfold send_pending_slot, conn. cbn [connections set_conn set_connections].
  rewrite oget_aget, aget_aset_eq, Some_bind by (rewrite ?zlen_aset, (cw_len _ _ _ (sw_conns _ Hs)); lia).
  pose proof (server_side_ok blake2b_keyed (protocol_id (cfg s)) aead_small).
  destruct (send_pending_sends (server_side blake2b_keyed (protocol_id (cfg s))) (current_time s) c1 d1 Hw eq_refl)
    as (c' & pkts & d' & out & ms & lost & E & Hsn).
  change (protocol_id (cfg (set_conn s i c1))) with (protocol_id (cfg s)).
  change (current_time (set_conn s i c1)) with (current_time s).
  unfold server_send_pending. rewrite E, Some_bind. eexists. split; [done|].
  exists d, x, c', pkts, d', out, ms, lost. split; [done|]. split; [done|]. split; [|exact Hsn].
  f_equal. apply (set_conn_twice s i c1 c').
Qed.

(** C37.  [netudp_server_send] returns for every argument, with the error its checks
    call for or with NETUDP_OK; a message that is empty, longer than the 1200 bytes of
    NETUDP_MTU or more than the queue holds is refused with NETUDP_ERROR_NO_BUFFERS, and
    an error leaves the server exactly as it was.  When it succeeds, the message is put
    last in the queue of its channel and the channel is marked as pending; without
    NETUDP_SEND_NO_DELAY that is the only change, and with it the channel is flushed and
    the connection's sending loop runs once on the result. *)
Theorem send_outcome s i channel data flags :
  server_wf s ->
  exists s', netudp_server_send blake2b_keyed s i channel data flags
      = Some (send_code s i channel data, s') /\ server_wf s' /\
    (send_code s i channel data <> NETUDP_OK -> s' = s) /\
    (send_code s i channel data = NETUDP_OK ->
     exists s1, message_queued s s1 i channel data flags /\
       if has_flag flags NETUDP_SEND_NO_DELAY then sent_at_once s1 s' i channel else s' = s1).
Proof.
  intros Hs. destruct (send_ok blake2b_keyed s i channel data flags Hs) as (r & s' & E & G).
  revert E. unfold netudp_server_send, send_target, send_code.
  destruct (running s); cbn [negb]; [|rewrite Some_bind; by exists s].
  destruct ((i <? 0) || (max_clients s <=? i)) eqn:Ei; [rewrite Some_bind; by exists s|]. bool_facts.
  rewrite (conn_at s i Hs), Some_bind by lia. set (c := (connections s).[i]).
  destruct (active c) eqn:Ea; cbn [negb]; [|rewrite Some_bind; by exists s].
  destruct (client_at s i Hs ltac:(lia) Ea) as [Hin Hwf]. pose proof Hwf as (Hn & _ & d & Hd & Hwd).
  fold c in Hn, Hd, Hwf. unfold MAX_CHANNELS_PER_CONNECTION in Hn.
  destruct ((channel <? 0) || (num_channels c <=? channel)) eqn:Ec; [rewrite Some_bind; by exists s|]. bool_facts.
  rewrite Hd, Some_bind. destruct (ch_wf d channel Hwd ltac:(lia)) as (x & Hx & Hwx).
  rewrite Hx, !Some_bind. assert (queue d channel = Channel.qlist x) as ->.
  { unfold queue. unfold ch in Hx. destruct Hwd as (Hl & _). rewrite oget_aget in Hx by (unfold zlen; lia). congruence. }
  destruct (queue_send_cases x data flags Hwx) as [-> Hq].
  destruct ((zlen data <=? 0) || (NETUDP_MTU <? zlen data) || (Channel.QUEUE_SIZE <=? zlen (Channel.qlist x))) eqn:Eq;
    cbn [negb].
  - intros _. exists s. rewrite (set_ch_same _ _ _ Hx), (set_conn_same s i c d) by (done || by apply conn_at; [|lia]). done.
  - specialize (Hq eq_refl). set (x' := snd (Channel.queue_send x data flags)) in *. cbv zeta. intros E.
    exists s'. split; [|split; [apply G|split; [done|]]].
    + rewrite E. f_equal. f_equal. destruct (has_flag _ _); [|by injection E as <- _].
      repeat (case_match || simplify_option_eq || done).
    + intros _. assert (Channel.wf x') as Hwx' by by apply Channel.queue_send_impl_wf.
      exists (queued s i channel c d x'). split.
      { eexists d, x, _. split; [done|]. split; [done|]. split; [done|]. split_and!; [|cbn|done].
        - eexists. split; [done|]. rewrite <- Hq. unfold Channel.start_nagle. by case_if.
        - f_equal. rewrite Z.shiftl_1_l, u8_small; [done|]. unfold is_u8. split; [apply Z.pow_nonneg; lia|].
          apply Z.pow_lt_mono_r; lia. }
      destruct (has_flag flags NETUDP_SEND_NO_DELAY); [|by injection E as _ <-].
      destruct (good_queued s i channel c d x' Hs Hin eq_refl Hwf Hwd Hwx') as [Hs1 _].
      set (s1 := queued s i channel c d x') in *. rewrite (conn_at s1 i Hs1), Some_bind in E by (cbn; lia).
      destruct (cdata (connections s1).[i]) as [d1|] eqn:Ed1; [|done]. rewrite Some_bind in E.
      destruct (ch d1 channel) as [x1|] eqn:Ex1; [|done]. rewrite Some_bind in E.
      destruct (send_at_once s1 i channel d1 x1 Hs1 Hin Ed1 Ex1) as (s2 & E2 & Hs2).
      cbv zeta in E. rewrite E2, Some_bind in E. injection E as _ <-. exact Hs2.
Qed.
End Send.

(** * Receiving *)

(** [netudp_server_receive] hands out the messages of a client in the order they
    were delivered: it takes a prefix of the client's queue, returns its messages
    except those of a registered handler, which get called with them in the same
    order, and leaves the rest queued.  It stops early only when it has
    [max_messages] messages. *)
Theorem receive_in_order s i max d :
  server_wf s -> running s = true -> 0 <= i < max_clients s -> active (connections s).[i] = true ->
  cdata (connections s).[i] = Some d ->
  exists taken d' s', netudp_server_receive s i max = Some (received (handlers s) i taken, s') /\
    cdata (connections s').[i] = Some d' /\ delivered d = taken ++ delivered d' /\
    out s' = out s ++ handled i (handlers s) taken /\
    zlen (received (handlers s) i taken) <= Z.max 0 max /\
    (zlen (received (handlers s) i taken) = Z.max 0 max \/ delivered d' = []).
Proof.
  intros Hs Hrun Hi Ha Hd. unfold netudp_server_receive. rewrite Hrun. cbn [negb].
  destruct ((i <? 0) || (max_clients s <=? i)) eqn:Ei; [exfalso; lia|].
  rewrite (conn_at s i Hs Hi), Some_bind, Ha. cbn [negb]. rewrite Hd, Some_bind.
  destruct (client_at s i Hs Hi Ha) as [Hin (_ & _ & d0 & Hd0 & Hwd)]. rewrite Hd in Hd0. injection Hd0 as <-.
  pose proof Hwd as (_ & _ & _ & _ & _ & _ & Hq).
  destruct (receive_loop_ok (handlers s) i max (delivered_messages d) Hq)
    as ([[q ms] ev] & -> & Hq' & Hm & Hend & taken & El & -> & ->).
  eexists taken, (set_delivered d q), _. split; [done|]. split.
  - cbn. rewrite aget_aset_eq by (rewrite (cw_len _ _ _ (sw_conns _ Hs)); lia). done.
  - split; [exact El|]. split; [done|]. split; [done|exact Hend].
Qed.

(** * Pacing *)

(** The positions of the active list that [n] consecutive updates serve. *)
Fixpoint served (n : nat) (count slices current : Z) : list Z :=
  match n with
  | O => []
  | S n => let '(first, last, next) := pacing_slice count slices current in
           seqZ first (last - first) ++ served n count slices next
  end.

Section Pacing.
Context (count slices : Z) (Hsl : 1 < slices < count).

(** The first position of slice [k]. *)
Definition bound (k : Z) : Z := k * (count / slices) + Z.min k (count mod slices).

Lemma slice_bounds k :
  0 <= k < slices -> pacing_slice count slices k = (bound k, bound (k + 1), (k + 1) mod slices).
Proof.
  intros Hk. unfold pacing_slice, bound. rewrite (proj2 (Z.ltb_lt 1 slices)), (proj2 (Z.ltb_lt slices count)) by lia.
  cbn [andb]. rewrite Z.quot_div_nonneg, !Z.rem_mod_nonneg by (try apply Z.mod_pos_bound; lia).
  rewrite (Z.mod_small k slices), ?(Z.rem_mod_nonneg (k + 1)) by lia.
  case_if; match goal with |- (?a, ?b, ?c) = (?d, ?e, _) =>
    assert (b = e) as -> by lia; assert (a = d) as -> by lia; done end.
Qed.
Lemma bound_mono j k : 0 <= j <= k -> bound j <= bound k.
Proof. intros Hjk. unfold bound. assert (0 <= count / slices) by (apply Z.div_pos; lia). nia. Qed.
Lemma bound_all : bound 0 = 0 /\ bound slices = count.
Proof.
  unfold bound. pose proof (Z.mod_pos_bound count slices ltac:(lia)). pose proof (Z.div_mod count slices ltac:(lia)).
  split; [lia|]. rewrite Z.min_r by lia. lia.
Qed.
Lemma served_run n : forall k,
  0 <= k -> k + Z.of_nat n <= slices ->
  served n count slices k = seqZ (bound k) (bound (k + Z.of_nat n) - bound k).
Proof.
  induction n as [|n IH]; intros k Hk Hn; cbn [served].
  - rewrite Z.add_0_r, Z.sub_diag. done.
  - rewrite slice_bounds by lia.
    destruct (decide (k + 1 = slices)) as [E|Hne].
    + replace n with O by lia. cbn [served]. rewrite app_nil_r. by replace (k + Z.of_nat 1) with (k + 1) by lia.
    + rewrite Z.mod_small, IH by lia. replace (k + 1 + Z.of_nat n) with (k + Z.of_nat (S n)) by lia.
      pose proof (bound_mono k (k + 1) ltac:(lia)). pose proof (bound_mono (k + 1) (k + Z.of_nat (S n)) ltac:(lia)).
      replace (bound (k + Z.of_nat (S n)) - bound k)
        with ((bound (k + 1) - bound k) + (bound (k + Z.of_nat (S n)) - bound (k + 1))) by lia.
      rewrite seqZ_app by lia. do 2 f_equal. lia.
Qed.
Lemma served_wrap n : forall m k,
  0 <= k < slices -> k + Z.of_nat n = slices ->
  served (n + m) count slices k = served n count slices k ++ served m count slices 0.
Proof.
  induction n as [|n IH]; intros m k Hk Hn; [lia|]. cbn [served Nat.add]. rewrite slice_bounds by lia.
  rewrite <- app_assoc. f_equal. destruct (decide (k + 1 = slices)) as [E|Hne].
  - replace n with O by lia. cbn [Nat.add served app]. by rewrite E, Z.mod_same by lia.
  - rewrite Z.mod_small by lia. apply IH; lia.
Qed.
End Pacing.

Lemma served_positions count slices current :
  0 <= count -> 0 <= current -> 1 < slices < count ->
  served (Z.to_nat slices) count slices current ≡ₚ seqZ 0 count.
Proof.
  intros Hc Hcur Hsl. destruct (bound_all count slices Hsl) as [B0 B1].
  pose proof (Z.mod_pos_bound current slices ltac:(lia)) as Hk.
  assert (served (Z.to_nat slices) count slices current
          = served (Z.to_nat slices) count slices (current mod slices)) as ->.
  { destruct (Z.to_nat slices); [done|]. cbn [served]. unfold pacing_slice.
    rewrite (proj2 (Z.ltb_lt 1 slices)), (proj2 (Z.ltb_lt slices count)) by lia. cbn [andb].
    assert (Z.rem (current mod slices) slices = Z.rem current slices) as ->; [|done].
    by rewrite !Z.rem_mod_nonneg, Z.mod_mod by lia. }
  set (k := current mod slices) in *.
  pose proof (bound_mono count slices Hsl 0 k ltac:(lia)).
  pose proof (bound_mono count slices Hsl k slices ltac:(lia)).
  replace (Z.to_nat slices) with (Z.to_nat (slices - k) + Z.to_nat k)%nat by lia.
  rewrite served_wrap by lia. rewrite !served_run by lia.
  rewrite !Z2Nat.id by lia. replace (k + (slices - k)) with slices by lia. rewrite Z.add_0_l, B0, B1.
  set (b := bound count slices k) in *.
  assert (seqZ 0 count = seqZ 0 b ++ seqZ b (count - b)) as ->.
  { rewrite <- (Z.add_0_l b) at 2. rewrite <- seqZ_app by lia. f_equal. lia. }
  by rewrite Permutation_app_comm, Z.sub_0_r.
Qed.

Section Round.
Context `{Crypto.Aead} `{!AeadBytes} (blake2b_keyed : bytes -> bytes -> bytes).

(** Serving the connections of a list of slots, one after the other. *)
Fixpoint serve (l : list Z) (s : Server) (time dt : double) : option Server :=
  match l with
  | [] => Some s
  | i :: l =>
      c ← conn s i;
      '(c', pkts) ← update_connection blake2b_keyed (protocol_id (cfg s)) c time dt;
      serve l (emit (set_conn s i c') (packets_to c' pkts)) time dt
  end.

Lemma update_slots_serve n : forall a s time dt,
  0 <= a -> a + Z.of_nat n <= zlen (IndexSet.items (Slots.act (sl s))) ->
  update_slots blake2b_keyed n a s time dt
  = serve (aget (IndexSet.items (Slots.act (sl s))) <$> seqZ a (Z.of_nat n)) s time dt.
Proof.
  induction n as [|n IH]; intros a s time dt Ha Hn; [done|].
  rewrite (seqZ_cons a (Z.of_nat (S n))) by lia. replace (Z.pred (Z.of_nat (S n))) with (Z.of_nat n) by lia.
  cbn [update_slots fmap list_fmap serve]. rewrite oget_aget, Some_bind by lia.
  destruct (conn s _) as [c|]; [|done]. rewrite !Some_bind.
  destruct (update_connection _ _ _ _ _) as [[c' pkts]|]; [|done]. rewrite !Some_bind.
  rewrite IH by (cbn; lia). done.
Qed.

(** [l] is served on the way from [s] to [s']: each of its connections is updated once,
    from the state it had, the other connections stay as they are, and the packets go
    out in the order of [l]. *)
Definition serves (time dt : double) (s s' : Server) (l : list Z) : Prop :=
  NoDup l /\ (forall i, 0 <= i -> i ∉ l -> (connections s').[i] = (connections s).[i]) /\
  exists pkts, Forall2 (fun i p =>
      update_connection blake2b_keyed (protocol_id (cfg s)) (connections s).[i] time dt
      = Some ((connections s').[i], p)) l pkts /\
    out s' = out s ++ concat (zip_with (fun i p => packets_to (connections s').[i] p) l pkts).

Lemma Forall2_impl_elem {A B} (P Q : A -> B -> Prop) l k :
  Forall2 P l k -> (forall x y, x ∈ l -> P x y -> Q x y) -> Forall2 Q l k.
Proof.
  induction 1 as [|x y l k Hx _ IH]; intros Himp; constructor; [apply Himp; [left|done]|].
  apply IH. intros. apply Himp; [by right|done].
Qed.
Lemma serve_serves l : forall s time dt s',
  NoDup l -> Forall (fun i => 0 <= i < zlen (connections s)) l -> serve l s time dt = Some s' ->
  serves time dt s s' l /\ pacing_current_slice s' = pacing_current_slice s.
Proof.
  induction l as [|i l IH]; intros s time dt s' Hnd Hl E; cbn [serve] in E.
  { injection E as <-. split; [|done]. split; [done|]. split; [done|]. exists []. by rewrite app_nil_r. }
  inversion_clear Hnd as [|? ? Hi Hnd']. inversion_clear Hl as [|? ? Hr Hl'].
  unfold conn in E. rewrite oget_aget, Some_bind in E by done.
  destruct (update_connection _ _ _ _ _) as [[c' p]|] eqn:Ec; [|done]. rewrite Some_bind in E.
  set (s1 := emit (set_conn s i c') (packets_to c' p)) in E.
  assert (zlen (connections s1) = zlen (connections s)) as Hz by (cbn; by rewrite zlen_aset).
  assert (forall j, 0 <= j -> (connections s1).[j] = if decide (i = j) then c' else (connections s).[j]) as Hj.
  { intros j Hj. cbn. case_decide; [subst j; by apply aget_aset_eq|apply aget_aset_ne; lia]. }
  destruct (IH s1 time dt s' Hnd') as [(_ & Hkeep & pkts & Hp & Ho) Hcur]; [by rewrite Hz|done|].
  assert ((connections s').[i] = c') as Ei by (rewrite Hkeep, Hj, decide_True by (done || lia); done).
  split; [|exact Hcur]. split; [by constructor|]. split.
  - intros j Hj0 [Hne Hn]%not_elem_of_cons. rewrite Hkeep, Hj, decide_False by (done || lia). done.
  - exists (p :: pkts). split.
    + constructor; [by rewrite Ei|]. apply (Forall2_impl_elem _ _ _ _ Hp). intros j q Hin Hq.
      rewrite <- Hq. rewrite Hj, decide_False; [done|by intros ->|]. rewrite list.Forall_forall in Hl'. by apply Hl'.
    + rewrite Ho. cbn [zip_with concat]. rewrite Ei. cbn. by rewrite app_assoc.
Qed.

(** One call of [netudp_server_update] after its packets are handled, in which no
    connection times out. *)
Record Turn : Type := mkTurn { t_before : Server; t_time : double; t_dt : double; t_after : Server }.
Definition turn_ok (actives : list Z) (slices : Z) (u : Turn) : Prop :=
  server_wf (t_before u) /\ check_timeouts (t_before u) (t_time u) = Some (t_before u) /\
  update_rest blake2b_keyed (t_before u) (t_time u) (t_dt u) = Some (t_after u) /\
  Slots.actives (sl (t_before u)) = actives /\ pacing_slices (t_before u) = slices.
Definition turn_serves (u : Turn) (l : list Z) : Prop :=
  serves (t_time u) (t_dt u) (t_before u) (t_after u) l.
(** Nothing between two of them touches the slice number. *)
Fixpoint in_turn (current : Z) (us : list Turn) : Prop :=
  match us with
  | [] => True
  | u :: us => pacing_current_slice (t_before u) = current /\ in_turn (pacing_current_slice (t_after u)) us
  end.

Lemma slice_slots s first last :
  server_wf s -> 0 <= first -> last <= IndexSet.count (Slots.act (sl s)) ->
  aget (Slots.actives (sl s)) <$> seqZ first (last - first)
  = aget (IndexSet.items (Slots.act (sl s))) <$> seqZ first (last - first).
Proof.
  intros Hs Hf Hl. apply list_fmap_ext. intros k a Hk%list_elem_of_lookup_2%elem_of_seqZ.
  unfold Slots.actives, IndexSet.members, aget. rewrite lookup_total_take_lt by lia. done.
Qed.
Lemma aget_seqZ_all (l : list Z) : aget l <$> seqZ 0 (zlen l) = l.
Proof.
  apply list_eq_same_length with (n := length l); [done|rewrite length_fmap, length_seqZ; unfold zlen; lia|].
  intros k x y Hk Hx Hy. rewrite list_lookup_fmap, lookup_seqZ_lt in Hx by (unfold zlen; lia). cbn in Hx.
  injection Hx as <-. rewrite Z.add_0_l. apply aget_Some; [lia|]. by rewrite Nat2Z.id.
Qed.

Lemma slice_split (l : list Z) first last :
  0 <= first <= last -> last <= zlen l ->
  l = (aget l <$> seqZ 0 first) ++ (aget l <$> seqZ first (last - first)) ++
      (aget l <$> seqZ last (zlen l - last)).
Proof.
  intros H1 H2. rewrite <- (aget_seqZ_all l) at 1. rewrite <- !fmap_app. f_equal.
  pose proof (seqZ_app 0 first (zlen l - first) ltac:(lia) ltac:(lia)) as E1.
  pose proof (seqZ_app first (last - first) (zlen l - last) ltac:(lia) ltac:(lia)) as E2.
  replace (first + (zlen l - first)) with (zlen l) in E1 by lia. rewrite Z.add_0_l in E1.
  replace (last - first + (zlen l - last)) with (zlen l - first) in E2 by lia.
  replace (first + (last - first)) with last in E2 by lia. by rewrite E1, E2.
Qed.

Lemma turn_slice L slices u :
  turn_ok L slices u ->
  let '(first, last, next) := pacing_slice (zlen L) slices (pacing_current_slice (t_before u)) in
  turn_serves u (aget L <$> seqZ first (last - first)) /\ pacing_current_slice (t_after u) = next.
Proof.
  destruct u as [s tm d s']. unfold turn_ok, turn_serves. cbn [t_before t_time t_dt t_after].
  intros (Hs & Et & E & <- & <-).
  pose proof (Slots.sl_act _ _ (sw_slots _ Hs)) as Ha. pose proof (IndexSet.is_count _ Ha) as Hc.
  assert (zlen (Slots.actives (sl s)) = IndexSet.count (Slots.act (sl s))) as Hm by by apply IndexSet.zlen_members.
  unfold update_rest in E. rewrite Et, Some_bind in E. rewrite <- Hm in E.
  destruct (pacing_slice_range (zlen (Slots.actives (sl s))) (pacing_slices s) (pacing_current_slice s))
    as (first & last & next & Ep & Hf & Hl & _); [lia|apply (sw_pacing _ Hs)|].
  rewrite Ep in E |- *.
  rewrite update_slots_serve in E by (cbn; lia). rewrite Z2Nat.id in E by lia.
  change (IndexSet.items (Slots.act (sl (set_pacing_current_slice s next))))
    with (IndexSet.items (Slots.act (sl s))) in E.
  rewrite <- (slice_slots s first last Hs Hf) in E by lia.
  destruct (serve _ _ _ _) as [s2|] eqn:E2; [|done]. rewrite Some_bind in E.
  assert (NoDup (Slots.actives (sl s)) /\ Forall (fun i => 0 <= i < zlen (connections s)) (Slots.actives (sl s))) as [Hnd Hall].
  { split; [by apply IndexSet.members_NoDup|]. apply list.Forall_forall. intros i Hi.
    rewrite (cw_len _ _ _ (sw_conns _ Hs)). by apply active_slot. }
  rewrite (slice_split (Slots.actives (sl s)) first last) in Hnd, Hall by lia.
  apply list.NoDup_app in Hnd as (_ & _ & Hnd). apply list.NoDup_app in Hnd as [Hnd _].
  apply Forall_app in Hall as [_ Hall]. apply Forall_app in Hall as [Hall _].
  apply serve_serves in E2 as [Hsv Hcur]; [|done..].
  assert (serves tm d s s2 (aget (Slots.actives (sl s)) <$> seqZ first (last - first))) as Hsv' by exact Hsv.
  case_if_in E; [|injection E as <-; done].
  destruct (RateLimiter.cleanup _ _) as [l|]; [|done]. rewrite Some_bind in E. by injection E as <-.
Qed.

(** A round serves the positions [served] lists. *)
Lemma round_serves L slices us : forall current,
  Forall (turn_ok L slices) us -> in_turn current us ->
  exists ls, Forall2 turn_serves us ls /\
    concat ls = aget L <$> served (length us) (zlen L) slices current.
Proof.
  induction us as [|u us IH]; intros current Hok Hin; [by exists []|].
  inversion_clear Hok as [|? ? Hu Hus]. destruct Hin as [<- Hin]. pose proof (turn_slice L slices u Hu) as Ht.
  cbn [length served]. destruct (pacing_slice _ _ _) as [[first last] next]. destruct Ht as [Hsv Hn].
  rewrite Hn in Hin. destruct (IH next Hus Hin) as (ls & Hls & E).
  eexists (_ :: ls). split; [by constructor|]. cbn [concat]. by rewrite E, fmap_app.
Qed.

(** C38.  Pacing serves every connection.  Take consecutive updates in which nobody joins,
    leaves or times out: each serves a list of different connections, updating each of
    them once and no other, and sends their packets in that order.  With more
    connections than slices, a round of as many updates as there are slices serves every
    active connection exactly once, whichever slice comes first; with no more
    connections than slices, or no pacing, every update serves them all.  A client that
    leaves during a round moves the last connection to its place, which can leave it out
    of that round ([removal_skips_connection]). *)
Theorem pacing_serves_all L slices current us :
  Forall (turn_ok L slices) us -> in_turn current us ->
  exists ls, Forall2 turn_serves us ls /\
    (1 < slices < zlen L -> zlen us = slices -> concat ls ≡ₚ L) /\
    (~ 1 < slices < zlen L -> Forall (eq L) ls).
Proof.
  intros Hok Hin. destruct (decide (1 < slices < zlen L)) as [Hsl|Hsl].
  - destruct (round_serves L slices us current Hok Hin) as (ls & Hls & E). exists ls. split; [done|].
    split; [|done]. intros _ Hlen.
    assert (0 <= current) as Hcur.
    { destruct us as [|u us]; [unfold zlen in Hlen; cbn in Hlen; lia|]. inversion_clear Hok as [|? ? Hu _].
      destruct Hin as [<- _]. apply sw_pacing, Hu. }
    rewrite E. replace (length us) with (Z.to_nat slices) by (unfold zlen in Hlen; lia).
    rewrite served_positions by (done || apply zlen_nonneg). by rewrite aget_seqZ_all.
  - exists (replicate (length us) L). split; [|split; [done|]].
    + apply Forall2_replicate_r; [done|]. refine (list.Forall_impl _ _ _ Hok _). intros u Hu.
      pose proof (turn_slice L slices u Hu) as Ht. unfold pacing_slice in Ht. case_if_in Ht; [exfalso; lia|].
      destruct Ht as [Ht _]. by rewrite Z.sub_0_r, aget_seqZ_all in Ht.
    + intros _. by apply Forall_replicate.
Qed.
End Round.

(** * Replayed tokens *)

Section Replay.
Context `{Crypto.Aead} `{!AeadBytes} (blake2b_keyed blake2b_keyed_64 : bytes -> bytes -> bytes)
        (crypto_aead_unlock : bytes -> bytes -> bytes -> bytes -> bytes -> option bytes)
        (falloc : Z -> option bytes).

(** The key of a token in the table of used tokens. *)
Definition print_of (s : Server) (encrypted : bytes) : Z :=
  le_value (Token.compute_token_fingerprint blake2b_keyed_64 (private_key (cfg s)) encrypted).
(** The address a token is bound to. *)
Definition bound_to (s : Server) (encrypted : bytes) : option address :=
  fp_address <$> FixedHashMap.find FINGERPRINTS fp_hash (print_of s encrypted) (fingerprint_map s).

Lemma bound_kept s s' encrypted a :
  good s s' -> server_wf s -> bound_to s encrypted = Some a ->
  exists a', bound_to s' encrypted = Some a' /\ netudp_address_equal a a' = true.
Proof.
  intros [Hs' (Ec & _ & _ & _ & Hk)] Hs. unfold bound_to, print_of. rewrite Ec.
  rewrite !(FixedHashMap.find_spec FINGERPRINTS fp_hash fingerprints_pow2) by (by apply sw_prints).
  intros (v & Hv & ->)%fmap_Some. destruct (Hk _ _ Hv) as (v' & -> & E). by exists (fp_address v').
Qed.

Lemma accept_client_prints s from priv s1 :
  accept_client (Some falloc) s from priv = Some s1 -> fingerprint_map s1 = fingerprint_map s /\ cfg s1 = cfg s.
Proof.
  unfold accept_client. destruct (Slots.allocate (sl s)) as [[[slot|] l]|]; rewrite ?Some_bind; [|by intros [= <-]|done].
  destruct (conn _ slot) as [c|]; [|done]. rewrite Some_bind. cbv zeta.
  destruct (open_connection _ _ _ _ _ _) as [c1|]; [|done]. rewrite Some_bind.
  destruct (send_accepted _ _ _) as [[c2 pkts]|]; [|done]. rewrite Some_bind. by intros [= <-].
Qed.

(** The token of a request is now bound to its sender. *)
Lemma request_binds s from packet enc ts priv s1 :
  server_wf s -> request_token crypto_aead_unlock s packet = Some (Some (enc, ts, priv)) ->
  connected s (Token.client_id priv) = false ->
  (forall a, bound_to s enc = Some a -> netudp_address_equal a from = true) ->
  FixedHashMap.size (fingerprint_map s) < FINGERPRINTS ->
  server_handle_connection_request blake2b_keyed_64 crypto_aead_unlock (Some falloc) s from packet = Some s1 ->
  bound_to s1 enc = Some from.
Proof.
  intros Hs Hr Hc Hb Hsz. unfold server_handle_connection_request. rewrite Hr, Some_bind, Hc.
  fold (print_of s enc). unfold bound_to in Hb. cbv zeta.
  assert (match FixedHashMap.find FINGERPRINTS fp_hash (print_of s enc) (fingerprint_map s) with
    | Some v => negb (netudp_address_equal (fp_address v) from) | None => false end = false) as ->.
  { destruct (FixedHashMap.find _ _ _ _) as [v|]; [|done]. by rewrite (Hb _ eq_refl). }
  set (s0 := set_fingerprint_map _ _). intros E.
  apply accept_client_prints in E as [E1 E2].
  unfold bound_to, print_of. rewrite E1, E2. unfold s0. cbn [fingerprint_map set_fingerprint_map cfg].
  fold (print_of s enc).
  destruct (FixedHashMap.insert_spec FINGERPRINTS fp_hash fingerprints_pow2 (fingerprint_map s) (print_of s enc)
    (mkFingerprint from ts) (sw_prints _ Hs)) as [Hin _].
  destruct Hin as (p & m' & -> & Hm' & Em & _); [by right|]. cbn [snd].
  rewrite (FixedHashMap.find_spec FINGERPRINTS fp_hash fingerprints_pow2) by done. by rewrite Em, lookup_insert_eq.
Qed.

(** C10.  A connect token works from one address only.  Once a request with a valid
    token has come from [from] (and the table of used tokens had room), then after
    any further calls and packets a request with the same token from a different
    address is ignored: the server does not change at all. *)
Theorem replayed_token_refused s from packet enc ts priv calls from' packet' ts' priv' :
  (forall key nonce aad mac ct pt,
     crypto_aead_unlock key nonce aad mac ct = Some pt -> length pt = length ct) ->
  (forall i, exists b, falloc i = Some b /\ zlen b = NETUDP_MAX_MESSAGE_SIZE) ->
  server_wf s -> 4 <= zlen (cfg_channels (cfg s)) -> Forall (call_ok (max_clients s)) calls ->
  request_token crypto_aead_unlock s packet = Some (Some (enc, ts, priv)) ->
  connected s (Token.client_id priv) = false ->
  (forall a, bound_to s enc = Some a -> netudp_address_equal a from = true) ->
  FixedHashMap.size (fingerprint_map s) < FINGERPRINTS ->
  exists s1 s2,
    server_handle_connection_request blake2b_keyed_64 crypto_aead_unlock (Some falloc) s from packet = Some s1 /\
    run blake2b_keyed blake2b_keyed_64 crypto_aead_unlock falloc s1 calls = Some s2 /\
    (netudp_address_equal from from' = false ->
     request_token crypto_aead_unlock s2 packet' = Some (Some (enc, ts', priv')) ->
     server_handle_connection_request blake2b_keyed_64 crypto_aead_unlock (Some falloc) s2 from' packet' = Some s2).
Proof.
  intros Hu Hf Hs Hc Hcalls Hr Hn Hb Hsz.
  destruct (connection_request_ok blake2b_keyed_64 crypto_aead_unlock falloc Hu Hf s from packet Hc Hs)
    as (s1 & E1 & G1). pose proof G1 as [Hs1 (C1 & N1 & _)].
  destruct (run_ok blake2b_keyed blake2b_keyed_64 crypto_aead_unlock falloc Hu Hf calls s1)
    as (s2 & E2 & G2); [by rewrite C1|done|by rewrite N1|].
  exists s1, s2. split; [done|]. split; [done|]. intros Hne Hr2.
  pose proof (request_binds s from packet enc ts priv s1 Hs Hr Hn Hb Hsz E1) as B1.
  destruct (bound_kept s1 s2 enc from G2 Hs1 B1) as (a & B2 & Ha).
  unfold server_handle_connection_request. rewrite Hr2, Some_bind. case_if; [done|].
  fold (print_of s2 enc). cbv zeta. unfold bound_to in B2.
  destruct (FixedHashMap.find _ _ (print_of s2 enc) _) as [v|]; [|done]. injection B2 as ->.
  assert (netudp_address_equal a from' = false) as ->; [|done].
  apply not_true_is_false. intros Ha'. apply not_true_iff_false in Hne. apply Hne.
  by eapply address_equal_trans.
Qed.
End Replay.

(** * Examples *)

(** A server for two clients, the first connected with two messages delivered and
    one message waiting to be sent. *)
Definition demo_start : Server := netudp_server_start (netudp_server_create demo_config d0) 2.
Definition demo_messages : list DeliveredMessage :=
  [mkDelivered [4; 5] 0 0 true; mkDelivered [6] 0 1 true].
Definition demo_online : Connection :=
  set_active (set_cdata demo_sender (Some (foldl deliver demo_queued demo_messages))) true.

Lemma demo_online_wf : wf demo_online.
Proof.
  destruct demo_sender_wf as (H1 & H2 & d & Hd & Hwd). cbn in Hd. injection Hd as <-.
  split; [done|]. split; [done|]. eexists. split; [done|]. cbn [foldl demo_messages].
  by do 2 apply deliver_delivered.
Qed.
(** A connected client takes the next slot. *)
Definition join (s : Server) : Server :=
  match Slots.allocate (sl s) with
  | Some (Some i, l) => set_conn (set_sl s l) i demo_online
  | _ => s
  end.
Lemma join_wf s : server_wf s -> server_wf (join s).
Proof.
  intros Hs. pose proof Hs as [H1 H2 H3 H4 H5 H6 H7 H8]. unfold join.
  destruct (Slots.allocate_spec (max_clients s) (sl s) ltac:(lia) H2) as (r & l & -> & Hl & Hr).
  destruct r as [i|]; [|done]. destruct Hr as (Hr & Hnew & Ea & _).
  split; try done; cbn [max_clients sl connections address_to_slot set_conn set_connections
    set_sl groups max_groups group_free_stack group_free_count]; rewrite Ea.
  - apply conns_open; try done; [intros j; by apply active_slot|exact demo_online_wf].
  - destruct H4 as [Hm He]. split; [exact Hm|]. intros k x Hk. destruct (He k x Hk) as [Hx Hp].
    split; [apply elem_of_app; by left|]. rewrite aget_aset_ne; [exact Hp|lia|by apply (active_slot s)|].
    by intros ->.
  - eapply groups_grow; [|exact H5]. intros x Hx. apply elem_of_app. by left.
Qed.
Definition demo_server : Server := join demo_start.
Lemma demo_server_wf : server_wf demo_server.
Proof. by apply join_wf, started_wf. Qed.

(** A message for the connected client, to wait and to be sent at once. *)
Lemma send_outcome_witness :
  exists s', netudp_server_send (H := Crypto.none_aead) demo_hash demo_server 0 0 [1; 2; 3] 0
      = Some (send_code demo_server 0 0 [1; 2; 3], s') /\ server_wf s' /\
    message_queued demo_server s' 0 0 [1; 2; 3] 0 /\
  exists s1 s2, netudp_server_send (H := Crypto.none_aead) demo_hash demo_server 0 0 [1; 2; 3] NETUDP_SEND_NO_DELAY
      = Some (NETUDP_OK, s2) /\ message_queued demo_server s1 0 0 [1; 2; 3] NETUDP_SEND_NO_DELAY /\
    sent_at_once (H := Crypto.none_aead) demo_hash s1 s2 0 0.
Proof.
  destruct (send_outcome (H := Crypto.none_aead) demo_hash demo_server 0 0 [1; 2; 3] 0 demo_server_wf)
    as (s' & E & Hs & _ & Hq).
  destruct (send_outcome (H := Crypto.none_aead) demo_hash demo_server 0 0 [1; 2; 3] NETUDP_SEND_NO_DELAY
    demo_server_wf) as (s2 & E2 & _ & _ & Hq2).
  exists s'. split; [exact E|]. split; [exact Hs|]. split.
  - destruct (Hq eq_refl) as (s1 & Hm & ->). exact Hm.
  - destruct (Hq2 eq_refl) as (s1 & Hm & Hsent). exists s1, s2. split; [exact E2|]. split; [exact Hm|exact Hsent].
Defined.
Lemma receive_in_order_witness :
  exists taken d' s', netudp_server_receive demo_server 0 1
      = Some (received (handlers demo_server) 0 taken, s') /\
    demo_messages = taken ++ delivered d' /\ zlen (received (handlers demo_server) 0 taken) <= 1.
Proof.
  destruct (receive_in_order demo_server 0 1 (foldl deliver demo_queued demo_messages) demo_server_wf)
    as (taken & d' & s' & E & _ & El & _ & Hl & _); [reflexivity|done|reflexivity|reflexivity|].
  exists taken, d', s'. split; [exact E|]. split; [|exact Hl]. rewrite <- El. reflexivity.
Defined.

(** Three clients in two slices: two updates serve each of them once. *)
Definition paced_config : Config :=
  mkConfig 6 (replicate 32 1) (replicate 255 (mkChannelConfig 0 0 0 0)) 3 0 2.
Definition demo_paced (k : Z) : Server :=
  set_pacing_current_slice (join (join (join (netudp_server_start (netudp_server_create paced_config d0) 3)))) k.
Lemma set_slice_wf s k : 0 <= k -> server_wf s -> server_wf (set_pacing_current_slice s k).
Proof. intros Hk []. by split. Qed.
Lemma demo_paced_wf k : 0 <= k -> server_wf (demo_paced k).
Proof. intros Hk. apply set_slice_wf; [done|]. by do 3 apply join_wf; apply started_wf. Qed.
Lemma demo_turn k :
  0 <= k < 2 -> exists s', turn_ok (H := Crypto.none_aead) demo_hash [0; 1; 2] 2 (mkTurn (demo_paced k) d0 d0 s').
Proof.
  intros Hk. destruct (update_rest_ok (H := Crypto.none_aead) demo_hash (demo_paced k) d0 d0) as (s' & E & _);
    [apply demo_paced_wf; lia|].
  exists s'. split; [apply demo_paced_wf; lia|]. split; [|split; [exact E|by vm_compute]].
  clear E. assert (k = 0 \/ k = 1) as [->| ->] by lia; by vm_compute.
Qed.
Lemma pacing_serves_all_witness :
  exists s1 s2 l l',
    turn_serves (H := Crypto.none_aead) demo_hash (mkTurn (demo_paced 1) d0 d0 s1) l /\
    turn_serves (H := Crypto.none_aead) demo_hash (mkTurn (demo_paced 0) d0 d0 s2) l' /\
    l ++ l' ≡ₚ [0; 1; 2].
Proof.
  destruct (demo_turn 1 ltac:(lia)) as (s1 & H1). destruct (demo_turn 0 ltac:(lia)) as (s2 & H2).
  pose proof (turn_slice (H := Crypto.none_aead) demo_hash _ _ _ H1) as Ht.
  destruct (pacing_serves_all (H := Crypto.none_aead) demo_hash [0; 1; 2] 2 1
    [mkTurn (demo_paced 1) d0 d0 s1; mkTurn (demo_paced 0) d0 d0 s2]) as (ls & Hls & Hall & _).
  - constructor; [exact H1|]. constructor; [exact H2|constructor].
  - split; [reflexivity|]. split; [|exact I]. symmetry. apply Ht.
  - apply Forall2_cons_inv_l in Hls as (l & ls' & Hu & Hls & ->).
    apply Forall2_cons_inv_l in Hls as (l' & ls'' & Hv & Hls & ->). apply Forall2_nil_inv_l in Hls as ->.
    exists s1, s2, l, l'. split; [exact Hu|]. split; [exact Hv|].
    rewrite <- (app_nil_r l'). exact (Hall ltac:(done) eq_refl).
Defined.

(** Of five clients in two slices, the first three are served; the client in the first
    place leaves, the last one takes that place, and the second slice of the four that
    are left does not have it. *)
Lemma removal_skips_connection :
  exists l, IndexSet.swap_remove (IndexSet.mkISet [10; 11; 12; 13; 14] 5 (replicate 10 (-1) ++ [0; 1; 2; 3; 4])) 10 0 = Some l /\
    served 1 5 2 0 = [0; 1; 2] /\ IndexSet.members l = [14; 11; 12; 13] /\ served 1 4 2 1 = [2; 3].
Proof. eexists. by vm_compute. Qed.

(** A request with a token for [demo_config]. *)
Definition demo_token : bytes :=
  match Token.netudp_generate_connect_token Token.demo_lock 1 [Token.demo_addr] 60 10 5 6 (replicate 32 1) None
    (replicate 32 2) (replicate 32 3) (replicate 24 4) 1000 (replicate 2048 0) with
  | Some (_, t) => t | None => [] end.
Definition demo_request : bytes :=
  [0] ++ take 21 demo_token ++ take 8 (drop 29 demo_token) ++ take 1048 (drop 37 demo_token).
Lemma demo_request_valid :
  exists enc ts priv, request_token Token.demo_unlock demo_start demo_request = Some (Some (enc, ts, priv)) /\
    bound_to demo_hash demo_start enc = None.
Proof.
  destruct (request_token Token.demo_unlock demo_start demo_request) as [[[[enc ts] priv]|]|] eqn:E;
    [|by vm_compute in E..].
  exists enc, ts, priv. split; [done|]. vm_compute in E. injection E as <- _ _. by vm_compute.
Qed.
Definition demo_other : address := mkAddress [10; 0; 0; 2; 0; 0; 0; 0; 0; 0; 0; 0; 0; 0; 0; 0] 7777 1.
Lemma replayed_token_refused_witness :
  exists enc ts priv s1 s2,
    request_token Token.demo_unlock demo_start demo_request = Some (Some (enc, ts, priv)) /\
    server_handle_connection_request (H := Crypto.none_aead) demo_hash Token.demo_unlock (Some demo_alloc)
      demo_start demo_client demo_request = Some s1 /\
    run (H := Crypto.none_aead) demo_hash demo_hash Token.demo_unlock demo_alloc s1 demo_calls = Some s2 /\
    (request_token Token.demo_unlock s2 demo_request = Some (Some (enc, ts, priv)) ->
     server_handle_connection_request (H := Crypto.none_aead) demo_hash Token.demo_unlock (Some demo_alloc)
       s2 demo_other demo_request = Some s2).
Proof.
  destruct demo_request_valid as (enc & ts & priv & E & Hb).
  destruct (replayed_token_refused (H := Crypto.none_aead) demo_hash demo_hash Token.demo_unlock demo_alloc
    demo_start demo_client demo_request enc ts priv demo_calls demo_other demo_request ts priv
    demo_unlock_len demo_alloc_ok) as (s1 & s2 & E1 & E2 & H3).
  - apply started_wf. reflexivity.
  - vm_compute. discriminate.
  - exact demo_calls_ok.
  - exact E.
  - reflexivity.
  - intros a Ha. rewrite Hb in Ha. discriminate.
  - reflexivity.
  - exists enc, ts, priv, s1, s2. split; [exact E|]. split; [exact E1|]. split; [exact E2|]. apply H3. reflexivity.
Defined.

End ServerApi.
