(* ===== verification/Client.v ===== *)
(** The client (src/src/client.cpp) and its states (src/src/connection/client_state.h).

    [csent] are the packets handed to the socket, oldest first, and [connected_to]
    is where the socket was connected to; the socket itself is in ClientIo.v.  The part
    of a packet or of sending that concerns the connection is in Receive.v and
    Send.v.  A result of [None] is an access outside an object. *)

From S2P Require Import Prelude Bytes Double RingBuffer Replay PacketTracker Channel Address Bandwidth Stats.
From S2P Require Import PacketCrypto ConnectToken Connection Receive Send Server.

Module Client.
Import Address Connection Receive Send.

Inductive ClientState : Type :=
  | TOKEN_EXPIRED | INVALID_TOKEN | CONNECTION_TIMED_OUT | RESPONSE_TIMED_OUT | REQUEST_TIMED_OUT
  | CONNECTION_DENIED | DISCONNECTED | SENDING_REQUEST | SENDING_RESPONSE | CONNECTED.
#[global] Instance client_state_eq_dec : EqDecision ClientState.
Proof. solve_decision. Defined.

Definition state_value (s : ClientState) : Z :=
  match s with
  | TOKEN_EXPIRED => -6 | INVALID_TOKEN => -5 | CONNECTION_TIMED_OUT => -4 | RESPONSE_TIMED_OUT => -3
  | REQUEST_TIMED_OUT => -2 | CONNECTION_DENIED => -1 | DISCONNECTED => 0 | SENDING_REQUEST => 1
  | SENDING_RESPONSE => 2 | CONNECTED => 3
  end.
Definition is_error_state (s : ClientState) : bool := state_value s <? 0.
Definition is_connected (s : ClientState) : bool := bool_decide (s = CONNECTED).

Record Config : Type := mkClientConfig {
  protocol_id : Z; channels_cfg : list channel_config; num_channels_cfg : Z }.

Record Client : Type := mkClient {
  state : ClientState;
  ccfg : Config;
  connect_token : bytes;
  ctimeout : Z;
  num_server_addresses : Z;
  server_addresses : list address;
  current_server_index : Z;
  client_to_server_key : bytes;
  server_to_client_key : bytes;
  cconn : Connection;
  client_index : Z;
  cmax_clients : Z;
  server_slot_id : Z;
  connect_start_time : double;
  clast_send_time : double;
  ccurrent_time : double;
  connected_to : option address;
  csent : list bytes }.

Definition set_state (c : Client) (v_state : ClientState) : Client :=
  mkClient v_state (ccfg c) (connect_token c) (ctimeout c) (num_server_addresses c)
    (server_addresses c) (current_server_index c) (client_to_server_key c) (server_to_client_key c)
    (cconn c) (client_index c) (cmax_clients c) (server_slot_id c) (connect_start_time c)
    (clast_send_time c) (ccurrent_time c) (connected_to c) (csent c).
Definition set_cconn (c : Client) (v_cconn : Connection) : Client :=
  mkClient (state c) (ccfg c) (connect_token c) (ctimeout c) (num_server_addresses c)
    (server_addresses c) (current_server_index c) (client_to_server_key c) (server_to_client_key c)
    v_cconn (client_index c) (cmax_clients c) (server_slot_id c) (connect_start_time c)
    (clast_send_time c) (ccurrent_time c) (connected_to c) (csent c).
Definition set_token (c : Client) (v_connect_token : bytes) (v_ctimeout : Z) (v_num_server_addresses : Z) : Client :=
  mkClient (state c) (ccfg c) v_connect_token v_ctimeout v_num_server_addresses (server_addresses c)
    (current_server_index c) (client_to_server_key c) (server_to_client_key c) (cconn c)
    (client_index c) (cmax_clients c) (server_slot_id c) (connect_start_time c) (clast_send_time c)
    (ccurrent_time c) (connected_to c) (csent c).
Definition set_servers (c : Client) (v_server_addresses : list address) (v_client_to_server_key : bytes) (v_server_to_client_key : bytes) : Client :=
  mkClient (state c) (ccfg c) (connect_token c) (ctimeout c) (num_server_addresses c)
    v_server_addresses (current_server_index c) v_client_to_server_key v_server_to_client_key (cconn
    c) (client_index c) (cmax_clients c) (server_slot_id c) (connect_start_time c) (clast_send_time
    c) (ccurrent_time c) (connected_to c) (csent c).
Definition set_ctime (c : Client) (v_ccurrent_time : double) : Client :=
  mkClient (state c) (ccfg c) (connect_token c) (ctimeout c) (num_server_addresses c)
    (server_addresses c) (current_server_index c) (client_to_server_key c) (server_to_client_key c)
    (cconn c) (client_index c) (cmax_clients c) (server_slot_id c) (connect_start_time c)
    (clast_send_time c) v_ccurrent_time (connected_to c) (csent c).
Definition set_clast_send (c : Client) (v_clast_send_time : double) : Client :=
  mkClient (state c) (ccfg c) (connect_token c) (ctimeout c) (num_server_addresses c)
    (server_addresses c) (current_server_index c) (client_to_server_key c) (server_to_client_key c)
    (cconn c) (client_index c) (cmax_clients c) (server_slot_id c) (connect_start_time c)
    v_clast_send_time (ccurrent_time c) (connected_to c) (csent c).
Definition set_start (c : Client) (v_current_server_index : Z) (v_connect_start_time : double) : Client :=
  mkClient (state c) (ccfg c) (connect_token c) (ctimeout c) (num_server_addresses c)
    (server_addresses c) v_current_server_index (client_to_server_key c) (server_to_client_key c)
    (cconn c) (client_index c) (cmax_clients c) (server_slot_id c) v_connect_start_time
    (clast_send_time c) (ccurrent_time c) (connected_to c) (csent c).
Definition set_index (c : Client) (v_client_index : Z) : Client :=
  mkClient (state c) (ccfg c) (connect_token c) (ctimeout c) (num_server_addresses c)
    (server_addresses c) (current_server_index c) (client_to_server_key c) (server_to_client_key c)
    (cconn c) v_client_index (cmax_clients c) (server_slot_id c) (connect_start_time c)
    (clast_send_time c) (ccurrent_time c) (connected_to c) (csent c).
Definition set_accepted (c : Client) (v_client_index : Z) (v_cmax_clients : Z) (v_server_slot_id : Z) : Client :=
  mkClient (state c) (ccfg c) (connect_token c) (ctimeout c) (num_server_addresses c)
    (server_addresses c) (current_server_index c) (client_to_server_key c) (server_to_client_key c)
    (cconn c) v_client_index v_cmax_clients v_server_slot_id (connect_start_time c) (clast_send_time
    c) (ccurrent_time c) (connected_to c) (csent c).
Definition set_connected_to (c : Client) (v_connected_to : option address) : Client :=
  mkClient (state c) (ccfg c) (connect_token c) (ctimeout c) (num_server_addresses c)
    (server_addresses c) (current_server_index c) (client_to_server_key c) (server_to_client_key c)
    (cconn c) (client_index c) (cmax_clients c) (server_slot_id c) (connect_start_time c)
    (clast_send_time c) (ccurrent_time c) v_connected_to (csent c).
Definition set_csent (c : Client) (v_csent : list bytes) : Client :=
  mkClient (state c) (ccfg c) (connect_token c) (ctimeout c) (num_server_addresses c)
    (server_addresses c) (current_server_index c) (client_to_server_key c) (server_to_client_key c)
    (cconn c) (client_index c) (cmax_clients c) (server_slot_id c) (connect_start_time c)
    (clast_send_time c) (ccurrent_time c) (connected_to c) v_csent.
Definition cemit (c : Client) (l : list bytes) : Client := set_csent c (csent c ++ l).

(** [netudp_client_create], once the socket is open. *)
Definition netudp_client_create (config : Config) (time : double) : Client :=
  mkClient DISCONNECTED config (replicate 2048 0) 10 0 (replicate 32 address_zero) 0 (replicate 32 0)
    (replicate 32 0) fresh (-1) 0 65535 d0 d0 time None [].

Section Client.
Context `{Crypto.Aead} (alloc : option (Z -> option bytes)).

(** The keys and subsystems of a new attempt. *)
Definition prepare_connection (c : Client) (pub : Token.PublicToken) : option Connection :=
  let k := cconn c in
  let k := set_key_epoch k (Server.set_keys (key_epoch k) (Token.pub_c2s pub) (Token.pub_s2c pub)) in
  init_subsystems k alloc (channels_cfg (ccfg c)) (num_channels_cfg (ccfg c)) (ccurrent_time c).

Definition netudp_client_connect (c : Client) (token : bytes) : option Client :=
  timeout ← mread_u token Token.TOKEN_AFTER_PRIVATE 4;
  num ← mread_u token (Token.TOKEN_AFTER_PRIVATE + 4) 4;
  let c := set_token c token timeout num in
  r ← Token.client_read_token token (server_addresses c);
  match r with
  | inl _ => Some (set_state c INVALID_TOKEN)
  | inr (_, pub) =>
      let c := set_servers c (Token.pub_addresses pub) (Token.pub_c2s pub) (Token.pub_s2c pub) in
      k ← prepare_connection c pub;
      let c := set_start (set_cconn c k) 0 (ccurrent_time c) in
      let c := set_clast_send (set_state c SENDING_REQUEST) d0 in
      dest ← oget (server_addresses c) (current_server_index c);
      Some (set_connected_to c (Some dest))
  end.

(** ** The update *)

(** The 1078 bytes of a connection request. *)
Definition request_packet (token : bytes) : option bytes :=
  version ← mread token 0 13;
  pid ← mread token 13 8;
  expire_ts ← mread token 29 8;
  nonce ← mread token 37 24;
  priv ← mread token 61 1024;
  Some ([0] ++ version ++ pid ++ expire_ts ++ nonce ++ priv).

(** The requests; [true] when the update returns. *)
Definition update_request (c : Client) (time : double) : option (bool * Client) :=
  c ← (if dgt (dsub time (clast_send_time c)) (dlit 1 10) then
         request ← request_packet (connect_token c);
         Some (set_clast_send (cemit c [request]) time)
       else Some c);
  if dgt (dsub time (connect_start_time c)) (d_of_Z (ctimeout c)) then
    let next := current_server_index c + 1 in
    if num_server_addresses c <=? next
    then Some (true, set_state (set_start c next (connect_start_time c)) REQUEST_TIMED_OUT)
    else Some (false, set_start c next time)
  else Some (false, c).

Definition send_pending_now (c : Client) : option Client :=
  '(k, pkts) ← client_send_pending (protocol_id (ccfg c)) (server_slot_id c) (cconn c) (ccurrent_time c);
  Some (cemit (set_cconn c k) pkts).

(** The tick of a connected client; [true] when the update returns. *)
Definition update_connected (c : Client) (time dt : double) : option (bool * Client) :=
  let k := cconn c in
  let k := set_bandwidth k (Bandwidth.bucket_refill (bandwidth k) time) in
  let k := set_budget k (Bandwidth.refill (budget k) dt (Bandwidth.send_rate_ (congestion k))) in
  c ← send_pending_now (set_cconn c k);
  c ← (if dgt (dsub time (last_send_time (cconn c))) (d_of_Z 1) then
         '(k, pkts) ← client_send_keepalive (protocol_id (ccfg c)) (server_slot_id c) (cconn c) time;
         Some (cemit (set_cconn c k) pkts)
       else Some c);
  if dgt (dsub time (last_recv_time (cconn c))) (d_of_Z (ctimeout c))
  then Some (true, set_state c CONNECTION_TIMED_OUT)
  else
    let k := cconn c in
    let k := set_stats k (Stats.update_throughput (stats k) time) in
    let k := set_congestion k (Bandwidth.evaluate (congestion k)) in
    Some (false, set_cconn c (cleanup_fragments k time)).

(** The server's first packet: [uint8_t payload[64]] holds what it decrypts to. *)
Definition on_accepted (c : Client) (time : double) (prefix : Z) (packet : bytes) : option Client :=
  ct ← mread packet 1 (zlen packet - 1);
  let k := cconn c in
  let '(pt, e) := Crypto.packet_decrypt (key_epoch k) (protocol_id (ccfg c)) prefix 0 ct in
  let k := set_key_epoch k e in
  match pt with
  | None => Some (set_cconn c k)
  | Some pt =>
      payload ← mwrite (replicate 64 0) 0 pt;
      if 14 <=? zlen pt then
        sid ← mread_u payload 0 2;
        mc ← mread_u payload 2 4;
        let c := set_accepted c sid (i32 mc) sid in
        Some (set_state (set_cconn c (set_active (set_last_recv_time (set_slot_id k sid) time) true)) CONNECTED)
      else Some (set_cconn c k)
  end.

Definition client_handle_data_packet (c : Client) (packet : bytes) : option Client :=
  r ← client_packet (cconn c) (protocol_id (ccfg c)) (ccurrent_time c) packet;
  match r with
  | Rejected k | Accepted (Stopped k) => Some (set_cconn c k)
  | Accepted (Disconnected k _) => Some (set_state (set_cconn c (set_active k false)) DISCONNECTED)
  end.

Definition client_packet_in (c : Client) (time : double) (packet : bytes) : option Client :=
  prefix ← oget packet 0;
  let packet_type := Z.land prefix 15 in
  if (packet_type =? 5) && bool_decide (state c = SENDING_REQUEST) then on_accepted c time prefix packet
  else if (4 <=? packet_type) && bool_decide (state c = CONNECTED) then client_handle_data_packet c packet
  else Some c.
Fixpoint client_packets_in (c : Client) (time : double) (l : list bytes) : option Client :=
  match l with
  | [] => Some c
  | p :: l => c ← client_packet_in c time p; client_packets_in c time l
  end.

(** [arrived] is what the socket has; at most 64 packets are read. *)
Definition netudp_client_update (c : Client) (time : double) (arrived : list bytes) : option Client :=
  let dt := dsub time (ccurrent_time c) in
  let c := set_ctime c time in
  '(done, c) ← (if bool_decide (state c = SENDING_REQUEST) then update_request c time else Some (false, c));
  if (done : bool) then Some c
  else
    '(done, c) ← (if bool_decide (state c = CONNECTED) then update_connected c time dt else Some (false, c));
    if (done : bool) then Some c else client_packets_in c time (take 64 arrived).

(** ** The rest of the API *)

Definition netudp_client_disconnect (c : Client) : Client :=
  set_cconn (set_index (set_state c DISCONNECTED) (-1)) (set_active (cconn c) false).
Definition netudp_client_state (c : Client) : Z := state_value (state c).
Definition netudp_client_index (c : Client) : Z := client_index c.

Definition netudp_client_send (c : Client) (channel : Z) (data : bytes) (flags : Z) : option (Z * Client) :=
  if negb (bool_decide (state c = CONNECTED)) then Some (NETUDP_ERROR_NOT_CONNECTED, c)
  else if (channel <? 0) || (num_channels (cconn c) <=? channel) then Some (NETUDP_ERROR_INVALID_PARAM, c)
  else
    d ← cdata (cconn c);
    x ← ch d channel;
    let '(ok, x) := Channel.queue_send x data flags in
    if negb ok
    then Some (NETUDP_ERROR_NO_BUFFERS, set_cconn c (set_cdata (cconn c) (Some (set_ch d channel x))))
    else
      let x := Channel.start_nagle x (ccurrent_time c) in
      if has_flag flags Channel.NETUDP_SEND_NO_DELAY then
        c ← send_pending_now (set_cconn c (set_cdata (cconn c) (Some (set_ch d channel (Channel.flush x)))));
        Some (NETUDP_OK, c)
      else Some (NETUDP_OK, set_cconn c (set_cdata (cconn c) (Some (set_ch d channel x)))).

(** The server's loop with no handler registered. *)
Definition netudp_client_receive (c : Client) (max_messages : Z) : option (list Server.Message * Client) :=
  if negb (bool_decide (state c = CONNECTED)) then Some ([], c)
  else
    d ← cdata (cconn c);
    match loop 257 (Server.receive_step (replicate 256 false) (client_index c) max_messages)
            (delivered_messages d, [], []) with
    | inl _ => None
    | inr (q, ms, _) => Some (ms, set_cconn c (set_cdata (cconn c) (Some (set_delivered d q))))
    end.

Definition netudp_client_flush (c : Client) : option Client :=
  if negb (bool_decide (state c = CONNECTED)) then Some c
  else
    d ← cdata (cconn c);
    d ← Server.flush_channels (Z.to_nat (num_channels (cconn c))) 0 d;
    send_pending_now (set_cconn c (set_cdata (cconn c) (Some d))).
End Client.

End Client.
