(* ===== verification/ClientSafety.v ===== *)
(** The client as a state machine (src/src/client.cpp): every call on a client returns
    without leaving its objects, the states change only along the documented edges,
    and a connected client has a working connection. *)

From stdpp Require Import relations.
From S2P Require Import Prelude Bytes Double RingBuffer Replay PacketTracker Channel Address Bandwidth Stats.
From S2P Require Import Fragment PacketCrypto ConnectToken Connection Receive Send Server ConnSafety ServerSafety Client.

Module ClientSafety.
Import Address Connection Receive Send ConnSafety Client.

(** * The invariant *)

(** The states the client can be in: four of the ten are never entered. *)
Definition used_state (s : ClientState) : Prop :=
  s = INVALID_TOKEN \/ s = CONNECTION_TIMED_OUT \/ s = REQUEST_TIMED_OUT \/ s = DISCONNECTED \/
  s = SENDING_REQUEST \/ s = CONNECTED.

Record client_wf (c : Client) : Prop := {
  cl_state : used_state (state c);
  cl_config : 4 <= zlen (channels_cfg (ccfg c));
  cl_token : zlen (connect_token c) = 2048;
  cl_servers : length (server_addresses c) = 32%nat;
  cl_conn : state c = SENDING_REQUEST \/ state c = CONNECTED -> wf (cconn c);
  cl_request : state c = SENDING_REQUEST -> 0 <= current_server_index c < num_server_addresses c;
  cl_connected : state c = CONNECTED ->
    active (cconn c) = true /\ client_index c = server_slot_id c /\ slot_id (cconn c) = server_slot_id c /\
    is_u16 (server_slot_id c) }.

(** * Operations on the connection *)

Section Steps.
Context `{Crypto.Aead} `{!AeadBytes} (falloc : Z -> option bytes)
        (falloc_ok : forall i, exists b, falloc i = Some b /\ zlen b = NETUDP_MAX_MESSAGE_SIZE).

Lemma decrypt_opens e pid prefix nonce ct pt e' :
  is_bytes ct -> Crypto.packet_decrypt e pid prefix nonce ct = (Some pt, e') ->
  is_bytes pt /\ zlen pt = zlen ct - Crypto.aead_overhead.
Proof.
  intros Hb. unfold Crypto.packet_decrypt. intros E.
  repeat (case_match || simplify_option_eq || done); by eapply aead_opens.
Qed.

(** The longest data packet whose payload cannot overrun a message slot. *)
Definition MAX_CLIENT_PACKET : Z := NETUDP_MTU + 12 + 1 + Crypto.aead_overhead.

Lemma client_packet_keeps k pid now packet :
  wf k -> is_bytes packet -> zlen packet <= MAX_CLIENT_PACKET ->
  exists r, client_packet k pid now packet = Some r /\ keeps k (result_conn r).
Proof.
  intros Hwf Hb Hl. unfold client_packet. case_if; [by eexists|].
  destruct (byte_in packet 0 Hb ltac:(lia)) as (prefix & -> & _). rewrite Some_bind.
  destruct (ciphertext packet 1 Hb ltac:(lia)) as (ct & -> & Hct & Hctl). rewrite Some_bind.
  unfold Crypto.client_receive.
  destruct (Crypto.packet_decrypt _ _ _ _ _) as [[pt|] e] eqn:Er; [|by eexists].
  destruct (decrypt_opens _ _ _ _ _ _ _ Hct Er) as [Hpt Hptl].
  unfold client_payload. destruct (payload_keeps false k e now pt (zlen packet)) as (o & -> & Ho);
    [done|done|unfold MAX_CLIENT_PACKET in Hl; lia|].
  rewrite Some_bind. by eexists.
Qed.
Lemma client_send_pending_keeps pid slot k now :
  wf k -> exists k' pkts, client_send_pending pid slot k now = Some (k', pkts) /\ keeps k k'.
Proof.
  intros Hwf. pose proof Hwf as (_ & _ & d & Hd & _). pose proof (client_side_ok pid slot aead_small).
  destruct (send_pending_sends (client_side pid slot) now k d Hwf Hd) as (k' & pkts & d' & out & ms & lost & E & Hs).
  exists k', pkts. split; [exact E|]. split; [apply Hs|]. by eapply send_pending_tag.
Qed.

(** * The edges of the state machine *)

(** What an update can do, one packet or timeout at a time. *)
Inductive edge : ClientState -> ClientState -> Prop :=
  | edge_accepted : edge SENDING_REQUEST CONNECTED
  | edge_no_answer : edge SENDING_REQUEST REQUEST_TIMED_OUT
  | edge_silence : edge CONNECTED CONNECTION_TIMED_OUT
  | edge_dropped : edge CONNECTED DISCONNECTED.
(** A client after a step of an update. *)
Definition moved (c c' : Client) : Prop := client_wf c' /\ rtc edge (state c) (state c').

Lemma moved_trans c1 c2 c3 : moved c1 c2 -> moved c2 c3 -> moved c1 c3.
Proof. intros [_ E1] [Hw E2]. split; [done|]. by etransitivity. Qed.
Lemma moved_refl c : client_wf c -> moved c c.
Proof. by split. Qed.

(** Traffic on the connection of a client, [k'] for its connection. *)
Lemma set_cconn_wf c k' :
  client_wf c -> (state c = SENDING_REQUEST \/ state c = CONNECTED -> keeps (cconn c) k') ->
  client_wf (set_cconn c k').
Proof.
  intros [H1 H2 H3 H4 H5 H6 H7] Hk. split; try done; cbn.
  - intros Hst. by apply Hk.
  - intros Hst. destruct (H7 Hst) as (A1 & A2 & A3 & A4). destruct (Hk (or_intror Hst)) as [_ Ht].
    unfold tag in Ht. split_and!; congruence || done.
Qed.
Lemma moved_conn c k' :
  client_wf c -> (state c = SENDING_REQUEST \/ state c = CONNECTED -> keeps (cconn c) k') ->
  moved c (set_cconn c k').
Proof. intros Hc Hk. split; [by apply set_cconn_wf|]. done. Qed.
Lemma moved_emit c l : client_wf c -> moved c (cemit c l).
Proof. intros [H1 H2 H3 H4 H5 H6 H7]. split; [by split|done]. Qed.

Lemma request_packet_ok token :
  zlen token = 2048 -> exists p, request_packet token = Some p /\ zlen p = 1078.
Proof.
  intros Ht. unfold request_packet.
  destruct (Token.mread_safe token 0 13) as (v & -> & H1); [lia..|]. rewrite Some_bind.
  destruct (Token.mread_safe token 13 8) as (p & -> & H2); [lia..|]. rewrite Some_bind.
  destruct (Token.mread_safe token 29 8) as (e & -> & H3); [lia..|]. rewrite Some_bind.
  destruct (Token.mread_safe token 37 24) as (n & -> & H4); [lia..|]. rewrite Some_bind.
  destruct (Token.mread_safe token 61 1024) as (x & -> & H5); [lia..|]. rewrite Some_bind.
  eexists. split; [done|]. rewrite !zlen_app. change (zlen [0]) with 1. lia.
Qed.

Lemma update_request_ok c time :
  client_wf c -> state c = SENDING_REQUEST ->
  exists b c', update_request c time = Some (b, c') /\ moved c c' /\
    (if b : bool then state c' = REQUEST_TIMED_OUT else state c' = SENDING_REQUEST).
Proof.
  intros Hc Hst. unfold update_request.
  assert (exists c1, (if dgt (dsub time (clast_send_time c)) (dlit 1 10) then
      request ← request_packet (connect_token c); Some (set_clast_send (cemit c [request]) time)
    else Some c) = Some c1 /\ client_wf c1 /\ state c1 = SENDING_REQUEST) as (c1 & -> & Hc1 & Hst1).
  { case_if; [|by exists c]. destruct (request_packet_ok _ (cl_token _ Hc)) as (p & -> & _). rewrite Some_bind.
    eexists. split; [done|]. split; [|done]. by destruct Hc; split. }
  rewrite Some_bind. assert (forall c', client_wf c' -> rtc edge SENDING_REQUEST (state c') -> moved c c') as Hmv.
  { intros c' Hw He. split; [done|]. by rewrite Hst. }
  destruct Hc1 as [H1 H2 H3 H4 H5 H6 H7]. destruct (H6 Hst1) as [I1 I2].
  case_if; [case_if|].
  - eexists _, _. split; [done|]. split; [|done]. apply Hmv; [|apply rtc_once, edge_no_answer].
    split; try done; cbn; [unfold used_state; auto|by intros [?|?]].
  - eexists _, _. split; [done|]. split; [|done]. apply Hmv; [|cbn; by rewrite Hst1].
    split; try done. cbn. intros _. lia.
  - eexists _, _. split; [done|]. split; [|done]. apply Hmv; [by split|by rewrite Hst1].
Qed.

Lemma send_pending_now_ok c :
  client_wf c -> state c = CONNECTED -> exists c', send_pending_now c = Some c' /\ client_wf c' /\ state c' = CONNECTED.
Proof.
  intros Hc Hst. unfold send_pending_now.
  destruct (client_send_pending_keeps (protocol_id (ccfg c)) (server_slot_id c) (cconn c) (ccurrent_time c))
    as (k & pkts & -> & Hk); [by apply (cl_conn _ Hc); right|]. rewrite Some_bind.
  eexists. split; [done|]. split; [|done]. apply moved_emit. by apply set_cconn_wf.
Qed.

Lemma update_connected_ok c time dt :
  client_wf c -> state c = CONNECTED ->
  exists b c', update_connected c time dt = Some (b, c') /\ moved c c' /\
    (if b : bool then state c' = CONNECTION_TIMED_OUT else state c' = CONNECTED).
Proof.
  intros Hc Hst. unfold update_connected. set (k1 := set_budget _ _).
  assert (keeps (cconn c) k1) as Hk1 by (split; [by apply (cl_conn _ Hc); right|done]).
  destruct (send_pending_now_ok (set_cconn c k1)) as (c2 & -> & Hc2 & Hst2); [by apply set_cconn_wf|done|].
  rewrite Some_bind.
  assert (exists c3, (if dgt (dsub time (last_send_time (cconn c2))) (d_of_Z 1) then
      '(k, pkts) ← client_send_keepalive (protocol_id (ccfg c2)) (server_slot_id c2) (cconn c2) time;
      Some (cemit (set_cconn c2 k) pkts)
    else Some c2) = Some c3 /\ client_wf c3 /\ state c3 = CONNECTED) as (c3 & -> & Hc3 & Hst3).
  { case_if; [|by exists c2]. unfold client_send_keepalive.
    destruct (send_keepalive_keeps (client_side (protocol_id (ccfg c2)) (server_slot_id c2)) false
      (protocol_id (ccfg c2)) (cconn c2) time) as (k & pkts & -> & Hk); [by apply (cl_conn _ Hc2); right|].
    rewrite Some_bind. eexists. split; [done|]. split; [|done]. apply moved_emit. by apply set_cconn_wf. }
  rewrite Some_bind. case_if.
  - eexists _, _. split; [done|]. split; [|done]. split; [|rewrite Hst; apply rtc_once, edge_silence].
    destruct Hc3 as [H1 H2 H3 H4 H5 H6 H7]. split; try done; cbn; [unfold used_state; auto|by intros [?|?]].
  - eexists _, _. split; [done|]. split; [|done]. cbv zeta. split; [|cbn; by rewrite Hst, Hst3].
    apply set_cconn_wf; [done|]. intros Hst'. pose proof (cl_conn _ Hc3 Hst') as Hw. set (k2 := set_congestion _ _).
    assert (keeps (cconn c3) k2) as Hk2 by by split.
    eapply keeps_trans; [exact Hk2|]. apply cleanup_fragments_keeps, Hk2.
Qed.

(** A packet the client's socket may hand over: data packets as the library sends
    them, and keepalives that fit the 64 bytes the client has for them. *)
Definition packet_ok (packet : bytes) : Prop :=
  is_bytes packet /\ 1 <= zlen packet <= MAX_CLIENT_PACKET /\
  (Z.land packet.[0] 15 = 5 -> zlen packet <= 65 + Crypto.aead_overhead).

Lemma on_accepted_ok c time prefix packet :
  client_wf c -> state c = SENDING_REQUEST -> is_bytes packet -> 1 <= zlen packet <= 65 + Crypto.aead_overhead ->
  exists c', on_accepted c time prefix packet = Some c' /\ moved c c'.
Proof.
  intros Hc Hst Hb Hl. unfold on_accepted.
  destruct (ciphertext packet 1 Hb ltac:(lia)) as (ct & -> & Hct & Hctl). rewrite Some_bind.
  pose proof (cl_conn _ Hc (or_introl Hst)) as Hw.
  destruct (Crypto.packet_decrypt _ _ _ _ _) as [[pt|] e] eqn:Er.
  2: { eexists. split; [done|]. apply moved_conn; [done|]. by intros _; split. }
  destruct (decrypt_opens _ _ _ _ _ _ _ Hct Er) as [Hpt Hptl].
  destruct (mwrite (replicate 64 0) 0 pt) as [payload|] eqn:Ew.
  2: { rewrite mwrite_Some in Ew; [done|lia|]. rewrite zlen_replicate. lia. }
  pose proof (mwrite_zlen _ _ _ _ Ew) as Hpl. rewrite zlen_replicate in Hpl.
  assert (is_bytes payload) as Hpb by (eapply mwrite_bytes; [|exact Hpt|exact Ew]; by apply Forall_replicate).
  rewrite Some_bind. case_if; [|eexists; split; [done|]; apply moved_conn; [done|]; by intros _; split].
  destruct (word_at payload 0 2 Hpb) as (sid & -> & Hsid); [lia..|]. rewrite Some_bind.
  destruct (word_at payload 2 4 Hpb) as (mc & -> & _); [lia..|]. rewrite Some_bind.
  eexists. split; [done|]. split; [|rewrite Hst; apply rtc_once, edge_accepted].
  destruct Hc as [H1 H2 H3 H4 H5 H6 H7]. split; try done; cbn. unfold used_state. auto 8.
Qed.
Lemma client_data_packet_ok c packet :
  client_wf c -> state c = CONNECTED -> is_bytes packet -> zlen packet <= MAX_CLIENT_PACKET ->
  exists c', client_handle_data_packet c packet = Some c' /\ moved c c'.
Proof.
  intros Hc Hst Hb Hl. unfold client_handle_data_packet.
  destruct (client_packet_keeps (cconn c) (protocol_id (ccfg c)) (ccurrent_time c) packet)
    as (r & -> & Hk); [by apply (cl_conn _ Hc); right|done|done|]. rewrite Some_bind.
  destruct r as [k|[k|k reason]]; cbn [result_conn outcome_conn] in Hk;
    [eexists; split; [done|]; by apply moved_conn..|].
  eexists. split; [done|]. split; [|rewrite Hst; apply rtc_once, edge_dropped].
  destruct Hc as [H1 H2 H3 H4 H5 H6 H7]. split; try done; cbn; [unfold used_state; auto 6|by intros [?|?]].
Qed.
Lemma client_packet_in_ok c time packet :
  client_wf c -> packet_ok packet -> exists c', client_packet_in c time packet = Some c' /\ moved c c'.
Proof.
  intros Hc (Hb & Hl & Hk). unfold client_packet_in. rewrite oget_aget, Some_bind by lia. cbv zeta.
  case_if; [|case_if].
  - apply bool_decide_eq_true in H2. specialize (Hk H1). apply on_accepted_ok; try done. lia.
  - apply bool_decide_eq_true in H2. apply client_data_packet_ok; try done. lia.
  - exists c. split; [done|by apply moved_refl].
Qed.
Lemma client_packets_in_ok l : forall c time,
  client_wf c -> Forall packet_ok l -> exists c', client_packets_in c time l = Some c' /\ moved c c'.
Proof.
  induction l as [|p l IH]; intros c time Hc Hl; cbn [client_packets_in]; [by exists c|].
  apply Forall_cons_iff in Hl as [Hp Hl].
  destruct (client_packet_in_ok c time p Hc Hp) as (c1 & -> & M1). rewrite Some_bind.
  destruct (IH c1 time (proj1 M1) Hl) as (c2 & -> & M2). exists c2. split; [done|]. exact (moved_trans _ _ _ M1 M2).
Qed.

Lemma client_update_ok c time arrived :
  client_wf c -> Forall packet_ok arrived -> exists c', netudp_client_update c time arrived = Some c' /\ moved c c'.
Proof.
  intros Hc Hl. unfold netudp_client_update. cbv zeta. set (c0 := set_ctime c time).
  assert (moved c c0) as M0 by (split; [by destruct Hc; split|done]).
  assert (exists b c1, (if bool_decide (state c0 = SENDING_REQUEST) then update_request c0 time else Some (false, c0))
    = Some (b, c1) /\ moved c0 c1) as (b & c1 & -> & M1).
  { case_bool_decide as Hst; [|eexists _, _; split; [done|apply moved_refl, M0]].
    destruct (update_request_ok c0 time (proj1 M0) Hst) as (b & c1 & E & M & _). by eexists _, _. }
  rewrite Some_bind. pose proof (moved_trans _ _ _ M0 M1) as M. destruct b; [by exists c1|].
  assert (exists b c2, (if bool_decide (state c1 = CONNECTED)
    then update_connected c1 time (dsub time (ccurrent_time c)) else Some (false, c1))
    = Some (b, c2) /\ moved c1 c2) as (b & c2 & -> & M2).
  { case_bool_decide as Hst; [|eexists _, _; split; [done|apply moved_refl, M1]].
    destruct (update_connected_ok c1 time (dsub time (ccurrent_time c)) (proj1 M1) Hst) as (b & c2 & E & M' & _).
    by eexists _, _. }
  rewrite Some_bind. pose proof (moved_trans _ _ _ M M2) as M3. destruct b; [by exists c2|].
  destruct (client_packets_in_ok (take 64 arrived) c2 time (proj1 M3)) as (c3 & -> & M4); [by apply Forall_take|].
  exists c3. split; [done|]. exact (moved_trans _ _ _ M3 M4).
Qed.

(** Connecting with a token that can be read. *)
Lemma connect_spec c token timeout num pub :
  client_wf c -> zlen token = 2048 ->
  mread_u token Token.TOKEN_AFTER_PRIVATE 4 = Some timeout ->
  mread_u token (Token.TOKEN_AFTER_PRIVATE + 4) 4 = Some num -> 1 <= num ->
  Token.client_read_token token (server_addresses c) = Some (inr (num, pub)) ->
  length (Token.pub_addresses pub) = 32%nat ->
  exists k, let c' := mkClient SENDING_REQUEST (ccfg c) token timeout num (Token.pub_addresses pub) 0 (Token.pub_c2s pub)
                (Token.pub_s2c pub) k (client_index c) (cmax_clients c) (server_slot_id c) (ccurrent_time c) d0
                (ccurrent_time c) (Some (Token.pub_addresses pub).[0]) (csent c) in
    netudp_client_connect (Some falloc) c token = Some c' /\ client_wf c' /\ wf k /\ key_epoch k = Server.set_keys (key_epoch (cconn c)) (Token.pub_c2s pub) (Token.pub_s2c pub) /\
    num_channels k = Z.min 4 (num_channels_cfg (ccfg c)).
Proof.
  intros Hc Ht Et En Hn Er Hlen. unfold netudp_client_connect. rewrite Et, Some_bind, En, Some_bind. cbv zeta.
  change (server_addresses (set_token c token timeout num)) with (server_addresses c). rewrite Er, Some_bind.
  unfold prepare_connection.
  edestruct init_subsystems_ok as (k & -> & Hk & _ & Hkk & Hkn); [exact falloc_ok|exact (cl_config _ Hc)|].
  rewrite Some_bind.
  cbn [server_addresses set_start set_cconn set_clast_send set_state set_servers current_server_index].
  rewrite oget_aget, Some_bind by (unfold zlen; lia). exists k. cbv zeta. split; [done|]. split; [|done].
  destruct Hc as [H1 H2 H3 H4 H5 H6 H7]. split; try done; cbn; [unfold used_state; auto 6|]. intros _. lia.
Qed.
Lemma connect_ok c token :
  client_wf c -> zlen token = 2048 -> is_bytes token ->
  exists c', netudp_client_connect (Some falloc) c token = Some c' /\ client_wf c' /\
    (state c' = SENDING_REQUEST \/ state c' = INVALID_TOKEN).
Proof.
  intros Hc Ht Hb.
  destruct (word_at token Token.TOKEN_AFTER_PRIVATE 4 Hb) as (timeout & Et & _); [done|rewrite Ht; done|].
  destruct (Token.client_read_safe token (server_addresses c) Ht (cl_servers _ Hc)) as (num & r & En & Er & Hr).
  destruct (word_at token (Token.TOKEN_AFTER_PRIVATE + 4) 4 Hb) as (num' & En' & Hnum); [done|rewrite Ht; done|].
  rewrite En in En'. injection En' as <-. destruct r as [u|[n pub]].
  - unfold netudp_client_connect. rewrite Et, Some_bind, En, Some_bind. cbv zeta.
    change (server_addresses (set_token c token timeout num)) with (server_addresses c). rewrite Er, Some_bind.
    destruct Hc as [H1 H2 H3 H4 H5 H6 H7].
    eexists. split; [done|]. split; [|by right]. split; try done; cbn; [unfold used_state; auto|by intros [?|?]].
  - destruct Hr as (-> & Hn0 & Hn32 & Hlen).
    destruct (connect_spec c token timeout num pub Hc Ht Et En ltac:(lia) Er Hlen) as (k & -> & Hw & _).
    eexists. split; [done|]. split; [exact Hw|by left].
Qed.

Lemma client_send_ok c channel data flags :
  client_wf c -> exists r c', netudp_client_send c channel data flags = Some (r, c') /\ client_wf c' /\ state c' = state c.
Proof.
  intros Hc. unfold netudp_client_send. case_bool_decide as Hst; cbn [negb]; [|by eexists _, _].
  case_if; [by eexists _, _|]. pose proof (cl_conn _ Hc (or_intror Hst)) as Hwf. pose proof Hwf as (Hn & _ & d & Hd & Hwd).
  rewrite Hd, Some_bind. unfold MAX_CHANNELS_PER_CONNECTION in Hn.
  destruct (ch_wf d channel Hwd ltac:(lia)) as (x & -> & Hwx). rewrite Some_bind.
  pose proof (Channel.queue_send_impl_wf x data flags 0 Hwx) as Hwq.
  unfold Channel.queue_send. destruct (Channel.queue_send_impl x data flags 0) as [ok x']. cbn [snd] in Hwq.
  assert (forall x, Channel.wf x -> client_wf (set_cconn c (set_cdata (cconn c) (Some (set_ch d channel x))))) as Hset.
  { intros y Hy. apply set_cconn_wf; [done|]. intros _. apply ServerSafety.set_cdata_keeps; [done|by apply set_ch_wf]. }
  destruct ok; cbn [negb]; [|eexists _, _; split; [done|]; split; [by apply Hset|done]].
  pose proof (Channel.start_nagle_wf x' (ccurrent_time c) Hwq) as Hwn. cbv zeta.
  case_if; [|eexists _, _; split; [done|]; split; [by apply Hset|done]].
  destruct (send_pending_now_ok (set_cconn c (set_cdata (cconn c) (Some (set_ch d channel
    (Channel.flush (Channel.start_nagle x' (ccurrent_time c)))))))) as (c' & -> & Hc' & Hst'); [by apply Hset|done|].
  rewrite Some_bind. eexists _, _. split; [done|]. split; [done|congruence].
Qed.
Lemma client_receive_ok c n :
  client_wf c -> exists ms c', netudp_client_receive c n = Some (ms, c') /\ client_wf c' /\ state c' = state c.
Proof.
  intros Hc. unfold netudp_client_receive. case_bool_decide as Hst; cbn [negb]; [|by eexists _, _].
  pose proof (cl_conn _ Hc (or_intror Hst)) as Hwf. pose proof Hwf as (_ & _ & d & Hd & Hwd).
  rewrite Hd, Some_bind. pose proof Hwd as (_ & _ & _ & _ & _ & _ & Hq).
  destruct (ServerSafety.receive_loop_ok (replicate 256 false) (client_index c) n _ Hq) as ([[q ms] ev] & -> & Hq' & _).
  eexists _, _. split; [done|]. split; [|done]. apply set_cconn_wf; [done|]. intros _.
  apply ServerSafety.set_cdata_keeps; [done|by apply set_delivered_wf].
Qed.
Lemma client_flush_ok c :
  client_wf c -> exists c', netudp_client_flush c = Some c' /\ client_wf c' /\ state c' = state c.
Proof.
  intros Hc. unfold netudp_client_flush. case_bool_decide as Hst; cbn [negb]; [|by exists c].
  pose proof (cl_conn _ Hc (or_intror Hst)) as Hwf. pose proof Hwf as (Hn & _ & d & Hd & Hwd).
  rewrite Hd, Some_bind. unfold MAX_CHANNELS_PER_CONNECTION in Hn.
  destruct (ServerSafety.flush_channels_ok (Z.to_nat (num_channels (cconn c))) 0 d Hwd) as (d' & -> & Hd'); [lia|lia|].
  rewrite Some_bind.
  destruct (send_pending_now_ok (set_cconn c (set_cdata (cconn c) (Some d')))) as (c' & -> & Hc' & Hst'); [|done|].
  - apply set_cconn_wf; [done|]. intros _. by apply ServerSafety.set_cdata_keeps.
  - exists c'. split; [done|]. split; [done|congruence].
Qed.

(** * Calls *)

Inductive call : Type :=
  | Connect (token : bytes)
  | Update (time : double) (arrived : list bytes)
  | SendMessage (channel : Z) (data : bytes) (flags : Z)
  | ReceiveMessages (max_messages : Z)
  | Flush
  | Disconnect.
Definition perform (c : Client) (x : call) : option Client :=
  match x with
  | Connect token => netudp_client_connect (Some falloc) c token
  | Update time arrived => netudp_client_update c time arrived
  | SendMessage channel data flags => snd <$> netudp_client_send c channel data flags
  | ReceiveMessages n => snd <$> netudp_client_receive c n
  | Flush => netudp_client_flush c
  | Disconnect => Some (netudp_client_disconnect c)
  end.
Definition call_ok (x : call) : Prop :=
  match x with
  | Connect token => zlen token = 2048 /\ is_bytes token
  | Update _ arrived => Forall packet_ok arrived
  | _ => True
  end.
(** How a call may change the state. *)
Definition allowed (x : call) (s s' : ClientState) : Prop :=
  match x with
  | Connect _ => s' = SENDING_REQUEST \/ s' = INVALID_TOKEN
  | Update _ _ => rtc edge s s'
  | Disconnect => s' = DISCONNECTED
  | _ => s' = s
  end.

Inductive reachable (config : Config) (time : double) : Client -> Prop :=
  | reach_create : reachable config time (netudp_client_create config time)
  | reach_call c x c' :
      reachable config time c -> call_ok x -> perform c x = Some c' -> reachable config time c'.

Lemma client_perform_ok c x :
  client_wf c -> call_ok x ->
  exists c', perform c x = Some c' /\ client_wf c' /\ allowed x (state c) (state c').
Proof.
  intros Hc Hok. destruct x; cbn [perform call_ok allowed] in *.
  - destruct (connect_ok c token Hc (proj1 Hok) (proj2 Hok)) as (c' & E & Hw & He). by exists c'.
  - destruct (client_update_ok c time arrived Hc Hok) as (c' & E & Hw & He). by exists c'.
  - destruct (client_send_ok c channel data flags Hc) as (r & c' & -> & Hw & He). by exists c'.
  - destruct (client_receive_ok c max_messages Hc) as (ms & c' & -> & Hw & He). by exists c'.
  - by apply client_flush_ok.
  - eexists. split; [done|]. split; [|done]. destruct Hc as [H1 H2 H3 H4 H5 H6 H7].
    split; try done; cbn; [unfold used_state; auto 6|by intros [?|?]].
Qed.
Lemma created_wf config time :
  4 <= zlen (channels_cfg config) -> client_wf (netudp_client_create config time).
Proof. intros Hc. split; try done; cbn; [unfold used_state; auto 6|by intros [?|?]]. Qed.

(** C5.  The client as a state machine, for packets within [packet_ok], which the code
    does not check: a packet has 1 to 1213 bytes and the tag, and a packet of type 5 at most 64 bytes, the prefix
    and the tag (a longer one overruns the client's 64-byte buffer); a token has 2048
    bytes.  In every state that such calls can lead to, the next one returns and stays
    inside its objects; the state changes only along
    the edges of the machine (a request is accepted or times out, a connection is
    dropped or falls silent, connecting starts a request or finds the token
    invalid); a connected client has a well-formed active connection under the slot
    number the server gave it, and one that sends requests has a server left to ask.
    TOKEN_EXPIRED, RESPONSE_TIMED_OUT, CONNECTION_DENIED and SENDING_RESPONSE, which
    docs/specs/05 describes as states of the client, are never entered. *)
Theorem client_state_machine config time c :
  4 <= zlen (channels_cfg config) -> reachable config time c ->
  client_wf c /\
  forall x, call_ok x -> exists c', perform c x = Some c' /\ client_wf c' /\ allowed x (state c) (state c').
Proof.
  intros Hcfg Hr. assert (client_wf c) as Hc.
  { induction Hr as [|c x c' _ IH Hok E]; [by apply created_wf|].
    destruct (client_perform_ok c x IH Hok) as (c1 & E1 & Hw & _). congruence. }
  split; [done|]. intros x Hok. by apply client_perform_ok.
Qed.
End Steps.

#[local] Existing Instance ServerSafety.none_aead_bytes.

(** A client that has asked a server: the token has one address. *)
Definition demo_client_config : Config := mkClientConfig 6 (replicate 255 (mkChannelConfig 0 0 0 0)) 2.
Lemma demo_config_ok : 4 <= zlen (channels_cfg demo_client_config).
Proof. by vm_compute. Qed.
Definition demo_new : Client := netudp_client_create demo_client_config d0.
Definition demo_token : bytes := replicate 1089 0 ++ [1; 0; 0; 0] ++ [1; 10; 0; 0; 9; 77; 0] ++ replicate 948 3.
Lemma demo_token_ok : zlen demo_token = 2048 /\ is_bytes demo_token.
Proof.
  split; [by vm_compute|]. unfold demo_token, is_bytes.
  rewrite !Forall_app. split_and!; try by apply Forall_replicate. all: repeat constructor; done.
Qed.
Lemma client_state_machine_witness :
  exists c, perform (H := Crypto.none_aead) ServerSafety.demo_alloc demo_new (Connect demo_token) = Some c /\
    client_wf c /\
    exists c', perform (H := Crypto.none_aead) ServerSafety.demo_alloc c (Update (d_of_Z 1) [[21; 1; 2; 3]]) = Some c' /\
      client_wf c' /\ rtc edge (state c) (state c').
Proof.
  pose proof (reach_create (H := Crypto.none_aead) ServerSafety.demo_alloc demo_client_config d0) as R0.
  destruct (client_state_machine (H := Crypto.none_aead) ServerSafety.demo_alloc ServerSafety.demo_alloc_ok
    demo_client_config d0 demo_new demo_config_ok R0) as [_ Hstep].
  destruct (Hstep (Connect demo_token) demo_token_ok) as (c & E & Hw & _).
  exists c. split; [exact E|]. split; [exact Hw|].
  destruct (client_state_machine (H := Crypto.none_aead) ServerSafety.demo_alloc ServerSafety.demo_alloc_ok
    demo_client_config d0 c demo_config_ok) as [_ Hstep'].
  - exact (reach_call (H := Crypto.none_aead) _ _ _ demo_new (Connect demo_token) c R0 demo_token_ok E).
  - apply (Hstep' (Update (d_of_Z 1) [[21; 1; 2; 3]])). cbn [call_ok]. constructor; [|constructor].
    split; [by repeat constructor|]. split; [split; vm_compute; discriminate|]. intros _. vm_compute. discriminate.
Defined.

End ClientSafety.
