(* ===== verification/Handshake.v ===== *)
(** The handshake: a connect token, the client's request, the server's acceptance and
    the packet that tells the client so (src/src/client.cpp and src/src/server.cpp
    together).  Both sides end with connections whose keys and counters match, which
    is what the delivery theorems of Delivery.v start from. *)

From stdpp Require Import gmap.
From S2P Require Import Prelude Bytes Double Replay HashMap PacketTracker Channel Address Ddos PacketCrypto ConnectToken.
From S2P Require Import Connection Receive Send IndexSet Slots Server ConnSafety ServerSafety ServerApi Client ClientSafety.

Module Handshake.
Import Address Connection Receive Send Server ConnSafety ServerSafety ServerApi.

(** * The request *)

Definition request_image (pid expire : Z) (nonce enc : bytes) : bytes :=
  [0] ++ Crypto.NETUDP_VERSION_INFO ++ le_bytes 8 pid ++ le_bytes 8 expire ++ nonce ++ enc.

(** The client's request holds the token's head, without the time of creation, and
    its encrypted part. *)
Lemma request_packet_spec pid create expire nonce enc rest :
  length nonce = 24%nat -> zlen enc = 1024 ->
  Client.request_packet (Token.token_head pid create expire nonce ++ enc ++ rest)
  = Some (request_image pid expire nonce enc).
Proof.
  intros Hn He. set (token := _ ++ _ ++ _).
  assert (holds token 0 token) as Hh by (exists [], []; by rewrite app_nil_r).
  unfold token in Hh at 2. unfold Token.token_head in Hh.
  apply holds_app in Hh as [Hh Hr]. do 4 (apply holds_app in Hh as [? Hh]). apply holds_app in Hr as [Hr _].
  zlen_simpl. replace (zlen nonce) with 24 in * by (unfold zlen; lia). clearbody token.
  unfold Client.request_packet.
  rewrite (holds_mread token 0 _ 13 H) by done. rewrite Some_bind.
  rewrite (holds_mread token 13 _ 8 H0) by done. rewrite Some_bind.
  rewrite (holds_mread token 29 _ 8 H2) by done. rewrite Some_bind.
  rewrite (holds_mread token 37 _ 24 Hh) by (unfold zlen; lia). rewrite Some_bind.
  by rewrite (holds_mread token 61 _ 1024 Hr) by done.
Qed.

Section Handshake.
Context `{Crypto.Aead} `{!AeadBytes} (blake2b_keyed blake2b_keyed_64 : bytes -> bytes -> bytes)
        (crypto_aead_lock : bytes -> bytes -> bytes -> bytes -> bytes * bytes)
        (crypto_aead_unlock : bytes -> bytes -> bytes -> bytes -> bytes -> option bytes)
        (falloc : Z -> option bytes).

(** The server reads the token out of it. *)
Lemma request_token_spec s expire nonce enc t plain l :
  is_u64 (protocol_id (cfg s)) -> is_u64 expire -> length nonce = 24%nat -> zlen enc = 1024 ->
  Crypto.xchacha_decrypt crypto_aead_unlock (private_key (cfg s)) nonce
    (Token.head_aad (protocol_id (cfg s)) expire) enc = Some plain ->
  Token.wf_private t l -> holds plain 0 (Token.private_image t l) ->
  d_to_u64 (current_time s) < expire ->
  request_token crypto_aead_unlock s (request_image (protocol_id (cfg s)) expire nonce enc)
  = Some (Some (enc, expire, t)).
Proof.
  intros Hp He Hn Hl Hd Hwf Hh Ht. set (pid := protocol_id (cfg s)) in *. set (packet := request_image _ _ _ _).
  assert (zlen packet = 1078) as Hpl.
  { unfold packet, request_image. zlen_simpl. unfold zlen in *. rewrite Hn. cbn [length Crypto.NETUDP_VERSION_INFO]. lia. }
  assert (holds packet 0 packet) as Hpk by (exists [], []; by rewrite app_nil_r).
  unfold packet in Hpk at 2. unfold request_image in Hpk.
  do 5 (apply holds_app in Hpk as [? Hpk]). zlen_simpl. replace (zlen nonce) with 24 in * by (unfold zlen; lia).
  clearbody packet. unfold request_token. rewrite Hpl. cbn [negb Z.eqb Pos.eqb].
  rewrite (holds_mread packet 1 _ 13 H2) by done. rewrite Some_bind, bool_decide_true by done. cbn [negb].
  rewrite (holds_mread_u packet 14 8 _ H3) by done. rewrite Some_bind. fold pid. rewrite Z.eqb_refl. cbn [negb].
  rewrite (holds_mread_u packet 22 8 _ H4) by done. rewrite Some_bind, (proj2 (Z.leb_gt _ _)) by done.
  rewrite (holds_mread packet 14 _ 8 H3) by done. rewrite Some_bind.
  rewrite (holds_mread packet 22 _ 8 H4) by done. rewrite Some_bind.
  rewrite (holds_mread packet 30 _ 24 H5) by (unfold zlen; lia). rewrite Some_bind.
  unfold Token.TOKEN_PRIVATE_ENCRYPTED_SIZE. rewrite (holds_mread packet 54 _ 1024 Hpk) by done. rewrite Some_bind.
  unfold Token.head_aad in Hd. rewrite Hd. by rewrite (Token.deserialize_spec t l) by done.
Qed.

(** * The acceptance *)

(** The keys of a fresh connection, and two of them that belong together. *)
Definition opened (tx rx : bytes) : Crypto.KeyEpoch := set_keys Crypto.epoch_zero tx rx.
Lemma in_step_fresh a b :
  Crypto.tx_key a = Crypto.rx_key b -> Crypto.rx_key a = Crypto.tx_key b ->
  Crypto.epoch_number a = Crypto.epoch_number b -> Crypto.rekey_pending a = false ->
  Crypto.tx_nonce_counter a = 0 -> Crypto.replay b = Replay.reset -> Crypto.in_step a b.
Proof.
  intros H1 H2 H3 H4 H5 H6. unfold Crypto.in_step, Crypto.expected_nonce. rewrite H5, H6. split_and!; try done.
  apply Replay.inv_reset.
Qed.

Definition ack_image (f : PacketTracker.AckFields) : bytes :=
  le_bytes 2 (PacketTracker.ack f) ++ le_bytes 4 (PacketTracker.ack_bits f) ++ le_bytes 2 (PacketTracker.ack_delay_us f).
(** The fourteen bytes the server writes. *)
Lemma reply_payload slot n f :
  (p ← mwrite (replicate 14 0) 0 (le_bytes 2 slot); p ← mwrite p 2 (le_bytes 4 n);
   '(_, p) ← PacketTracker.write_ack_fields f p 6; Some p)
  = Some (le_bytes 2 slot ++ le_bytes 4 n ++ ack_image f).
Proof.
  change (replicate 14 0) with ([] ++ replicate 14 0). unfold PacketTracker.write_ack_fields.
  rewrite mwrite_tail, Some_bind by (rewrite ?length_le_bytes; done || lia).
  rewrite mwrite_tail, Some_bind by (rewrite ?zlen_app, ?zlen_le_bytes, ?length_le_bytes; done || lia).
  do 3 (rewrite mwrite_tail, ?Some_bind by (rewrite ?zlen_app, ?zlen_le_bytes, ?length_le_bytes; done || lia)).
  rewrite !length_le_bytes. cbn [Nat.sub replicate app]. rewrite app_nil_r. unfold ack_image. by rewrite <- !app_assoc.
Qed.

Lemma send_accepted_spec s c slot :
  wf c ->
  exists c' ct f, send_accepted s c slot = Some (c', [[21] ++ ct]) /\ keeps c c' /\
    num_channels c' = num_channels c /\
    Crypto.packet_encrypt (key_epoch c) (protocol_id (cfg s)) 21
      (le_bytes 2 (u16 slot) ++ le_bytes 4 (max_clients s) ++ ack_image f) = (Some ct, key_epoch c').
Proof.
  intros Hwf. pose proof Hwf as (Hn & Ht & Hd). unfold send_accepted.
  set (f := PacketTracker.build_ack_fields _ _). pose proof (reply_payload (u16 slot) (max_clients s) f) as Ep.
  destruct (mwrite (replicate 14 0) 0 _) as [p1|]; [|done]. rewrite Some_bind in Ep; rewrite Some_bind.
  destruct (mwrite p1 2 _) as [p2|]; [|done]. rewrite Some_bind in Ep; rewrite Some_bind.
  destruct (PacketTracker.write_ack_fields f p2 6) as [[n p3]|]; [|done]. rewrite Some_bind in Ep; rewrite Some_bind. 
  set (pt := le_bytes 2 (u16 slot) ++ le_bytes 4 (max_clients s) ++ ack_image f) in *.
  assert (p3 = pt) as -> by congruence.
  set (c1 := set_packet_tracker _ _). assert (wf c1) as Hw1 by (split_and!; [done|by apply send_packet_wf|done]).
  assert (zlen pt = 14) as Hpt by (unfold pt, ack_image; zlen_simpl; done).
  change (key_epoch c1) with (key_epoch c). unfold Crypto.packet_encrypt.
  destruct (Crypto.aead_correct (Crypto.tx_key (key_epoch c)) (Crypto.build_nonce (Crypto.tx_nonce_counter (key_epoch c)))
    (Crypto.build_aad (protocol_id (cfg s)) 21) pt) as (ct & Eenc & Hl & _).
  rewrite Eenc. pose proof aead_small. pose proof Crypto.aead_overhead_nonneg.
  rewrite (proj2 (Z.leb_gt (zlen ct) 0)) by lia. unfold guard_ub. rewrite (proj2 (Z.leb_le (zlen ct) 64)) by lia.
  rewrite Some_bind. eexists _, ct, f. split; [done|]. split; [done|]. split; [done|].
  fold pt. rewrite Eenc. done.
Qed.

(** What accepting a client does when a slot is free. *)
Lemma accept_spec s from priv :
  (forall i, exists b, falloc i = Some b /\ zlen b = NETUDP_MAX_MESSAGE_SIZE) ->
  server_wf s -> 4 <= zlen (cfg_channels (cfg s)) -> IndexSet.count (Slots.act (sl s)) < max_clients s ->
  exists s' slot ct f, accept_client (Some falloc) s from priv = Some s' /\ good s s' /\
    slot ∈ Slots.actives (sl s') /\ 0 <= slot < max_clients s /\
    tag (connections s').[slot] = (true, from, Token.client_id priv, u16 slot) /\
    num_channels (connections s').[slot] = Z.min 4 (cfg_num_channels (cfg s)) /\
    Crypto.packet_encrypt (opened (Token.server_to_client_key priv) (Token.client_to_server_key priv))
      (protocol_id (cfg s)) 21 (le_bytes 2 (u16 slot) ++ le_bytes 4 (max_clients s) ++ ack_image f)
    = (Some ct, key_epoch (connections s').[slot]) /\
    out s' = out s ++ [OnConnect slot (Token.client_id priv) (Token.user_data priv); Sent from ([21] ++ ct)].
Proof.
  intros Hf Hs Hc Hfree. destruct (accept_client_ok falloc Hf s from priv Hc Hs) as (s' & E & G).
  pose proof Hs as [H1 H2 H3 H4 H5 H6 H7 H8]. revert E. unfold accept_client.
  destruct (Slots.allocate_spec (max_clients s) (sl s) ltac:(lia) H2) as (r & l & -> & Hl & Hr).
  rewrite Some_bind. destruct r as [slot|]; [|lia]. destruct Hr as (Hr & Hnew & Ea & _).
  change (conn (set_sl s l) slot) with (conn s slot). rewrite (conn_at s slot Hs Hr), Some_bind.
  set (s1 := set_address_to_slot _ _). set (c0 := (connections s).[slot]).
  assert (key_epoch c0 = Crypto.epoch_zero) as Hz by by apply (cw_idle _ _ _ H3).
  unfold open_connection. set (cpre := set_timeout_seconds _ _).
  edestruct (init_subsystems_ok cpre falloc (cfg_channels (cfg s1)) (cfg_num_channels (cfg s1)) (current_time s1) Hf Hc)
    as (c & -> & Hwc & Htc & Hkc & Hnc). rewrite Some_bind.
  set (s2 := emit _ _).
  assert (key_epoch c = opened (Token.server_to_client_key priv) (Token.client_to_server_key priv)) as Hk
    by (rewrite Hkc; unfold cpre; cbn; by rewrite Hz).
  destruct (send_accepted_spec s2 c slot Hwc) as (c' & ct & f & -> & [Hw' Ht'] & Hn' & He).
  rewrite Some_bind. intros [= <-].
  assert (peer c' = from) as Hpeer.
  { transitivity (peer c); [unfold tag in Ht'; congruence|]. unfold tag, cpre in Htc. cbn in Htc. congruence. }
  eexists _, slot, ct, f. split; [done|]. split; [done|].
  assert (slot ∈ Slots.actives l) as Hin by (rewrite Ea; apply elem_of_app; right; by apply list_elem_of_singleton).
  split; [exact Hin|]. split; [exact Hr|].
  assert ((connections (emit (set_conn s2 slot c') (packets_to c' [[21] ++ ct]))).[slot] = c') as Ecn.
  { cbn. apply aget_aset_eq. rewrite zlen_aset, (cw_len _ _ _ H3). lia. }
  rewrite Ecn. split; [by rewrite Ht', Htc|]. split; [by rewrite Hn', Hnc|]. split; [by rewrite <- Hk|].
  unfold s2, s1. cbn. rewrite Hpeer, <- app_assoc. done.
Qed.

(** A token that is used again, which its own address may do when the connection is gone,
    brings back the same keys with the counter at zero: both accepting packets are calls of
    the cipher with one key and one nonce. *)
Lemma accept_first_nonce s from priv :
  (forall i, exists b, falloc i = Some b /\ zlen b = NETUDP_MAX_MESSAGE_SIZE) ->
  server_wf s -> 4 <= zlen (cfg_channels (cfg s)) -> IndexSet.count (Slots.act (sl s)) < max_clients s ->
  exists s' slot ct pt, accept_client (Some falloc) s from priv = Some s' /\
    out s' = out s ++ [OnConnect slot (Token.client_id priv) (Token.user_data priv); Sent from ([21] ++ ct)] /\
    Crypto.g_aead_encrypt (Token.server_to_client_key priv) (Crypto.build_nonce 0)
      (Crypto.build_aad (protocol_id (cfg s)) 21) pt = Some ct.
Proof.
  intros Hf Hs Hc Hfree. destruct (accept_spec s from priv Hf Hs Hc Hfree) as (s' & slot & ct & f & E & _ & _ & _ & _ & _ & Ee & Eo).
  exists s', slot, ct. eexists. split; [done|]. split; [done|]. unfold Crypto.packet_encrypt in Ee.
  destruct (Crypto.g_aead_encrypt _ _ _ _) as [ct'|] eqn:Eg; [|done]. injection Ee as <- _. exact Eg.
Qed.

(** The client on the packet the server answers with. *)
Lemma client_accepts c time c2s s2c sid n f ct e' :
  ClientSafety.client_wf c -> Client.state c = Client.SENDING_REQUEST ->
  key_epoch (Client.cconn c) = opened c2s s2c -> is_u16 sid -> 0 <= n < 2 ^ 31 ->
  Crypto.packet_encrypt (opened s2c c2s) (Client.protocol_id (Client.ccfg c)) 21
    (le_bytes 2 sid ++ le_bytes 4 n ++ ack_image f) = (Some ct, e') ->
  exists c', Client.client_packet_in c time ([21] ++ ct) = Some c' /\
    Client.state c' = Client.CONNECTED /\ Client.server_slot_id c' = sid /\ Client.client_index c' = sid /\
    Client.cmax_clients c' = n /\ Client.ccfg c' = Client.ccfg c /\ wf (Client.cconn c') /\ cdata (Client.cconn c') = cdata (Client.cconn c) /\
    num_channels (Client.cconn c') = num_channels (Client.cconn c) /\
    Crypto.in_step e' (key_epoch (Client.cconn c')) /\ Crypto.in_step (key_epoch (Client.cconn c')) e'.
Proof.
  intros Hc Hst Hk Hsid Hn Ee. set (pt := le_bytes 2 sid ++ _) in Ee. set (k := Client.cconn c) in *.
  assert (zlen pt = 14) as Hpt by (unfold pt, ack_image; zlen_simpl; done).
  assert (Crypto.in_step (opened s2c c2s) (opened c2s s2c)) as Hin by by apply in_step_fresh.
  destruct (Crypto.packet_step (fun x _ => x) _ _ (Client.protocol_id (Client.ccfg c)) 21 pt d0 Hin)
    as (ct' & b' & Ee' & Hl & Ed & _ & Hstep); [lia|done|].
  rewrite Ee in Ee'. injection Ee' as <- Ee'. rewrite <- Ee' in Hstep. specialize (Hstep ltac:(by vm_compute)).
  unfold Client.client_packet_in. rewrite oget_aget, Some_bind by (zlen_simpl; lia). cbv zeta.
  change (([21] ++ ct).[0]) with 21. change (Z.land 21 15) with 5. rewrite bool_decide_true by done. cbn [Z.eqb Pos.eqb andb].
  unfold Client.on_accepted. rewrite (holds_mread ([21] ++ ct) 1 ct).
  2: { exists [21], []. split; [by rewrite app_nil_r|done]. }
  2: { rewrite zlen_app. change (zlen [21]) with 1. lia. }
  rewrite Some_bind. fold k. rewrite Hk. change (Crypto.tx_nonce_counter (opened s2c c2s)) with 0 in Ed. rewrite Ed.
  rewrite mwrite_Some, Some_bind by (rewrite ?zlen_replicate; lia). rewrite Hpt. cbn [Z.leb Z.compare Pos.compare Pos.compare_cont].
  change (take (Z.to_nat 0) (replicate 64 0)) with (@nil Z). cbn [app]. set (payload := pt ++ _).
  assert (holds payload 0 payload) as Hh by (exists [], []; by rewrite app_nil_r).
  unfold payload at 2, pt in Hh. rewrite <- !app_assoc in Hh.
  apply holds_app in Hh as [Hh1 Hh]. apply holds_app in Hh as [Hh2 _]. rewrite zlen_le_bytes in Hh2.
  rewrite (holds_mread_u payload 0 2 sid Hh1) by exact Hsid. rewrite Some_bind.
  rewrite (holds_mread_u payload 2 4 n Hh2) by lia. rewrite Some_bind.
  assert (exists r, b' = Crypto.set_replay (opened c2s s2c) r) as [r ->].
  { unfold Crypto.packet_decrypt in Ed. repeat case_match; simplify_eq; eauto. }
  eexists. split; [done|]. split; [done|]. split; [done|]. split; [done|].
  split; [cbn; unfold i32; rewrite Z.mod_small by lia; lia|]. split; [done|].
  split; [by apply (ClientSafety.cl_conn _ Hc); left|]. split; [done|]. split; [done|].
  split; [exact Hstep|]. rewrite Ee'. by apply in_step_fresh.
Qed.


(** * Both sides together *)

(** An update of a client that waits for an answer and whose time is not up: it may
    ask again, and reads what arrived. *)
Lemma waiting_update c time arrived :
  ClientSafety.client_wf c -> Client.state c = Client.SENDING_REQUEST ->
  dgt (dsub time (Client.connect_start_time c)) (d_of_Z (Client.ctimeout c)) = false ->
  exists c', Client.netudp_client_update c time arrived = Client.client_packets_in c' time (take 64 arrived) /\
    ClientSafety.client_wf c' /\ Client.state c' = Client.SENDING_REQUEST /\ Client.ccfg c' = Client.ccfg c /\
    Client.cconn c' = Client.cconn c /\ Client.connect_start_time c' = Client.connect_start_time c /\
    Client.ctimeout c' = Client.ctimeout c /\
    (dgt (dsub time (Client.clast_send_time c)) (dlit 1 10) = true -> forall p,
     Client.request_packet (Client.connect_token c) = Some p -> Client.csent c' = Client.csent c ++ [p]).
Proof.
  intros Hc Hst Ht. unfold Client.netudp_client_update. cbv zeta.
  cbn [Client.state Client.set_ctime]. rewrite Hst, bool_decide_true by done. unfold Client.update_request.
  cbn [Client.clast_send_time Client.set_ctime Client.connect_token].
  destruct (ClientSafety.request_packet_ok _ (ClientSafety.cl_token _ Hc)) as (p & Ep & _).
  assert (ClientSafety.client_wf (Client.set_ctime c time)) as Hc0 by by destruct Hc; split.
  rewrite Ep. rewrite Some_bind. case_if.
  - rewrite Some_bind. cbn [Client.connect_start_time Client.ctimeout Client.set_clast_send Client.cemit
      Client.set_csent Client.set_ctime]. rewrite Ht, Some_bind. cbn [Client.state Client.set_clast_send Client.cemit
      Client.set_csent Client.set_ctime]. rewrite Hst, bool_decide_false, Some_bind by done.
    eexists. split; [reflexivity|]. split; [by destruct Hc0; split|]. split_and!; try done.
    intros _ p' Hp'. cbn. congruence.
  - rewrite Some_bind. cbn [Client.connect_start_time Client.ctimeout Client.set_ctime]. rewrite Ht, Some_bind.
    cbn [Client.state Client.set_ctime]. rewrite Hst, bool_decide_false, Some_bind by done.
    eexists. split; [reflexivity|]. split; [done|]. split_and!; done.
Qed.

(** A server that will take the client: it has room, no attack is on, the clock is
    before the token's expiry, the client is not connected, and nobody else used the
    token. *)
Record ready (s : Server) (from : address) (cid expire : Z) (enc : bytes) : Prop := {
  rd_wf : server_wf s;
  rd_channels : 4 <= zlen (cfg_channels (cfg s));
  rd_room : IndexSet.count (Slots.act (sl s)) < max_clients s;
  rd_calm : Ddos.should_process_new_connection (ddos s) = true;
  rd_time : d_to_u64 (current_time s) < expire;
  rd_new : connected s cid = false;
  rd_bound : forall a, bound_to blake2b_keyed_64 s enc = Some a -> netudp_address_equal a from = true }.

(** Such a server accepts a request whose token it can read. *)
Lemma request_accepted s from packet enc ts priv :
  (forall i, exists b, falloc i = Some b /\ zlen b = NETUDP_MAX_MESSAGE_SIZE) ->
  ready s from (Token.client_id priv) ts enc ->
  zlen packet = 1078 -> packet.[0] = 0 ->
  request_token crypto_aead_unlock s packet = Some (Some (enc, ts, priv)) ->
  exists s' slot ct f,
    server_dispatch_packet blake2b_keyed blake2b_keyed_64 crypto_aead_unlock (Some falloc) s from packet = Some s' /\
    good s s' /\ slot ∈ Slots.actives (sl s') /\ 0 <= slot < max_clients s /\
    tag (connections s').[slot] = (true, from, Token.client_id priv, u16 slot) /\
    num_channels (connections s').[slot] = Z.min 4 (cfg_num_channels (cfg s)) /\
    Crypto.packet_encrypt (opened (Token.server_to_client_key priv) (Token.client_to_server_key priv))
      (protocol_id (cfg s)) 21 (le_bytes 2 (u16 slot) ++ le_bytes 4 (max_clients s) ++ ack_image f)
    = (Some ct, key_epoch (connections s').[slot]) /\
    out s' = out s ++ [OnConnect slot (Token.client_id priv) (Token.user_data priv); Sent from ([21] ++ ct)].
Proof.
  intros Hf [Hs Hc Hroom Hcalm Htime Hnew Hb] Hl Hp0 Hr. unfold server_dispatch_packet.
  rewrite oget_aget, Some_bind, Hp0, Hl by lia. change (Z.land 0 15) with 0. cbn [Z.eqb Pos.eqb andb].
  rewrite Hcalm. cbn [negb]. unfold server_handle_connection_request. rewrite Hr, Some_bind, Hnew. cbv zeta.
  unfold bound_to in Hb. fold (print_of blake2b_keyed_64 s enc).
  assert (match FixedHashMap.find FINGERPRINTS fp_hash (print_of blake2b_keyed_64 s enc) (fingerprint_map s) with
    | Some v => negb (netudp_address_equal (fp_address v) from) | None => false end = false) as Ef.
  { destruct (FixedHashMap.find _ _ _ _) as [v|]; [|done]. by rewrite (Hb _ eq_refl). }
  rewrite Ef. set (s1 := set_fingerprint_map _ _).
  assert (good s s1) as G1.
  { destruct (fp_insert_kept _ _ (mkFingerprint from ts) (sw_prints _ Hs) Ef) as [Hw Hk].
    split; [by destruct Hs; split|]. by split_and!. }
  destruct (accept_spec s1 from priv Hf (proj1 G1) Hc Hroom) as (s' & slot & ct & f & E & G2 & Hrest).
  exists s', slot, ct, f. split; [exact E|]. split; [exact (good_trans _ _ _ G1 G2)|]. exact Hrest.
Qed.

(** Two ends of one connection: the same slot number, keys and counters that match
    both ways, and as many channels as either side configured. *)
Definition linked (s : Server) (slot : Z) (from : address) (cid : Z) (c : Client.Client) : Prop :=
  let sc := (connections s).[slot] in
  let cc := Client.cconn c in
  slot ∈ Slots.actives (sl s) /\ tag sc = (true, from, cid, slot) /\
  Client.state c = Client.CONNECTED /\ Client.server_slot_id c = slot /\ Client.client_index c = slot /\
  Client.cmax_clients c = max_clients s /\ wf sc /\ wf cc /\
  Crypto.in_step (key_epoch sc) (key_epoch cc) /\ Crypto.in_step (key_epoch cc) (key_epoch sc) /\
  num_channels sc = Z.min 4 (cfg_num_channels (cfg s)) /\
  num_channels cc = Z.min 4 (Client.num_channels_cfg (Client.ccfg c)).

(** The encrypted part of a token. *)
Definition token_private (token : bytes) : bytes := take 1024 (drop 61 token).
Lemma token_private_spec pid create expire nonce enc rest :
  length nonce = 24%nat -> zlen enc = 1024 ->
  token_private (Token.token_head pid create expire nonce ++ enc ++ rest) = enc.
Proof.
  intros Hn He. unfold token_private. assert (length (Token.token_head pid create expire nonce) = 61%nat) as Hl.
  { unfold Token.token_head. rewrite !length_app, !length_le_bytes, Hn. done. }
  rewrite drop_app_length' by done. apply take_app_length'. unfold zlen in He. lia.
Qed.

(** A new client that connects with a generated token and is updated: it sends the
    request, and waits with the token's keys. *)
Lemma client_asks config t0 t1 pid create expire nonce enc tmo l c2s s2c rest :
  (forall i, exists b, falloc i = Some b /\ zlen b = NETUDP_MAX_MESSAGE_SIZE) ->
  is_u64 pid -> is_u64 expire -> length nonce = 24%nat -> zlen enc = 1024 ->
  Forall Address.wf l -> 1 <= zlen l <= 32 -> is_u32 tmo -> length c2s = 32%nat -> length s2c = 32%nat ->
  zlen (Token.token_tail tmo l c2s s2c ++ rest) = 963 ->
  4 <= zlen (Client.channels_cfg config) -> dgt (dsub t1 d0) (dlit 1 10) = true ->
  dgt (dsub t1 t0) (d_of_Z tmo) = false ->
  exists c1 c2,
    Client.netudp_client_connect (Some falloc) (Client.netudp_client_create config t0)
      (Token.token_head pid create expire nonce ++ enc ++ Token.token_tail tmo l c2s s2c ++ rest) = Some c1 /\
    Client.netudp_client_update c1 t1 [] = Some c2 /\ Client.csent c2 = [request_image pid expire nonce enc] /\
    ClientSafety.client_wf c2 /\ Client.state c2 = Client.SENDING_REQUEST /\ Client.ccfg c2 = config /\
    key_epoch (Client.cconn c2) = opened c2s s2c /\
    num_channels (Client.cconn c2) = Z.min 4 (Client.num_channels_cfg config) /\
    Client.connect_start_time c2 = t0 /\ Client.ctimeout c2 = tmo.
Proof.
  intros Hf Hp He L3 Hel Hwf Hc Htmo L1 L2 Htl Hcc Ht1 Hto.
  pose proof (request_packet_spec pid create expire nonce enc (Token.token_tail tmo l c2s s2c ++ rest) L3 Hel) as Epk.
  destruct (Token.head_fields pid create expire nonce (enc ++ Token.token_tail tmo l c2s s2c ++ rest) Hp He L3)
    as (_ & _ & _ & _ & _ & Hh).
  assert (zlen (Token.token_head pid create expire nonce ++ enc ++ Token.token_tail tmo l c2s s2c ++ rest) = 2048) as Htok.
  { rewrite zlen_app, zlen_app, Hel, Htl. unfold Token.token_head. zlen_simpl. unfold zlen. by rewrite L3. }
  set (token := Token.token_head _ _ _ _ ++ _) in *. clearbody token.
  apply holds_app in Hh as [_ Hh]. rewrite Hel in Hh. apply holds_app in Hh as [Hh _].
  change (Token.TOKEN_PRIVATE_OFFSET + 1024) with Token.TOKEN_AFTER_PRIVATE in Hh.
  pose proof Hh as Hh'. unfold Token.token_tail in Hh'. apply holds_app in Hh' as [F1 Hh']. apply holds_app in Hh' as [F2 _].
  rewrite zlen_le_bytes in F2.
  pose proof (ClientSafety.created_wf config t0 Hcc) as Hc0. set (c0 := Client.netudp_client_create config t0) in *.
  destruct (ClientSafety.connect_spec falloc Hf c0 token tmo (zlen l)
    (Token.mkPublic tmo (l ++ drop (length l) (Client.server_addresses c0)) c2s s2c) Hc0 Htok) as (k & Ec & Hc1 & Hk & Hkk & Hkn).
  - by apply (holds_mread_u token _ 4).
  - apply (holds_mread_u token _ 4); [done|cbn; lia].
  - lia.
  - by apply Token.client_read_spec.
  - cbn [Token.pub_addresses]. rewrite length_app, length_drop. unfold c0, zlen in *. cbn [Client.server_addresses
      Client.netudp_client_create]. rewrite length_replicate. lia.
  - rewrite Ec. set (c1 := Client.mkClient _ _ _ _ _ _ _ _ _ _ _ _ _ _ _ _ _ _) in *.
    destruct (waiting_update c1 t1 [] Hc1 eq_refl Hto) as (c2 & E & Hw & Hst & Hcfg & Hcn & Hs & Ht & Hsent).
    eexists c1, c2. split; [done|]. split; [exact E|]. split; [by apply (Hsent Ht1)|].
    split_and!; try done; rewrite Hcn; [exact Hkk|exact Hkn].
Qed.

Section Connects.
(** Monocypher's documented behaviour, and an allocator with room. *)
Context (lock_len : forall key nonce aad pt,
           length (crypto_aead_lock key nonce aad pt).1 = length pt /\
           length (crypto_aead_lock key nonce aad pt).2 = 16%nat)
        (unlock_lock : forall key nonce aad pt,
           crypto_aead_unlock key nonce aad (crypto_aead_lock key nonce aad pt).2
             (crypto_aead_lock key nonce aad pt).1 = Some pt)
        (falloc_ok : forall i, exists b, falloc i = Some b /\ zlen b = NETUDP_MAX_MESSAGE_SIZE).

(** C1.  The handshake works end to end.  A backend generates a token for client
    [cid]; a new client is given it and updated; the one packet it sends reaches a
    server with the same key and protocol that is ready for the client; the packet
    the server sends back reaches the client within the token's timeout.  Then no
    call fails, the server reports the client's id and user data to its callback and
    sends nothing else, and both sides are connected under the same slot, with
    well-formed connections whose keys and packet counters match in both directions. *)
Theorem handshake_connects strs l exp tmo cid pid key ud c2s s2c nonce now buf token config t0 t1 t2 s from :
  Forall2 Token.parses strs l -> Token.request_ok l cid pid ud c2s s2c nonce -> zlen buf = 2048 ->
  Token.netudp_generate_connect_token crypto_aead_lock (zlen l) strs exp tmo cid pid key ud c2s s2c nonce now buf
    = Some (NETUDP_OK, token) ->
  4 <= zlen (Client.channels_cfg config) -> Client.protocol_id config = pid ->
  dgt (dsub t1 d0) (dlit 1 10) = true ->
  dgt (dsub t1 t0) (d_of_Z (u32 tmo)) = false -> dgt (dsub t2 t0) (d_of_Z (u32 tmo)) = false ->
  private_key (cfg s) = key -> protocol_id (cfg s) = pid -> max_clients s <= 65536 ->
  ready s from cid (u64 (u64 now + u64 exp)) (token_private token) ->
  exists c1 c2 c3 s' slot request reply,
    Client.netudp_client_connect (Some falloc) (Client.netudp_client_create config t0) token = Some c1 /\
    Client.netudp_client_update c1 t1 [] = Some c2 /\ Client.csent c2 = [request] /\
    server_dispatch_packet blake2b_keyed blake2b_keyed_64 crypto_aead_unlock (Some falloc) s from request = Some s' /\
    out s' = out s ++ [OnConnect slot cid (default (replicate 256 0) ud); Sent from reply] /\
    Client.netudp_client_update c2 t2 [reply] = Some c3 /\
    server_wf s' /\ linked s' slot from cid c3.
Proof.
  intros Hstrs Hreq Hbuf Egen Hcc Hpid Ht1 Hto1 Ht2 Hkey Hsp Hmax Hready.
  pose proof (Token.parses_wf _ _ Hstrs) as Hwf.
  pose proof (Token.issued_wf l tmo cid pid ud c2s s2c nonce Hwf Hreq) as Hpriv.
  destruct (Token.generate_spec _ _ lock_len unlock_lock strs l exp tmo cid pid key ud c2s s2c nonce now buf Hstrs Hreq Hbuf)
    as (enc & rest & E & Hel & Htl & Hdec). rewrite Egen in E.
  set (image := Token.token_head _ _ _ _ ++ _) in E. assert (token = image) as -> by congruence. unfold image in *. clear E.
  set (expire := u64 (u64 now + u64 exp)) in *. pose proof Hreq as [Hc Hcid Hp Hud L1 L2 L3].
  rewrite token_private_spec in Hready by done.
  destruct (client_asks config t0 t1 pid (u64 now) expire nonce enc (u32 tmo) l c2s s2c rest)
    as (c1 & c2 & E1 & E2 & Esent & Hc2 & Hst2 & Hcfg2 & Hk2 & Hn2 & Hs2 & Hm2); try done;
    [apply u64_range|apply u32_range|].
  destruct (request_accepted s from (request_image pid expire nonce enc) enc expire (Token.issued l tmo cid ud c2s s2c)
    falloc_ok Hready) as (s' & slot & ct & f & E3 & G & Hin & Hslot & Htag & Hn & Eenc & Hout).
  - unfold request_image. zlen_simpl. unfold zlen in *. rewrite L3. cbn [length Crypto.NETUDP_VERSION_INFO]. lia.
  - done.
  - rewrite <- Hsp. rewrite <- Hkey, <- Hsp in Hdec. eapply request_token_spec; try done; [by rewrite Hsp|..]; [apply u64_range|apply holds_here|apply Hready].
  - rewrite (u16_small slot) in Htag, Eenc by (unfold is_u16; lia).
    destruct (waiting_update c2 t2 [[21] ++ ct] Hc2 Hst2) as (c2' & E4 & Hw & Hst & Hcfg & Hcn & _);
      [by rewrite Hs2, Hm2|].
    destruct (client_accepts c2' t2 c2s s2c slot (max_clients s) f ct (key_epoch (connections s').[slot]) Hw Hst)
      as (c3 & E5 & Hst3 & Hid & Hix & Hmc & Hcf & Hwc & _ & Hnc & Hstep); [congruence|unfold is_u16; lia|lia| |].
    { rewrite Hcfg, Hcfg2, Hpid, <- Hsp. exact Eenc. }
    exists c1, c2, c3, s', slot, (request_image pid expire nonce enc), ([21] ++ ct).
    split; [exact E1|]. split; [exact E2|]. split; [exact Esent|]. split; [exact E3|]. split; [exact Hout|].
    split; [rewrite E4; cbn [take Client.client_packets_in]; by rewrite E5|].
    pose proof G as [Hs' (C1 & N1 & _)]. split; [exact Hs'|]. unfold linked.
    split_and!; try assumption.
    + congruence.
    + apply (cw_wf _ _ _ (sw_conns _ Hs')). exact Hin.
    + apply Hstep.
    + apply Hstep.
    + congruence.
    + congruence.
Qed.
End Connects.

End Handshake.

#[local] Existing Instance ServerSafety.none_aead_bytes.

Definition demo_server_address : address := mkAddress ([1; 2; 3; 4] ++ replicate 12 0) 77 1.
Lemma demo_parses : Forall2 Token.parses [Token.demo_addr] [demo_server_address].
Proof. repeat constructor. Qed.
Lemma demo_token_generated :
  Token.netudp_generate_connect_token Token.demo_lock 1 [Token.demo_addr] 60 10 5 6 (replicate 32 1) None
    (replicate 32 2) (replicate 32 3) (replicate 24 4) 1000 (replicate 2048 0) = Some (NETUDP_OK, demo_token).
Proof. by vm_compute. Qed.
Lemma demo_ready : ready demo_hash demo_start demo_client 5 1060 (token_private demo_token).
Proof.
  split; try reflexivity.
  - apply started_wf. reflexivity.
  - vm_compute. discriminate.
  - intros a Ha. vm_compute in Ha. discriminate.
Qed.
Lemma handshake_connects_witness :
  exists c1 c2 c3 s' slot request reply,
    Client.netudp_client_connect (Some demo_alloc) ClientSafety.demo_new demo_token = Some c1 /\
    Client.netudp_client_update (H := Crypto.none_aead) c1 (d_of_Z 1) [] = Some c2 /\ Client.csent c2 = [request] /\
    server_dispatch_packet (H := Crypto.none_aead) demo_hash demo_hash Token.demo_unlock (Some demo_alloc)
      demo_start demo_client request = Some s' /\
    out s' = [OnConnect slot 5 (replicate 256 0); Sent demo_client reply] /\
    Client.netudp_client_update (H := Crypto.none_aead) c2 (d_of_Z 2) [reply] = Some c3 /\
    server_wf s' /\ linked s' slot demo_client 5 c3.
Proof.
  apply (handshake_connects (H := Crypto.none_aead) demo_hash demo_hash Token.demo_lock Token.demo_unlock demo_alloc
    Token.demo_lock_len Token.demo_unlock_lock demo_alloc_ok [Token.demo_addr] [demo_server_address] 60 10 5 6
    (replicate 32 1) None (replicate 32 2) (replicate 32 3) (replicate 24 4) 1000 (replicate 2048 0) demo_token
    ClientSafety.demo_client_config d0 (d_of_Z 1) (d_of_Z 2) demo_start demo_client).
  - exact demo_parses.
  - split; try done; by vm_compute.
  - by vm_compute.
  - exact demo_token_generated.
  - vm_compute. discriminate.
  - reflexivity.
  - reflexivity.
  - reflexivity.
  - reflexivity.
  - reflexivity.
  - reflexivity.
  - vm_compute. discriminate.
  - exact demo_ready.
Defined.

End Handshake.
