(* ===== verification/Quantize.v ===== *)
(** Varints and the compact encodings of replicated values
    (src/src/replication/replicate.cpp, first half).

    A [float] is handled through its 32-bit pattern, as the sources copy it in and
    out of byte buffers; [f_of_bits] and [bits_of_f] are the binary32 interchange
    format.  The arithmetic in between is that of Double.v. *)

From S2P Require Import Prelude Bytes Double.

(** * binary32 as 32 bits *)

Definition f_of_bits (b : Z) : spec_float :=
  let s := Z.testbit b 31 in
  let e := Z.land (Z.shiftr b 23) 255 in
  let m := Z.land b 8388607 in
  if e =? 0 then match m with Z.pos p => S754_finite s p (-149) | _ => S754_zero s end
  else if e =? 255 then (if m =? 0 then S754_infinity s else S754_nan)
  else match m + 8388608 with Z.pos p => S754_finite s p (e - 150) | _ => S754_nan end.
(** Payloads of NaN are not kept: every NaN has the quiet pattern. *)
Definition bits_of_f (f : spec_float) : Z :=
  let sign (s : bool) := if s then 2 ^ 31 else 0 in
  match f with
  | S754_zero s => sign s
  | S754_infinity s => sign s + 2139095040
  | S754_nan => 2143289344
  | S754_finite s m e =>
      sign s + (if Z.pos m <? 8388608 then Z.pos m else (e + 150) * 8388608 + (Z.pos m - 8388608))
  end.
(** [std::fabs] and [std::sqrt] on [float]. *)
Definition fabs : spec_float -> spec_float := SFabs.
Definition fsqrt : spec_float -> spec_float := SFsqrt 24 128.
(** [static_cast<int32_t>] of a [float]; both formats truncate alike.  C++ leaves the
    conversion of NaN and of values out of range undefined; the result here is that of
    the x86-64 instruction, [INT_MIN]. *)
Definition f_to_i32 (f : spec_float) : Z := d_to_i32 f.

Module Quantize.

(** * Varints *)

(** The ten rounds a 64-bit value can take. *)
Fixpoint varint_go (rounds : nat) (val : Z) : bytes :=
  match rounds with
  | O => []
  | S rounds =>
      let byte := Z.land val 127 in
      let val := Z.shiftr val 7 in
      if val =? 0 then [byte] else Z.lor byte 128 :: varint_go rounds val
  end.
Definition varint_encode (val : Z) : bytes := varint_go 10 val.

(** [data] holds the [len] bytes left; the result is the bytes consumed and the
    value, or [None] for -1. *)
Fixpoint varint_read (data : bytes) (shift result pos : Z) : option (Z * Z) :=
  match data with
  | [] => None
  | byte :: data =>
      if negb (shift <? 64) then None
      else
        let result := Z.lor result (u64 (Z.shiftl (Z.land byte 127) shift)) in
        let pos := pos + 1 in
        if Z.land byte 128 =? 0 then Some (pos, result)
        else varint_read data (shift + 7) result pos
  end.
Definition varint_decode (data : bytes) : option (Z * Z) := varint_read data 0 0 0.

(** * Half floats *)

Definition f32_to_half (bits : Z) : Z :=
  let sign := Z.land (Z.shiftr bits 16) 32768 in
  let exp := Z.land (Z.shiftr bits 23) 255 - 127 + 15 in
  let mant := Z.land (Z.shiftr bits 13) 1023 in
  if exp <=? 0 then u16 sign
  else if 31 <=? exp then u16 (Z.lor sign 31744)
  else u16 (Z.lor (Z.lor sign (u32 (Z.shiftl exp 10))) mant).
Definition half_to_f32 (h : Z) : Z :=
  let sign := u32 (Z.shiftl (Z.land h 32768) 16) in
  let exp := Z.land (Z.shiftr h 10) 31 in
  let mant := Z.land h 1023 in
  if exp =? 0 then sign
  else if exp =? 31 then Z.lor (Z.lor sign 2139095040) (u32 (Z.shiftl mant 13))
  else Z.lor (Z.lor sign (u32 (Z.shiftl (u32 (exp - 15 + 127)) 23))) (u32 (Z.shiftl mant 13)).

(** * Vectors *)

Definition clamp_i (v lo hi : Z) : Z := if v <? lo then lo else if hi <? v then hi else v.

Definition vec3_quantize (v0 v1 v2 : Z) : Z :=
  let x := clamp_i (f_to_i32 (fmul (f_of_bits v0) (f_of_Z 2))) (-1024) 1023 in
  let y := clamp_i (f_to_i32 (fmul (f_of_bits v1) (f_of_Z 2))) (-1024) 1023 in
  let z := clamp_i (f_to_i32 (fmul (f_of_bits v2) (f_of_Z 2))) (-512) 511 in
  let ux := Z.land (u32 (x + 1024)) 2047 in
  let uy := Z.land (u32 (y + 1024)) 2047 in
  let uz := Z.land (u32 (z + 512)) 1023 in
  Z.lor (Z.lor ux (u32 (Z.shiftl uy 11))) (u32 (Z.shiftl uz 22)).

Definition half_of (x : Z) : Z := bits_of_f (fmul (f_of_Z x) (flit 1 2)).
Definition vec3_dequantize (packed : Z) : Z * Z * Z :=
  let x := Z.land packed 2047 - 1024 in
  let y := Z.land (Z.shiftr packed 11) 2047 - 1024 in
  let z := Z.land (Z.shiftr packed 22) 1023 - 512 in
  (half_of x, half_of y, half_of z).

(** * Quaternions *)

(** The index of the component of largest magnitude, the first of equals. *)
Fixpoint largest (q : list spec_float) (i max_idx : Z) (max_abs : spec_float) : Z :=
  match q with
  | [] => max_idx
  | x :: q =>
      let a := fabs x in
      if dgt a max_abs then largest q (i + 1) i a else largest q (i + 1) max_idx max_abs
  end.
Definition max_index (q : list spec_float) : Z :=
  match q with [] => 0 | x :: q => largest q 1 0 (fabs x) end.
Fixpoint others (q : list spec_float) (i max_idx : Z) (sign : spec_float) : list spec_float :=
  match q with
  | [] => []
  | x :: q => if negb (i =? max_idx) then fmul x sign :: others q (i + 1) max_idx sign
              else others q (i + 1) max_idx sign
  end.
Definition to10 (v : spec_float) : Z :=
  let mapped := f_to_i32 (fadd (fmul (fadd (fmul v (flit 1 2)) (flit 1 2)) (f_of_Z 1023)) (flit 1 2)) in
  u32 (clamp_i mapped 0 1023).
#[export] Instance spec_float_inhabited : Inhabited spec_float := populate (S754_zero false).

(** [q] has the four components. *)
Definition quat_quantize (q : list spec_float) : Z :=
  let max_idx := max_index q in
  let sign := if dlt q.[max_idx] (f_of_Z 0) then f_of_Z (-1) else f_of_Z 1 in
  let small := others q 0 max_idx sign in
  Z.lor (Z.lor (Z.lor (u32 (Z.shiftl max_idx 30)) (u32 (Z.shiftl (to10 small.[0]) 20)))
           (u32 (Z.shiftl (to10 small.[1]) 10)))
        (to10 small.[2]).

Definition from10 (v : Z) : spec_float := fmul (fsub (fdiv (f_of_Z v) (f_of_Z 1023)) (flit 1 2)) (f_of_Z 2).
Fixpoint place (n : nat) (i max_idx : Z) (w : spec_float) (small : list spec_float) : list spec_float :=
  match n with
  | O => []
  | S n =>
      if i =? max_idx then w :: place n (i + 1) max_idx w small
      else match small with
           | [] => S754_zero false :: place n (i + 1) max_idx w []
           | x :: small => x :: place n (i + 1) max_idx w small
           end
  end.
Definition quat_dequantize (packed : Z) : list spec_float :=
  let max_idx := Z.land (Z.shiftr packed 30) 3 in
  let a := from10 (Z.land (Z.shiftr packed 20) 1023) in
  let b := from10 (Z.land (Z.shiftr packed 10) 1023) in
  let c := from10 (Z.land packed 1023) in
  let sum_sq := fadd (fadd (fmul a a) (fmul b b)) (fmul c c) in
  let w := if dlt sum_sq (f_of_Z 1) then fsqrt (fsub (f_of_Z 1) sum_sq) else f_of_Z 0 in
  place 4 0 max_idx w [a; b; c].

(** * Fields of a word *)

Lemma land_ones_mod a n : 0 <= n -> Z.land a (Z.ones n) = a mod 2 ^ n.
Proof. apply Z.land_ones. Qed.
(** The bits of [a] from [k] on, [n] of them. *)
Lemma field a k n : 0 <= k -> 0 <= n -> Z.land (Z.shiftr a k) (Z.ones n) = (a / 2 ^ k) mod 2 ^ n.
Proof. intros Hk Hn. by rewrite Z.land_ones, Z.shiftr_div_pow2. Qed.

(** * Varints decode to what was encoded *)

Lemma land_128 b : 0 <= b < 256 -> (Z.land b 128 =? 0) = (b <? 128).
Proof.
  intros Hb. pose proof (bit_set_testbit b 7 ltac:(done)) as E. unfold bit_set in E.
  change (Z.shiftl 1 7) with 128 in E. apply (f_equal negb) in E. rewrite negb_involutive in E. rewrite E.
  rewrite Z.testbit_eqb by done. change (2 ^ 7) with 128. destruct (b <? 128) eqn:Eb; bool_facts.
  - by rewrite Z.div_small by lia.
  - replace (b / 128) with 1 by mlia. done.
Qed.
(** A byte of a varint: seven bits and a flag. *)
Lemma varint_byte byte (more : bool) :
  0 <= byte < 128 -> Z.land (if more then Z.lor byte 128 else byte) 127 = byte
    /\ (Z.land (if more then Z.lor byte 128 else byte) 128 =? 0) = negb more.
Proof.
  intros Hb. change 127 with (Z.ones 7). rewrite Z.land_ones by done. change (2 ^ 7) with 128. destruct more.
  - assert (Z.lor byte 128 = byte + 128) as -> by (apply (lor_shift byte 1 7); lia).
    rewrite land_128 by lia. split; [mlia|]. by apply Z.ltb_ge; lia.
  - rewrite land_128 by lia. split; [mlia|]. by apply Z.ltb_lt; lia.
Qed.
Lemma varint_step rest shift result pos byte more :
  0 <= shift < 64 -> 0 <= byte < 128 -> 0 <= result < 2 ^ shift -> byte * 2 ^ shift < 2 ^ 64 ->
  varint_read ((if more : bool then Z.lor byte 128 else byte) :: rest) shift result pos
  = if more then varint_read rest (shift + 7) (result + byte * 2 ^ shift) (pos + 1)
    else Some (pos + 1, result + byte * 2 ^ shift).
Proof.
  intros Hs Hb Hr Hu. cbn [varint_read]. rewrite (proj2 (Z.ltb_lt _ _)) by lia. cbn [negb].
  destruct (varint_byte byte more Hb) as [E1 E2].
  rewrite E1, E2. assert (0 <= byte * 2 ^ shift) by nia.
  rewrite Z.shiftl_mul_pow2 by lia. rewrite u64_small by (unfold is_u64; lia).
  assert (Z.lor result (byte * 2 ^ shift) = result + byte * 2 ^ shift) as ->
    by (rewrite <- lor_shift, Z.shiftl_mul_pow2 by lia; done).
  by destruct more.
Qed.
Lemma varint_read_go n : forall v rest shift result pos,
  0 <= v < 2 ^ (7 * Z.of_nat n) -> (0 < n)%nat -> 0 <= shift < 64 -> 0 <= result < 2 ^ shift ->
  v * 2 ^ shift < 2 ^ 64 ->
  varint_read (varint_go n v ++ rest) shift result pos
  = Some (pos + zlen (varint_go n v), result + v * 2 ^ shift).
Proof.
  induction n as [|n IH]; intros v rest shift result pos Hv Hn Hs Hr Hu; [lia|]. cbn [varint_go].
  assert (Z.land v 127 = v mod 128) as Eb by (change 127 with (Z.ones 7); by rewrite Z.land_ones).
  assert (Z.shiftr v 7 = v / 128) as Ev by by rewrite Z.shiftr_div_pow2. rewrite Eb, Ev.
  pose proof (Z.mod_pos_bound v 128 ltac:(done)) as Hm. pose proof (Z.div_mod v 128 ltac:(done)) as Hd.
  assert (0 <= v / 128) as Hq by (apply Z.div_pos; lia). assert (0 < 2 ^ shift) as Hp by lia.
  assert (v mod 128 * 2 ^ shift <= v * 2 ^ shift) as Hmu by (apply Z.mul_le_mono_nonneg_r; lia).
  destruct (v / 128 =? 0) eqn:E; bool_facts.
  - cbn [app]. rewrite (varint_step rest shift result pos (v mod 128) false) by lia.
    replace (v mod 128) with v by lia. done.
  - rewrite <- app_comm_cons.
    rewrite (varint_step _ shift result pos (v mod 128) true) by lia.
    assert (2 ^ (shift + 7) = 128 * 2 ^ shift) as Ep by (rewrite Z.pow_add_r by lia; lia).
    assert (v / 128 * 2 ^ (shift + 7) <= v * 2 ^ shift) as Hvu
      by (rewrite Ep, Z.mul_assoc; apply Z.mul_le_mono_nonneg_r; lia).
    assert (shift + 7 < 64) as Hs'.
    { apply (Z.pow_lt_mono_r_iff 2); [lia..|]. assert (1 <= v / 128) by lia.
      pose proof (Z.mul_le_mono_nonneg_r 1 (v / 128) (2 ^ (shift + 7)) ltac:(lia) ltac:(done)). lia. }
    assert (result + v mod 128 * 2 ^ shift + v / 128 * 2 ^ (shift + 7) = result + v * 2 ^ shift) as Hsum.
    { rewrite Ep. rewrite Hd at 3. ring. }
    rewrite IH; try lia.
    + do 2 f_equal; [zlen_simpl; lia|exact Hsum].
    + split; [lia|]. apply Z.div_lt_upper_bound; [lia|].
      replace (7 * Z.of_nat (S n)) with (7 + 7 * Z.of_nat n) in Hv by lia.
      rewrite Z.pow_add_r in Hv by lia. change (2 ^ 7) with 128 in Hv. lia.
    + destruct n; [|lia]. exfalso. change (7 * Z.of_nat 1) with 7 in Hv. apply E. apply Z.div_small. lia.
    + assert (v mod 128 * 2 ^ shift <= 127 * 2 ^ shift) by (apply Z.mul_le_mono_nonneg_r; lia). lia.
Qed.
Lemma varint_go_length n v : (0 < n)%nat -> 1 <= zlen (varint_go n v) <= Z.of_nat n.
Proof.
  revert v. induction n as [|n IH]; intros v Hn; [lia|]. cbn [varint_go]. case_if; zlen_simpl; [lia|].
  destruct n; [unfold zlen; cbn; lia|]. pose proof (IH (Z.shiftr v 7) ltac:(lia)). lia.
Qed.
Lemma varint_length v : 1 <= zlen (varint_encode v) <= 10.
Proof. apply (varint_go_length 10). lia. Qed.
Lemma varint_roundtrip v rest :
  is_u64 v -> varint_decode (varint_encode v ++ rest) = Some (zlen (varint_encode v), v).
Proof.
  intros Hv. unfold varint_decode, varint_encode, is_u64 in *. rewrite varint_read_go; try (cbn; lia).
  do 2 f_equal. lia.
Qed.

(** * The compact encodings are stable *)

Lemma land_bit x k : 0 <= k -> 0 <= x < 2 ^ (k + 1) -> Z.land x (2 ^ k) = x / 2 ^ k * 2 ^ k.
Proof.
  intros Hk Hx. rewrite Z.pow_add_r in Hx by lia. change (2 ^ 1) with 2 in Hx.
  assert (0 <= x / 2 ^ k < 2) by (split; [apply Z.div_pos; lia|apply Z.div_lt_upper_bound; lia]).
  apply Z.bits_inj'. intros i Hi. rewrite Z.land_spec, <- Z.shiftl_mul_pow2, Z.shiftl_spec by lia.
  destruct (Z_lt_le_dec i k); [rewrite Z.pow2_bits_false, (Z.testbit_neg_r _ (i - k)) by lia; apply andb_false_r|].
  destruct (decide (i = k)) as [->|].
  - rewrite Z.pow2_bits_true, andb_true_r, Z.sub_diag by done. rewrite !Z.testbit_eqb by lia.
    rewrite Z.pow_0_r, Z.div_1_r. done.
  - rewrite Z.pow2_bits_false, andb_false_r by lia. symmetry. rewrite Z.testbit_eqb by lia.
    rewrite Z.div_small; [done|]. pose proof (Z.pow_le_mono_r 2 1 (i - k)). lia.
Qed.

Definition half_exp (h : Z) : Z := h / 2 ^ 10 mod 2 ^ 5.
Definition f32_exp (b : Z) : Z := b / 2 ^ 23 mod 2 ^ 8.
Lemma half_to_f32_spec h :
  is_u16 h -> 1 <= half_exp h <= 30 ->
  half_to_f32 h = h / 2 ^ 15 * 2 ^ 31 + (half_exp h + 112) * 2 ^ 23 + h mod 2 ^ 10 * 2 ^ 13.
Proof.
  unfold is_u16. intros Hh He. unfold half_to_f32. change 32768 with (2 ^ 15). rewrite land_bit by lia.
  assert (Z.land (Z.shiftr h 10) 31 = half_exp h) as -> by by apply (field h 10 5).
  rewrite (proj2 (Z.eqb_neq _ _)), (proj2 (Z.eqb_neq (half_exp h) 31)) by lia.
  change 1023 with (Z.ones 10). rewrite Z.land_ones by done. rewrite !Z.shiftl_mul_pow2 by done.
  pose proof (Z.mod_pos_bound h (2 ^ 10) ltac:(done)).
  assert (0 <= h / 2 ^ 15 < 2) by mlia.
  rewrite (u32_small (half_exp h - 15 + 127)) by (unfold is_u32; lia). rewrite !u32_small by (unfold is_u32; lia).
  replace (h / 2 ^ 15 * 2 ^ 15 * 2 ^ 16) with (h / 2 ^ 15 * 2 ^ 31) by lia.
  rewrite lor_high by lia.
  replace (h / 2 ^ 15 * 2 ^ 31 + (half_exp h - 15 + 127) * 2 ^ 23) with ((h / 2 ^ 15 * 2 ^ 8 + (half_exp h + 112)) * 2 ^ 23) by lia.
  rewrite lor_high by lia. lia.
Qed.
Lemma f32_to_half_spec b :
  is_u32 b -> 113 <= f32_exp b <= 142 ->
  f32_to_half b = b / 2 ^ 31 * 2 ^ 15 + (f32_exp b - 112) * 2 ^ 10 + b / 2 ^ 13 mod 2 ^ 10.
Proof.
  unfold is_u32. intros Hb He. unfold f32_to_half. change 32768 with (2 ^ 15).
  rewrite (Z.shiftr_div_pow2 b 16) by done. assert (0 <= b / 2 ^ 16 < 2 ^ 16) by mlia. rewrite (land_bit (b / 2 ^ 16) 15) by (change (15 + 1) with 16; lia).
  replace (b / 2 ^ 16 / 2 ^ 15) with (b / 2 ^ 31) by (rewrite Z.div_div by done; done).
  change 255 with (Z.ones 8). rewrite (field b 23 8) by done. fold (f32_exp b).
  change 1023 with (Z.ones 10). rewrite (field b 13 10) by done.
  rewrite (proj2 (Z.leb_gt _ 0)), (proj2 (Z.leb_gt 31 _)) by lia.
  pose proof (Z.mod_pos_bound (b / 2 ^ 13) (2 ^ 10) ltac:(done)). assert (0 <= b / 2 ^ 31 < 2) by mlia.
  rewrite Z.shiftl_mul_pow2, u32_small by (done || unfold is_u32; lia). rewrite lor_high by lia.
  replace (b / 2 ^ 31 * 2 ^ 15 + (f32_exp b - 127 + 15) * 2 ^ 10)
    with ((b / 2 ^ 31 * 2 ^ 5 + (f32_exp b - 112)) * 2 ^ 10) by lia.
  rewrite lor_high by lia. rewrite u16_small by (unfold is_u16; lia). lia.
Qed.
(** A half float that is a normal number survives the trip, and a float in the range
    of normal half floats loses the low thirteen bits of its mantissa. *)
Lemma half_stable h : is_u16 h -> 1 <= half_exp h <= 30 -> f32_to_half (half_to_f32 h) = h.
Proof.
  unfold is_u16. intros Hh He. rewrite half_to_f32_spec by done. set (b := _ + _).
  assert (0 <= h / 2 ^ 15 < 2) by mlia. pose proof (Z.mod_pos_bound h (2 ^ 10) ltac:(done)).
  assert (f32_exp b = half_exp h + 112) as Eb.
  { unfold f32_exp, b. replace (_ + _ + _) with (h mod 2 ^ 10 * 2 ^ 13 + (h / 2 ^ 15 * 2 ^ 8 + (half_exp h + 112)) * 2 ^ 23) by lia.
    rewrite Z.div_add, Z.div_small by lia. mlia. }
  assert (b / 2 ^ 31 = h / 2 ^ 15) as Es.
  { unfold b. replace (_ + _ + _) with (((half_exp h + 112) * 2 ^ 23 + h mod 2 ^ 10 * 2 ^ 13) + h / 2 ^ 15 * 2 ^ 31) by lia.
    rewrite Z.div_add, Z.div_small by lia. done. }
  assert (b / 2 ^ 13 mod 2 ^ 10 = h mod 2 ^ 10) as Em.
  { unfold b. replace (_ + _ + _) with ((h mod 2 ^ 10 + (h / 2 ^ 15 * 2 ^ 8 + (half_exp h + 112)) * 2 ^ 10) * 2 ^ 13) by lia.
    rewrite Z.div_mul, Z.mod_add by done. by apply Z.mod_mod. }
  rewrite f32_to_half_spec by (unfold is_u32, b in *; lia). rewrite Eb, Es, Em. unfold half_exp. mlia.
Qed.
Lemma half_truncates b :
  is_u32 b -> 113 <= f32_exp b <= 142 -> half_to_f32 (f32_to_half b) = b - b mod 2 ^ 13.
Proof.
  unfold is_u32. intros Hb He. rewrite f32_to_half_spec by done. set (h := _ + _).
  assert (0 <= b / 2 ^ 31 < 2) by mlia. pose proof (Z.mod_pos_bound (b / 2 ^ 13) (2 ^ 10) ltac:(done)).
  assert (half_exp h = f32_exp b - 112) as Eh.
  { unfold half_exp, h. replace (_ + _ + _) with (b / 2 ^ 13 mod 2 ^ 10 + (b / 2 ^ 31 * 2 ^ 5 + (f32_exp b - 112)) * 2 ^ 10) by lia.
    rewrite Z.div_add, Z.div_small by lia. mlia. }
  assert (h / 2 ^ 15 = b / 2 ^ 31) as Es.
  { unfold h. replace (_ + _ + _) with (((f32_exp b - 112) * 2 ^ 10 + b / 2 ^ 13 mod 2 ^ 10) + b / 2 ^ 31 * 2 ^ 15) by lia.
    rewrite Z.div_add, Z.div_small by lia. done. }
  assert (h mod 2 ^ 10 = b / 2 ^ 13 mod 2 ^ 10) as Em.
  { unfold h. replace (_ + _ + _) with (b / 2 ^ 13 mod 2 ^ 10 + (b / 2 ^ 31 * 2 ^ 5 + (f32_exp b - 112)) * 2 ^ 10) by lia.
    rewrite Z.mod_add by done. by apply Z.mod_mod. }
  rewrite half_to_f32_spec by (unfold is_u16, h in *; lia). rewrite Eh, Es, Em. unfold f32_exp. mlia.
Qed.

(** A property of every integer of an interval, by evaluation. *)
Lemma forall_seqZ (f : Z -> bool) m n i : forallb f (seqZ m n) = true -> m <= i < m + n -> f i = true.
Proof.
  intros Hf Hi. rewrite forallb_forall in Hf. apply Hf, list_elem_of_In. apply elem_of_seqZ. lia.
Qed.

Lemma half_of_exact x : -1024 <= x < 1024 -> f_to_i32 (fmul (f_of_bits (half_of x)) (f_of_Z 2)) = x.
Proof.
  intros Hx. apply Z.eqb_eq.
  apply (forall_seqZ (fun x => f_to_i32 (fmul (f_of_bits (half_of x)) (f_of_Z 2)) =? x) (-1024) 2048);
    [by vm_compute|lia].
Qed.
Lemma clamp_id v lo hi : lo <= v <= hi -> clamp_i v lo hi = v.
Proof. intros Hv. unfold clamp_i. rewrite !(proj2 (Z.ltb_ge _ _)) by lia. done. Qed.
Lemma vec3_stable p :
  is_u32 p -> let '(x, y, z) := vec3_dequantize p in vec3_quantize x y z = p.
Proof.
  unfold is_u32. intros Hp. unfold vec3_dequantize, vec3_quantize. cbv zeta.
  change 2047 with (Z.ones 11). change 1023 with (Z.ones 10). rewrite !Z.land_ones by done.
  rewrite !Z.shiftr_div_pow2 by done.
  set (x := p mod 2 ^ 11). set (y := p / 2 ^ 11 mod 2 ^ 11). set (z := p / 2 ^ 22 mod 2 ^ 10).
  assert (0 <= x < 2 ^ 11) by (apply Z.mod_pos_bound; lia). assert (0 <= y < 2 ^ 11) by (apply Z.mod_pos_bound; lia).
  assert (0 <= z < 2 ^ 10) by (apply Z.mod_pos_bound; lia).
  rewrite !half_of_exact by lia. change (Z.ones 10) with 1023. rewrite !clamp_id by lia.
  rewrite !Z.sub_add. rewrite (u32_small x), (u32_small y), (u32_small z) by (unfold is_u32; lia).
  rewrite (Z.mod_small x), (Z.mod_small y), (Z.mod_small z) by lia.
  rewrite !u32_small by (unfold is_u32; rewrite ?Z.shiftl_mul_pow2 by done; lia).
  rewrite (lor_shift x y 11) by lia. rewrite (lor_shift _ z 22) by lia. unfold x, y, z. mlia.
Qed.

Lemma to10_from10 v : 0 <= v < 1024 -> to10 (fmul (from10 v) (f_of_Z 1)) = v.
Proof.
  intros Hv. apply Z.eqb_eq.
  apply (forall_seqZ (fun v => to10 (fmul (from10 v) (f_of_Z 1)) =? v) 0 1024); [by vm_compute|lia].
Qed.
Lemma binary_round_aux_sign prec emax m e l :
  dlt (binary_round_aux prec emax false m e l) (S754_zero false) = false.
Proof.
  unfold binary_round_aux. destruct (shr_fexp prec emax m e l) as [r ex].
  destruct (shr_fexp prec emax _ ex loc_Exact) as [r' e']. destruct (shr_m r'); [done| |done].
  by case_if.
Qed.
Lemma fsqrt_sign x : dlt (fsqrt x) (S754_zero false) = false.
Proof.
  unfold fsqrt. destruct x as [[]|[]| |[] m e]; cbn [SFsqrt]; try done.
  destruct (SFsqrt_core_binary _ _ _ _) as [[mz ez] lz]. apply binary_round_aux_sign.
Qed.
(** A packed quaternion whose dropped component is the largest packs to itself. *)
Lemma quat_stable p :
  is_u32 p -> max_index (quat_dequantize p) = p / 2 ^ 30 -> quat_quantize (quat_dequantize p) = p.
Proof.
  unfold is_u32. intros Hp Hm. unfold quat_quantize. rewrite Hm. clear Hm. unfold quat_dequantize. cbv zeta.
  change 1023 with (Z.ones 10). change 3 with (Z.ones 2). rewrite !Z.land_ones by done. rewrite !Z.shiftr_div_pow2 by done.
  rewrite (Z.mod_small (p / 2 ^ 30)) by mlia.
  set (a := p / 2 ^ 20 mod 2 ^ 10). set (b := p / 2 ^ 10 mod 2 ^ 10). set (c := p mod 2 ^ 10). set (i := p / 2 ^ 30).
  assert (0 <= a < 2 ^ 10) by (apply Z.mod_pos_bound; lia). assert (0 <= b < 2 ^ 10) by (apply Z.mod_pos_bound; lia).
  assert (0 <= c < 2 ^ 10) by (apply Z.mod_pos_bound; lia). assert (0 <= i < 4) by (unfold i; mlia).
  set (w := if dlt _ _ then _ else _).
  assert (dlt w (f_of_Z 0) = false) as Hw by (unfold w; case_if; [apply fsqrt_sign|done]).
  clearbody w. set (q := place _ _ _ _ _).
  assert (q.[i] = w /\ others q 0 i (f_of_Z 1) = [fmul (from10 a) (f_of_Z 1); fmul (from10 b) (f_of_Z 1); fmul (from10 c) (f_of_Z 1)])
    as [Eq Eo].
  { assert (i = 0 \/ i = 1 \/ i = 2 \/ i = 3) as [E|[E|[E|E]]] by lia; unfold q; rewrite E; done. }
  rewrite Eq, Hw, Eo. unfold aget. change (Z.to_nat 0) with 0%nat. change (Z.to_nat 1) with 1%nat. change (Z.to_nat 2) with 2%nat.
  cbn [list_lookup_total lookup_total]. rewrite !to10_from10 by lia. clear Eq Eo q Hw w.
  rewrite !Z.shiftl_mul_pow2 by done. rewrite !u32_small by (unfold is_u32; lia).
  rewrite lor_high by lia. replace (i * 2 ^ 30 + a * 2 ^ 20) with ((i * 2 ^ 10 + a) * 2 ^ 20) by lia.
  rewrite lor_high by lia. replace ((i * 2 ^ 10 + a) * 2 ^ 20 + b * 2 ^ 10) with ((i * 2 ^ 20 + a * 2 ^ 10 + b) * 2 ^ 10) by lia.
  rewrite lor_high by lia. unfold a, b, c, i. mlia.
Qed.

End Quantize.
