(* ===== verification/Schema.v ===== *)
(** Replication schemas and entities (src/src/replication/schema.h and entity.h).

    A schema lays properties out in a value buffer; an entity holds a buffer and a
    mask of the properties that changed.  An entity points to its schema, so what a
    setter sees is the schema as it is now: the operations take the schema the
    pointer leads to, [None] for a null pointer.  Storing outside the buffer is
    [None]. *)

From S2P Require Import Prelude Bytes Double Quantize.

Module Schema.

Inductive PropType : Type := U8 | U16 | I32 | F32 | VEC3 | QUAT | BLOB.
#[export] Instance PropType_eq_dec : EqDecision PropType.
Proof. solve_decision. Defined.

Definition REP_OWNER_ONLY : Z := 1.
Definition REP_SKIP_OWNER : Z := 2.
Definition REP_INITIAL_ONLY : Z := 4.
Definition REP_RELIABLE : Z := 16.
Definition REP_QUANTIZE : Z := 32.
Definition kMaxPropName : Z := 32.
Definition kMaxProperties : Z := 64.
(** [(flags & f) != 0] *)
Definition has (flags f : Z) : bool := negb (Z.land flags f =? 0).

(** [name] is the text before the terminator. *)
Record PropDesc : Type := mkProp {
  name : bytes; type : PropType; rep_flags : Z; raw_size : Z; wire_size : Z;
  offset : Z; bit_index : Z; blob_capacity : Z }.
Record Schema : Type := mkSchema {
  schema_id : Z; prop_count : Z; value_buffer_size : Z; props : list PropDesc }.

Definition prop_zero : PropDesc := mkProp [] U8 0 0 0 0 0 0.
#[export] Instance PropDesc_inhabited : Inhabited PropDesc := populate prop_zero.
Definition schema_zero : Schema := mkSchema (-1) 0 0 (replicate 64 prop_zero).
#[export] Instance Schema_inhabited : Inhabited Schema := populate schema_zero.

(** [strncpy] keeps 31 characters.  The sum of sizes is an [int]; overflowing it is
    undefined. *)
Definition add_prop (s : Schema) (nm : bytes) (ty : PropType) (flags raw wire blob_cap : Z)
    : option (Z * Schema) :=
  if kMaxProperties <=? prop_count s then Some (-1, s)
  else
    let idx := prop_count s in
    let p := mkProp (take (Z.to_nat (kMaxPropName - 1)) nm) ty flags raw
               (if has flags REP_QUANTIZE then wire else raw) (value_buffer_size s) idx blob_cap in
    props ← oset (props s) idx p;
    _ ← guard_ub (value_buffer_size s + raw <? 2 ^ 31);
    Some (idx, mkSchema (schema_id s) (prop_count s + 1) (value_buffer_size s + raw) props).

(** [strncmp] over 32 characters: the stored text is terminated within them. *)
Fixpoint find_from (n : nat) (i : Z) (s : Schema) (nm : bytes) : option Z :=
  match n with
  | O => Some (-1)
  | S n => p ← oget (props s) i;
           if bool_decide (name p = nm) then Some i else find_from n (i + 1) s nm
  end.
Definition find_prop (s : Schema) (nm : bytes) : option Z := find_from (Z.to_nat (prop_count s)) 0 s nm.

(** * Entities *)

Definition kEntityMaxValueSize : Z := 2048.

(** [schema] is the index of the schema pointed to in the server's array. *)
Record Entity : Type := mkEntity {
  active : bool; entity_id : Z; e_schema_id : Z; schema : option Z; owner_client : Z; group_id : Z;
  dirty_mask : Z; initial_mask : Z; needs_initial : bool; priority : Z; max_rate_hz : spec_float;
  last_replicate_time : double; min_update_interval : spec_float; values : bytes }.

Definition reset : Entity :=
  mkEntity false 0 (-1) None (-1) (-1) 0 0 true 128 (f_of_Z 20) d0 (f_of_Z 2)
    (replicate (Z.to_nat kEntityMaxValueSize) 0).
#[export] Instance Entity_inhabited : Inhabited Entity := populate reset.

Definition set_values (e : Entity) (mask : Z) (v : bytes) : Entity :=
  mkEntity (active e) (entity_id e) (e_schema_id e) (schema e) (owner_client e) (group_id e) mask
    (initial_mask e) (needs_initial e) (priority e) (max_rate_hz e) (last_replicate_time e)
    (min_update_interval e) v.
Definition set_group (e : Entity) (g : Z) : Entity :=
  mkEntity (active e) (entity_id e) (e_schema_id e) (schema e) (owner_client e) g (dirty_mask e)
    (initial_mask e) (needs_initial e) (priority e) (max_rate_hz e) (last_replicate_time e)
    (min_update_interval e) (values e).
Definition set_owner (e : Entity) (c : Z) : Entity :=
  mkEntity (active e) (entity_id e) (e_schema_id e) (schema e) c (group_id e) (dirty_mask e)
    (initial_mask e) (needs_initial e) (priority e) (max_rate_hz e) (last_replicate_time e)
    (min_update_interval e) (values e).
Definition set_priority (e : Entity) (p : Z) : Entity :=
  mkEntity (active e) (entity_id e) (e_schema_id e) (schema e) (owner_client e) (group_id e) (dirty_mask e)
    (initial_mask e) (needs_initial e) p (max_rate_hz e) (last_replicate_time e)
    (min_update_interval e) (values e).
Definition set_max_rate (e : Entity) (hz : spec_float) : Entity :=
  mkEntity (active e) (entity_id e) (e_schema_id e) (schema e) (owner_client e) (group_id e) (dirty_mask e)
    (initial_mask e) (needs_initial e) (priority e) hz (last_replicate_time e)
    (min_update_interval e) (values e).
(** After replication: clean, and the time of it when packets went out. *)
Definition set_clean (e : Entity) (time : double) : Entity :=
  mkEntity (active e) (entity_id e) (e_schema_id e) (schema e) (owner_client e) (group_id e) 0
    (initial_mask e) false (priority e) (max_rate_hz e) time (min_update_interval e) (values e).

(** [valid_prop]: the descriptor when the index and the type fit. *)
Definition valid_prop (s : option Schema) (idx : Z) (expected : PropType) : option (option PropDesc) :=
  match s with
  | None => Some None
  | Some s =>
      if (idx <? 0) || (prop_count s <=? idx) then Some None
      else p ← oget (props s) idx;
           Some (if bool_decide (type p = expected) then Some p else None)
  end.
Definition mark (e : Entity) (idx : Z) (v : bytes) : Entity :=
  set_values e (Z.lor (dirty_mask e) (u64 (Z.shiftl 1 idx))) v.

(** The setters that compare bytes: [n] bytes at the property's offset. *)
Definition store (e : Entity) (p : PropDesc) (idx : Z) (data : bytes) : option (bool * Entity) :=
  old ← mread (values e) (offset p) (zlen data);
  if bool_decide (old = data) then Some (false, e)
  else v ← mwrite (values e) (offset p) data; Some (true, mark e idx v).
Definition set_typed (s : option Schema) (e : Entity) (idx : Z) (ty : PropType) (data : bytes)
    : option (bool * Entity) :=
  v ← valid_prop s idx ty;
  match v with
  | None => Some (false, e)
  | Some p => store e p idx data
  end.
Definition set_u8 (s : option Schema) (e : Entity) (idx val : Z) := set_typed s e idx U8 (le_bytes 1 val).
Definition set_u16 (s : option Schema) (e : Entity) (idx val : Z) := set_typed s e idx U16 (le_bytes 2 val).
Definition set_i32 (s : option Schema) (e : Entity) (idx val : Z) := set_typed s e idx I32 (le_bytes 4 val).
(** Floats are compared as numbers: zeros of either sign are equal and NaN is not
    equal to itself. *)
Definition set_f32 (s : option Schema) (e : Entity) (idx bits : Z) : option (bool * Entity) :=
  v ← valid_prop s idx F32;
  match v with
  | None => Some (false, e)
  | Some p =>
      old ← mread_u (values e) (offset p) 4;
      if deq (f_of_bits old) (f_of_bits bits) then Some (false, e)
      else v ← mwrite (values e) (offset p) (le_bytes 4 bits); Some (true, mark e idx v)
  end.
Definition set_vec3 (s : option Schema) (e : Entity) (idx : Z) (v0 v1 v2 : Z) :=
  set_typed s e idx VEC3 (le_bytes 4 v0 ++ le_bytes 4 v1 ++ le_bytes 4 v2).
Definition set_quat (s : option Schema) (e : Entity) (idx : Z) (q0 q1 q2 q3 : Z) :=
  set_typed s e idx QUAT (le_bytes 4 q0 ++ le_bytes 4 q1 ++ le_bytes 4 q2 ++ le_bytes 4 q3).
(** [data] is the memory the pointer leads to, [len] an [int]: a negative one passes the
    check and becomes a size of almost 2^64 bytes, which leaves every object. *)
Definition set_blob (s : option Schema) (e : Entity) (idx : Z) (data : bytes) (len : Z) : option (bool * Entity) :=
  v ← valid_prop s idx BLOB;
  match v with
  | None => Some (false, e)
  | Some p =>
      if blob_capacity p <? len then Some (false, e)
      else d ← mread data 0 len; store e p idx d
  end.

(** The getters: the bytes of the property, or the default. *)
Definition get_typed (s : option Schema) (e : Entity) (idx : Z) (ty : PropType) (n : nat) (default : bytes)
    : option bytes :=
  v ← valid_prop s idx ty;
  match v with
  | None => Some default
  | Some p => mread (values e) (offset p) (Z.of_nat n)
  end.
Definition get_u8 (s : option Schema) (e : Entity) (idx : Z) := le_value <$> get_typed s e idx U8 1 (le_bytes 1 0).
Definition get_u16 (s : option Schema) (e : Entity) (idx : Z) := le_value <$> get_typed s e idx U16 2 (le_bytes 2 0).
Definition get_i32 (s : option Schema) (e : Entity) (idx : Z) :=
  (fun d => i32 (le_value d)) <$> get_typed s e idx I32 4 (le_bytes 4 0).
Definition get_f32 (s : option Schema) (e : Entity) (idx : Z) := le_value <$> get_typed s e idx F32 4 (le_bytes 4 0).
Definition get_vec3 (s : option Schema) (e : Entity) (idx : Z) := get_typed s e idx VEC3 12 (replicate 12 0).
Definition get_quat (s : option Schema) (e : Entity) (idx : Z) :=
  get_typed s e idx QUAT 16 (replicate 12 0 ++ le_bytes 4 1065353216).

(** * The layout *)

Definition size_of (ty : PropType) (blob : Z) : Z :=
  match ty with U8 => 1 | U16 => 2 | I32 | F32 => 4 | VEC3 => 12 | QUAT => 16 | BLOB => blob end.
Definition prop_end (p : PropDesc) : Z := offset p + raw_size p.
(** Properties follow each other in the buffer, each of the size of its type. *)
Record schema_wf (s : Schema) : Prop := {
  sw_count : 0 <= prop_count s <= 64;
  sw_props : zlen (props s) = 64;
  sw_size : forall i, 0 <= i < prop_count s -> let p := (props s).[i] in
    0 < raw_size p /\ raw_size p = size_of (type p) (blob_capacity p) /\ bit_index p = i;
  sw_first : 0 <= value_buffer_size s;
  sw_offset : forall i, 0 <= i < prop_count s ->
    0 <= offset (props s).[i] /\ prop_end (props s).[i] <= value_buffer_size s;
  sw_apart : forall i j, 0 <= i < j -> j < prop_count s -> prop_end (props s).[i] <= offset (props s).[j] }.

Lemma schema_zero_wf : schema_wf schema_zero.
Proof. split; try done; cbn; intros; lia. Qed.
(** What adding a property of a given type does. *)
Lemma add_prop_spec s nm ty flags raw wire blob :
  schema_wf s -> 0 < raw -> raw = size_of ty blob -> value_buffer_size s + raw < 2 ^ 31 ->
  exists r s', add_prop s nm ty flags raw wire blob = Some (r, s') /\ schema_wf s' /\
    (prop_count s = 64 -> r = -1 /\ s' = s) /\
    (prop_count s < 64 -> r = prop_count s /\ prop_count s' = prop_count s + 1 /\
       value_buffer_size s' = value_buffer_size s + raw /\
       type (props s').[r] = ty /\ rep_flags (props s').[r] = flags /\
       forall i, 0 <= i < prop_count s -> (props s').[i] = (props s).[i]).
Proof.
  intros [H1 H2 H3 H4 H5 H6] Hr Hsz Hv. unfold add_prop, kMaxProperties. case_if.
  { eexists _, _. split; [done|]. split; [by split|]. split; [done|lia]. }
  rewrite oset_aset, Some_bind by lia. rewrite (proj2 (Z.ltb_lt _ _)) by lia. cbn [guard_ub]. rewrite Some_bind.
  set (p := mkProp _ _ _ _ _ _ _ _). eexists _, _. split; [done|].
  assert (forall i, 0 <= i < prop_count s -> (aset (props s) (prop_count s) p).[i] = (props s).[i]) as Hold
    by (intros i Hi; apply aget_aset_ne; lia).
  assert ((aset (props s) (prop_count s) p).[prop_count s] = p) as Hnew by (apply aget_aset_eq; lia).
  split; [|split; [lia|intros _; split_and!; cbn [props prop_count value_buffer_size]; try done; by rewrite Hnew]].
  split; cbn [prop_count props value_buffer_size]; try lia.
  - by rewrite zlen_aset.
  - intros i Hi. destruct (decide (i = prop_count s)) as [->|]; [by rewrite Hnew|]. rewrite Hold by lia. apply H3. lia.
  - intros i Hi. destruct (decide (i = prop_count s)) as [->|]; [rewrite Hnew; unfold prop_end; cbn; lia|].
    rewrite Hold by lia. destruct (H5 i); lia.
  - intros i j Hi Hj. rewrite Hold by lia. destruct (decide (j = prop_count s)) as [->|].
    + rewrite Hnew. cbn. apply H5. lia.
    + rewrite Hold by lia. by apply H6; lia.
Qed.

(** * Setters, as one *)

Inductive setter : Type :=
  | SetU8 (idx val : Z) | SetU16 (idx val : Z) | SetI32 (idx val : Z) | SetF32 (idx bits : Z)
  | SetVec3 (idx v0 v1 v2 : Z) | SetQuat (idx q0 q1 q2 q3 : Z) | SetBlob (idx : Z) (data : bytes) (len : Z).
Definition perform_set (s : option Schema) (e : Entity) (x : setter) : option (bool * Entity) :=
  match x with
  | SetU8 i v => set_u8 s e i v
  | SetU16 i v => set_u16 s e i v
  | SetI32 i v => set_i32 s e i v
  | SetF32 i b => set_f32 s e i b
  | SetVec3 i a b c => set_vec3 s e i a b c
  | SetQuat i a b c d => set_quat s e i a b c d
  | SetBlob i d n => set_blob s e i d n
  end.
(** The property, the type and the bytes a setter is for. *)
Definition payload (x : setter) : Z * PropType * bytes :=
  match x with
  | SetU8 i v => (i, U8, le_bytes 1 v)
  | SetU16 i v => (i, U16, le_bytes 2 v)
  | SetI32 i v => (i, I32, le_bytes 4 v)
  | SetF32 i b => (i, F32, le_bytes 4 b)
  | SetVec3 i a b c => (i, VEC3, le_bytes 4 a ++ le_bytes 4 b ++ le_bytes 4 c)
  | SetQuat i a b c d => (i, QUAT, le_bytes 4 a ++ le_bytes 4 b ++ le_bytes 4 c ++ le_bytes 4 d)
  | SetBlob i d n => (i, BLOB, take (Z.to_nat n) d)
  end.
(** The setter finds its property. *)
Definition accepts (s : Schema) (x : setter) : bool :=
  let '(i, ty, data) := payload x in
  (0 <=? i) && (i <? prop_count s) && bool_decide (type (props s).[i] = ty) &&
  (zlen data <=? raw_size (props s).[i]).
(** The value is the one the property has already. *)
Definition unchanged (ty : PropType) (data old : bytes) : bool :=
  match ty with
  | F32 => deq (f_of_bits (le_value old)) (f_of_bits (le_value data))
  | _ => bool_decide (take (length data) old = data)
  end.
Definition overwrite (data old : bytes) : bytes := data ++ drop (length data) old.

(** Floats come as 32-bit patterns, and a blob has the number of bytes given with it. *)
Definition setter_ok (x : setter) : Prop :=
  match x with
  | SetF32 _ b => is_u32 b
  | SetBlob _ data len => 0 <= len <= zlen data
  | _ => True
  end.

(** An entity whose buffer has its size. *)
Definition entity_wf (e : Entity) : Prop := zlen (values e) = kEntityMaxValueSize.
Definition fits (s : Schema) : Prop := value_buffer_size s <= kEntityMaxValueSize.
Definition prop_bytes (s : Schema) (e : Entity) (i : Z) : option bytes :=
  mread (values e) (offset (props s).[i]) (raw_size (props s).[i]).

Lemma prop_bytes_Some s e i :
  schema_wf s -> fits s -> entity_wf e -> 0 <= i < prop_count s ->
  exists d, prop_bytes s e i = Some d /\ zlen d = raw_size (props s).[i].
Proof.
  intros [H1 H2 H3 H4 H5 H6] Hf He Hi. unfold prop_bytes, fits, entity_wf, prop_end in *.
  destruct (H3 i Hi) as (Hr & _). destruct (H5 i Hi) as [Ho1 Ho2].
  rewrite mread_Some by lia. eexists. split; [done|]. unfold zlen in *. rewrite length_take, length_drop. lia.
Qed.

Lemma zlen_take_Z (l : bytes) n : 0 <= n <= zlen l -> zlen (take (Z.to_nat n) l) = n.
Proof. unfold zlen. rewrite length_take. lia. Qed.
Lemma perform_set_spec s e x old :
  schema_wf s -> fits s -> entity_wf e -> setter_ok x ->
  prop_bytes s e (payload x).1.1 = Some old -> accepts s x = true ->
  let '(i, ty, data) := payload x in
  if unchanged ty data old then perform_set (Some s) e x = Some (false, e)
  else exists v, perform_set (Some s) e x = Some (true, mark e i v) /\ mwrite (values e) (offset (props s).[i]) data = Some v.
Proof.
  intros Hs Hf He Hx Ho Ha.
  assert (forall i ty data, payload x = (i, ty, data) -> 0 <= i < prop_count s /\ type (props s).[i] = ty /\
    zlen data <= raw_size (props s).[i]) as Hacc.
  { intros i ty data Ep. unfold accepts in Ha. rewrite Ep in Ha. bool_facts. by apply bool_decide_eq_true in H1. }
  assert (forall i ty data, payload x = (i, ty, data) -> valid_prop (Some s) i ty = Some (Some (props s).[i])) as Hvp.
  { intros i ty data Ep. destruct (Hacc _ _ _ Ep) as (Hi & Ht & _). unfold valid_prop.
    rewrite (proj2 (Z.ltb_ge _ _)), (proj2 (Z.leb_gt _ _)) by lia. cbn [orb].
    rewrite oget_aget by (rewrite (sw_props _ Hs); pose proof (sw_count _ Hs); lia). rewrite Some_bind.
    by rewrite bool_decide_true. }
  assert (forall i ty data, payload x = (i, ty, data) -> ty <> F32 ->
    if unchanged ty data old then store e (props s).[i] i data = Some (false, e)
    else exists v, store e (props s).[i] i data = Some (true, mark e i v) /\
           mwrite (values e) (offset (props s).[i]) data = Some v) as Hst.
  { intros i ty data Ep Hne. destruct (Hacc _ _ _ Ep) as (Hi & _ & Hd). rewrite Ep in Ho. cbn in Ho.
    unfold prop_bytes in Ho. unfold store. pose proof (zlen_nonneg data).
    rewrite (mread_front _ _ _ _ _ Ho), Some_bind by lia.
    replace (Z.to_nat (zlen data)) with (length data) by (unfold zlen; lia).
    assert (unchanged ty data old = bool_decide (take (length data) old = data)) as -> by by destruct ty.
    case_if; [done|]. destruct (mread_inv _ _ _ _ Ho) as (A1 & A2 & A3 & _).
    rewrite mwrite_Some by lia. by eexists. }
  destruct x as [i v|i v|i v|i b|i a b c|i a b c d|i data len]; cbn [payload fst perform_set] in *.
  1-3, 5-6: unfold set_u8, set_u16, set_i32, set_vec3, set_quat, set_typed; rewrite (Hvp _ _ _ eq_refl), Some_bind;
    by apply (Hst _ _ _ eq_refl).
  - unfold set_f32. rewrite (Hvp _ _ _ eq_refl), Some_bind. destruct (Hacc _ _ _ eq_refl) as (Hi & Ht & _).
    destruct (sw_size _ Hs i Hi) as (_ & Hr & _). rewrite Ht in Hr. cbn [size_of] in Hr.
    unfold prop_bytes in Ho. rewrite Hr in Ho. unfold mread_u. change (Z.of_nat 4) with 4. rewrite Ho. cbn [fmap option_fmap option_map].
    rewrite Some_bind. cbn [unchanged]. unfold setter_ok, is_u32 in Hx. rewrite (le_value_bytes_small 4 b) by lia.
    case_if; [done|]. destruct (mread_inv _ _ _ _ Ho) as (A1 & A2 & A3 & _).
    rewrite mwrite_Some by (rewrite ?zlen_le_bytes; lia). by eexists.
  - unfold set_blob. rewrite (Hvp _ _ _ eq_refl), Some_bind. destruct (Hacc _ _ _ eq_refl) as (Hi & Ht & Hd).
    destruct (sw_size _ Hs i Hi) as (_ & Hr & _). rewrite Ht in Hr. cbn [size_of] in Hr.
    cbn [setter_ok] in Hx. rewrite (zlen_take_Z data len) in Hd by done.
    rewrite (proj2 (Z.ltb_ge _ _)), (mread_Some _ 0), drop_0, Some_bind by lia. by apply (Hst _ _ _ eq_refl).
Qed.

Lemma payload_size x : let '(i, ty, data) := payload x in ty <> BLOB -> zlen data = size_of ty 0.
Proof. destruct x; cbn [payload]; intros Hb; by rewrite ?zlen_app, ?zlen_le_bytes. Qed.
(** A setter whose property is missing, of another type or too small does nothing. *)
Lemma perform_set_rejected s e x :
  schema_wf s -> setter_ok x -> accepts s x = false -> perform_set (Some s) e x = Some (false, e).
Proof.
  intros Hs Hx Ha. pose proof (sw_count _ Hs) as Hc. pose proof (sw_props _ Hs) as Hl. pose proof (payload_size x) as Hp.
  assert (forall i ty data, payload x = (i, ty, data) ->
    valid_prop (Some s) i ty = Some None \/
    (valid_prop (Some s) i ty = Some (Some (props s).[i]) /\ ty = BLOB /\ raw_size (props s).[i] < zlen data /\
     0 <= i < prop_count s /\ type (props s).[i] = BLOB)) as Hv.
  { intros i ty data Ep. rewrite Ep in Hp. unfold accepts in Ha. rewrite Ep in Ha. unfold valid_prop.
    destruct ((i <? 0) || (prop_count s <=? i)) eqn:E; [by left|]. bool_facts.
    rewrite (proj2 (Z.leb_le _ _)), (proj2 (Z.ltb_lt _ _)) in Ha by lia. cbn [andb] in Ha.
    rewrite oget_aget, Some_bind by lia. case_bool_decide as Ht; [|by left]. cbn [andb] in Ha. bool_facts.
    destruct (sw_size _ Hs i ltac:(lia)) as (_ & Hr & _). destruct (decide (ty = BLOB)) as [->|Hne].
    - right. split_and!; try done; lia.
    - exfalso. rewrite (Hp Hne), Hr, Ht in Ha. destruct ty; cbn in Ha; done || lia. }
  destruct x as [i v|i v|i v|i b|i a b c|i a b c d|i data len]; cbn [payload perform_set] in *;
    destruct (Hv _ _ _ eq_refl) as [E|(E & Eb & Hd & Hi & Ht)]; try done.
  all: unfold set_u8, set_u16, set_i32, set_f32, set_vec3, set_quat, set_blob, set_typed; rewrite E, Some_bind; try done.
  destruct (sw_size _ Hs i Hi) as (_ & Hr & _). rewrite Ht in Hr. cbn [size_of] in Hr.
  cbn [setter_ok] in Hx. rewrite (zlen_take_Z data len) in Hd by done. by rewrite (proj2 (Z.ltb_lt _ _)) by lia.
Qed.
(** A negative length passes the check of the capacity. *)
Lemma negative_blob_leaves s e i data len p :
  valid_prop s i BLOB = Some (Some p) -> len < 0 <= blob_capacity p -> set_blob s e i data len = None.
Proof.
  intros E Hl. unfold set_blob. rewrite E, Some_bind, (proj2 (Z.ltb_ge _ _)) by lia.
  unfold mread. rewrite (proj2 (Z.leb_gt 0 len)) by lia. by rewrite ?andb_false_r.
Qed.

(** * An entity as a record of values with marks *)

Definition prop_view (s : Schema) (e : Entity) (i : Z) : bytes * bool :=
  (default [] (prop_bytes s e i), Z.testbit (dirty_mask e) i).
Definition view (s : Schema) (e : Entity) : list (bytes * bool) := prop_view s e <$> seqZ 0 (prop_count s).

(** Setting a property of the abstract record: whether it changed, and the record. *)
Definition spec_set (s : Schema) (l : list (bytes * bool)) (x : setter) : bool * list (bytes * bool) :=
  let '(i, ty, data) := payload x in
  if accepts s x then
    match l !! Z.to_nat i with
    | Some (old, _) => if unchanged ty data old then (false, l)
                       else (true, <[Z.to_nat i := (overwrite data old, true)]> l)
    | None => (false, l)
    end
  else (false, l).
Fixpoint spec_sets (s : Schema) (l : list (bytes * bool)) (xs : list setter) : list bool * list (bytes * bool) :=
  match xs with
  | [] => ([], l)
  | x :: xs => let '(r, l) := spec_set s l x in let '(rs, l) := spec_sets s l xs in (r :: rs, l)
  end.
Fixpoint perform_sets (s : option Schema) (e : Entity) (xs : list setter) : option (list bool * Entity) :=
  match xs with
  | [] => Some ([], e)
  | x :: xs => '(r, e) ← perform_set s e x; '(rs, e) ← perform_sets s e xs; Some (r :: rs, e)
  end.

Lemma view_lookup s e i :
  0 <= i < prop_count s -> view s e !! Z.to_nat i = Some (prop_view s e i).
Proof.
  intros Hi. unfold view. rewrite list_lookup_fmap, lookup_seqZ_lt by lia. cbn. do 2 f_equal. lia.
Qed.
(** One property rewritten. *)
Lemma view_mark s e i data old v :
  schema_wf s -> entity_wf e -> 0 <= i < prop_count s -> prop_bytes s e i = Some old ->
  zlen data <= raw_size (props s).[i] -> mwrite (values e) (offset (props s).[i]) data = Some v ->
  view s (mark e i v) = <[Z.to_nat i := (overwrite data old, true)]> (view s e).
Proof.
  intros Hs He Hi Ho Hd Hw. pose proof (sw_count _ Hs) as Hc. apply list_eq. intros k.
  destruct (decide (k < length (view s e))%nat) as [Hk|Hk].
  2: { rewrite !lookup_ge_None_2; [done|rewrite length_insert; lia|]. unfold view in *.
       rewrite length_fmap in *. lia. }
  unfold view in Hk. rewrite length_fmap, length_seqZ in Hk.
  replace k with (Z.to_nat (Z.of_nat k)) by lia. set (j := Z.of_nat k). assert (0 <= j < prop_count s) as Hj by lia.
  rewrite view_lookup by done. unfold prop_view, mark, prop_bytes in *. cbn [values dirty_mask set_values].
  rewrite Z.lor_spec, u64_small by (unfold is_u64; rewrite Z.shiftl_1_l; split; [lia|apply Z.pow_lt_mono_r; lia]).
  rewrite Z.shiftl_1_l. destruct (decide (j = i)) as [->|Hne].
  - rewrite list_lookup_insert_eq by (unfold view; rewrite length_fmap, length_seqZ; lia).
    rewrite (mread_mwrite_front _ _ _ _ _ _ Hw Ho Hd), Z.pow2_bits_true, orb_true_r by lia. done.
  - rewrite list_lookup_insert_ne by lia. rewrite view_lookup by done. unfold prop_view, prop_bytes.
    rewrite Z.pow2_bits_false, orb_false_r by lia. do 3 f_equal. apply (mread_mwrite_disjoint _ _ _ _ _ _ Hw).
    destruct (Z_lt_le_dec j i).
    + left. apply (sw_apart _ Hs); lia.
    + right. pose proof (sw_apart _ Hs i j ltac:(lia) ltac:(lia)). unfold prop_end in *. lia.
Qed.

(** What setters leave alone. *)
Definition same_entity (e e' : Entity) : Prop :=
  e' = set_values e (dirty_mask e') (values e').
Lemma perform_set_refines s e x :
  schema_wf s -> fits s -> entity_wf e -> setter_ok x ->
  exists r e', perform_set (Some s) e x = Some (r, e') /\ entity_wf e' /\ same_entity e e' /\
    spec_set s (view s e) x = (r, view s e').
Proof.
  intros Hs Hf He Hx. unfold spec_set. destruct (accepts s x) eqn:Ha.
  2: { exists false, e. rewrite perform_set_rejected by done. destruct (payload x) as [[i ty] data].
       split; [done|]. split; [done|]. split; [by destruct e|done]. }
  pose proof Ha as Ha'. unfold accepts in Ha'.
  destruct (prop_bytes_Some s e (payload x).1.1 Hs Hf He) as (old & Ho & Hol).
  { destruct (payload x) as [[i ty] data]. bool_facts. cbn. lia. }
  pose proof (perform_set_spec s e x old Hs Hf He Hx Ho Ha) as Hp.
  destruct (payload x) as [[i ty] data]. cbn [fst] in *. bool_facts.
  rewrite view_lookup by lia. unfold prop_view. rewrite Ho. cbn [default from_option id]. change (id old) with old.
  destruct (unchanged ty data old).
  - rewrite Hp. eexists _, _. split; [done|]. split; [done|]. split; [by destruct e|done].
  - destruct Hp as (v & -> & Hw). eexists _, _. split; [done|].
    split; [unfold entity_wf in *; cbn; by rewrite (mwrite_zlen _ _ _ _ Hw)|]. split; [done|].
    by rewrite (view_mark s e i data old v) by (done || lia).
Qed.

(** A property that is not marked afterwards was not touched. *)
Lemma spec_set_clean s l x r l' k v :
  spec_set s l x = (r, l') -> l' !! k = Some (v, false) -> l !! k = Some (v, false).
Proof.
  unfold spec_set. destruct (payload x) as [[i ty] data]. intros E Hk.
  destruct (accepts s x); [|congruence]. destruct (l !! Z.to_nat i) as [[old d]|]; [|congruence].
  destruct (unchanged ty data old); [congruence|]. injection E as <- <-.
  apply list_lookup_insert_Some in Hk as [(_ & ? & _)|[_ Hk]]; congruence.
Qed.

(** C24.  An entity behaves as a record of property values with a mark per property.
    For any sequence of typed setters, whichever property numbers, types and blob sizes
    they are called with, every call stays inside the value buffer and returns what the
    abstract record returns, the values and marks are those of the record, nothing else
    of the entity changes; and a property that is not marked still has the bytes it had
    before.  The values of the schema must fit the 2048 bytes of an entity ([fits], which
    [add_prop] does not check), and a blob must come with a length that is not negative
    and not beyond its data ([setter_ok]; see [negative_blob_leaves]). *)
Theorem entity_refines_record s e xs :
  schema_wf s -> fits s -> entity_wf e -> Forall setter_ok xs ->
  exists rs e', perform_sets (Some s) e xs = Some (rs, e') /\ entity_wf e' /\ same_entity e e' /\
    spec_sets s (view s e) xs = (rs, view s e') /\
    forall i, 0 <= i < prop_count s -> Z.testbit (dirty_mask e') i = false ->
      prop_view s e' i = prop_view s e i.
Proof.
  intros Hs Hf He Hx. revert e He. induction Hx as [|x xs Hx _ IH]; intros e He; cbn [perform_sets spec_sets].
  - exists [], e. split_and!; try done. by destruct e.
  - destruct (perform_set_refines s e x Hs Hf He Hx) as (r & e1 & -> & He1 & Hs1 & E1). rewrite Some_bind, E1.
    destruct (IH e1 He1) as (rs & e2 & -> & He2 & Hs2 & -> & Hc). rewrite Some_bind.
    exists (r :: rs), e2. split_and!; try done.
    + unfold same_entity in *. rewrite Hs2, Hs1. done.
    + intros i Hi Hclean. pose proof (Hc i Hi Hclean) as E2. rewrite E2.
      assert (Z.testbit (dirty_mask e1) i = false) as Hc1 by (unfold prop_view in E2; congruence).
      pose proof (view_lookup s e1 i Hi) as L1. unfold prop_view in L1. rewrite Hc1 in L1.
      apply (spec_set_clean _ _ _ _ _ _ _ E1) in L1. rewrite view_lookup in L1 by done.
      unfold prop_view in *. congruence.
Qed.

(** * An example *)

(** A schema of three properties: a u16, a quantized f32 for everyone but the owner,
    and a blob of eight bytes for the first snapshot. *)
Definition demo_schema : Schema :=
  default schema_zero (
    '(_, s) ← add_prop schema_zero [104; 112] U16 0 2 2 0;
    '(_, s) ← add_prop s [120] F32 (REP_QUANTIZE + REP_SKIP_OWNER) 4 2 0;
    '(_, s) ← add_prop s [98] BLOB REP_INITIAL_ONLY 8 8 8; Some s).
Lemma demo_schema_wf : schema_wf demo_schema.
Proof.
  destruct (add_prop_spec schema_zero [104; 112] U16 0 2 2 0 schema_zero_wf) as (r1 & s1 & E1 & W1 & _ & H1);
    [done..|]. destruct (H1 ltac:(done)) as (-> & C1 & V1 & _).
  destruct (add_prop_spec s1 [120] F32 (REP_QUANTIZE + REP_SKIP_OWNER) 4 2 0 W1) as (r2 & s2 & E2 & W2 & _ & H2);
    [done..|by rewrite V1|]. destruct (H2 ltac:(by rewrite C1)) as (-> & C2 & V2 & _).
  destruct (add_prop_spec s2 [98] BLOB REP_INITIAL_ONLY 8 8 8 W2) as (r3 & s3 & E3 & W3 & _);
    [done..|by rewrite V2, V1|].
  unfold demo_schema. rewrite E1, Some_bind, E2, Some_bind, E3. exact W3.
Qed.
Definition demo_sets : list setter := [SetU16 0 700; SetU16 0 700; SetU8 0 1; SetF32 1 1065353216; SetBlob 2 [1; 2; 3] 3].
Lemma entity_refines_record_witness :
  exists e', perform_sets (Some demo_schema) reset demo_sets = Some ([true; false; false; true; true], e') /\
    entity_wf e' /\ view demo_schema e' = [([188; 2], true); ([0; 0; 128; 63], true); ([1; 2; 3; 0; 0; 0; 0; 0], true)].
Proof.
  destruct (entity_refines_record demo_schema reset demo_sets demo_schema_wf) as (rs & e' & E & He & _ & Hv & _).
  - vm_compute. discriminate.
  - reflexivity.
  - repeat constructor; vm_compute; discriminate || reflexivity.
  - exists e'. rewrite E. split; [|split; [exact He|]].
    + do 2 f_equal. apply (f_equal fst) in Hv. cbn [fst] in Hv. rewrite <- Hv. reflexivity.
    + apply (f_equal snd) in Hv. cbn [snd] in Hv. rewrite <- Hv. reflexivity.
Defined.

End Schema.
