(* ===== verification/Replicate.v ===== *)
(** The wire format of replicated entities (src/src/replication/replicate.cpp, second
    half): which properties a client gets, how they are written and how they are
    read.  The theorem is that reading gives back what was written, up to the
    documented loss of the quantized types. *)

From S2P Require Import Prelude Bytes Double Quantize Schema.

Module Replicate.
Import Quantize Schema.

(** * Writing *)

(** [memcpy] of [n] floats. *)
Fixpoint read_floats (n : nat) (buf : bytes) (pos : Z) : option (list Z) :=
  match n with
  | O => Some []
  | S n => x ← mread_u buf pos 4; l ← read_floats n buf (pos + 4); Some (x :: l)
  end.
Definition float_bytes (l : list Z) : bytes := concat (le_bytes 4 <$> l).

(** The value is at [val] in [vals]; [cap] bytes are left at [pos] in [out]. *)
Definition write_prop (pd : PropDesc) (vals : bytes) (val : Z) (out : bytes) (pos cap : Z)
    : option (Z * bytes) :=
  let raw :=
    if cap <? raw_size pd then Some (-1, out)
    else d ← mread vals val (raw_size pd); out ← mwrite out pos d; Some (raw_size pd, out) in
  if has (rep_flags pd) REP_QUANTIZE then
    match type pd with
    | VEC3 =>
        if cap <? 4 then Some (-1, out)
        else v ← read_floats 3 vals val;
             out ← mwrite out pos (le_bytes 4 (vec3_quantize v.[0] v.[1] v.[2])); Some (4, out)
    | QUAT =>
        if cap <? 4 then Some (-1, out)
        else q ← read_floats 4 vals val;
             out ← mwrite out pos (le_bytes 4 (quat_quantize (f_of_bits <$> q))); Some (4, out)
    | F32 =>
        if cap <? 2 then Some (-1, out)
        else v ← mread_u vals val 4; out ← mwrite out pos (le_bytes 2 (f32_to_half v)); Some (2, out)
    | _ => raw
    end
  else raw.

(** The properties of [mask] that the replication conditions let through. *)
Fixpoint filter_mask (n : nat) (i : Z) (s : Schema) (ent : Entity) (target_client : Z) (is_initial : bool)
    (mask : Z) : option Z :=
  match n with
  | O => Some mask
  | S n =>
      p ← oget (props s) i;
      let bit := u64 (Z.shiftl 1 i) in
      let mask :=
        if Z.land mask bit =? 0 then mask
        else
          let flags := rep_flags p in
          if has flags REP_INITIAL_ONLY && negb is_initial then Z.ldiff mask bit
          else if has flags REP_OWNER_ONLY && negb (target_client =? owner_client ent) then Z.ldiff mask bit
          else if has flags REP_SKIP_OWNER && (target_client =? owner_client ent) then Z.ldiff mask bit
          else mask in
      filter_mask n (i + 1) s ent target_client is_initial mask
  end.
Fixpoint write_props (n : nat) (i : Z) (s : Schema) (vals : bytes) (mask : Z) (out : bytes) (out_cap pos : Z)
    : option (Z * bytes) :=
  match n with
  | O => Some (pos, out)
  | S n =>
      if Z.land mask (u64 (Z.shiftl 1 i)) =? 0 then write_props n (i + 1) s vals mask out out_cap pos
      else
        p ← oget (props s) i;
        '(written, out) ← write_prop p vals (offset p) out pos (out_cap - pos);
        if written <? 0 then Some (-1, out)
        else write_props n (i + 1) s vals mask out out_cap (pos + written)
  end.

(** [schema] is the schema the entity points to.  Shifting by 64 is undefined. *)
Definition replicate_serialize (schema : option Schema) (ent : Entity) (out : bytes) (out_cap target_client : Z)
    (is_initial : bool) : option (Z * bytes) :=
  match schema with
  | None => Some (-1, out)
  | Some s =>
      if out_cap <? 0 + 2 then Some (-1, out)
      else
        out ← mwrite out 0 (le_bytes 2 (entity_id ent));
        let pos := 0 + 2 in
        mask ← (if is_initial then _ ← guard_ub (prop_count s <? 64); Some (Z.shiftl 1 (prop_count s) - 1)
                else Some (dirty_mask ent));
        mask ← filter_mask (Z.to_nat (prop_count s)) 0 s ent target_client is_initial mask;
        if mask =? 0 then Some (0, out)
        else
          out ← mwrite out pos (varint_encode mask);
          let pos := pos + zlen (varint_encode mask) in
          write_props (Z.to_nat (prop_count s)) 0 s (values ent) mask out out_cap pos
  end.

(** * Reading *)

(** [cap] bytes are left at [pos] in [wire]; the value goes to [dest] in [vals]. *)
Definition read_prop (pd : PropDesc) (wire : bytes) (pos cap : Z) (vals : bytes) (dest : Z)
    : option (Z * bytes) :=
  let raw :=
    if cap <? raw_size pd then Some (-1, vals)
    else d ← mread wire pos (raw_size pd); vals ← mwrite vals dest d; Some (raw_size pd, vals) in
  if has (rep_flags pd) REP_QUANTIZE then
    match type pd with
    | VEC3 =>
        if cap <? 4 then Some (-1, vals)
        else packed ← mread_u wire pos 4;
             let '(x, y, z) := vec3_dequantize packed in
             vals ← mwrite vals dest (float_bytes [x; y; z]); Some (4, vals)
    | QUAT =>
        if cap <? 4 then Some (-1, vals)
        else packed ← mread_u wire pos 4;
             vals ← mwrite vals dest (float_bytes (bits_of_f <$> quat_dequantize packed)); Some (4, vals)
    | F32 =>
        if cap <? 2 then Some (-1, vals)
        else h ← mread_u wire pos 2; vals ← mwrite vals dest (le_bytes 4 (half_to_f32 h)); Some (2, vals)
    | _ => raw
    end
  else raw.
Fixpoint read_props (n : nat) (i : Z) (s : Schema) (wire : bytes) (mask pos : Z) (vals : bytes)
    : option (Z * bytes) :=
  match n with
  | O => Some (pos, vals)
  | S n =>
      if Z.land mask (u64 (Z.shiftl 1 i)) =? 0 then read_props n (i + 1) s wire mask pos vals
      else
        p ← oget (props s) i;
        '(consumed, vals) ← read_prop p wire pos (zlen wire - pos) vals (offset p);
        if consumed <? 0 then Some (-1, vals)
        else read_props n (i + 1) s wire mask (pos + consumed) vals
  end.

(** The three outputs. *)
Record decoded : Type := mkDecoded { out_eid : Z; out_values : bytes; out_dirty : Z }.
Definition replicate_deserialize (s : Schema) (wire : bytes) (o : decoded) : option (Z * decoded) :=
  if zlen wire <? 3 then Some (-1, o)
  else
    eid ← mread_u wire 0 2;
    let o := mkDecoded eid (out_values o) (out_dirty o) in
    let pos := 2 in
    match varint_decode (drop (Z.to_nat pos) wire) with
    | None => Some (-1, o)
    | Some (vi_len, mask) =>
        let pos := pos + vi_len in
        '(r, vals) ← read_props (Z.to_nat (prop_count s)) 0 s wire mask pos (out_values o);
        Some (r, mkDecoded eid vals mask)
    end.

(** * What a property looks like on the wire *)

Fixpoint words (n : nat) (d : bytes) : list Z :=
  match n with O => [] | S n => le_value (take 4 d) :: words n (drop 4 d) end.
Definition wire_len (pd : PropDesc) : Z :=
  if has (rep_flags pd) REP_QUANTIZE
  then match type pd with VEC3 | QUAT => 4 | F32 => 2 | _ => raw_size pd end else raw_size pd.
(** The bytes sent for the value [d], and the value read from the bytes [w]. *)
Definition encode (pd : PropDesc) (d : bytes) : bytes :=
  if has (rep_flags pd) REP_QUANTIZE then
    match type pd with
    | VEC3 => le_bytes 4 (vec3_quantize (words 3 d).[0] (words 3 d).[1] (words 3 d).[2])
    | QUAT => le_bytes 4 (quat_quantize (f_of_bits <$> words 4 d))
    | F32 => le_bytes 2 (f32_to_half (le_value d))
    | _ => d
    end
  else d.
Definition decode (pd : PropDesc) (w : bytes) : bytes :=
  if has (rep_flags pd) REP_QUANTIZE then
    match type pd with
    | VEC3 => let '(x, y, z) := vec3_dequantize (le_value w) in float_bytes [x; y; z]
    | QUAT => float_bytes (bits_of_f <$> quat_dequantize (le_value w))
    | F32 => le_bytes 4 (half_to_f32 (le_value w))
    | _ => w
    end
  else w.

Lemma read_floats_words n : forall buf pos d,
  mread buf pos (4 * Z.of_nat n) = Some d -> read_floats n buf pos = Some (words n d).
Proof.
  induction n as [|n IH]; intros buf pos d Hd; [done|]. cbn [read_floats words].
  unfold mread_u. change (Z.of_nat 4) with 4. rewrite (mread_front _ _ _ 4 _ Hd) by lia. change (Z.to_nat 4) with 4%nat.
  cbn [fmap option_fmap option_map]. rewrite Some_bind. rewrite (IH buf (pos + 4) (drop 4 d)); [done|].
  pose proof (mread_rest _ _ _ 4 _ Hd ltac:(lia)) as E.
  replace (4 * Z.of_nat (S n) - 4) with (4 * Z.of_nat n) in E by lia. exact E.
Qed.

Lemma quat_length packed : length (quat_dequantize packed) = 4%nat.
Proof.
  unfold quat_dequantize. cbv zeta. set (i := Z.land _ _). set (w := if dlt _ _ then _ else _).
  clearbody i w. cbn [place]. repeat case_if; cbn; try done; lia.
Qed.
Lemma float_bytes_length l : zlen (float_bytes l) = 4 * zlen l.
Proof.
  unfold float_bytes. induction l as [|x l IH]; [done|]. cbn [fmap list_fmap concat]. zlen_simpl. cbn in IH. lia.
Qed.
Lemma encode_length pd d :
  0 < raw_size pd -> raw_size pd = size_of (type pd) (blob_capacity pd) -> zlen d = raw_size pd ->
  zlen (encode pd d) = wire_len pd /\ 0 < wire_len pd <= raw_size pd.
Proof.
  intros Hp Hr Hd. unfold encode, wire_len. case_if; [|lia].
  destruct (type pd); cbn [size_of] in Hr; zlen_simpl; lia.
Qed.
Lemma decode_length pd w :
  raw_size pd = size_of (type pd) (blob_capacity pd) -> zlen w = wire_len pd -> zlen (decode pd w) = raw_size pd.
Proof.
  intros Hr Hw. unfold decode, wire_len in *. case_if; [|done].
  destruct (type pd); cbn [size_of] in Hr; try done.
  rewrite float_bytes_length. unfold zlen. rewrite length_fmap, quat_length. by rewrite Hr.
Qed.

(** The writer and the reader of one property against these. *)
Lemma write_prop_spec pd vals val out pos cap d :
  0 < raw_size pd -> raw_size pd = size_of (type pd) (blob_capacity pd) ->
  mread vals val (raw_size pd) = Some d -> wire_len pd <= cap -> 0 <= pos -> pos + wire_len pd <= zlen out ->
  exists out', write_prop pd vals val out pos cap = Some (wire_len pd, out') /\ mwrite out pos (encode pd d) = Some out'.
Proof.
  intros Hp Hr Hd Hc Hpos Hl. destruct (mread_inv _ _ _ _ Hd) as (_ & _ & _ & Hdl & _).
  destruct (encode_length pd d Hp Hr Hdl) as [He _].
  assert (exists out', mwrite out pos (encode pd d) = Some out') as [out' Hw].
  { rewrite mwrite_Some by lia. by eexists. }
  exists out'. split; [|exact Hw]. unfold write_prop, encode, wire_len in *.
  assert ((if cap <? raw_size pd then Some (-1, out) else d0 ← mread vals val (raw_size pd);
    out ← mwrite out pos d0; Some (raw_size pd, out)) = if cap <? raw_size pd then Some (-1, out) else
    out ← mwrite out pos d; Some (raw_size pd, out)) as Eraw by (rewrite Hd; by case_if).
  destruct (has (rep_flags pd) REP_QUANTIZE).
  2: { by rewrite Eraw, (proj2 (Z.ltb_ge _ _)), Hw by lia. }
  destruct (type pd); cbn [size_of] in Hr; try by rewrite Eraw, (proj2 (Z.ltb_ge _ _)), Hw by lia.
  all: rewrite (proj2 (Z.ltb_ge _ _)) by lia; rewrite Hr in Hd.
  - unfold mread_u. change (Z.of_nat 4) with 4. rewrite Hd. cbn [fmap option_fmap option_map]. by rewrite Some_bind, Hw.
  - by rewrite (read_floats_words 3 _ _ d Hd), Some_bind, Hw.
  - by rewrite (read_floats_words 4 _ _ d Hd), Some_bind, Hw.
Qed.
Lemma read_prop_spec pd wire pos cap vals dest w :
  raw_size pd = size_of (type pd) (blob_capacity pd) -> holds wire pos w -> zlen w = wire_len pd ->
  wire_len pd <= cap -> 0 <= dest -> dest + raw_size pd <= zlen vals ->
  exists vals', read_prop pd wire pos cap vals dest = Some (wire_len pd, vals') /\
    mwrite vals dest (decode pd w) = Some vals'.
Proof.
  intros Hr Hh Hw Hc Hd Hl. pose proof (decode_length pd w Hr Hw) as Hdl.
  assert (exists vals', mwrite vals dest (decode pd w) = Some vals') as [vals' Hm].
  { rewrite mwrite_Some by lia. by eexists. }
  exists vals'. split; [|exact Hm]. pose proof (holds_mread wire pos w _ Hh (eq_sym Hw)) as Hrd.
  unfold read_prop, decode, wire_len in *.
  destruct (has (rep_flags pd) REP_QUANTIZE).
  2: { by rewrite (proj2 (Z.ltb_ge _ _)), Hrd, Some_bind, Hm by lia. }
  destruct (type pd); cbn [size_of] in Hr; rewrite (proj2 (Z.ltb_ge _ _)) by lia;
    try by rewrite Hrd, Some_bind, Hm.
  all: unfold mread_u; try change (Z.of_nat 4) with 4; try change (Z.of_nat 2) with 2; rewrite Hrd;
    cbn [fmap option_fmap option_map]; rewrite Some_bind.
  - by rewrite Hm.
  - destruct (vec3_dequantize _) as [[x y] z]. by rewrite Hm.
  - by rewrite Hm.
Qed.

(** * Masks *)

Lemma bit_test m i : 0 <= i < 64 -> (Z.land m (u64 (Z.shiftl 1 i)) =? 0) = negb (Z.testbit m i).
Proof.
  intros Hi. rewrite u64_small by (unfold is_u64; rewrite Z.shiftl_1_l; split; [lia|apply Z.pow_lt_mono_r; lia]).
  rewrite <- bit_set_testbit by lia. unfold bit_set. by rewrite negb_involutive.
Qed.
(** The replication conditions of a property for a client. *)
Definition visible (ent : Entity) (target_client : Z) (is_initial : bool) (p : PropDesc) : bool :=
  negb (has (rep_flags p) REP_INITIAL_ONLY && negb is_initial) &&
  negb (has (rep_flags p) REP_OWNER_ONLY && negb (target_client =? owner_client ent)) &&
  negb (has (rep_flags p) REP_SKIP_OWNER && (target_client =? owner_client ent)).

Lemma ldiff_bit m i j : 0 <= i < 64 -> 0 <= j ->
  Z.testbit (Z.ldiff m (u64 (Z.shiftl 1 i))) j = Z.testbit m j && negb (j =? i).
Proof.
  intros Hi Hj. rewrite u64_small by (unfold is_u64; rewrite Z.shiftl_1_l; split; [lia|apply Z.pow_lt_mono_r; lia]).
  rewrite Z.ldiff_spec, Z.shiftl_1_l. do 2 f_equal. destruct (j =? i) eqn:E; bool_facts; subst.
  - by apply Z.pow2_bits_true.
  - by apply Z.pow2_bits_false.
Qed.
Lemma ldiff_u64 m i : is_u64 m -> is_u64 (Z.ldiff m i).
Proof.
  unfold is_u64. intros Hm. rewrite Z.ldiff_land. by apply land_range.
Qed.
Lemma filter_mask_spec n : forall i s ent target init m,
  zlen (props s) = 64 -> 0 <= i -> i + Z.of_nat n <= 64 -> is_u64 m ->
  exists r, filter_mask n i s ent target init m = Some r /\ is_u64 r /\
    forall j, 0 <= j -> Z.testbit r j = Z.testbit m j &&
      (if (i <=? j) && (j <? i + Z.of_nat n) then visible ent target init (props s).[j] else true).
Proof.
  induction n as [|n IH]; intros i s ent target init m Hl Hi Hn Hm; cbn [filter_mask].
  { exists m. split; [done|]. split; [done|]. intros j Hj. replace ((i <=? j) && _) with false; [by rewrite andb_true_r|].
    symmetry. apply andb_false_iff. destruct (i <=? j) eqn:E; [right|by left]. bool_facts. apply Z.ltb_ge. lia. }
  rewrite oget_aget, Some_bind by lia. cbv zeta. set (m' := if Z.land m _ =? 0 then _ else _).
  assert (is_u64 m' /\ forall j, 0 <= j -> Z.testbit m' j = Z.testbit m j &&
    (if j =? i then visible ent target init (props s).[i] else true)) as [Hm' Hbits].
  { unfold m', visible. rewrite bit_test by lia. destruct (Z.testbit m i) eqn:Eb; cbn [negb].
    - repeat case_if; cbn [negb andb]; (split; [by try apply ldiff_u64|]); intros j Hj; rewrite ?ldiff_bit by lia;
        destruct (j =? i) eqn:Ej; rewrite ?andb_true_r, ?andb_false_r; done.
    - split; [done|]. intros j Hj. destruct (j =? i) eqn:Ej; bool_facts; [subst; by rewrite Eb|by rewrite andb_true_r]. }
  destruct (IH (i + 1) s ent target init m') as (r & -> & Hr & Hj); [done|lia|lia|done|].
  exists r. split; [done|]. split; [done|]. intros j Hj0. rewrite Hj, Hbits by done. rewrite <- andb_assoc. f_equal.
  destruct (decide (j = i)) as [->|Hne].
  - rewrite Z.eqb_refl, Z.leb_refl, (proj2 (Z.ltb_lt i (i + Z.of_nat (S n)))) by lia.
    rewrite (proj2 (Z.leb_gt (i + 1) i)) by lia. cbn [andb]. by rewrite andb_true_r.
  - rewrite (proj2 (Z.eqb_neq j i)) by done. cbn [andb].
    replace (i + 1 + Z.of_nat n) with (i + Z.of_nat (S n)) by lia. do 2 f_equal.
    destruct (i <=? j) eqn:E1, (i + 1 <=? j) eqn:E2; bool_facts; done || lia.
Qed.

(** * The loops over the properties *)

Definition field (s : Schema) (vals : bytes) (i : Z) : option bytes :=
  mread vals (offset (props s).[i]) (raw_size (props s).[i]).
(** What is sent of the properties from [i] on. *)
Fixpoint wire_from (n : nat) (i : Z) (s : Schema) (vals : bytes) (mask : Z) : bytes :=
  match n with
  | O => []
  | S n => (if Z.testbit mask i then encode (props s).[i] (default [] (field s vals i)) else [])
           ++ wire_from n (i + 1) s vals mask
  end.

Section Loops.
Context (s : Schema) (Hs : schema_wf s) (mask : Z).

Lemma field_Some vals i :
  value_buffer_size s <= zlen vals -> 0 <= i < prop_count s ->
  exists d, field s vals i = Some d /\ zlen d = raw_size (props s).[i].
Proof.
  intros Hv Hi. destruct (sw_size _ Hs i Hi) as (Hr & _). destruct (sw_offset _ Hs i Hi) as [Ho1 Ho2].
  unfold field, prop_end in *. rewrite mread_Some by lia. eexists. split; [done|].
  unfold zlen in *. rewrite length_take, length_drop. lia.
Qed.
Lemma wire_from_length n : forall i vals lo,
  value_buffer_size s <= zlen vals -> 0 <= i -> i + Z.of_nat n = prop_count s -> lo <= value_buffer_size s ->
  (forall j, i <= j < prop_count s -> lo <= offset (props s).[j]) ->
  zlen (wire_from n i s vals mask) <= value_buffer_size s - lo.
Proof.
  induction n as [|n IH]; intros i vals lo Hv Hi Hn Hlo Hj; cbn [wire_from]; [zlen_simpl; lia|].
  destruct (field_Some vals i Hv ltac:(lia)) as (d & Hd & Hdl). destruct (sw_size _ Hs i ltac:(lia)) as (Hr & Hsz & _).
  destruct (encode_length (props s).[i] d Hr Hsz Hdl) as [He Hw].
  destruct (sw_offset _ Hs i ltac:(lia)) as [Ho1 Ho2]. pose proof (Hj i ltac:(lia)) as Hji.
  pose proof (IH (i + 1) vals (prop_end (props s).[i]) Hv ltac:(lia) ltac:(lia) Ho2) as Hlen.
  rewrite zlen_app. rewrite Hd. cbn [default from_option id]. unfold prop_end in *.
  assert (zlen (wire_from n (i + 1) s vals mask) <= value_buffer_size s - (offset (props s).[i] + raw_size (props s).[i])).
  { apply Hlen. intros j Hjj. apply (sw_apart _ Hs i j); lia. }
  case_if; [unfold id; lia|]. zlen_simpl. lia.
Qed.

Lemma write_props_spec n : forall i vals out pos,
  value_buffer_size s <= zlen vals -> 0 <= i -> i + Z.of_nat n = prop_count s -> 0 <= pos ->
  pos + zlen (wire_from n i s vals mask) <= zlen out ->
  exists out', write_props n i s vals mask out (zlen out) pos
      = Some (pos + zlen (wire_from n i s vals mask), out') /\
    mwrite out pos (wire_from n i s vals mask) = Some out'.
Proof.
  pose proof (sw_count _ Hs) as Hc.
  induction n as [|n IH]; intros i vals out pos Hv Hi Hn Hp Hl; cbn [write_props wire_from] in *.
  { exists out. rewrite zlen_nil, Z.add_0_r in *. split; [done|]. rewrite mwrite_Some by (rewrite ?zlen_nil; lia).
    cbn [app length]. by rewrite Nat.add_0_r, take_drop. }
  rewrite bit_test by lia. destruct (Z.testbit mask i); cbn [negb app] in *.
  2: { apply IH; try lia. }
  rewrite oget_aget, Some_bind by (rewrite (sw_props _ Hs); lia).
  destruct (field_Some vals i Hv ltac:(lia)) as (d & Hd & Hdl). rewrite Hd in *. cbn [default from_option] in *.
  change (id d) with d in *. destruct (sw_size _ Hs i ltac:(lia)) as (Hr & Hsz & _).
  destruct (encode_length (props s).[i] d Hr Hsz Hdl) as [He Hw]. rewrite zlen_app in *.
  pose proof (zlen_nonneg (wire_from n (i + 1) s vals mask)).
  destruct (write_prop_spec (props s).[i] vals (offset (props s).[i]) out pos (zlen out - pos) d Hr Hsz Hd)
    as (out1 & -> & Hw1); [lia..|]. rewrite Some_bind, (proj2 (Z.ltb_ge _ _)) by lia.
  pose proof (mwrite_zlen _ _ _ _ Hw1) as Hl1. rewrite <- Hl1.
  destruct (IH (i + 1) vals out1 (pos + wire_len (props s).[i])) as (out2 & -> & Hw2); [lia..|].
  exists out2. split; [do 2 f_equal; lia|]. rewrite <- mwrite_mwrite by lia. rewrite Hw1, Some_bind, He. exact Hw2.
Qed.

Lemma read_props_spec n : forall i wire vals0 vals pos,
  value_buffer_size s <= zlen vals -> value_buffer_size s <= zlen vals0 -> 0 <= i -> i + Z.of_nat n = prop_count s ->
  holds wire pos (wire_from n i s vals0 mask) ->
  exists vals', read_props n i s wire mask pos vals = Some (pos + zlen (wire_from n i s vals0 mask), vals') /\
    zlen vals' = zlen vals /\
    forall j, 0 <= j < prop_count s -> field s vals' j =
      if (i <=? j) && Z.testbit mask j
      then (fun d => decode (props s).[j] (encode (props s).[j] d)) <$> field s vals0 j else field s vals j.
Proof.
  pose proof (sw_count _ Hs) as Hc.
  induction n as [|n IH]; intros i wire vals0 vals pos Hv Hv0 Hi Hn Hh; cbn [read_props wire_from] in *.
  { exists vals. rewrite zlen_nil, Z.add_0_r. split; [done|]. split; [done|]. intros j Hj.
    by rewrite (proj2 (Z.leb_gt _ _)) by lia. }
  rewrite bit_test by lia. destruct (Z.testbit mask i) eqn:Eb; cbn [negb app] in *.
  2: { destruct (IH (i + 1) wire vals0 vals pos) as (vals' & -> & Hl & Hf); [lia..|done|].
       exists vals'. split; [done|]. split; [done|]. intros j Hj. rewrite Hf by done.
       destruct (decide (j = i)) as [->|]; [by rewrite Eb, !andb_false_r|].
       destruct (i <=? j) eqn:E1, (i + 1 <=? j) eqn:E2; bool_facts; done || lia. }
  rewrite oget_aget, Some_bind by (rewrite (sw_props _ Hs); lia).
  destruct (field_Some vals0 i Hv0 ltac:(lia)) as (d & Hd & Hdl). rewrite Hd in *. cbn [default from_option] in *.
  change (id d) with d in *. destruct (sw_size _ Hs i ltac:(lia)) as (Hr & Hsz & _).
  destruct (sw_offset _ Hs i ltac:(lia)) as [Ho1 Ho2]. unfold prop_end in Ho2.
  destruct (encode_length (props s).[i] d Hr Hsz Hdl) as [He Hw].
  apply holds_app in Hh as [Hh1 Hh2]. destruct (holds_bound _ _ _ Hh1) as [_ Hb].
  destruct (read_prop_spec (props s).[i] wire pos (zlen wire - pos) vals (offset (props s).[i]) _ Hsz Hh1 He)
    as (vals1 & -> & Hm1); [lia..|]. rewrite Some_bind, (proj2 (Z.ltb_ge _ _)) by lia. rewrite He in Hh2.
  pose proof (mwrite_zlen _ _ _ _ Hm1) as Hl1. pose proof (decode_length _ _ Hsz He) as Hdec.
  destruct (IH (i + 1) wire vals0 vals1 (pos + wire_len (props s).[i])) as (vals2 & -> & Hl2 & Hf); [lia..|done|].
  exists vals2. split; [rewrite zlen_app; do 2 f_equal; lia|]. split; [lia|]. intros j Hj. rewrite Hf by done.
  destruct (decide (j = i)) as [->|Hne].
  - rewrite Eb, Z.leb_refl, (proj2 (Z.leb_gt (i + 1) i)) by lia. cbn [andb]. rewrite Hd. unfold field.
    rewrite <- Hdec. rewrite (mread_mwrite_same _ _ _ _ Hm1). done.
  - assert (field s vals1 j = field s vals j) as Efj.
    { apply (mread_mwrite_disjoint _ _ _ _ _ _ Hm1). rewrite Hdec. destruct (Z_lt_le_dec j i).
      - left. apply (sw_apart _ Hs); lia.
      - right. apply (sw_apart _ Hs i j); lia. }
    destruct (i <=? j) eqn:E1, (i + 1 <=? j) eqn:E2; bool_facts; cbn [andb]; try case_if; done || lia.
Qed.
End Loops.

(** * Round trip *)

(** What a client ends with for the value [d]: [d] itself unless it is quantized. *)
Definition received (pd : PropDesc) (d : bytes) : bytes := decode pd (encode pd d).
Lemma received_exact pd d : has (rep_flags pd) REP_QUANTIZE = false -> received pd d = d.
Proof. intros Hq. unfold received, encode, decode. by rewrite Hq. Qed.

(** The properties an update for [target] carries. *)
Definition selected (s : Schema) (ent : Entity) (target : Z) (initial : bool) (i : Z) : bool :=
  if i <? prop_count s
  then (if initial then true else Z.testbit (dirty_mask ent) i) && visible ent target initial (props s).[i]
  else (if initial then false else Z.testbit (dirty_mask ent) i).

(** The mask of the properties that are sent. *)
Lemma sent_mask s ent target initial :
  schema_wf s -> is_u64 (dirty_mask ent) -> (initial = true -> prop_count s < 64) ->
  exists mask,
    (m ← (if initial then _ ← guard_ub (prop_count s <? 64); Some (Z.shiftl 1 (prop_count s) - 1)
          else Some (dirty_mask ent));
     filter_mask (Z.to_nat (prop_count s)) 0 s ent target initial m) = Some mask /\
    is_u64 mask /\ forall i, 0 <= i -> Z.testbit mask i = selected s ent target initial i.
Proof.
  intros Hs Hm Hi. pose proof (sw_count _ Hs) as Hc.
  assert (exists m, (if initial then _ ← guard_ub (prop_count s <? 64); Some (Z.shiftl 1 (prop_count s) - 1)
    else Some (dirty_mask ent)) = Some m /\ is_u64 m /\
    forall i, 0 <= i -> Z.testbit m i = if initial then i <? prop_count s else Z.testbit (dirty_mask ent) i)
    as (m & -> & Hm' & Hbits).
  { destruct initial.
    - specialize (Hi eq_refl). rewrite (proj2 (Z.ltb_lt _ _)) by lia. cbn [guard_ub]. rewrite Some_bind.
      eexists. split; [done|]. rewrite Z.shiftl_1_l. unfold is_u64.
      pose proof (Z.pow_lt_mono_r 2 (prop_count s) 64). split; [lia|].
      intros i Hi0. replace (2 ^ prop_count s - 1) with (Z.ones (prop_count s)) by (rewrite Z.ones_equiv; lia).
      destruct (i <? prop_count s) eqn:E; bool_facts; [apply Z.ones_spec_low|apply Z.ones_spec_high]; lia.
    - by eexists. }
  rewrite Some_bind.
  destruct (filter_mask_spec (Z.to_nat (prop_count s)) 0 s ent target initial m) as (r & -> & Hr & Hj);
    [by apply (sw_props _ Hs)|lia|lia|done|].
  exists r. split; [done|]. split; [done|]. intros i Hi0. rewrite Hj, Hbits by done. unfold selected.
  rewrite (proj2 (Z.leb_le 0 i)) by done. replace (0 + Z.of_nat (Z.to_nat (prop_count s))) with (prop_count s) by lia.
  cbn [andb]. destruct (i <? prop_count s), initial; rewrite ?andb_true_r; done.
Qed.

Lemma mask_zero m : (forall i, 0 <= i -> Z.testbit m i = false) <-> m = 0.
Proof.
  split; [|intros ->; intros; apply Z.bits_0]. intros H. apply Z.bits_inj'. intros i Hi. by rewrite Z.bits_0, H.
Qed.

(** The bytes of an update, and its length. *)
Definition update_image (s : Schema) (ent : Entity) (mask : Z) : bytes :=
  le_bytes 2 (entity_id ent) ++ varint_encode mask ++ wire_from (Z.to_nat (prop_count s)) 0 s (values ent) mask.
Lemma update_image_length s ent mask :
  schema_wf s -> value_buffer_size s <= zlen (values ent) ->
  3 <= zlen (update_image s ent mask) <= 12 + value_buffer_size s.
Proof.
  intros Hs Hv. pose proof (sw_count _ Hs). pose proof (sw_first _ Hs). pose proof (varint_length mask).
  pose proof (wire_from_length s Hs mask (Z.to_nat (prop_count s)) 0 (values ent) 0 Hv) as HW.
  unfold update_image. rewrite !zlen_app, zlen_le_bytes. pose proof (zlen_nonneg (wire_from (Z.to_nat (prop_count s)) 0 s (values ent) mask)).
  assert (zlen (wire_from (Z.to_nat (prop_count s)) 0 s (values ent) mask) <= value_buffer_size s - 0); [|lia].
  apply HW; try lia. intros j Hj. apply (sw_offset _ Hs). lia.
Qed.

(** Serializing writes that image, unless nothing is selected. *)
Lemma update_serialized s ent target initial out :
  schema_wf s -> fits s -> entity_wf ent -> is_u64 (dirty_mask ent) ->
  (initial = true -> prop_count s < 64) -> kEntityMaxValueSize + 16 <= zlen out ->
  exists mask out', is_u64 mask /\ (forall i, 0 <= i -> Z.testbit mask i = selected s ent target initial i) /\
    zlen out' = zlen out /\
    replicate_serialize (Some s) ent out (zlen out) target initial
    = Some (if mask =? 0 then 0 else zlen (update_image s ent mask), out') /\
    (mask <> 0 -> take (Z.to_nat (zlen (update_image s ent mask))) out' = update_image s ent mask).
Proof.
  intros Hs Hf He Hd Hinit Hout. pose proof (sw_count _ Hs) as Hc.
  unfold fits, entity_wf, kEntityMaxValueSize in *.
  destruct (sent_mask s ent target initial Hs Hd Hinit) as (mask & Em & Hmu & Hmask).
  pose proof (update_image_length s ent mask Hs ltac:(lia)) as HI. pose proof (varint_length mask) as Hvl.
  unfold replicate_serialize. rewrite (proj2 (Z.ltb_ge _ _)) by lia. unfold update_image in *.
  set (eid := le_bytes 2 (entity_id ent)) in *. set (vi := varint_encode mask) in *.
  set (W := wire_from _ _ _ _ _) in *. assert (zlen eid = 2) as Hel by apply zlen_le_bytes.
  rewrite !zlen_app in HI. pose proof (zlen_nonneg W).
  assert (exists out1, mwrite out 0 eid = Some out1) as [out1 W1] by (rewrite mwrite_Some by lia; by eexists).
  pose proof (mwrite_zlen _ _ _ _ W1) as L1. rewrite W1, Some_bind. cbv zeta.
  destruct (if initial then _ else _) as [m0|]; [|done]. rewrite Some_bind in Em. rewrite Some_bind, Em, Some_bind.
  exists mask. case_if; [by exists out1|].
  assert (exists out2, mwrite out1 2 vi = Some out2) as [out2 W2] by (rewrite mwrite_Some by lia; by eexists).
  pose proof (mwrite_zlen _ _ _ _ W2) as L2. change (0 + 2) with 2. fold vi. rewrite W2, Some_bind.
  replace (zlen out) with (zlen out2) by lia.
  destruct (write_props_spec s Hs mask (Z.to_nat (prop_count s)) 0 (values ent) out2 (2 + zlen vi))
    as (out3 & -> & W3); [lia|lia|lia|lia|fold W; lia|]. fold W in W3.
  assert (mwrite out 0 (eid ++ vi ++ W) = Some out3) as Wall.
  { rewrite <- mwrite_mwrite by (rewrite ?zlen_app; lia). rewrite W1, Some_bind, Hel.
    rewrite <- mwrite_mwrite by (rewrite ?zlen_app; lia). change (0 + 2) with 2. by rewrite W2, Some_bind. }
  exists out3. split; [done|]. split; [done|]. split; [by rewrite (mwrite_zlen _ _ _ _ W3)|].
  split; [rewrite !zlen_app, Hel; fold W; do 2 f_equal; lia|]. intros _.
  destruct (mread_inv _ _ _ _ (mread_mwrite_same _ _ _ _ Wall)) as (_ & _ & _ & _ & Ee).
  rewrite drop_0 in Ee. by symmetry.
Qed.

(** Reading an image. *)
Lemma update_decoded s ent mask o :
  schema_wf s -> value_buffer_size s <= zlen (values ent) -> is_u16 (entity_id ent) -> is_u64 mask ->
  value_buffer_size s <= zlen (out_values o) ->
  exists vals', replicate_deserialize s (update_image s ent mask) o
      = Some (zlen (update_image s ent mask), mkDecoded (entity_id ent) vals' mask) /\
    zlen vals' = zlen (out_values o) /\
    forall i, 0 <= i < prop_count s -> field s vals' i =
      if Z.testbit mask i then received (props s).[i] <$> prop_bytes s ent i else field s (out_values o) i.
Proof.
  intros Hs Hv Hid Hmu Hov. pose proof (sw_count _ Hs) as Hc. pose proof (varint_length mask) as Hvl.
  pose proof (update_image_length s ent mask Hs Hv) as HI. set (wire := update_image s ent mask) in *.
  assert (holds wire 0 wire) as Hh by (exists [], []; by rewrite app_nil_r).
  unfold wire in Hh at 2. unfold update_image in Hh. apply holds_app in Hh as [Hh1 Hh]. apply holds_app in Hh as [_ Hh3].
  rewrite zlen_le_bytes in Hh3. change (0 + Z.of_nat 2) with 2 in Hh3.
  unfold replicate_deserialize. rewrite (proj2 (Z.ltb_ge _ _)) by lia.
  rewrite (holds_mread_u wire 0 2 (entity_id ent) Hh1) by exact Hid. rewrite Some_bind. cbv zeta.
  assert (drop (Z.to_nat 2) wire = varint_encode mask ++ wire_from (Z.to_nat (prop_count s)) 0 s (values ent) mask) as ->
    by (unfold wire, update_image; by apply drop_app_length').
  rewrite varint_roundtrip by done.
  destruct (read_props_spec s Hs mask (Z.to_nat (prop_count s)) 0 wire (values ent) (out_values o) (2 + zlen (varint_encode mask)))
    as (vals' & Er & Hl & Hfields); [exact Hov|exact Hv|lia|lia|exact Hh3|].
  cbn [out_values]. rewrite Er, Some_bind. exists vals'.
  split; [unfold wire, update_image; rewrite !zlen_app, zlen_le_bytes; do 2 f_equal; lia|]. split; [exact Hl|].
  intros i Hi. rewrite Hfields, (proj2 (Z.leb_le 0 i)) by lia. done.
Qed.

(** C14.  Replication is a round trip.  For a well-formed schema that fits the entity
    buffer and an output buffer of the size the header asks for, serializing never
    fails: it reports 0 exactly when no property is selected for the client (changed
    or initial, and allowed by the conditions), and otherwise the bytes it wrote
    decode, to the last byte, to the entity's id and the mask of the selected
    properties; every selected property arrives, exactly unless it is quantized, and
    every other property of the receiver stays as it was. *)
Theorem replication_roundtrip s ent target initial out o :
  schema_wf s -> fits s -> entity_wf ent -> is_u16 (entity_id ent) -> is_u64 (dirty_mask ent) ->
  (initial = true -> prop_count s < 64) ->
  kEntityMaxValueSize + 16 <= zlen out -> value_buffer_size s <= zlen (out_values o) ->
  exists n out', replicate_serialize (Some s) ent out (zlen out) target initial = Some (n, out') /\
    zlen out' = zlen out /\ 0 <= n <= value_buffer_size s + 12 /\
    (n = 0 <-> forall i, 0 <= i -> selected s ent target initial i = false) /\
    (0 < n -> exists o', replicate_deserialize s (take (Z.to_nat n) out') o = Some (n, o') /\
       out_eid o' = entity_id ent /\ zlen (out_values o') = zlen (out_values o) /\
       (forall i, 0 <= i -> Z.testbit (out_dirty o') i = selected s ent target initial i) /\
       forall i, 0 <= i < prop_count s -> field s (out_values o') i =
         if selected s ent target initial i then received (props s).[i] <$> prop_bytes s ent i
         else field s (out_values o) i).
Proof.
  intros Hs Hf He Hid Hd Hinit Hout Hov. pose proof (sw_count _ Hs) as Hc. pose proof (sw_first _ Hs) as Hv0.
  destruct (update_serialized s ent target initial out Hs Hf He Hd Hinit Hout)
    as (mask & out' & Hmu & Hmask & Hl & -> & Hbytes).
  assert (value_buffer_size s <= zlen (values ent)) as Hv by (unfold fits, entity_wf in *; lia).
  pose proof (update_image_length s ent mask Hs Hv) as HI.
  eexists _, out'. split; [done|]. split; [done|].
  assert (mask = 0 <-> forall i, 0 <= i -> selected s ent target initial i = false) as Hz.
  { rewrite <- mask_zero. split; intros H i Hi; [rewrite <- Hmask by done|rewrite Hmask by done]; by apply H. }
  case_if; (split; [lia|]); (split; [rewrite <- Hz; lia|]); [lia|]. intros _. rewrite Hbytes by done.
  destruct (update_decoded s ent mask o Hs Hv Hid Hmu Hov) as (vals' & -> & Hlv & Hf').
  eexists. split; [done|]. split; [done|]. split; [exact Hlv|]. split; [exact Hmask|].
  intros i Hi. cbn [out_values]. rewrite Hf' by done. by rewrite Hmask by lia.
Qed.

(** An entity of the example schema with its first two properties changed, sent to
    its owner, who does not get the second one. *)
Definition demo_entity : Entity :=
  mkEntity true 9 0 (Some 0) 2 0 3 0 false 128 (f_of_Z 20) d0 (f_of_Z 2)
    (le_bytes 2 700 ++ le_bytes 4 1065353216 ++ replicate 2042 0).
Definition demo_decoded : decoded := mkDecoded 0 (replicate 2048 5) 0.
Lemma replication_roundtrip_witness :
  exists n out' o',
    replicate_serialize (Some demo_schema) demo_entity (replicate 2080 0) 2080 2 false = Some (n, out') /\
    replicate_deserialize demo_schema (take (Z.to_nat n) out') demo_decoded = Some (n, o') /\
    out_eid o' = 9 /\ field demo_schema (out_values o') 0 = Some [188; 2] /\
    field demo_schema (out_values o') 1 = Some [5; 5; 5; 5].
Proof.
  destruct (replication_roundtrip demo_schema demo_entity 2 false (replicate 2080 0) demo_decoded demo_schema_wf)
    as (n & out' & E & _ & Hn & Hz & Hr).
  - vm_compute. discriminate.
  - reflexivity.
  - split; vm_compute; discriminate || reflexivity.
  - split; vm_compute; discriminate || reflexivity.
  - discriminate.
  - vm_compute. discriminate.
  - vm_compute. discriminate.
  - assert (0 < n) as Hpos.
    { destruct (decide (n = 0)) as [H0|]; [|lia]. rewrite Hz in H0. pose proof (H0 0 ltac:(done)) as H1. vm_compute in H1. discriminate. }
    destruct (Hr Hpos) as (o' & Ed & Hid & _ & _ & Hf).
    exists n, out', o'. split; [exact E|]. split; [exact Ed|]. split; [exact Hid|].
    split; [rewrite (Hf 0) by (vm_compute; split; congruence)|rewrite (Hf 1) by (vm_compute; split; congruence)]; reflexivity.
Defined.

(** * Hostile input *)

Lemma varint_read_bound data : forall shift result pos n v,
  varint_read data shift result pos = Some (n, v) -> pos < n <= pos + zlen data.
Proof.
  induction data as [|b data IH]; intros shift result pos n v E; cbn [varint_read] in E; [done|].
  rewrite zlen_cons. pose proof (zlen_nonneg data). case_if_in E; [done|]. cbv zeta in E. case_if_in E; [simplify_eq; lia|].
  apply IH in E. lia.
Qed.
Lemma read_prop_safe pd wire pos vals dest :
  0 < raw_size pd -> raw_size pd = size_of (type pd) (blob_capacity pd) -> 0 <= pos <= zlen wire ->
  0 <= dest -> dest + raw_size pd <= zlen vals ->
  exists r vals', read_prop pd wire pos (zlen wire - pos) vals dest = Some (r, vals') /\ zlen vals' = zlen vals /\
    (r = -1 \/ (0 <= r /\ pos + r <= zlen wire)).
Proof.
  intros Hp Hr Hpos Hd Hl. destruct (encode_length pd (replicate (Z.to_nat (raw_size pd)) 0) Hp Hr) as [_ Hw];
    [rewrite zlen_replicate; lia|].
  destruct (Z_lt_le_dec (zlen wire - pos) (wire_len pd)) as [Hs|Hs].
  - exists (-1), vals. split; [|by auto]. unfold read_prop, wire_len in *.
    assert (forall n, zlen wire - pos < n -> (zlen wire - pos <? n) = true) as Hlt by (intros; by apply Z.ltb_lt).
    destruct (has _ _); [destruct (type pd)|]; by rewrite Hlt.
  - destruct (read_prop_spec pd wire pos (zlen wire - pos) vals dest
      (take (Z.to_nat (wire_len pd)) (drop (Z.to_nat pos) wire)) Hr) as (vals' & -> & Hm); try lia.
    + exists (take (Z.to_nat pos) wire), (drop (Z.to_nat (wire_len pd)) (drop (Z.to_nat pos) wire)).
      rewrite !take_drop. split; [done|]. unfold zlen in *. rewrite length_take. lia.
    + unfold zlen in *. rewrite length_take, length_drop. lia.
    + eexists _, _. split; [done|]. split; [by rewrite (mwrite_zlen _ _ _ _ Hm)|]. right. lia.
Qed.
Lemma read_props_safe s wire mask n : forall i pos vals,
  schema_wf s -> 0 <= i -> i + Z.of_nat n = prop_count s -> 0 <= pos <= zlen wire -> value_buffer_size s <= zlen vals ->
  exists r vals', read_props n i s wire mask pos vals = Some (r, vals') /\ zlen vals' = zlen vals /\
    (r = -1 \/ pos <= r <= zlen wire).
Proof.
  induction n as [|n IH]; intros i pos vals Hs Hi Hn Hpos Hv; cbn [read_props].
  { eexists _, _. split; [done|]. split; [done|]. right. lia. }
  pose proof (sw_count _ Hs) as Hc. case_if; [apply IH; done || lia|].
  rewrite oget_aget, Some_bind by (rewrite (sw_props _ Hs); lia).
  destruct (sw_size _ Hs i ltac:(lia)) as (Hr & Hsz & _). destruct (sw_offset _ Hs i ltac:(lia)) as [Ho1 Ho2].
  unfold prop_end in Ho2.
  destruct (read_prop_safe (props s).[i] wire pos vals (offset (props s).[i]) Hr Hsz Hpos Ho1 ltac:(lia))
    as (r & vals1 & -> & Hl1 & Hrr). rewrite Some_bind. case_if; [eexists _, _; split; [done|]; by auto|].
  destruct (IH (i + 1) (pos + r) vals1) as (r' & vals2 & -> & Hl2 & Hr2); [done|lia..|].
  eexists _, _. split; [done|]. split; [lia|]. lia.
Qed.

(** C25.  Whatever bytes arrive, decoding an update stays inside the wire buffer and
    the receiver's value buffer: it returns -1, or the number of bytes it consumed,
    which is at most what arrived. *)
Theorem replicate_decode_safe s wire o :
  schema_wf s -> is_bytes wire -> value_buffer_size s <= zlen (out_values o) ->
  exists r o', replicate_deserialize s wire o = Some (r, o') /\
    zlen (out_values o') = zlen (out_values o) /\ (r = -1 \/ 3 <= r <= zlen wire).
Proof.
  intros Hs Hb Hv. pose proof (sw_count _ Hs) as Hc. unfold replicate_deserialize.
  case_if; [by eexists _, _; auto|]. unfold mread_u. change (Z.of_nat 2) with 2.
  rewrite mread_Some by lia. cbn [fmap option_fmap option_map]. rewrite Some_bind. cbv zeta.
  destruct (varint_decode _) as [[n mask]|] eqn:E'; [|by eexists _, _; auto].
  apply varint_read_bound in E'. unfold zlen in E'. rewrite length_drop in E'. cbn [out_values].
  destruct (read_props_safe s wire mask (Z.to_nat (prop_count s)) 0 (2 + n) (out_values o))
    as (r & vals' & -> & Hl & Hr); [done|unfold zlen in *; lia..|].
  rewrite Some_bind. eexists _, _. split; [done|]. split; [exact Hl|]. unfold zlen in *. lia.
Qed.
Lemma replicate_decode_safe_witness :
  exists r o', replicate_deserialize demo_schema [9; 0; 255; 3; 7] demo_decoded = Some (r, o') /\ r = -1.
Proof.
  destruct (replicate_decode_safe demo_schema [9; 0; 255; 3; 7] demo_decoded demo_schema_wf) as (r & o' & E & _ & _).
  - repeat constructor; done.
  - vm_compute. discriminate.
  - exists r, o'. split; [exact E|]. vm_compute in E. congruence.
Defined.

End Replicate.
