(* ===== verification/Replication.v ===== *)
(** Replication on the server (src/src/server.cpp, "Property Replication API"):
    schemas, entities and the loop that sends their changes to multicast groups.

    The server's replication fields are kept beside the server of Server.v: the array
    of schemas, the pool of entities and the next id.  An entity's schema pointer is
    an index into the array, so later changes of a schema are seen through it. *)

From stdpp Require Import gmap.
From S2P Require Import Prelude Bytes Double Channel Address Quantize Schema Replicate PacketCrypto Connection Send Group IndexSet Slots Server ConnSafety ConnectToken ServerSafety ServerApi.

Module Replication.
Import Connection ServerSafety Schema Replicate.

Definition kMaxSchemas : Z := 64.
Definition kMaxEntities : Z := 16384.

(** [entities] is [None] for a null pointer. *)
Record World : Type := mkWorld {
  srv : Server.Server; schemas : list Schema; schema_count : Z;
  entities : option (list Entity); next_entity_id : Z }.
Definition set_srv (w : World) (s : Server.Server) : World :=
  mkWorld s (schemas w) (schema_count w) (entities w) (next_entity_id w).
Definition set_schemas (w : World) (l : list Schema) (n : Z) : World :=
  mkWorld (srv w) l n (entities w) (next_entity_id w).
Definition set_entities (w : World) (l : list Entity) : World :=
  mkWorld (srv w) (schemas w) (schema_count w) (Some l) (next_entity_id w).
Definition set_next (w : World) (n : Z) : World :=
  mkWorld (srv w) (schemas w) (schema_count w) (entities w) n.

(** The replication part of [netudp_server_start] and [netudp_server_stop]. *)
Definition start_entities (w : World) : World :=
  set_entities w (replicate (Z.to_nat kMaxEntities) reset).
Definition stop_entities (w : World) : World :=
  mkWorld (srv w) (schemas w) 0 None 1.

(** ** Schemas *)

Definition netudp_schema_create (w : World) : option (Z * World) :=
  if kMaxSchemas <=? schema_count w then Some (-1, w)
  else
    let id := schema_count w in
    l ← oset (schemas w) id (mkSchema id 0 0 (props schema_zero));
    Some (id, set_schemas w l (schema_count w + 1)).
Definition netudp_schema_destroy (w : World) (schema_id : Z) : option World :=
  if (schema_id <? 0) || (schema_count w <=? schema_id) then Some w
  else l ← oset (schemas w) schema_id schema_zero; Some (set_schemas w l (schema_count w)).

Definition schema_add (w : World) (sid : Z) (nm : bytes) (ty : PropType) (flags raw wire blob : Z)
    : option (Z * World) :=
  if (sid <? 0) || (schema_count w <=? sid) then Some (-1, w)
  else
    s ← oget (schemas w) sid;
    '(r, s) ← add_prop s nm ty flags raw wire blob;
    l ← oset (schemas w) sid s;
    Some (r, set_schemas w l (schema_count w)).
Definition netudp_schema_add_u8 (w : World) (sid : Z) (nm : bytes) (flags : Z) := schema_add w sid nm U8 flags 1 1 0.
Definition netudp_schema_add_u16 (w : World) (sid : Z) (nm : bytes) (flags : Z) := schema_add w sid nm U16 flags 2 2 0.
Definition netudp_schema_add_i32 (w : World) (sid : Z) (nm : bytes) (flags : Z) := schema_add w sid nm I32 flags 4 4 0.
Definition netudp_schema_add_f32 (w : World) (sid : Z) (nm : bytes) (flags : Z) := schema_add w sid nm F32 flags 4 2 0.
Definition netudp_schema_add_vec3 (w : World) (sid : Z) (nm : bytes) (flags : Z) := schema_add w sid nm VEC3 flags 12 4 0.
Definition netudp_schema_add_quat (w : World) (sid : Z) (nm : bytes) (flags : Z) := schema_add w sid nm QUAT flags 16 4 0.
Definition netudp_schema_add_blob (w : World) (sid : Z) (nm : bytes) (max_bytes flags : Z) : option (Z * World) :=
  if (sid <? 0) || (schema_count w <=? sid) || (max_bytes <=? 0) then Some (-1, w)
  else schema_add w sid nm BLOB flags max_bytes max_bytes max_bytes.

(** ** Entities *)

(** The first entity from [i] on that satisfies [f]. *)
Fixpoint find_index (f : Entity -> bool) (l : list Entity) (i : Z) : option (Z * Entity) :=
  match l with
  | [] => None
  | e :: l => if f e then Some (i, e) else find_index f l (i + 1)
  end.
Definition find_entity (w : World) (eid : Z) : option (Z * Entity) :=
  match entities w with
  | None => None
  | Some l => if eid =? 0 then None else find_index (fun e => active e && (entity_id e =? eid)) l 0
  end.
Definition put_entity (w : World) (i : Z) (e : Entity) : World :=
  match entities w with Some l => set_entities w (aset l i e) | None => w end.
(** The schema an entity points to. *)
Definition schema_at (w : World) (e : Entity) : option (option Schema) :=
  match schema e with None => Some None | Some i => s ← oget (schemas w) i; Some (Some s) end.

Definition netudp_entity_create (w : World) (schema_id : Z) : option (Z * World) :=
  match entities w with
  | None => Some (0, w)
  | Some l =>
      if (schema_id <? 0) || (schema_count w <=? schema_id) then Some (0, w)
      else
        s ← oget (schemas w) schema_id;
        if Schema.schema_id s <? 0 then Some (0, w)
        else
          match find_index (fun e => negb (active e)) l 0 with
          | None => Some (0, w)
          | Some (i, _) =>
              let id := next_entity_id w in
              let next := u16 (id + 1) in
              let next := if next =? 0 then 1 else next in
              let e := mkEntity true id schema_id (Some schema_id) (-1) (-1) 0 0 true 128 (f_of_Z 20) d0 (f_of_Z 2)
                         (values reset) in
              Some (id, put_entity (set_next w next) i e)
          end
  end.
Definition on_entity (w : World) (eid : Z) (f : Entity -> Entity) : World :=
  match find_entity w eid with Some (i, e) => put_entity w i (f e) | None => w end.
Definition netudp_entity_destroy (w : World) (eid : Z) : World := on_entity w eid (fun _ => reset).
Definition netudp_entity_set_group (w : World) (eid group_id : Z) : World := on_entity w eid (fun e => set_group e group_id).
Definition netudp_entity_set_owner (w : World) (eid client_index : Z) : World := on_entity w eid (fun e => set_owner e client_index).
Definition netudp_entity_set_priority (w : World) (eid priority : Z) : World := on_entity w eid (fun e => set_priority e priority).
Definition netudp_entity_set_max_rate (w : World) (eid : Z) (hz : spec_float) : World := on_entity w eid (fun e => set_max_rate e hz).

Definition entity_set (w : World) (eid : Z) (x : setter) : option (Z * World) :=
  match find_entity w eid with
  | None => Some (Address.NETUDP_ERROR_INVALID_PARAM, w)
  | Some (i, e) =>
      s ← schema_at w e;
      '(ok, e) ← perform_set s e x;
      Some (if (ok : bool) then Address.NETUDP_OK else Address.NETUDP_ERROR_INVALID_PARAM, put_entity w i e)
  end.
Definition netudp_entity_set_u8 (w : World) (eid pi val : Z) := entity_set w eid (SetU8 pi val).
Definition netudp_entity_set_u16 (w : World) (eid pi val : Z) := entity_set w eid (SetU16 pi val).
Definition netudp_entity_set_i32 (w : World) (eid pi val : Z) := entity_set w eid (SetI32 pi val).
Definition netudp_entity_set_f32 (w : World) (eid pi bits : Z) := entity_set w eid (SetF32 pi bits).
Definition netudp_entity_set_vec3 (w : World) (eid pi v0 v1 v2 : Z) := entity_set w eid (SetVec3 pi v0 v1 v2).
Definition netudp_entity_set_quat (w : World) (eid pi q0 q1 q2 q3 : Z) := entity_set w eid (SetQuat pi q0 q1 q2 q3).
Definition netudp_entity_set_blob (w : World) (eid pi : Z) (data : bytes) (len : Z) := entity_set w eid (SetBlob pi data len).

(** ** The replication loop *)

(** Too soon after the last time.  ([SFltb] compares floats of either format.) *)
Definition rate_limited (now : double) (ent : Entity) : bool :=
  if negb (needs_initial ent) && dgt (max_rate_hz ent) (f_of_Z 0) then
    let interval := ddiv (d_of_Z 1) (d_of_f (max_rate_hz ent)) in
    let elapsed := dsub now (last_replicate_time ent) in
    dlt elapsed interval && dlt elapsed (d_of_f (min_update_interval ent))
  else false.
Fixpoint any_reliable (n : nat) (pi : Z) (s : Schema) (mask : Z) : option bool :=
  match n with
  | O => Some false
  | S n =>
      if Z.land mask (u64 (Z.shiftl 1 pi)) =? 0 then any_reliable n (pi + 1) s mask
      else p ← oget (props s) pi;
           if has (rep_flags p) REP_RELIABLE then Some true else any_reliable n (pi + 1) s mask
  end.
(** The first reliable channel, or 0. *)
Fixpoint reliable_channel (n : nat) (ci : Z) (c : Connection) : option Z :=
  match n with
  | O => Some 0
  | S n =>
      d ← cdata c; x ← ch d ci;
      if Send.is_reliable (Channel.type x) then Some ci else reliable_channel n (ci + 1) c
  end.

Section Replicate.
Context `{Crypto.Aead} (blake2b_keyed : bytes -> bytes -> bytes).

(** The update of one entity to the members of its group. *)
Fixpoint send_members (l : list Z) (s : Server.Server) (sch : Schema) (ent : Entity) (channel : Z) (reliable : bool)
    (wire_buf : bytes) : option (Server.Server * bytes) :=
  match l with
  | [] => Some (s, wire_buf)
  | client :: l =>
      '(wire_len, wire_buf) ←
        replicate_serialize (Some sch) ent wire_buf (kEntityMaxValueSize + 32) client (needs_initial ent);
      if wire_len <=? 0 then send_members l s sch ent channel reliable wire_buf
      else
        data ← mread wire_buf 0 wire_len;
        '(_, s) ← (if negb reliable then Server.netudp_server_send_state s client channel (entity_id ent) data
                   else Server.netudp_server_send blake2b_keyed s client channel data 0);
        send_members l s sch ent channel reliable wire_buf
  end.

Definition replicate_entity (w : World) (ei : Z) (ent : Entity) (wire_buf : bytes) : option (World * bytes) :=
  let now := Server.current_time (srv w) in
  match schema ent with
  | None => Some (w, wire_buf)
  | Some si =>
      if negb (active ent) then Some (w, wire_buf)
      else if (dirty_mask ent =? 0) && negb (needs_initial ent) then Some (w, wire_buf)
      else if (group_id ent <? 0) || (Server.max_groups (srv w) <=? group_id ent) then Some (w, wire_buf)
      else if rate_limited now ent then Some (w, wire_buf)
      else
        grp ← oget (Server.groups (srv w)) (group_id ent);
        if negb (Group.active grp) || (Group.member_count grp =? 0)
        then Some (put_entity w ei (set_clean ent (last_replicate_time ent)), wire_buf)
        else
          sch ← oget (schemas w) si;
          reliable ← any_reliable (Z.to_nat (prop_count sch)) 0 sch (dirty_mask ent);
          channel ←
            (if reliable then
               first ← oget (Group.members grp) 0;
               c ← Server.conn (srv w) first;
               reliable_channel (Z.to_nat (num_channels c)) 0 c
             else Some 0);
          '(s, wire_buf) ← send_members (Group.member_list grp) (srv w) sch ent channel reliable wire_buf;
          Some (put_entity (set_srv w s) ei (set_clean ent now), wire_buf)
  end.
Fixpoint replicate_from (n : nat) (ei : Z) (w : World) (wire_buf : bytes) : option World :=
  match n with
  | O => Some w
  | S n =>
      l ← entities w; ent ← oget l ei;
      '(w, wire_buf) ← replicate_entity w ei ent wire_buf;
      replicate_from n (ei + 1) w wire_buf
  end.
(** [wire_buf] is the uninitialised local buffer. *)
Definition netudp_server_replicate (w : World) (wire_buf : bytes) : option World :=
  if negb (Server.running (srv w)) then Some w
  else match entities w with
       | None => Some w
       | Some _ => replicate_from (Z.to_nat kMaxEntities) 0 w wire_buf
       end.
End Replicate.

(** * The invariant *)

(** A schema within the limits the code relies on and does not check. *)
Definition schema_ok (s : Schema) : Prop := schema_wf s /\ fits s /\ prop_count s < 64.
Definition entity_ok (e : Entity) : Prop :=
  entity_wf e /\ is_u16 (entity_id e) /\ is_u64 (dirty_mask e) /\ (forall i, schema e = Some i -> 0 <= i < kMaxSchemas).
Record world_wf (w : World) : Prop := {
  ww_srv : server_wf (srv w);
  ww_cfg : 4 <= zlen (Server.cfg_channels (Server.cfg (srv w)));
  ww_schemas : zlen (schemas w) = kMaxSchemas /\ Forall schema_ok (schemas w);
  ww_count : 0 <= schema_count w <= kMaxSchemas;
  ww_entities : forall l, entities w = Some l -> zlen l = kMaxEntities /\ Forall entity_ok l;
  ww_next : 0 < next_entity_id w < 2 ^ 16 }.

Lemma reset_ok : entity_ok reset.
Proof. split_and!; done. Qed.
Lemma schema_zero_ok : schema_ok schema_zero.
Proof. split_and!; [apply schema_zero_wf|done..]. Qed.

Lemma schema_in w i : world_wf w -> 0 <= i < kMaxSchemas -> oget (schemas w) i = Some (schemas w).[i] /\ schema_ok (schemas w).[i].
Proof.
  intros Hw Hi. destruct (ww_schemas _ Hw) as [Hl Hf]. rewrite oget_aget by lia. split; [done|].
  eapply Forall_lookup_1; [exact Hf|]. apply lookup_aget. lia.
Qed.
Lemma find_index_spec f l : forall i j e, find_index f l i = Some (j, e) -> i <= j < i + zlen l /\ l !! Z.to_nat (j - i) = Some e.
Proof.
  induction l as [|x l IH]; intros i j e E; cbn [find_index] in E; [done|]. rewrite zlen_cons. pose proof (zlen_nonneg l).
  case_if_in E; [simplify_eq; rewrite Z.sub_diag; split; [lia|done]|]. apply IH in E as [Hj He]. split; [lia|].
  replace (Z.to_nat (j - i)) with (S (Z.to_nat (j - (i + 1)))) by lia. exact He.
Qed.
Lemma find_entity_spec w eid i e :
  world_wf w -> find_entity w eid = Some (i, e) ->
  exists l, entities w = Some l /\ 0 <= i < kMaxEntities /\ l.[i] = e /\ entity_ok e.
Proof.
  intros Hw. unfold find_entity. destruct (entities w) as [l|] eqn:El; [|done]. case_if; [done|]. intros E'.
  destruct (ww_entities _ Hw l El) as [Hl Hf]. apply find_index_spec in E' as [Hi He]. rewrite Z.sub_0_r in He.
  exists l. split; [done|]. split; [lia|]. split; [apply aget_Some; done || lia|]. eapply Forall_lookup_1; [exact Hf|exact He].
Qed.
Lemma put_entity_wf w i e : world_wf w -> entity_ok e -> world_wf (put_entity w i e).
Proof.
  intros [H1 H2 H3 H4 H5 H6] He. unfold put_entity. destruct (entities w) as [l|] eqn:El; [|by split; rewrite ?El].
  split; try done. cbn. intros l' [= <-]. destruct (H5 l eq_refl) as [Hl Hf]. split; [by rewrite zlen_aset|].
  by apply Forall_insert.
Qed.

(** A setter leaves the entity or marks a property. *)
Lemma store_cases e p idx data r e' : store e p idx data = Some (r, e') -> e' = e \/ exists v, e' = mark e idx v.
Proof.
  unfold store. destruct (mread _ _ _) as [old|]; [|done]. rewrite Some_bind. case_if; [intros [= _ <-]; by left|].
  destruct (mwrite _ _ _) as [v|]; [|done]. rewrite Some_bind. intros [= _ <-]. right. by exists v.
Qed.
Lemma set_typed_cases s e idx ty data r e' :
  set_typed s e idx ty data = Some (r, e') -> e' = e \/ exists v, e' = mark e idx v.
Proof.
  unfold set_typed. destruct (valid_prop _ _ _) as [[p|]|]; [|intros [= _ <-]; by left|done]. apply store_cases.
Qed.
Lemma perform_set_mask s e x r e' :
  perform_set s e x = Some (r, e') -> is_u64 (dirty_mask e) -> is_u64 (dirty_mask e').
Proof.
  intros E Hm. assert (e' = e \/ exists i v, e' = mark e i v) as [->|(i & v & ->)]; [|done|].
  - destruct x; cbn [perform_set] in E.
    1-3, 5-6: apply set_typed_cases in E as [->|[v ->]]; eauto.
    + unfold set_f32 in E. destruct (valid_prop _ _ _) as [[p|]|]; [|injection E as _ <-; by left|done].
      rewrite Some_bind in E. destruct (mread_u _ _ _) as [old|]; [|done]. rewrite Some_bind in E.
      destruct (deq _ _); [injection E as _ <-; by left|]. destruct (mwrite _ _ _) as [v|]; [|done].
      rewrite Some_bind in E. injection E as _ <-. eauto.
    + unfold set_blob in E. destruct (valid_prop _ _ _) as [[p|]|]; [|injection E as _ <-; by left|done].
      rewrite Some_bind in E. case_if_in E; [injection E as _ <-; by left|].
      destruct (mread data 0 len) as [d|]; [|done]. rewrite Some_bind in E. apply store_cases in E as [->|[v ->]]; eauto.
  - cbn. unfold is_u64 in *. apply lor_range; [lia|done|apply u64_range].
Qed.
Lemma entity_set_ok w eid x :
  world_wf w -> setter_ok x -> exists r w', entity_set w eid x = Some (r, w') /\ world_wf w' /\ srv w' = srv w.
Proof.
  intros Hw Hx. unfold entity_set. destruct (find_entity w eid) as [[i e]|] eqn:Ef; [|by eexists _, _].
  destruct (find_entity_spec w eid i e Hw Ef) as (l & El & Hi & _ & (He & Hid & Hm & Hsc)).
  unfold schema_at. destruct (schema e) as [si|] eqn:Esi.
  - destruct (schema_in w si Hw (Hsc si eq_refl)) as [-> (Hs & Hf & _)]. rewrite !Some_bind.
    destruct (perform_set_refines (schemas w).[si] e x Hs Hf He Hx) as (r & e' & Ep & He' & Hsame & _).
    pose proof (perform_set_mask _ _ _ _ _ Ep Hm) as Hm'. rewrite Ep, Some_bind. eexists _, _. split; [done|].
    split; [|unfold put_entity; by rewrite El]. apply put_entity_wf; [done|]. unfold same_entity in Hsame. split; [done|].
    rewrite Hsame. cbn. split_and!; try done. intros j Hj. rewrite Esi in Hj. by apply Hsc.
  - rewrite Some_bind. assert (perform_set None e x = Some (false, e)) as -> by by destruct x. rewrite Some_bind.
    eexists _, _. split; [done|]. split; [|unfold put_entity; by rewrite El]. apply put_entity_wf; [done|].
    split_and!; try done. by intros j Hj; congruence.
Qed.

Lemma schema_add_ok w sid nm ty flags wire blob :
  world_wf w -> 0 < size_of ty blob ->
  (0 <= sid < schema_count w -> prop_count (schemas w).[sid] < 63 /\
     value_buffer_size (schemas w).[sid] + size_of ty blob <= kEntityMaxValueSize) ->
  exists r w', schema_add w sid nm ty flags (size_of ty blob) wire blob = Some (r, w') /\ world_wf w' /\ srv w' = srv w.
Proof.
  intros Hw Hsz Hroom. unfold schema_add. case_if; [by eexists _, _|].
  pose proof (ww_count _ Hw) as Hc. destruct (schema_in w sid Hw ltac:(lia)) as [-> (Hs & Hf & Hn)].
  destruct (Hroom ltac:(lia)) as [Hn' Hv]. rewrite Some_bind. unfold kEntityMaxValueSize in *.
  destruct (add_prop_spec (schemas w).[sid] nm ty flags (size_of ty blob) wire blob Hs) as (r & s' & -> & Hs' & _ & Hadd);
    [done|done|lia|]. destruct (Hadd ltac:(lia)) as (-> & Hcnt & Hvb & _). rewrite Some_bind.
  destruct (ww_schemas _ Hw) as [Hl Hall]. rewrite oset_aset, Some_bind by lia.
  eexists _, _. split; [done|]. split; [|done]. destruct Hw as [H1 H2 H3 H4 H5 H6].
  split; try done; cbn. split; [by rewrite zlen_aset|]. apply Forall_insert; [done|].
  split_and!; [done|unfold fits, kEntityMaxValueSize; lia|lia].
Qed.

Lemma entity_create_ok w sid :
  world_wf w -> exists r w', netudp_entity_create w sid = Some (r, w') /\ world_wf w' /\ srv w' = srv w.
Proof.
  intros Hw. unfold netudp_entity_create. destruct (entities w) as [l|] eqn:El; [|by eexists _, _].
  case_if; [by eexists _, _|]. pose proof (ww_count _ Hw) as Hc.
  destruct (schema_in w sid Hw ltac:(lia)) as [-> _]. rewrite Some_bind. case_if; [by eexists _, _|].
  destruct (find_index _ l 0) as [[i e]|]; [|by eexists _, _]. eexists _, _. split; [done|].
  split; [|unfold put_entity; cbn; by rewrite El]. pose proof (ww_next _ Hw) as Hn. apply put_entity_wf.
  - destruct Hw as [H1 H2 H3 H4 H5 H6]. split; try done; cbn. case_if; [done|].
    pose proof (u16_range (next_entity_id w + 1)) as Hu. unfold is_u16 in Hu. lia.
  - split_and!; try done; cbn; [unfold is_u16; lia|]. intros j [= <-]. lia.
Qed.
Lemma on_entity_ok w eid f :
  world_wf w -> (forall e, entity_ok e -> entity_ok (f e)) -> world_wf (on_entity w eid f) /\ srv (on_entity w eid f) = srv w.
Proof.
  intros Hw Hf. unfold on_entity. destruct (find_entity w eid) as [[i e]|] eqn:Ef; [|done].
  destruct (find_entity_spec w eid i e Hw Ef) as (l & El & _ & _ & He). split; [by apply put_entity_wf; auto|].
  unfold put_entity. by rewrite El.
Qed.

(** * What a round of replication does *)

(** The entity is up for replication. *)
Definition due (s : Server.Server) (ent : Entity) : bool :=
  match schema ent with Some _ => true | None => false end && active ent &&
  negb ((dirty_mask ent =? 0) && negb (needs_initial ent)) &&
  negb ((group_id ent <? 0) || (Server.max_groups s <=? group_id ent)) &&
  negb (rate_limited (Server.current_time s) ent).
(** Nobody is there to get it. *)
Definition nobody (s : Server.Server) (ent : Entity) : bool :=
  let g := (Server.groups s).[group_id ent] in negb (Group.active g) || (Group.member_count g =? 0).
(** The entity after the round. *)
Definition after (s : Server.Server) (ent : Entity) : Entity :=
  if due s ent
  then set_clean ent (if nobody s ent then last_replicate_time ent else Server.current_time s)
  else ent.

(** Sending leaves the groups and the clock. *)
Definition same_groups (s s' : Server.Server) : Prop :=
  Server.groups s' = Server.groups s /\ Server.current_time s' = Server.current_time s /\
  Server.max_groups s' = Server.max_groups s.
Lemma same_groups_trans s1 s2 s3 : same_groups s1 s2 -> same_groups s2 s3 -> same_groups s1 s3.
Proof. intros (A1 & A2 & A3) (B1 & B2 & B3). split_and!; congruence. Qed.
Lemma after_same s s' ent : same_groups s s' -> after s' ent = after s ent.
Proof. intros (E1 & E2 & E3). unfold after, due, nobody. by rewrite E1, E2, E3. Qed.

Lemma set_clean_ok ent t : entity_ok ent -> entity_ok (set_clean ent t).
Proof. intros (H1 & H2 & H3 & H4). by split_and!. Qed.

Lemma any_reliable_ok n : forall pi s mask,
  zlen (props s) = 64 -> 0 <= pi -> pi + Z.of_nat n <= 64 -> exists b, any_reliable n pi s mask = Some b.
Proof.
  induction n as [|n IH]; intros pi s mask Hl Hp Hn; cbn [any_reliable]; [by eexists|].
  case_if; [apply IH; lia|]. rewrite oget_aget, Some_bind by lia. case_if; [by eexists|]. apply IH; lia.
Qed.
Lemma reliable_channel_ok n : forall ci c,
  wf c -> 0 <= ci -> ci + Z.of_nat n <= 4 -> exists k, reliable_channel n ci c = Some k.
Proof.
  induction n as [|n IH]; intros ci c Hc Hi Hn; cbn [reliable_channel]; [by eexists|].
  pose proof Hc as (_ & _ & d & Hd & Hwd). rewrite Hd, Some_bind.
  destruct (ch_wf d ci Hwd ltac:(lia)) as (x & -> & _). rewrite Some_bind. case_if; [by eexists|]. apply IH; done || lia.
Qed.

(** A group with members has a first one, and its connection works. *)
Lemma first_member s grp :
  server_wf s -> Group.wf (Server.max_clients s) grp -> Group.member_count grp <> 0 ->
  (forall x, x ∈ Group.member_list grp -> x ∈ Slots.actives (Server.sl s)) ->
  exists c, (first ← oget (Group.members grp) 0; Server.conn s first) = Some c /\ wf c.
Proof.
  intros Hs (v & Hv & Hwf & _) Hne Hmem. destruct (Group.view_Some _ _ Hv) as (_ & Ei & Ec).
  pose proof (IndexSet.is_count _ Hwf) as Hcount. rewrite Ec, Ei in Hcount.
  rewrite oget_aget, Some_bind by lia.
  assert ((Group.members grp).[0] ∈ Slots.actives (Server.sl s)) as Hin.
  { apply Hmem. rewrite (Group.view_members _ _ Hv). apply IndexSet.elem_members; [done|]. exists 0. rewrite Ei, Ec. split; [lia|done]. }
  rewrite (conn_at s _ Hs) by by apply active_slot. eexists. split; [done|]. by apply (cw_wf _ _ _ (sw_conns _ Hs)).
Qed.

(** ** What is sent *)

(** The properties of [ent] for [client], as a mask. *)
Definition selected_mask (sch : Schema) (ent : Entity) (client : Z) : Z :=
  foldr (fun i m => if selected sch ent client (needs_initial ent) i then Z.setbit m i else m) 0 (seqZ 0 64).
Lemma fold_bits (sel : Z -> bool) l i :
  0 <= i -> Forall (fun j => 0 <= j) l ->
  Z.testbit (foldr (fun i m => if sel i then Z.setbit m i else m) 0 l) i = bool_decide (i ∈ l) && sel i.
Proof.
  intros Hi. induction 1 as [|j l Hj _ IH]; cbn [foldr].
  - rewrite Z.bits_0, bool_decide_false; [done|apply not_elem_of_nil].
  - destruct (decide (i = j)) as [->|Hne].
    + rewrite bool_decide_true by by left. cbn [andb]. destruct (sel j) eqn:E; [by rewrite Z.setbit_eq|].
      rewrite IH. apply andb_false_r.
    + assert (bool_decide (i ∈ j :: l) = bool_decide (i ∈ l)) as ->
        by (apply bool_decide_ext; rewrite elem_of_cons; naive_solver).
      rewrite <- IH. destruct (sel j); [|done]. by rewrite Z.setbit_neq by lia.
Qed.
Lemma selected_mask_unique sch ent client mask :
  schema_wf sch -> is_u64 (dirty_mask ent) ->
  (forall i, 0 <= i -> Z.testbit mask i = selected sch ent client (needs_initial ent) i) -> mask = selected_mask sch ent client.
Proof.
  intros Hs Hd Hm. pose proof (sw_count _ Hs). apply Z.bits_inj'. intros i Hi. unfold selected_mask.
  rewrite Hm, fold_bits by (done || (apply list.Forall_forall; intros j Hj%elem_of_seqZ; lia)).
  destruct (decide (i < 64)); [rewrite bool_decide_true by (apply elem_of_seqZ; lia); done|].
  rewrite bool_decide_false by (rewrite elem_of_seqZ; lia). cbn [andb]. unfold selected.
  rewrite (proj2 (Z.ltb_ge _ _)) by lia. destruct (needs_initial ent); [done|].
  destruct (decide (dirty_mask ent = 0)) as [->|Hz]; [apply Z.bits_0|]. unfold is_u64 in Hd. apply Z.bits_above_log2; [lia|].
  assert (Z.log2 (dirty_mask ent) < 64); [|lia]. apply Z.log2_lt_pow2; lia.
Qed.

Section Sends.
Context `{Crypto.Aead} (blake2b_keyed : bytes -> bytes -> bytes).
(** The update of [ent] to each of [clients]: those for whom a property is selected get
    the bytes of it, as a message or as the latest state of the entity. *)
Fixpoint send_updates (clients : list Z) (s : Server.Server) (sch : Schema) (ent : Entity) (channel : Z) (reliable : bool)
    : option Server.Server :=
  match clients with
  | [] => Some s
  | client :: clients =>
      let mask := selected_mask sch ent client in
      s ← (if mask =? 0 then Some s
           else snd <$> (if reliable then Server.netudp_server_send blake2b_keyed s client channel (update_image sch ent mask) 0
                         else Server.netudp_server_send_state s client channel (entity_id ent) (update_image sch ent mask)));
      send_updates clients s sch ent channel reliable
  end.
(** What a round sends for one entity: to every member of its group, on the first
    reliable channel when a changed property asks for it. *)
Definition entity_sends (scs : list Schema) (s : Server.Server) (ent : Entity) : option Server.Server :=
  if due s ent && negb (nobody s ent) then
    si ← schema ent; sch ← oget scs si;
    let grp := (Server.groups s).[group_id ent] in
    reliable ← any_reliable (Z.to_nat (prop_count sch)) 0 sch (dirty_mask ent);
    channel ← (if (reliable : bool) then
                 first ← oget (Group.members grp) 0;
                 c ← Server.conn s first;
                 reliable_channel (Z.to_nat (num_channels c)) 0 c
               else Some 0);
    send_updates (Group.member_list grp) s sch ent channel reliable
  else Some s.
Fixpoint round_sends (scs : list Schema) (s : Server.Server) (l : list Entity) : option Server.Server :=
  match l with
  | [] => Some s
  | ent :: l => s ← entity_sends scs s ent; round_sends scs s l
  end.
End Sends.

Section Round.
Context `{Crypto.Aead} `{!ConnSafety.AeadBytes} (blake2b_keyed : bytes -> bytes -> bytes).

Lemma send_same s i channel data flags r s' :
  Server.netudp_server_send blake2b_keyed s i channel data flags = Some (r, s') -> same_groups s s'.
Proof.
  unfold Server.netudp_server_send. destruct (Server.send_target s i channel) as [[e|[[c d] x]]|]; [| |done]; rewrite Some_bind.
  { by intros [= _ <-]. }
  destruct (Channel.queue_send x data flags) as [ok x']. destruct ok; cbn [negb]; [|by intros [= _ <-]].
  cbv zeta. case_if; [|by intros [= _ <-]]. set (s1 := Server.queued _ _ _ _ _ _).
  destruct (Server.conn s1 i) as [c1|]; [|done]. rewrite Some_bind. destruct (cdata c1) as [d1|]; [|done]. rewrite Some_bind.
  destruct (ch d1 channel) as [x1|]; [|done]. rewrite Some_bind. set (s2 := Server.set_conn _ _ _).
  unfold Server.send_pending_slot. destruct (Server.conn s2 i) as [c2|]; [|done]. rewrite Some_bind.
  destruct (Send.server_send_pending _ _ _ _) as [[c3 pkts]|]; [|done]. rewrite !Some_bind. by intros [= _ <-].
Qed.
Lemma send_state_same s i channel eid data r s' :
  Server.netudp_server_send_state s i channel eid data = Some (r, s') -> same_groups s s'.
Proof.
  unfold Server.netudp_server_send_state. destruct (Server.send_target s i channel) as [[e|[[c d] x]]|]; [| |done]; rewrite Some_bind.
  { by intros [= _ <-]. }
  case_if; [by intros [= _ <-]|]. destruct (Channel.queue_send_state x data 0 eid) as [ok x'].
  destruct ok; cbn [negb]; by intros [= _ <-].
Qed.

Definition BUF : Z := kEntityMaxValueSize + 32.
Lemma send_members_ok l : forall s sch ent channel reliable buf,
  server_wf s -> schema_ok sch -> entity_ok ent -> zlen buf = BUF ->
  exists s' buf', send_members blake2b_keyed l s sch ent channel reliable buf = Some (s', buf') /\
    good s s' /\ same_groups s s' /\ zlen buf' = BUF /\
    send_updates blake2b_keyed l s sch ent channel reliable = Some s'.
Proof.
  induction l as [|i l IH]; intros s sch ent channel reliable buf Hs Hsch Hent Hb; cbn [send_members send_updates].
  { exists s, buf. split; [done|]. split; [by apply good_refl|]. by split_and!. }
  pose proof Hsch as (Hsw & Hf & Hn). pose proof Hent as (He & Hid & Hm & _).
  destruct (update_serialized sch ent i (needs_initial ent) buf Hsw Hf He Hm) as (mask & buf1 & _ & Hsel & Hb1 & Es & Him);
    [done|rewrite Hb; unfold BUF; lia|]. rewrite Hb in Es. unfold BUF in Es. rewrite Es, Some_bind.
  apply (selected_mask_unique sch ent i mask Hsw Hm) in Hsel. rewrite <- Hsel. clear Hsel.
  assert (value_buffer_size sch <= zlen (values ent)) as Hv by (unfold fits, entity_wf in *; lia).
  pose proof (update_image_length sch ent mask Hsw Hv) as HI. unfold fits, kEntityMaxValueSize in *.
  destruct (mask =? 0) eqn:Em; bool_facts; [rewrite Some_bind; apply IH; done || lia|]. specialize (Him Em).
  rewrite (proj2 (Z.leb_gt _ _)) by lia. set (d := update_image sch ent mask) in *.
  assert (mread buf1 0 (zlen d) = Some d) as ->.
  { rewrite mread_Some, drop_0, Him; [done|lia|lia|]. rewrite Hb1, Hb. unfold BUF, kEntityMaxValueSize. lia. }
  rewrite Some_bind.
  assert (exists r s1, (if negb reliable then Server.netudp_server_send_state s i channel (entity_id ent) d
    else Server.netudp_server_send blake2b_keyed s i channel d 0) = Some (r, s1) /\ good s s1 /\ same_groups s s1 /\
    snd <$> (if reliable then Server.netudp_server_send blake2b_keyed s i channel d 0
             else Server.netudp_server_send_state s i channel (entity_id ent) d) = Some s1)
    as (r & s1 & -> & G1 & S1 & ->).
  { destruct reliable; cbn [negb].
    - destruct (send_ok blake2b_keyed s i channel d 0 Hs) as (r & s1 & E1 & G1). exists r, s1. rewrite E1.
      split; [done|]. split; [done|]. split; [by eapply send_same|done].
    - destruct (send_state_ok s i channel (entity_id ent) d Hs) as (r & s1 & E1 & G1). exists r, s1. rewrite E1.
      split; [done|]. split; [done|]. split; [by eapply send_state_same|done]. }
  rewrite !Some_bind. destruct (IH s1 sch ent channel reliable buf1) as (s2 & buf2 & -> & G2 & S2 & Hb2 & Hu);
    [apply G1|done|done|by rewrite Hb1|].
  exists s2, buf2. split; [done|]. split; [exact (good_trans _ _ _ G1 G2)|]. split; [exact (same_groups_trans _ _ _ S1 S2)|done].
Qed.

(** One entity of the pool. *)
Lemma replicate_entity_ok w ei l buf :
  world_wf w -> entities w = Some l -> 0 <= ei < kMaxEntities -> zlen buf = BUF ->
  exists w' buf', replicate_entity blake2b_keyed w ei l.[ei] buf = Some (w', buf') /\ world_wf w' /\
    good (srv w) (srv w') /\ same_groups (srv w) (srv w') /\ schemas w' = schemas w /\ zlen buf' = BUF /\
    entities w' = Some (aset l ei (after (srv w) l.[ei])) /\
    entity_sends blake2b_keyed (schemas w) (srv w) l.[ei] = Some (srv w').
Proof.
  intros Hw El Hi Hb. destruct (ww_entities _ Hw l El) as [Hl Hall]. set (ent := l.[ei]).
  assert (entity_ok ent) as Hent by (eapply Forall_lookup_1; [exact Hall|apply lookup_aget; lia]).
  pose proof (ww_srv _ Hw) as Hs. unfold replicate_entity, entity_sends, after, due.
  assert (good (srv w) (srv w)) as Gr by (by apply good_refl).
  assert (forall b, b = false -> exists w' buf', Some (w, buf) = Some (w', buf') /\ world_wf w' /\
    good (srv w) (srv w') /\ same_groups (srv w) (srv w') /\ schemas w' = schemas w /\ zlen buf' = BUF /\
    entities w' = Some (aset l ei (if b then set_clean ent (if nobody (srv w) ent then last_replicate_time ent
      else Server.current_time (srv w)) else ent)) /\ Some (srv w) = Some (srv w')) as Hskip.
  { intros b ->. exists w, buf. split_and!; try done. unfold ent. by rewrite aset_id by lia. }
  destruct (schema ent) as [si|] eqn:Esi; [|exact (Hskip false eq_refl)]. cbn [andb].
  destruct (active ent); cbn [negb andb]; [|exact (Hskip false eq_refl)].
  destruct ((dirty_mask ent =? 0) && _); cbn [negb andb]; [exact (Hskip false eq_refl)|].
  destruct ((group_id ent <? 0) || _) eqn:Eg; cbn [negb andb]; [exact (Hskip false eq_refl)|].
  destruct (rate_limited _ ent); cbn [negb]; [exact (Hskip false eq_refl)|]. clear Hskip.
  destruct (group_of_ok (srv w) (group_id ent) Hs) as (g & Hg & Hgw). unfold Server.group_of in Hg. rewrite Eg in Hg.
  destruct (oget (Server.groups (srv w)) (group_id ent)) as [grp|] eqn:Egrp; [|done]. rewrite Some_bind in Hg. rewrite Some_bind.
  bool_facts. assert ((Server.groups (srv w)).[group_id ent] = grp) as Egg.
  { unfold oget in Egrp. case_if_in Egrp; [|done]. by apply aget_Some. }
  unfold nobody. rewrite Egg. destruct (Group.active grp) eqn:Ea; cbn [negb orb] in *.
  2: { eexists _, _. split; [done|]. split; [by apply put_entity_wf, set_clean_ok|].
       unfold put_entity. rewrite El. by split_and!. }
  injection Hg as <-. destruct Hgw as (_ & _ & _ & Hgw & Hmem).
  destruct (Group.member_count grp =? 0) eqn:Em.
  { eexists _, _. split; [done|]. split; [by apply put_entity_wf, set_clean_ok|].
    unfold put_entity. rewrite El. by split_and!. }
  bool_facts. pose proof Hent as (_ & _ & _ & Hsi). destruct (schema_in w si Hw (Hsi si Esi)) as [Esch Hsch]. rewrite Esch, Some_bind.
  pose proof Hsch as (Hsw & _ & _). pose proof (sw_count _ Hsw) as Hpc.
  destruct (any_reliable_ok (Z.to_nat (prop_count (schemas w).[si])) 0 (schemas w).[si] (dirty_mask ent))
    as [b Eb]; [by apply (sw_props _ Hsw)|lia..|]. rewrite Eb, Some_bind.
  assert (exists k, (if b then first ← oget (Group.members grp) 0; c ← Server.conn (srv w) first;
    reliable_channel (Z.to_nat (num_channels c)) 0 c else Some 0) = Some k) as [k Ek].
  { destruct b; [|by eexists]. destruct (first_member (srv w) grp Hs Hgw Em Hmem) as (c & Ec & Hc).
    destruct (oget (Group.members grp) 0) as [first|]; [|done]. rewrite Some_bind in Ec. rewrite Some_bind, Ec, Some_bind.
    pose proof Hc as (Hnc & _). unfold MAX_CHANNELS_PER_CONNECTION in Hnc.
    destruct (Z_le_gt_dec 0 (num_channels c)); [apply reliable_channel_ok; done || lia|].
    replace (Z.to_nat (num_channels c)) with 0%nat by lia. by eexists. }
  rewrite Ek, Some_bind.
  destruct (send_members_ok (Group.member_list grp) (srv w) (schemas w).[si] ent k b buf Hs Hsch Hent Hb)
    as (s' & buf' & -> & G & Sg & Hb' & Hu). rewrite Some_bind.
  eexists _, _. split; [done|].
  assert (world_wf (set_srv w s')) as Hw1.
  { destruct G as [Gw (Gc & _)]. destruct Hw. split; try done. cbn. by rewrite Gc. }
  split; [by apply put_entity_wf, set_clean_ok|]. unfold put_entity. cbn [entities set_srv]. rewrite El. split_and!; try done.
  cbn [andb negb]. by rewrite Some_bind, Esch, Some_bind, Eb, Some_bind, Ek, Some_bind, Hu.
Qed.
Lemma replicate_from_ok n : forall ei w l buf,
  world_wf w -> entities w = Some l -> 0 <= ei -> ei + Z.of_nat n = kMaxEntities -> zlen buf = BUF ->
  exists w' l', replicate_from blake2b_keyed n ei w buf = Some w' /\ world_wf w' /\
    good (srv w) (srv w') /\ same_groups (srv w) (srv w') /\ schemas w' = schemas w /\
    entities w' = Some l' /\ (forall j, 0 <= j < ei -> l'.[j] = l.[j]) /\
    (forall j, ei <= j < kMaxEntities -> l'.[j] = after (srv w) l.[j]) /\
    round_sends blake2b_keyed (schemas w) (srv w) (drop (Z.to_nat ei) l) = Some (srv w').
Proof.
  induction n as [|n IH]; intros ei w l buf Hw El Hi Hn Hb; cbn [replicate_from].
  { exists w, l. destruct (ww_entities _ Hw l El) as [Hl _]. rewrite drop_ge by (unfold zlen in Hl; lia).
    split_and!; try done; [apply good_refl, Hw|lia]. }
  destruct (ww_entities _ Hw l El) as [Hl _]. rewrite El, Some_bind, oget_aget, Some_bind by lia.
  destruct (replicate_entity_ok w ei l buf Hw El ltac:(lia) Hb) as (w1 & buf1 & -> & Hw1 & G1 & S1 & Esc1 & Hb1 & El1 & Hs1).
  rewrite Some_bind.
  destruct (IH (ei + 1) w1 _ buf1 Hw1 El1 ltac:(lia) ltac:(lia) Hb1) as (w2 & l2 & -> & Hw2 & G2 & S2 & Esc2 & El2 & Hlow & Hhigh & Hs2).
  exists w2, l2. split; [done|]. split; [done|]. split; [exact (good_trans _ _ _ G1 G2)|].
  split; [exact (same_groups_trans _ _ _ S1 S2)|]. split; [congruence|]. split; [done|]. split_and!.
  - intros j Hj. rewrite Hlow by lia. apply aget_aset_ne; lia.
  - intros j Hj. destruct (decide (j = ei)) as [->|].
    + rewrite Hlow by lia. apply aget_aset_eq. lia.
    + rewrite Hhigh by lia. rewrite (after_same _ _ _ S1). f_equal. apply aget_aset_ne; lia.
  - rewrite (drop_S l l.[ei]) by (apply lookup_aget; lia). cbn [round_sends]. rewrite Hs1, Some_bind, <- Hs2, Esc1.
    f_equal. unfold aset. rewrite drop_insert_lt by lia. f_equal. lia.
Qed.

End Round.

(** * Any use of the API *)

Section Api.
Context `{Crypto.Aead} `{!ConnSafety.AeadBytes} (blake2b_keyed blake2b_keyed_64 : bytes -> bytes -> bytes)
        (crypto_aead_unlock : bytes -> bytes -> bytes -> bytes -> bytes -> option bytes)
        (falloc : Z -> option bytes).

Inductive rcall : Type :=
  | OnServer (c : ServerSafety.call)
  | SchemaCreate | SchemaDestroy (sid : Z)
  | SchemaAdd (sid : Z) (nm : bytes) (ty : PropType) (max_bytes flags : Z)
  | EntityCreate (sid : Z) | EntityDestroy (eid : Z) | EntityGroup (eid group_id : Z) | EntityOwner (eid client : Z)
  | EntityPriority (eid priority : Z) | EntityRate (eid : Z) (hz : spec_float) | EntitySet (eid : Z) (x : setter)
  | Replicate (wire_buf : bytes).
Definition add_property (w : World) (sid : Z) (nm : bytes) (ty : PropType) (max_bytes flags : Z) : option (Z * World) :=
  match ty with
  | U8 => netudp_schema_add_u8 w sid nm flags
  | U16 => netudp_schema_add_u16 w sid nm flags
  | I32 => netudp_schema_add_i32 w sid nm flags
  | F32 => netudp_schema_add_f32 w sid nm flags
  | VEC3 => netudp_schema_add_vec3 w sid nm flags
  | QUAT => netudp_schema_add_quat w sid nm flags
  | BLOB => netudp_schema_add_blob w sid nm max_bytes flags
  end.
Definition rperform (w : World) (c : rcall) : option World :=
  match c with
  | OnServer c => s ← ServerSafety.perform blake2b_keyed blake2b_keyed_64 crypto_aead_unlock falloc (srv w) c; Some (set_srv w s)
  | SchemaCreate => snd <$> netudp_schema_create w
  | SchemaDestroy sid => netudp_schema_destroy w sid
  | SchemaAdd sid nm ty n flags => snd <$> add_property w sid nm ty n flags
  | EntityCreate sid => snd <$> netudp_entity_create w sid
  | EntityDestroy eid => Some (netudp_entity_destroy w eid)
  | EntityGroup eid g => Some (netudp_entity_set_group w eid g)
  | EntityOwner eid c => Some (netudp_entity_set_owner w eid c)
  | EntityPriority eid p => Some (netudp_entity_set_priority w eid p)
  | EntityRate eid hz => Some (netudp_entity_set_max_rate w eid hz)
  | EntitySet eid x => snd <$> entity_set w eid x
  | Replicate buf => netudp_server_replicate blake2b_keyed w buf
  end.
(** The limits on calls.  A property may be added while its schema has fewer than 63
    and the values still fit an entity: the code checks neither. *)
Definition rcall_ok (w : World) (c : rcall) : Prop :=
  match c with
  | OnServer c => ServerSafety.call_ok (Server.max_clients (srv w)) c
  | SchemaAdd sid _ ty n _ => 0 <= sid < schema_count w -> prop_count (schemas w).[sid] < 63 /\
      value_buffer_size (schemas w).[sid] + size_of ty n <= kEntityMaxValueSize
  | EntitySet _ x => setter_ok x
  | Replicate buf => zlen buf = BUF
  | _ => True
  end.
Inductive rreachable (w0 : World) : World -> Prop :=
  | rreach_start : rreachable w0 w0
  | rreach_call w c w' : rreachable w0 w -> rcall_ok w c -> rperform w c = Some w' -> rreachable w0 w'.

Lemma snd_ok {A} (o : option (A * World)) (P : World -> Prop) :
  (exists r w', o = Some (r, w') /\ P w') -> exists w', snd <$> o = Some w' /\ P w'.
Proof. intros (r & w' & -> & Hw). by exists w'. Qed.
Lemma put_schema_wf w sid s n :
  world_wf w -> schema_ok s -> 0 <= n <= kMaxSchemas -> world_wf (set_schemas w (aset (schemas w) sid s) n).
Proof.
  intros Hw Hs Hn. destruct (ww_schemas _ Hw) as [Hl Hf]. destruct Hw. split; try done. cbn.
  split; [by rewrite zlen_aset|]. by apply Forall_insert.
Qed.

Lemma add_property_ok w sid nm ty n flags :
  world_wf w -> rcall_ok w (SchemaAdd sid nm ty n flags) ->
  exists r w', add_property w sid nm ty n flags = Some (r, w') /\ world_wf w'.
Proof.
  intros Hw Hok. cbn [rcall_ok] in Hok.
  assert (forall wire, ty <> BLOB -> exists r w', schema_add w sid nm ty flags (size_of ty 0) wire 0 = Some (r, w') /\ world_wf w')
    as Hadd.
  { intros wire Hty. destruct (schema_add_ok w sid nm ty flags wire 0 Hw) as (r & w' & E & Hw' & _);
      [by destruct ty|by destruct ty|by exists r, w']. }
  destruct ty; try by apply Hadd. cbn [add_property]. unfold netudp_schema_add_blob. case_if; [by eexists _, _|].
  bool_facts. destruct (schema_add_ok w sid nm BLOB flags n n Hw ltac:(cbn; lia) Hok) as (r & w' & E' & Hw' & _).
  by exists r, w'.
Qed.

Context (unlock_len : forall key nonce aad mac ct pt,
           crypto_aead_unlock key nonce aad mac ct = Some pt -> length pt = length ct)
        (falloc_ok : forall i, exists b, falloc i = Some b /\ zlen b = NETUDP_MAX_MESSAGE_SIZE).

Lemma rperform_ok w c :
  world_wf w -> rcall_ok w c -> exists w', rperform w c = Some w' /\ world_wf w'.
Proof.
  intros Hw Hok. pose proof (ww_count _ Hw) as Hc. destruct (ww_schemas _ Hw) as [Hl _].
  assert (forall eid f, (forall e, entity_ok e -> entity_ok (f e)) -> exists w', Some (on_entity w eid f) = Some w' /\ world_wf w')
    as Hon by (intros eid f Hf; eexists; split; [done|]; by apply on_entity_ok).
  destruct c; cbn [rperform rcall_ok] in *.
  - destruct (ServerSafety.perform_ok blake2b_keyed blake2b_keyed_64 crypto_aead_unlock falloc unlock_len falloc_ok (srv w) c)
      as (s' & -> & [Gw (Gc & _)]); [apply Hw|apply Hw|done|]. rewrite Some_bind. eexists. split; [done|].
    destruct Hw. split; try done. cbn. by rewrite Gc.
  - apply snd_ok. unfold netudp_schema_create. case_if; [by eexists _, _|]. rewrite oset_aset, Some_bind by lia.
    eexists _, _. split; [done|]. apply put_schema_wf; [done| |lia]. split_and!; try done.
    pose proof schema_zero_wf as Hz. by destruct Hz; split.
  - unfold netudp_schema_destroy. case_if; [by eexists|]. rewrite oset_aset, Some_bind by lia. eexists. split; [done|].
    by apply put_schema_wf; [|apply schema_zero_ok|].
  - by apply snd_ok, add_property_ok.
  - apply snd_ok. destruct (entity_create_ok w sid Hw) as (r & w' & E & Hw' & _). by exists r, w'.
  - apply Hon. intros e _. apply reset_ok.
  - by apply Hon.
  - by apply Hon.
  - by apply Hon.
  - by apply Hon.
  - apply snd_ok. destruct (entity_set_ok w eid x Hw Hok) as (r & w' & E & Hw' & _). by exists r, w'.
  - destruct (Server.running (srv w)) eqn:Er; [|unfold netudp_server_replicate; rewrite Er; by exists w].
    destruct (entities w) as [l|] eqn:El; [|unfold netudp_server_replicate; rewrite Er, El; by exists w].
    unfold netudp_server_replicate. rewrite Er, El.
    destruct (replicate_from_ok blake2b_keyed (Z.to_nat kMaxEntities) 0 w l wire_buf Hw El) as (w' & l' & -> & Hw' & _);
      [done|done|done|]. by exists w'.
Qed.

(** C22.  The replication API is safe within the limits below.  In every state that calls of the
    server's and the replication API (in any order, interleaved with packets) can
    lead to from a well-formed one, the server, the schemas and the pool are well
    formed, and the next call returns: no setter leaves the value buffer of its
    entity, no update leaves the wire buffer, no schema pointer dangles.  The limits
    on calls ([rcall_ok]) are there because the code does not check them: a schema has at
    most 63 properties and 2048 bytes of values, a blob comes with a length from 0 to that
    of its data, and for the server's own calls those of [server_stays_safe]. *)
Theorem replication_stays_safe w0 w :
  world_wf w0 -> rreachable w0 w ->
  world_wf w /\ forall c, rcall_ok w c -> exists w', rperform w c = Some w' /\ world_wf w'.
Proof.
  intros Hw0 Hr. assert (world_wf w) as Hw.
  { induction Hr as [|w c w' _ IH Hok E]; [done|]. destruct (rperform_ok w c IH Hok) as (w1 & E1 & Hw1). congruence. }
  split; [done|]. intros c Hok. by apply rperform_ok.
Qed.
End Api.

(** * Examples *)

#[local] Existing Instance ServerSafety.none_aead_bytes.

(** A server with a connected client, and a pool whose first entity is new. *)
Definition demo_fresh : Entity :=
  mkEntity true 9 0 (Some 0) 2 0 3 0 true 128 (f_of_Z 20) d0 (f_of_Z 2)
    (le_bytes 2 700 ++ le_bytes 4 1065353216 ++ replicate 2042 0).
Definition demo_pool : list Entity := demo_fresh :: replicate (Z.to_nat (kMaxEntities - 1)) reset.
(** The client is the member of the first group. *)
Definition demo_group_calls : list ServerSafety.call := [GroupCreate; GroupAdd 0 0].
Definition demo_grouped : Server.Server :=
  default ServerApi.demo_server
    (ServerSafety.run (H := Crypto.none_aead) demo_hash demo_hash Token.demo_unlock demo_alloc ServerApi.demo_server demo_group_calls).
Lemma demo_grouped_wf : server_wf demo_grouped.
Proof.
  destruct (ServerSafety.run_ok (H := Crypto.none_aead) demo_hash demo_hash Token.demo_unlock demo_alloc demo_unlock_len demo_alloc_ok
    demo_group_calls ServerApi.demo_server) as (s & E & G & _);
    [by vm_compute|apply ServerApi.demo_server_wf|by repeat constructor|]. unfold demo_grouped. by rewrite E.
Qed.
Definition demo_world : World :=
  mkWorld demo_grouped (aset (replicate 64 schema_zero) 0 demo_schema) 1 (Some demo_pool) 10.
Lemma demo_world_wf : world_wf demo_world.
Proof.
  split; cbn [srv schemas schema_count entities next_entity_id demo_world].
  - apply demo_grouped_wf.
  - vm_compute. discriminate.
  - split; [by rewrite zlen_aset, zlen_replicate|]. apply Forall_insert; [apply Forall_replicate, schema_zero_ok|].
    split; [apply demo_schema_wf|]. split; vm_compute; done.
  - done.
  - intros l [= <-]. unfold demo_pool. split; [by rewrite zlen_cons, zlen_replicate, Z2Nat.id by done|].
    constructor; [|apply Forall_replicate, reset_ok]. split; [by vm_compute|]. split; [done|]. split; [done|].
    intros i [= <-]. done.
  - done.
Qed.
Lemma replication_stays_safe_witness :
  exists w', rperform (H := Crypto.none_aead) demo_hash demo_hash Token.demo_unlock demo_alloc demo_world
      (EntitySet 9 (SetU16 0 5)) = Some w' /\ world_wf w'.
Proof.
  destruct (replication_stays_safe (H := Crypto.none_aead) demo_hash demo_hash Token.demo_unlock demo_alloc
    demo_unlock_len demo_alloc_ok demo_world demo_world demo_world_wf) as [_ Hstep].
  - apply rreach_start.
  - apply Hstep. exact I.
Defined.

End Replication.
