(* ===== verification/Pipeline.v ===== *)
(** The queues between the socket threads and the game thread (src/src/server.cpp,
    PipelineRecvQueue and PipelineSendQueue).

    Each queue has one producer and one consumer thread and no lock: two atomic
    indices, stored with release and loaded with acquire order.  First the two
    operations as a thread runs them alone, then both threads together as a step
    relation whose steps are the single memory accesses.  An atomic variable is the
    list of the values stored to it; a thread that loads the other's index may see any
    of them that is not older than the last one it saw, which is what the C++ memory
    model promises for these orders. *)

From stdpp Require Import relations.
From S2P Require Import Prelude Bytes Address.

Module Pipeline.

Definition kPipelineQueueSize : Z := 4096.
Definition NETUDP_MAX_PACKET_ON_WIRE : Z := 1400.
Abbreviation N := kPipelineQueueSize.

(** [QueuedInPacket] and [QueuedOutPacket]; [len] is the length of [data]. *)
Record packet : Type := mkPacket { addr : Address.address; data : bytes }.
#[export] Instance packet_inhabited : Inhabited packet := populate (mkPacket Address.address_zero []).

(** * One thread at a time *)

Record queue : Type := mkQueue { ring : list packet; head : Z; tail : Z }.
Definition empty_queue : queue := mkQueue (replicate 4096 inhabitant) 0 0.

Definition fits_slot (p : packet) : bool := zlen (data p) <=? NETUDP_MAX_PACKET_ON_WIRE.
Definition push (q : queue) (p : packet) : option (bool * queue) :=
  let h := head q in
  let next := (h + 1) mod N in
  if next =? tail q then Some (false, q)
  else
    _ ← guard_ub (fits_slot p);
    ring ← oset (ring q) h p;
    Some (true, mkQueue ring next (tail q)).
Definition pop (q : queue) : option (option packet * queue) :=
  let t := tail q in
  if t =? head q then Some (None, q)
  else x ← oget (ring q) t; Some (Some x, mkQueue (ring q) (head q) ((t + 1) mod N)).
Definition count (q : queue) : Z :=
  if tail q <=? head q then head q - tail q else N - tail q + head q.

(** [PipelineSendQueue] has the same code. *)
Definition send_push : queue -> packet -> option (bool * queue) := push.
Definition send_pop : queue -> option (option packet * queue) := pop.

(** ** The loops of the three threads *)

(** The receive thread queues a batch; a packet the full queue refuses is dropped. *)
Fixpoint pipeline_recv_batch (q : queue) (batch : list packet) : option queue :=
  match batch with
  | [] => Some q
  | p :: batch => '(_, q) ← push q p; pipeline_recv_batch q batch
  end.
(** [while (recv_queue->pop(&qpkt) && drained < 4096)] in [netudp_server_update]: the
    packets it handles.  With [n] = 0 left the packet just popped is not handled. *)
Fixpoint drain_recv (n : nat) (q : queue) : option (list packet * queue) :=
  '(o, q) ← pop q;
  match o, n with
  | None, _ | Some _, O => Some ([], q)
  | Some x, S n => '(l, q) ← drain_recv n q; Some (x :: l, q)
  end.
(** The send thread takes up to [kSocketBatchMax] packets for one [socket_send_batch]. *)
Definition kSocketBatchMax : nat := 64.
Fixpoint send_drain (n : nat) (q : queue) : option (list packet * queue) :=
  match n with
  | O => Some ([], q)
  | S n =>
      '(o, q) ← pop q;
      match o with
      | None => Some ([], q)
      | Some x => '(l, q) ← send_drain n q; Some (x :: l, q)
      end
  end.

(** * Both threads *)

(** Where the producer is in [push] and the consumer in [pop]. *)
Inductive producer : Type :=
  | PIdle
  | PCalled (p : packet)              (** before [head.load] *)
  | PLoaded (p : packet) (h : Z)      (** before [tail.load] *)
  | PChecked (p : packet) (h : Z)     (** before the copy into [ring[h]] *)
  | PCopied (p : packet) (h : Z).     (** before [head.store] *)
Inductive consumer : Type :=
  | CIdle
  | CCalled
  | CLoaded (t : Z)
  | CChecked (t : Z)                  (** before the copy out of [ring[t]] *)
  | CCopied (t : Z) (x : packet).     (** before [tail.store] *)

(** [heads] and [tails] are the values stored so far, the initial one first;
    [seen_tail] and [seen_head] the positions the other thread has seen;
    [pushed] and [popped] the packets for which [push] returned true and those that
    [pop] gave. *)
Record state : Type := mkState {
  slots : list packet; heads : list Z; tails : list Z; seen_tail : nat; seen_head : nat;
  prod : producer; cons : consumer; pushed : list packet; popped : list packet }.
Definition start : state := mkState (replicate 4096 inhabitant) [0] [0] 0 0 PIdle CIdle [] [].

(** A load of an atomic by the thread that saw position [seen] of it. *)
Definition may_load (hist : list Z) (seen k : nat) (v : Z) : Prop := (seen <= k)%nat /\ hist !! k = Some v.

(** A load of a thread's own atomic: the last value stored. *)
Definition latest (hist : list Z) : option Z := hist !! (length hist - 1)%nat.

Inductive step : state -> state -> Prop :=
  | p_call s p : prod s = PIdle -> fits_slot p = true ->
      step s (mkState (slots s) (heads s) (tails s) (seen_tail s) (seen_head s) (PCalled p) (cons s) (pushed s) (popped s))
  | p_head s p h : prod s = PCalled p -> latest (heads s) = Some h ->
      step s (mkState (slots s) (heads s) (tails s) (seen_tail s) (seen_head s) (PLoaded p h) (cons s) (pushed s) (popped s))
  | p_full s p h k t : prod s = PLoaded p h -> may_load (tails s) (seen_tail s) k t -> (h + 1) mod N = t ->
      step s (mkState (slots s) (heads s) (tails s) k (seen_head s) PIdle (cons s) (pushed s) (popped s))
  | p_room s p h k t : prod s = PLoaded p h -> may_load (tails s) (seen_tail s) k t -> (h + 1) mod N <> t ->
      step s (mkState (slots s) (heads s) (tails s) k (seen_head s) (PChecked p h) (cons s) (pushed s) (popped s))
  | p_copy s p h : prod s = PChecked p h ->
      step s (mkState (aset (slots s) h p) (heads s) (tails s) (seen_tail s) (seen_head s) (PCopied p h) (cons s) (pushed s) (popped s))
  | p_store s p h : prod s = PCopied p h ->
      step s (mkState (slots s) (heads s ++ [(h + 1) mod N]) (tails s) (seen_tail s) (seen_head s) PIdle (cons s) (pushed s ++ [p]) (popped s))
  | c_call s : cons s = CIdle ->
      step s (mkState (slots s) (heads s) (tails s) (seen_tail s) (seen_head s) (prod s) CCalled (pushed s) (popped s))
  | c_tail s t : cons s = CCalled -> latest (tails s) = Some t ->
      step s (mkState (slots s) (heads s) (tails s) (seen_tail s) (seen_head s) (prod s) (CLoaded t) (pushed s) (popped s))
  | c_empty s t k h : cons s = CLoaded t -> may_load (heads s) (seen_head s) k h -> t = h ->
      step s (mkState (slots s) (heads s) (tails s) (seen_tail s) k (prod s) CIdle (pushed s) (popped s))
  | c_some s t k h : cons s = CLoaded t -> may_load (heads s) (seen_head s) k h -> t <> h ->
      step s (mkState (slots s) (heads s) (tails s) (seen_tail s) k (prod s) (CChecked t) (pushed s) (popped s))
  | c_copy s t : cons s = CChecked t ->
      step s (mkState (slots s) (heads s) (tails s) (seen_tail s) (seen_head s) (prod s) (CCopied t (slots s).[t]) (pushed s) (popped s))
  | c_store s t x : cons s = CCopied t x ->
      step s (mkState (slots s) (heads s) (tails s ++ [(t + 1) mod N]) (seen_tail s) (seen_head s) (prod s) CIdle (pushed s) (popped s ++ [x])).

(** * The invariant *)

Definition idx (i : nat) : Z := Z.of_nat i mod N.
Definition history (h : list Z) : Prop := forall k v, h !! k = Some v -> v = idx k.

Definition producer_inv (s : state) : Prop :=
  let H := length (pushed s) in
  match prod s with
  | PIdle | PCalled _ => True
  | PLoaded _ h => h = idx H
  | PChecked _ h => h = idx H /\ (H + 1 <= seen_tail s + 4095)%nat
  | PCopied p h => h = idx H /\ (H + 1 <= seen_tail s + 4095)%nat /\ (slots s).[h] = p
  end.
Definition consumer_inv (s : state) : Prop :=
  let T := length (popped s) in
  match cons s with
  | CIdle | CCalled => True
  | CLoaded t => t = idx T
  | CChecked t => t = idx T /\ (T < seen_head s)%nat
  | CCopied t x => t = idx T /\ (T < seen_head s)%nat /\ pushed s !! T = Some x
  end.

Record inv (s : state) : Prop := {
  heads_ok : history (heads s);
  tails_ok : history (tails s);
  heads_len : length (heads s) = S (length (pushed s));
  tails_len : length (tails s) = S (length (popped s));
  tail_seen : (seen_tail s <= length (popped s))%nat;
  head_seen : (seen_head s <= length (pushed s))%nat;
  consumed : (length (popped s) <= seen_head s)%nat;
  room : (length (pushed s) <= seen_tail s + 4095)%nat;
  fifo : popped s `prefix_of` pushed s;
  ring_len : zlen (slots s) = N;
  waiting : forall i x, (length (popped s) <= i)%nat -> pushed s !! i = Some x -> (slots s).[idx i] = x;
  prod_ok : producer_inv s;
  cons_ok : consumer_inv s }.

Lemma history_snoc h n v : history h -> length h = n -> v = idx n -> history (h ++ [v]).
Proof.
  intros Hh Hn Hv k w. rewrite lookup_app_Some, list_lookup_singleton_Some.
  intros [?|(? & Hk & <-)]; [by apply Hh|]. subst. f_equal. lia.
Qed.
Lemma idx_next n : (idx n + 1) mod N = idx (S n).
Proof. unfold idx, N. rewrite Nat2Z.inj_succ. mlia. Qed.
Lemma idx_bounds n : 0 <= idx n < N.
Proof. unfold idx, N. mlia. Qed.
Lemma idx_ne i j : (i < j)%nat -> (j < i + 4096)%nat -> idx i <> idx j.
Proof. unfold idx, N. intros. mlia. Qed.
Lemma latest_idx h n v : history h -> length h = S n -> latest h = Some v -> v = idx n.
Proof. unfold latest. intros Hh -> E. apply Hh in E. by rewrite Nat.sub_1_r in E. Qed.
Lemma load_bounds h n seen k v :
  history h -> length h = S n -> may_load h seen k v -> v = idx k /\ (seen <= k <= n)%nat.
Proof.
  intros Hh Hn [Hk Hv]. pose proof (lookup_lt_Some _ _ _ Hv). rewrite Hn in *. split; [by apply Hh|lia].
Qed.

Lemma inv_start : inv start.
Proof.
  assert (history [0]) by (intros [|[]] v E; simplify_eq/=; done).
  split; cbn; try done; lia.
Qed.

(** The cases that touch neither array nor index: a load, a call or a return. *)
Ltac step_load :=
  split; cbn [slots heads tails seen_tail seen_head prod cons pushed popped]; try eassumption;
  unfold producer_inv, consumer_inv in *; cbn [slots heads tails seen_tail seen_head prod cons pushed popped];
  try solve [assumption | exact I | lia
            | case_match; try done; intuition lia].

Lemma copy_in_inv s p h :
  inv s -> prod s = PChecked p h ->
  inv (mkState (aset (slots s) h p) (heads s) (tails s) (seen_tail s) (seen_head s) (PCopied p h) (cons s) (pushed s) (popped s)).
Proof.
  intros [] E. pose proof prod_ok0 as Q. unfold producer_inv in Q. rewrite E in Q. destruct Q as [-> Hroom].
  pose proof (idx_bounds (length (pushed s))).
  step_load.
  - by rewrite zlen_aset.
  - intros i x Hi Hx. pose proof (lookup_lt_Some _ _ _ Hx). pose proof (idx_bounds i).
    rewrite aget_aset_ne; [by apply waiting0|lia|lia|]. apply not_eq_sym, idx_ne; lia.
  - split_and!; [done..|]. apply aget_aset_eq. lia.
Qed.

Lemma publish_inv s p h :
  inv s -> prod s = PCopied p h ->
  inv (mkState (slots s) (heads s ++ [(h + 1) mod N]) (tails s) (seen_tail s) (seen_head s) PIdle (cons s) (pushed s ++ [p]) (popped s)).
Proof.
  intros [] E. pose proof prod_ok0 as Q. unfold producer_inv in Q. rewrite E in Q. destruct Q as (-> & Hroom & Hp).
  step_load; rewrite ?length_app, ?Nat.add_1_r.
  - exact (history_snoc _ _ _ heads_ok0 heads_len0 (idx_next _)).
  - by rewrite heads_len0.
  - lia.
  - lia.
  - by apply prefix_app_r.
  - intros i x Hi [Hx|(Hl & Hx)]%lookup_app_Some; [by apply waiting0|].
    apply list_lookup_singleton_Some in Hx as [? <-]. rewrite <- Hp. do 2 f_equal. lia.
  - case_match; try done. destruct cons_ok0 as (? & ? & ?). split_and!; [done..|].
    by apply lookup_app_l_Some.
Qed.

Lemma copy_out_inv s t :
  inv s -> cons s = CChecked t ->
  inv (mkState (slots s) (heads s) (tails s) (seen_tail s) (seen_head s) (prod s) (CCopied t (slots s).[t]) (pushed s) (popped s)).
Proof.
  intros [] E. pose proof cons_ok0 as Q. unfold consumer_inv in Q. rewrite E in Q. destruct Q as [-> Hs].
  step_load. split_and!; [done..|].
  destruct (lookup_lt_is_Some_2 (pushed s) (length (popped s))) as [x Hx]; [lia|].
  rewrite Hx. f_equal. symmetry. by apply waiting0.
Qed.

Lemma release_inv s t x :
  inv s -> cons s = CCopied t x ->
  inv (mkState (slots s) (heads s) (tails s ++ [(t + 1) mod N]) (seen_tail s) (seen_head s) (prod s) CIdle (pushed s) (popped s ++ [x])).
Proof.
  intros [] E. pose proof cons_ok0 as Q. unfold consumer_inv in Q. rewrite E in Q. destruct Q as (-> & Hs & Hx).
  step_load; rewrite ?length_app, ?Nat.add_1_r.
  - exact (history_snoc _ _ _ tails_ok0 tails_len0 (idx_next _)).
  - by rewrite tails_len0.
  - lia.
  - cbn. lia.
  - destruct fifo0 as [r Hr]. rewrite Hr in Hx |- *.
    rewrite lookup_app_r, Nat.sub_diag in Hx by lia. destruct r as [|y r]; simplify_eq/=.
    exists r. by rewrite <- app_assoc.
  - intros i y Hi Hy. apply waiting0; [|done]. cbn in Hi. lia.
Qed.

Lemma inv_step s s' : inv s -> step s s' -> inv s'.
Proof.
  intros I St. destruct St;
    try solve [eauto using copy_in_inv, publish_inv, copy_out_inv, release_inv].
  all: destruct I.
  - step_load.
  - step_load. exact (latest_idx _ _ _ heads_ok0 heads_len0 H0).
  - apply (load_bounds _ _ _ _ _ tails_ok0 tails_len0) in H0 as [-> ?]. step_load.
  - apply (load_bounds _ _ _ _ _ tails_ok0 tails_len0) in H0 as [-> ?].
    unfold producer_inv in prod_ok0. rewrite H in prod_ok0. subst h.
    step_load. split; [done|]. rewrite idx_next in H1.
    destruct (decide (S (length (pushed s)) = k + 4096)%nat) as [Heq|]; [|lia].
    exfalso. apply H1. rewrite Heq. unfold idx, N. mlia.
  - step_load.
  - step_load. exact (latest_idx _ _ _ tails_ok0 tails_len0 H0).
  - apply (load_bounds _ _ _ _ _ heads_ok0 heads_len0) in H0 as [-> ?]. step_load.
  - apply (load_bounds _ _ _ _ _ heads_ok0 heads_len0) in H0 as [-> ?].
    unfold consumer_inv in cons_ok0. rewrite H in cons_ok0. subst t. step_load.
    split; [done|]. destruct (decide (k = length (popped s))) as [->|]; [done|lia].
Qed.

Lemma inv_steps s s' : inv s -> rtc step s s' -> inv s'.
Proof. intros I R. induction R as [|x y z St R IH]; [done|]. apply IH. by eapply inv_step. Qed.
Lemma inv_reachable s : rtc step start s -> inv s.
Proof. apply inv_steps, inv_start. Qed.

(** ** Bounded steps *)

(** What is left of a call. *)
Definition push_left (c : producer) : nat :=
  match c with PIdle => 0 | PCopied _ _ => 1 | PChecked _ _ => 2 | PLoaded _ _ => 3 | PCalled _ => 4 end.
Definition pop_left (c : consumer) : nat :=
  match c with CIdle => 0 | CCopied _ _ => 1 | CChecked _ => 2 | CLoaded _ => 3 | CCalled => 4 end.

Lemma latest_some h n : length h = S n -> exists v, latest h = Some v /\ h !! n = Some v.
Proof.
  intros Hn. destruct (lookup_lt_is_Some_2 h n) as [v Hv]; [lia|].
  exists v. split; [|done]. unfold latest. rewrite Hn. by rewrite Nat.sub_1_r.
Qed.

Lemma push_progress s : inv s -> prod s <> PIdle ->
  exists s', step s s' /\ cons s' = cons s /\ (push_left (prod s') < push_left (prod s))%nat.
Proof.
  intros I Hp. destruct (prod s) eqn:E; [done|..].
  - destruct (latest_some _ _ (heads_len _ I)) as (v & Hv & _).
    eexists. split_and!; [by eapply p_head|done|cbn; lia].
  - destruct (latest_some _ _ (tails_len _ I)) as (v & _ & Hv).
    assert (may_load (tails s) (seen_tail s) (length (popped s)) v) as L by (split; [apply I|done]).
    destruct (decide ((h + 1) mod N = v)); eexists.
    + split_and!; [by eapply p_full|done|cbn; lia].
    + split_and!; [by eapply p_room|done|cbn; lia].
  - eexists. split_and!; [by eapply p_copy|done|cbn; lia].
  - eexists. split_and!; [by eapply p_store|done|cbn; lia].
Qed.

Lemma pop_progress s : inv s -> cons s <> CIdle ->
  exists s', step s s' /\ prod s' = prod s /\ (pop_left (cons s') < pop_left (cons s))%nat.
Proof.
  intros I Hp. destruct (cons s) eqn:E; [done|..].
  - destruct (latest_some _ _ (tails_len _ I)) as (v & Hv & _).
    eexists. split_and!; [by eapply c_tail|done|cbn; lia].
  - destruct (latest_some _ _ (heads_len _ I)) as (v & _ & Hv).
    assert (may_load (heads s) (seen_head s) (length (pushed s)) v) as L by (split; [apply I|done]).
    destruct (decide (t = v)); eexists.
    + split_and!; [by eapply c_empty|done|cbn; lia].
    + split_and!; [by eapply c_some|done|cbn; lia].
  - eexists. split_and!; [by eapply c_copy|done|cbn; lia].
  - eexists. split_and!; [by eapply c_store|done|cbn; lia].
Qed.

(** ** A refused call *)

Lemma push_refused s p h k t :
  inv s -> prod s = PLoaded p h -> may_load (tails s) (seen_tail s) k t -> (h + 1) mod N = t ->
  length (pushed s) = (k + 4095)%nat.
Proof.
  intros [] E L Hn. apply (load_bounds _ _ _ _ _ tails_ok0 tails_len0) in L as [-> ?].
  unfold producer_inv in prod_ok0. rewrite E in prod_ok0. subst h. rewrite idx_next in Hn.
  destruct (decide (length (pushed s) = k + 4095)%nat); [done|].
  pose proof (prefix_length _ _ fifo0). exfalso. eapply (idx_ne k (S (length (pushed s)))); [lia..|done].
Qed.

Lemma pop_refused s t k h :
  inv s -> cons s = CLoaded t -> may_load (heads s) (seen_head s) k h -> t = h -> k = length (popped s).
Proof.
  intros [] E L Hn. apply (load_bounds _ _ _ _ _ heads_ok0 heads_len0) in L as [-> ?].
  unfold consumer_inv in cons_ok0. rewrite E in cons_ok0. subst t.
  destruct (decide (k = length (popped s))); [done|].
  exfalso. eapply (idx_ne (length (popped s)) k); [lia..|done].
Qed.

(** ** The calls of one thread while the other is idle *)

(** The queue as the object holds it. *)
Definition view (s : state) : queue :=
  mkQueue (slots s) (default 0 (latest (heads s))) (default 0 (latest (tails s))).

Lemma latest_snoc h v : latest (h ++ [v]) = Some v.
Proof. unfold latest. rewrite length_app, Nat.add_sub. by rewrite lookup_app_r, Nat.sub_diag by lia. Qed.
Lemma view_idx s : inv s -> view s = mkQueue (slots s) (idx (length (pushed s))) (idx (length (popped s))).
Proof.
  intros []. unfold view.
  destruct (latest_some _ _ heads_len0) as (h & Hh & Hh'), (latest_some _ _ tails_len0) as (t & Ht & Ht').
  rewrite Hh, Ht. cbn. by rewrite (heads_ok0 _ _ Hh'), (tails_ok0 _ _ Ht').
Qed.

(** [count] is the number of packets that wait. *)
Lemma count_waiting s : inv s -> count (view s) = Z.of_nat (length (pushed s)) - Z.of_nat (length (popped s)).
Proof.
  intros I. rewrite view_idx by done. destruct I. pose proof (prefix_length _ _ fifo0).
  unfold count, idx, N. cbn [head tail]. case_if; bool_facts; mlia.
Qed.

(** [push] run from an idle state is the steps of the producer. *)
Lemma push_steps s p :
  inv s -> prod s = PIdle -> fits_slot p = true ->
  exists b s', push (view s) p = Some (b, view s') /\ rtc step s s' /\ prod s' = PIdle /\ cons s' = cons s /\ popped s' = popped s
    /\ pushed s' = (if b then pushed s ++ [p] else pushed s)
    /\ (b = true <-> (length (pushed s) < length (popped s) + 4095)%nat).
Proof.
  intros I E Hfit. rewrite (view_idx s I). unfold push. cbn [head tail ring]. rewrite idx_next.
  pose proof (idx_bounds (length (pushed s))) as Hb.
  destruct (latest_some _ _ (heads_len _ I)) as (h & Hh & Hh'), (latest_some _ _ (tails_len _ I)) as (t & Ht & Ht').
  pose proof (heads_ok _ I _ _ Hh') as ->. pose proof (tails_ok _ I _ _ Ht') as ->.
  pose proof (prefix_length _ _ (fifo _ I)). pose proof (room _ I). pose proof (tail_seen _ I).
  case_if; bool_facts.
  - eexists false, _. split_and!.
    2: { eapply rtc_l; [by eapply p_call|]. eapply rtc_l; [by eapply p_head|].
         eapply rtc_once. eapply p_full; [done|split; [|exact Ht']; cbn; apply I|]. by rewrite idx_next. }
    all: cbn; try done.
    + rewrite <- (view_idx s I). done.
    + split; [done|]. intros ?. exfalso. eapply (idx_ne (length (popped s)) (S (length (pushed s)))); [lia..|done].
  - rewrite Hfit. cbn [guard_ub mbind option_bind]. rewrite oset_aset by (rewrite (ring_len _ I); done). rewrite Some_bind.
    eexists true, _. split_and!.
    2: { eapply rtc_l; [by eapply p_call|]. eapply rtc_l; [by eapply p_head|].
         eapply rtc_l; [eapply p_room; [done|split; [|exact Ht']; cbn; apply I|by rewrite idx_next]|].
         eapply rtc_l; [by eapply p_copy|]. eapply rtc_once. by eapply p_store. }
    all: cbn; try done.
    + unfold view. cbn. rewrite latest_snoc, Ht, idx_next. done.
    + split; [|done]. intros _. destruct (decide (length (pushed s) = length (popped s) + 4095)%nat) as [Heq|]; [|lia].
      exfalso. apply E0. rewrite Heq. unfold idx, N. mlia.
Qed.

(** [pop] likewise. *)
Lemma pop_steps s :
  inv s -> cons s = CIdle ->
  exists o s', pop (view s) = Some (o, view s') /\ rtc step s s' /\ prod s' = prod s /\ cons s' = CIdle
    /\ pushed s' = pushed s /\ popped s' = popped s ++ option_list o /\ o = pushed s !! length (popped s).
Proof.
  intros I E. rewrite (view_idx s I). unfold pop. cbn [head tail ring].
  pose proof (idx_bounds (length (popped s))) as Hb.
  destruct (latest_some _ _ (heads_len _ I)) as (h & Hh & Hh'), (latest_some _ _ (tails_len _ I)) as (t & Ht & Ht').
  pose proof (heads_ok _ I _ _ Hh') as ->. pose proof (tails_ok _ I _ _ Ht') as ->.
  pose proof (prefix_length _ _ (fifo _ I)). pose proof (room _ I). pose proof (tail_seen _ I).
  assert (may_load (heads s) (seen_head s) (length (pushed s)) (idx (length (pushed s)))) as L by (split; [apply I|done]).
  case_if; bool_facts.
  - assert (length (popped s) = length (pushed s)) as Hl.
    { destruct (decide (length (popped s) = length (pushed s))); [done|].
      exfalso. eapply (idx_ne (length (popped s)) (length (pushed s))); [lia..|done]. }
    eexists None, _. split_and!.
    2: { eapply rtc_l; [by eapply c_call|]. eapply rtc_l; [by eapply c_tail|].
         eapply rtc_once. by eapply c_empty; [|exact L|]. }
    all: cbn; try done.
    + rewrite <- (view_idx s I). done.
    + by rewrite app_nil_r.
    + symmetry. apply lookup_ge_None_2. lia.
  - destruct (lookup_lt_is_Some_2 (pushed s) (length (popped s))) as [x Hx].
    { destruct (decide (length (popped s) = length (pushed s))) as [Hl|]; [|lia]. by rewrite Hl in E0. }
    rewrite oget_aget, Some_bind by (rewrite (ring_len _ I); done).
    eexists (Some _), _. split_and!.
    2: { eapply rtc_l; [by eapply c_call|]. eapply rtc_l; [by eapply c_tail|].
         eapply rtc_l; [by eapply c_some; [|exact L|]|].
         eapply rtc_l; [by eapply c_copy|]. eapply rtc_once. by eapply c_store. }
    all: cbn; try done.
    + unfold view. cbn. rewrite latest_snoc, Hh. done.
    + rewrite Hx. f_equal. by apply (waiting _ I).
Qed.

(** ** The queue as a list of packets *)

(** [q] holds the packets [l], oldest first. *)
Definition represents (q : queue) (l : list packet) : Prop :=
  exists s, inv s /\ prod s = PIdle /\ cons s = CIdle /\ q = view s /\ pushed s = popped s ++ l.

Lemma represents_empty : represents empty_queue [].
Proof. exists start. by split_and!; [apply inv_start|..]. Qed.

Lemma push_represents q l p :
  represents q l -> fits_slot p = true ->
  exists q', push q p = Some (bool_decide (zlen l < 4095), q')
    /\ represents q' (if decide (zlen l < 4095) then l ++ [p] else l).
Proof.
  intros (s & I & Ep & Ec & -> & Hl) Hp.
  destruct (push_steps s p I Ep Hp) as (b & s' & -> & R & Ep' & Ec' & Hpop & Hpush & Hb).
  exists (view s'). rewrite Hl, length_app in Hb. unfold zlen.
  destruct b.
  - rewrite bool_decide_true, decide_True by lia. split; [done|]. exists s'.
    rewrite Hpush, Hpop, Hl, app_assoc, Ec'. split_and!; [by eapply inv_steps|done..].
  - assert (~ Z.of_nat (length l) < 4095) as Hn by (intros ?; destruct Hb as [_ Hb]; discriminate Hb; lia).
    rewrite bool_decide_false, decide_False by done. split; [done|]. exists s'.
    rewrite Hpush, Hpop, Hl, Ec'. split_and!; [by eapply inv_steps|done..].
Qed.

Lemma pop_represents q l :
  represents q l -> exists q', pop q = Some (l !! 0%nat, q') /\ represents q' (drop 1 l).
Proof.
  intros (s & I & Ep & Ec & -> & Hl).
  destruct (pop_steps s I Ec) as (o & s' & -> & R & Ep' & Ec' & Hpush & Hpop & Ho).
  rewrite Hl, lookup_app_r, Nat.sub_diag in Ho by lia.
  exists (view s'). subst o. split; [by destruct l|]. exists s'.
  rewrite Hpush, Hpop, Hl, Ep'. split_and!; [by eapply inv_steps|done..|].
  by destruct l; cbn; rewrite ?app_nil_r, <- ?app_assoc.
Qed.

Lemma represents_bound q l : represents q l -> (length l <= 4095)%nat.
Proof.
  intros (s & I & _ & _ & _ & Hl). pose proof (room _ I) as R. pose proof (tail_seen _ I).
  rewrite Hl, length_app in R. lia.
Qed.

Lemma recv_batch_represents batch : forall q l,
  represents q l -> Forall (fun p => fits_slot p = true) batch ->
  exists q', pipeline_recv_batch q batch = Some q' /\ represents q' (take 4095 (l ++ batch)).
Proof.
  induction batch as [|p batch IH]; intros q l R F; cbn [pipeline_recv_batch].
  - exists q. rewrite app_nil_r, take_ge by by eapply represents_bound. done.
  - apply Forall_cons_1 in F as [Hp F]. destruct (push_represents q l p R Hp) as (q1 & -> & R1).
    rewrite Some_bind. destruct (IH q1 _ R1 F) as (q' & -> & R'). exists q'. split; [done|].
    case_decide as D; [by rewrite <- app_assoc in R'|].
    pose proof (represents_bound _ _ R). unfold zlen in D.
    rewrite take_app_le in R' |- * by lia. done.
Qed.

Lemma drain_recv_represents n : forall q l,
  represents q l -> (length l <= n)%nat ->
  exists q', drain_recv n q = Some (l, q') /\ represents q' [].
Proof.
  induction n as [|n IH]; intros q l R Hn; cbn [drain_recv];
    destruct (pop_represents q l R) as (q1 & -> & R1); rewrite Some_bind; destruct l as [|x l]; cbn in *; eauto; [lia|].
  destruct (IH q1 l R1) as (q' & -> & R'); [lia|]. eauto.
Qed.

Lemma send_drain_represents n : forall q l,
  represents q l -> exists q', send_drain n q = Some (take n l, q') /\ represents q' (drop n l).
Proof.
  induction n as [|n IH]; intros q l R; cbn [send_drain]; [by eauto|].
  destruct (pop_represents q l R) as (q1 & -> & R1). rewrite Some_bind. destruct l as [|x l]; cbn in *; [eauto|].
  destruct (IH q1 l R1) as (q' & -> & R'). eauto.
Qed.

(** One round trip of the receive queue: the game thread handles what the socket
    thread queued, in order, up to the 4095 packets the ring can hold. *)
Lemma recv_round q l batch :
  represents q l -> Forall (fun p => fits_slot p = true) batch ->
  exists q' q'', pipeline_recv_batch q batch = Some q' /\
    drain_recv 4096 q' = Some (take 4095 (l ++ batch), q'') /\ represents q'' [].
Proof.
  intros R F. destruct (recv_batch_represents batch q l R F) as (q' & -> & R').
  destruct (drain_recv_represents 4096 q' _ R') as (q'' & ? & ?); [|by eauto].
  rewrite length_take. lia.
Qed.

(** C15. The pipeline queues are correct under every interleaving of their two threads
    and every stale value the memory model lets an acquire load return: the consumer
    gets exactly the packets the producer queued, in order and undamaged; no slot is
    read and written at the same time, and both threads stay inside the ring; a refused
    [push] saw 4095 packets waiting and a refused [pop] saw none; at most 4095 packets
    wait; and neither thread ever waits for the other (a call ends within four of its
    own steps). *)
Theorem pipeline_fifo s :
  rtc step start s ->
  popped s `prefix_of` pushed s
  /\ (length (pushed s) - length (popped s) <= 4095)%nat
  /\ (forall p h t, prod s = PChecked p h -> cons s = CChecked t -> h <> t)
  /\ (forall p h, prod s = PChecked p h -> 0 <= h < zlen (slots s))
  /\ (forall t, cons s = CChecked t -> 0 <= t < zlen (slots s) /\ pushed s !! length (popped s) = Some (slots s).[t])
  /\ (forall p h k t, prod s = PLoaded p h -> may_load (tails s) (seen_tail s) k t -> (h + 1) mod N = t ->
        length (pushed s) = (k + 4095)%nat)
  /\ (forall t k h, cons s = CLoaded t -> may_load (heads s) (seen_head s) k h -> t = h -> k = length (popped s))
  /\ (prod s <> PIdle -> exists s', step s s' /\ cons s' = cons s /\ (push_left (prod s') < push_left (prod s))%nat)
  /\ (cons s <> CIdle -> exists s', step s s' /\ prod s' = prod s /\ (pop_left (cons s') < pop_left (cons s))%nat).
Proof.
  intros R. assert (inv s) as I by by apply inv_reachable.
  split_and!; try (by apply I); eauto using push_refused, pop_refused, push_progress, pop_progress.
  - pose proof (room _ I). pose proof (tail_seen _ I). lia.
  - intros p h t Ep Ec. pose proof (prod_ok _ I) as P. pose proof (cons_ok _ I) as C.
    unfold producer_inv in P. unfold consumer_inv in C. rewrite Ep in P. rewrite Ec in C.
    destruct P as [-> ?], C as [-> ?]. pose proof (head_seen _ I). pose proof (tail_seen _ I).
    apply not_eq_sym, idx_ne; lia.
  - intros p h Ep. pose proof (prod_ok _ I) as P. unfold producer_inv in P. rewrite Ep in P.
    destruct P as [-> _]. rewrite (ring_len _ I). apply idx_bounds.
  - intros t Ec. pose proof (copy_out_inv s t I Ec) as I'. pose proof (cons_ok _ I') as C.
    destruct C as (-> & _ & Hx). rewrite (ring_len _ I). split; [apply idx_bounds|done].
Qed.

Definition hello : packet := mkPacket Address.address_zero [104; 105].
Lemma pipeline_fifo_witness :
  exists s, rtc step start s /\ pushed s = [hello; hello] /\ popped s = [hello]
    /\ popped s `prefix_of` pushed s.
Proof.
  destruct (push_steps start hello inv_start eq_refl eq_refl) as ([] & s1 & _ & R1 & E1 & F1 & G1 & H1 & B1);
    [|destruct B1 as [_ B1]; discriminate B1; cbn; lia].
  assert (inv s1) as I1 by exact (inv_steps _ _ inv_start R1).
  destruct (push_steps s1 hello I1 E1 eq_refl) as ([] & s2 & _ & R2 & E2 & F2 & G2 & H2 & B2);
    [|destruct B2 as [_ B2]; discriminate B2; rewrite H1, G1; cbn; lia].
  assert (inv s2) as I2 by exact (inv_steps _ _ I1 R2).
  assert (cons s2 = CIdle) as C2 by by rewrite F2, F1.
  destruct (pop_steps s2 I2 C2) as (o & s3 & _ & R3 & E3 & F3 & H3 & G3 & ->).
  rewrite H2, H1 in H3, G3. rewrite G2, G1 in G3.
  assert (rtc step start s3) as R by (etrans; [done|]; etrans; done).
  exists s3. split_and!; [done..|]. apply (pipeline_fifo s3 R).
Defined.

End Pipeline.
