(* ===== verification/Workers.v ===== *)
(** The connection workers (src/src/server.cpp, connection_worker_fn and the parallel
    branch of netudp_server_update).

    With three I/O threads or more an update hands the active connections to worker
    threads, a slice each, and waits for them on two atomics, [workers_go] and
    [workers_done].  Modelled are the slices, what a worker does with a connection, and
    the hand-shake of the threads as a step relation.  Each step is one access to an
    atomic: both variables are loaded with acquire and stored with release order, a
    stale load only repeats a turn of the spinning loop it is in.

    The connections a worker serves are its own, but every packet it sends goes through
    the one [server->send_buf] and the one send queue.  [worker_slot] takes the sending of
    a packet as one step; that it is two, filling the buffer and handing it over, and that
    the packets of two workers mix, is [send_buf_race]. *)

From stdpp Require Import relations.
From S2P Require Import Prelude Bytes Double RingBuffer HashMap Replay PacketTracker ReliableChannel Channel.
From S2P Require Import Fragment Address Rtt Bandwidth Ddos Stats RateLimiter PacketCrypto ConnectToken.
From S2P Require Import Connection Receive Send IndexSet Group Slots Server ConnSafety ServerSafety ServerApi Client ClientSafety.

Module Workers.
Import Address Connection Receive Send Server ConnSafety ServerSafety.

(** * Slices *)

(** The positions [start, end) of [active_slots] that worker [w] of [nw] serves. *)
Definition worker_slice (total nw w : Z) : Z * Z :=
  let slice := Z.quot (total + nw - 1) nw in
  let start := w * slice in
  let fin := start + slice in
  (start, if total <? fin then total else fin).
Definition in_slice (total nw w a : Z) : Prop :=
  let '(start, fin) := worker_slice total nw w in start <= a < fin.

(** [num_workers] as [netudp_server_start] sets it. *)
Definition num_workers_of (num_io_threads : Z) : Z :=
  if 3 <=? num_io_threads
  then let n := num_io_threads - 1 in if 8 <? n then 8 else n
  else 1.

Lemma quot_ceil total nw : 0 <= total -> 0 < nw ->
  Z.quot (total + nw - 1) nw = (total + nw - 1) / nw /\ total <= nw * ((total + nw - 1) / nw).
Proof. intros. rewrite Z.quot_div_nonneg by lia. split; [done|]. mlia. Qed.

(** The slices cover the active list, overlap nowhere and stay inside it. *)
Lemma slices_partition total nw a :
  0 <= total -> 0 < nw -> 0 <= a < total ->
  exists w, 0 <= w < nw /\ in_slice total nw w a /\
    forall w', 0 <= w' -> in_slice total nw w' a -> w' = w.
Proof.
  intros Ht Hn Ha. destruct (quot_ceil total nw) as [Hq Hc]; [done..|].
  unfold in_slice, worker_slice. rewrite Hq. set (k := (total + nw - 1) / nw) in *. clearbody k. cbv beta iota zeta.
  assert (0 < k) by nia. exists (a / k). pose proof (Z.div_mod a k). pose proof (Z.mod_pos_bound a k).
  split_and!.
  - apply Z.div_pos; lia.
  - apply Z.div_lt_upper_bound; lia.
  - nia.
  - case_if; nia.
  - intros w' Hw Hin. case_if_in Hin; bool_facts; apply Z.div_unique_pos with (a - k * w'); lia.
Qed.
Lemma worker_slice_bounds total nw w a :
  0 <= total -> 0 < nw -> 0 <= w -> in_slice total nw w a -> 0 <= a < total.
Proof.
  intros Ht Hn Hw. destruct (quot_ceil total nw) as [Hq Hc]; [done..|].
  unfold in_slice, worker_slice. rewrite Hq. set (k := (total + nw - 1) / nw) in *. clearbody k. cbv beta iota zeta.
  case_if; bool_facts; nia.
Qed.
(** * A worker's slice *)

Section Work.
Context `{Crypto.Aead} (blake2b_keyed : bytes -> bytes -> bytes).

(** The slow tick of a connection with nothing to send: unlike the inline one it does
    not refresh the statistics. *)
Definition idle_tick (c : Connection) (time : double) : Connection :=
  if dge time (next_slow_tick c) then
    let c := set_next_slow_tick c (dadd time (dlit 1 10)) in
    let c := cleanup_fragments c time in
    set_congestion c (Bandwidth.evaluate (congestion c))
  else c.
Definition worker_connection (pid : Z) (c : Connection) (time dt : double) : option (Connection * list bytes) :=
  let needs_keepalive := dgt (dsub time (last_send_time c)) (d_of_Z 1) in
  if (pending_mask c =? 0) && negb needs_keepalive then Some (idle_tick c time, [])
  else
    let c := set_bandwidth c (Bandwidth.bucket_refill (bandwidth c) time) in
    let c := set_budget c (Bandwidth.refill (budget c) dt (Bandwidth.send_rate_ (congestion c))) in
    '(c, pkts) ← server_send_pending blake2b_keyed pid c time;
    '(c, keep) ← (if needs_keepalive then server_send_keepalive blake2b_keyed pid c time else Some (c, []));
    Some (slow_tick c time, pkts ++ keep).

(** The body of the loop for active position [a], and the loop over positions; the packets
    are handed over as they are, without the buffer the workers share. *)
Definition worker_slot (s : Server) (a : Z) (time dt : double) : option Server :=
  i ← oget (IndexSet.items (Slots.act (sl s))) a;
  c ← conn s i;
  '(c', pkts) ← worker_connection (protocol_id (cfg s)) c time dt;
  Some (emit (set_conn s i c') (packets_to c' pkts)).
Fixpoint worker_slots (s : Server) (l : list Z) (time dt : double) : option Server :=
  match l with
  | [] => Some s
  | a :: l => s ← worker_slot s a time dt; worker_slots s l time dt
  end.
(** What worker [w] does with one go. *)
Definition worker_run (s : Server) (nw w : Z) (time dt : double) : option Server :=
  let '(start, fin) := worker_slice (IndexSet.count (Slots.act (sl s))) nw w in
  worker_slots s (seqZ start (fin - start)) time dt.

End Work.

(** * The threads *)

(** [round] counts the goes; [WaitReset r] is the worker that finished in round [r]. *)
Inductive main_pc : Type := MIdle | MArmed | MWait | MStopped.
#[export] Instance main_pc_eq : EqDecision main_pc.
Proof. solve_decision. Defined.
Inductive worker : Type := WaitGo | Working | WaitReset (r : nat) | Exited.
Record threads : Type := mkThreads {
  main : main_pc; go : bool; done_count : nat; run : bool; pool : list worker; round : nat }.
Definition spawned (nw : nat) : threads := mkThreads MIdle false 0 true (replicate nw WaitGo) 0.

Inductive sync : threads -> threads -> Prop :=
  (** netudp_server_update: store 0 to [workers_done], then true to [workers_go] *)
  | m_arm t : main t = MIdle ->
      sync t (mkThreads MArmed (go t) 0 (run t) (pool t) (round t))
  | m_go t : main t = MArmed ->
      sync t (mkThreads MWait true (done_count t) (run t) (pool t) (S (round t)))
  (** the wait ends: store false to [workers_go] *)
  | m_finish t : main t = MWait -> (length (pool t) <= done_count t)%nat ->
      sync t (mkThreads MIdle false (done_count t) (run t) (pool t) (round t))
  (** netudp_server_stop *)
  | m_stop t : main t = MIdle ->
      sync t (mkThreads MStopped false (done_count t) false (pool t) (round t))
  (** the worker's two spinning loops *)
  | w_go t w : pool t !! w = Some WaitGo -> go t = true ->
      sync t (mkThreads (main t) (go t) (done_count t) (run t) (<[w := Working]> (pool t)) (round t))
  | w_done t w : pool t !! w = Some Working ->
      sync t (mkThreads (main t) (go t) (S (done_count t)) (run t) (<[w := WaitReset (round t)]> (pool t)) (round t))
  | w_reset t w r : pool t !! w = Some (WaitReset r) -> go t = false ->
      sync t (mkThreads (main t) (go t) (done_count t) (run t) (<[w := WaitGo]> (pool t)) (round t))
  | w_exit t w x : pool t !! w = Some x -> x <> Working -> run t = false ->
      sync t (mkThreads (main t) (go t) (done_count t) (run t) (<[w := Exited]> (pool t)) (round t)).

(** Finished in round [r]. *)
Definition finished (r : nat) (x : worker) : bool :=
  match x with WaitReset r' => (r' =? r)%nat | _ => false end.

Record sync_inv (t : threads) : Prop := {
  go_waits : go t = match main t with MWait => true | _ => false end;
  runs : run t = match main t with MStopped => false | _ => true end;
  counted : main t = MWait -> done_count t = length (filter (fun x => finished (round t) x = true) (pool t));
  armed : main t = MArmed -> done_count t = 0%nat;
  at_rest : main t <> MWait -> Forall (fun x => x <> Working) (pool t);
  old_rounds : Forall (fun x => match x with WaitReset r => (r <= round t)%nat | _ => True end) (pool t);
  none_exited : main t <> MStopped -> Forall (fun x => x <> Exited) (pool t) }.

Lemma insert_split {A} (l : list A) w x :
  l !! w = Some x -> exists a b, l = a ++ x :: b /\ forall y, <[w := y]> l = a ++ y :: b.
Proof.
  intros E. exists (take w l), (drop (S w) l). split; [by rewrite take_drop_middle|].
  intros y. by rewrite insert_take_drop by (by eapply lookup_lt_Some).
Qed.

Lemma filter_old r l :
  Forall (fun x => match x with WaitReset r' => (r' <= r)%nat | _ => True end) l ->
  filter (fun x => finished (S r) x = true) l = [].
Proof.
  intros F. induction F as [|x l Hx F IH]; [done|].
  rewrite filter_cons_False; [done|]. destruct x; try done. cbn. intros ?%Nat.eqb_eq. lia.
Qed.

Lemma filter_all {A} (P : A -> Prop) `{forall x, Decision (P x)} (l : list A) :
  (length l <= length (filter P l))%nat -> Forall P l.
Proof.
  induction l as [|x l IH]; [done|]. destruct (decide (P x)).
  - rewrite filter_cons_True by done. cbn. intros. constructor; [done|]. apply IH. lia.
  - rewrite filter_cons_False by done. cbn. pose proof (length_filter P l). lia.
Qed.

Lemma forall_swap {A} (P : A -> Prop) a x b y : Forall P (a ++ x :: b) -> P y -> Forall P (a ++ y :: b).
Proof. rewrite !Forall_app, !Forall_cons_iff. tauto. Qed.

Lemma sync_inv_spawned nw : sync_inv (spawned nw).
Proof. split; cbn; try done; intros; by apply Forall_replicate. Qed.

(** A worker's step leaves the main thread's variables alone. *)
Lemma worker_step_inv t w x y n :
  sync_inv t -> pool t !! w = Some x -> y <> Exited \/ main t = MStopped ->
  (y = Working -> main t = MWait) ->
  match y with WaitReset r => (r <= round t)%nat | _ => True end ->
  (main t = MArmed -> n = 0%nat) ->
  (main t = MWait -> (n + (if finished (round t) x then 1 else 0) = done_count t + (if finished (round t) y then 1 else 0))%nat) ->
  sync_inv (mkThreads (main t) (go t) n (run t) (<[w := y]> (pool t)) (round t)).
Proof.
  intros [] Hx Hy Hwork Hr Harm Hn. destruct (insert_split _ _ _ Hx) as (a & b & Hp & Hi). rewrite Hi, Hp in *.
  split; cbn; try done.
  - intros M. specialize (Hn M). rewrite (counted0 M) in Hn. rewrite !list.filter_app, !filter_cons, !length_app in Hn |- *.
    repeat case_decide; destruct (finished (round t) x), (finished (round t) y); cbn in *; congruence || lia.
  - intros M. eapply forall_swap; [by apply at_rest0|]. intros E. by apply M, Hwork.
  - by eapply forall_swap.
  - intros M. eapply forall_swap; [by apply none_exited0|]. by destruct Hy.
Qed.

Lemma sync_inv_step t t' : sync_inv t -> sync t t' -> sync_inv t'.
Proof.
  intros I St. destruct St.
  - destruct I. rewrite H in *. split; cbn; try done. all: intros; auto.
  - destruct I. rewrite H in *. split; cbn; try done.
    + intros _. by rewrite filter_old, armed0.
    + eapply Forall_impl; [|exact old_rounds0]. intros []; cbn; lia.
    + auto.
  - destruct I. rewrite H in *. split; cbn; try done.
    + intros _. rewrite counted0 in H0 by done. apply filter_all in H0. eapply Forall_impl; [|exact H0]. by intros [].
    + auto.
  - destruct I. rewrite H in *. split; cbn; try done. auto.
  - apply (worker_step_inv _ _ WaitGo); try done; [by left|..]; destruct I; intros.
    + rewrite H0 in go_waits0. by destruct (main t).
    + by apply armed0.
  - assert (main t = MWait) as M.
    { destruct (decide (main t = MWait)); [done|]. destruct I. by eapply Forall_lookup_1 in H; [|by apply at_rest0]. }
    apply (worker_step_inv _ _ Working); try done; [by left|..]; intros; cbn; [congruence|].
    rewrite Nat.eqb_refl. lia.
  - apply (worker_step_inv _ _ (WaitReset r)); try done; [by left|..]; destruct I; intros; [by apply armed0|].
    exfalso. rewrite H0 in go_waits0. by rewrite H1 in go_waits0.
  - assert (main t = MStopped) as M by (destruct I; rewrite H1 in runs0; by destruct (main t)).
    eapply worker_step_inv; try done; [by right|..]; intros; congruence.
Qed.
Lemma sync_inv_steps t t' : sync_inv t -> rtc sync t t' -> sync_inv t'.
Proof. intros I R. induction R as [|x y z St R IH]; [done|]. apply IH. by eapply sync_inv_step. Qed.

(** ** The order of the workers does not matter *)

Abbreviation active_count s := (IndexSet.count (Slots.act (sl s))).

(** Servers that differ in the order of what they sent. *)
Definition same_but_order (s t : Server) : Prop := set_out s [] = set_out t [] /\ out s ≡ₚ out t.
#[export] Instance same_but_order_equiv : Equivalence same_but_order.
Proof.
  split; [by split|intros s t [E P]; by split|].
  intros s t u [E P] [E' P']. split; [congruence|by etrans].
Qed.

Section Order.
Context `{Crypto.Aead} `{!ConnSafety.AeadBytes} (blake2b_keyed : bytes -> bytes -> bytes).

Lemma idle_tick_keeps c time : wf c -> keeps c (idle_tick c time).
Proof.
  intros Hwf. unfold idle_tick. case_if; [|by apply keeps_refl]. set (c1 := set_next_slow_tick _ _).
  assert (keeps c c1) as H1 by by split.
  assert (keeps c1 (cleanup_fragments c1 time)) as [H2 H3] by (apply cleanup_fragments_keeps, H1).
  eapply keeps_trans; [exact H1|]. by split.
Qed.
(** Apart from the idle tick a worker does what the inline loop does. *)
Lemma worker_connection_cases pid c time dt :
  worker_connection blake2b_keyed pid c time dt = Some (idle_tick c time, [])
  \/ worker_connection blake2b_keyed pid c time dt = update_connection blake2b_keyed pid c time dt.
Proof. unfold worker_connection, update_connection. case_if; [by left|by right]. Qed.
Lemma worker_connection_keeps pid c time dt :
  wf c -> exists c' pkts, worker_connection blake2b_keyed pid c time dt = Some (c', pkts) /\ keeps c c'.
Proof.
  intros Hwf. destruct (worker_connection_cases pid c time dt) as [->| ->]; [|by apply update_connection_keeps].
  eexists _, _. split; [done|]. by apply idle_tick_keeps.
Qed.

(** What a worker does at position [a], given as the slot, its new connection and the packets. *)
Definition work_at (s : Server) (a : Z) (time dt : double) : option (Z * Connection * list bytes) :=
  i ← oget (IndexSet.items (Slots.act (sl s))) a;
  c ← conn s i;
  '(c', pkts) ← worker_connection blake2b_keyed (protocol_id (cfg s)) c time dt;
  Some (i, c', pkts).
Lemma worker_slot_work s a time dt :
  worker_slot blake2b_keyed s a time dt =
  '(i, c', pkts) ← work_at s a time dt; Some (emit (set_conn s i c') (packets_to c' pkts)).
Proof.
  unfold worker_slot, work_at. destruct (oget _ a) as [i|]; [|done]. rewrite !Some_bind.
  destruct (conn s i) as [c|]; [|done]. rewrite !Some_bind. by destruct (worker_connection _ _ _ _ _) as [[]|].
Qed.

Lemma worker_slot_ok s a time dt :
  server_wf s -> 0 <= a < IndexSet.count (Slots.act (sl s)) ->
  exists c' pkts, work_at s a time dt = Some ((IndexSet.items (Slots.act (sl s))).[a], c', pkts)
    /\ good s (emit (set_conn s (IndexSet.items (Slots.act (sl s))).[a] c') (packets_to c' pkts)).
Proof.
  intros Hs Ha. destruct (active_at s a Hs ltac:(lia)) as (i & Ei & Hi). unfold work_at. rewrite Ei, Some_bind.
  assert ((IndexSet.items (Slots.act (sl s))).[a] = i) as ->.
  { unfold oget in Ei. case_if_in Ei; [|done]. apply aget_Some; [lia|done]. }
  rewrite (conn_at s i Hs), Some_bind by (by apply active_slot).
  destruct (worker_connection_keeps (protocol_id (cfg s)) (connections s).[i] time dt)
    as (c & pkts & -> & Hk); [by apply (cw_wf _ _ _ (sw_conns _ Hs))|]. rewrite Some_bind.
  eexists _, _. split; [done|]. pose proof (good_set_conn s i c Hs Hi Hk) as G0.
  exact (good_trans _ _ _ G0 (good_emit _ (packets_to c pkts) (proj1 G0))).
Qed.

Definition in_range (s : Server) (a : Z) : Prop := 0 <= a < active_count s.

Lemma worker_slots_ok l time dt : forall s,
  server_wf s -> Forall (in_range s) l ->
  exists s', worker_slots blake2b_keyed s l time dt = Some s' /\ good s s'.
Proof.
  induction l as [|a l IH]; intros s Hs F; cbn [worker_slots]; [exists s; split; [done|by apply good_refl]|].
  apply Forall_cons_1 in F as [Ha F]. rewrite worker_slot_work.
  destruct (worker_slot_ok s a time dt Hs Ha) as (c & pkts & -> & G). rewrite !Some_bind.
  destruct (IH _ (proj1 G) F) as (s' & -> & G'). exists s'. split; [done|]. exact (good_trans _ _ _ G G').
Qed.

Lemma work_at_order s t a time dt : same_but_order s t -> work_at s a time dt = work_at t a time dt.
Proof. intros [E _]. change (work_at (set_out s []) a time dt = work_at (set_out t []) a time dt). by rewrite E. Qed.
Lemma update_order s t i c l :
  same_but_order s t -> same_but_order (emit (set_conn s i c) l) (emit (set_conn t i c) l).
Proof.
  intros [E P]. split.
  - change (set_conn (set_out s []) i c = set_conn (set_out t []) i c). by rewrite E.
  - change (out s ++ l ≡ₚ out t ++ l). by rewrite P.
Qed.
Lemma worker_slots_order l time dt : forall s t s',
  same_but_order s t -> worker_slots blake2b_keyed s l time dt = Some s' ->
  exists t', worker_slots blake2b_keyed t l time dt = Some t' /\ same_but_order s' t'.
Proof.
  induction l as [|a l IH]; intros s t s' O; cbn [worker_slots]; [intros [= <-]; by exists t|].
  rewrite !worker_slot_work, (work_at_order s t) by done.
  destruct (work_at t a time dt) as [[[i c] pkts]|]; [|done]. rewrite !Some_bind.
  apply IH. by apply update_order.
Qed.

Lemma active_slots_differ s a b :
  server_wf s -> in_range s a -> in_range s b -> a <> b ->
  (IndexSet.items (Slots.act (sl s))).[a] <> (IndexSet.items (Slots.act (sl s))).[b].
Proof.
  intros Hs Ha Hb Hne E. destruct (sw_slots _ Hs) as [Hset _ _ _ _].
  destruct (IndexSet.is_items _ Hset a Ha) as [_ Ea], (IndexSet.is_items _ Hset b Hb) as [_ Eb]. congruence.
Qed.
Lemma active_nonneg s a :
  server_wf s -> in_range s a -> 0 <= (IndexSet.items (Slots.act (sl s))).[a].
Proof. intros Hs Ha. destruct (sw_slots _ Hs) as [Hset _ _ _ _]. apply (IndexSet.is_items _ Hset a Ha). Qed.

(** Work on one slot does not change what is done with another. *)
Lemma work_at_other s a i c l time dt :
  server_wf s -> in_range s a -> 0 <= i -> i <> (IndexSet.items (Slots.act (sl s))).[a] ->
  work_at (emit (set_conn s i c) l) a time dt = work_at s a time dt.
Proof.
  intros Hs Ha Hi Hne. pose proof (active_nonneg s a Hs Ha).
  unfold work_at. destruct (active_at s a Hs Ha) as (j & Ej & _).
  cbn [emit set_out set_conn set_connections sl cfg]. rewrite Ej, !Some_bind.
  assert ((IndexSet.items (Slots.act (sl s))).[a] = j) as Ej'.
  { unfold oget in Ej. case_if_in Ej; [|done]. apply aget_Some; [lia|done]. }
  rewrite Ej' in *. unfold conn, emit, set_conn, set_out, set_connections. cbn [connections]. unfold oget. case_if; [|done].
  unfold aset. by rewrite list_lookup_insert_ne by lia.
Qed.

Lemma worker_slots_swap s a b l time dt s' :
  server_wf s -> in_range s a -> in_range s b -> a <> b ->
  worker_slots blake2b_keyed s (b :: a :: l) time dt = Some s' ->
  exists t', worker_slots blake2b_keyed s (a :: b :: l) time dt = Some t' /\ same_but_order s' t'.
Proof.
  intros Hs Ha Hb Hne. cbn [worker_slots]. rewrite !worker_slot_work.
  destruct (worker_slot_ok s a time dt Hs Ha) as (ca & pa & Ea & _), (worker_slot_ok s b time dt Hs Hb) as (cb & pb & Eb & _).
  pose proof (active_slots_differ s a b Hs Ha Hb Hne). pose proof (active_nonneg s a Hs Ha). pose proof (active_nonneg s b Hs Hb).
  rewrite Ea, Eb, !Some_bind, !worker_slot_work, !work_at_other, Ea, Eb, !Some_bind by (try done; by apply not_eq_sym).
  apply worker_slots_order. split.
  - unfold emit, set_conn, set_out, set_connections, aset. cbn. by rewrite list_insert_insert_ne by lia.
  - cbn. rewrite <- !app_assoc. apply Permutation_app_head, Permutation_app_comm.
Qed.

Lemma worker_slots_perm l l' time dt :
  l ≡ₚ l' -> forall s s', NoDup l -> server_wf s -> Forall (in_range s) l ->
  worker_slots blake2b_keyed s l time dt = Some s' ->
  exists t', worker_slots blake2b_keyed s l' time dt = Some t' /\ same_but_order s' t'.
Proof.
  induction 1 as [|a l l' P IH|a b l|l l' l'' P IH P' IH']; intros s s' N Hs F E.
  - exists s'. split; [done|reflexivity].
  - cbn [worker_slots] in E |- *. apply list.NoDup_cons in N as [_ N]. apply Forall_cons_1 in F as [Ha F].
    rewrite worker_slot_work in E |- *.
    destruct (worker_slot_ok s a time dt Hs Ha) as (c & pkts & Ew & G). rewrite Ew, !Some_bind in E |- *.
    exact (IH _ s' N (proj1 G) F E).
  - apply list.NoDup_cons in N as [Hn _]. apply Forall_cons_1 in F as [Hb [Ha _]%Forall_cons_1].
    eapply worker_slots_swap; [done..| |exact E]. intros ->. apply Hn. set_solver.
  - destruct (IH _ _ N Hs F E) as (t' & E' & O).
    destruct (IH' _ t' ltac:(by rewrite <- P) Hs ltac:(by rewrite <- P) E') as (u' & E'' & O').
    exists u'. split; [done|by etrans].
Qed.

(** In whatever order the active connections are served, every connection ends as after a
    pass in order, and the packets made are the same, in another order at most; no step
    fails and the invariant of the server is kept.  The connections are served one at a
    time here: the buffer and the queue the workers' packets go through are shared, and
    what leaves them is another matter ([send_buf_race]). *)
Theorem workers_any_order s l time dt :
  server_wf s -> l ≡ₚ seqZ 0 (active_count s) ->
  exists s1 s2, worker_slots blake2b_keyed s (seqZ 0 (active_count s)) time dt = Some s1
    /\ worker_slots blake2b_keyed s l time dt = Some s2
    /\ connections s2 = connections s1 /\ out s2 ≡ₚ out s1 /\ server_wf s2.
Proof.
  intros Hs P. assert (Forall (in_range s) (seqZ 0 (active_count s))) as F.
  { apply list.Forall_forall. intros a Ha%elem_of_seqZ. unfold in_range. lia. }
  assert (Forall (in_range s) l) as F' by by rewrite P.
  destruct (worker_slots_ok l time dt s Hs F') as (s2 & E2 & [W _]).
  destruct (worker_slots_perm l (seqZ 0 (active_count s)) time dt P s s2) as (s1 & E1 & [O O']);
    [rewrite P; apply NoDup_seqZ|done..|].
  exists s1, s2. split_and!; [done|done| |done|done].
  change (connections (set_out s2 []) = connections (set_out s1 [])). by rewrite O.
Qed.
End Order.

(** ** The threads *)

(** C18. The barrier between the game thread and its workers keeps them apart, for every
    number of workers and every interleaving: outside its wait the game thread is alone
    (no worker works); the wait ends only when every worker has finished its slice of
    this very round; and no two working threads serve one position of the active list, so
    no connection is served by two.  Between two working threads the barrier does nothing
    more: they share the server's send buffer and send queue ([send_buf_race]). *)
Theorem workers_exclusive nw t :
  rtc sync (spawned nw) t ->
  (main t <> MWait -> forall w, pool t !! w <> Some Working)
  /\ (main t = MWait -> (length (pool t) <= done_count t)%nat -> forall w x, pool t !! w = Some x -> x = WaitReset (round t))
  /\ (main t = MStopped -> forall w x, pool t !! w = Some x -> exists t', rtc sync t t' /\ pool t' = <[w := Exited]> (pool t))
  /\ (forall total w w' a, 0 <= total -> pool t !! w = Some Working -> pool t !! w' = Some Working ->
        in_slice total (Z.of_nat (length (pool t))) (Z.of_nat w) a ->
        in_slice total (Z.of_nat (length (pool t))) (Z.of_nat w') a -> w = w').
Proof.
  intros R. assert (sync_inv t) as I by (eapply sync_inv_steps; [apply sync_inv_spawned|done]). split_and!.
  - intros M w E. eapply Forall_lookup_1 in E; [|by apply I]. by apply E.
  - intros M L w x E. rewrite (counted _ I M) in L. apply filter_all in L.
    eapply Forall_lookup_1 in E; [|exact L]. destruct x; try done. cbn in E. by apply Nat.eqb_eq in E as ->.
  - intros M w x E. exists (mkThreads (main t) (go t) (done_count t) (run t) (<[w := Exited]> (pool t)) (round t)).
    split; [|done]. apply rtc_once. eapply w_exit; [done| |by rewrite (runs _ I), M].
    intros ->. eapply Forall_lookup_1 in E; [|apply I; by rewrite M]. by apply E.
  - intros total w w' a Ht Ew Ew' A A'. pose proof (lookup_lt_Some _ _ _ Ew).
    assert (0 < Z.of_nat (length (pool t))) as Hl by lia.
    destruct (slices_partition total (Z.of_nat (length (pool t))) a Ht Hl) as (v & _ & _ & U).
    { eapply worker_slice_bounds; [done|done| |exact A]. lia. }
    apply Nat2Z.inj. rewrite (U (Z.of_nat w)), (U (Z.of_nat w')); [done|lia|done|lia|done].
Qed.

(** A worker that finished an earlier round and has not seen [workers_go] fall never
    finishes this one, and the game thread waits for it forever. *)
Definition stuck (w r : nat) (t : threads) : Prop :=
  sync_inv t /\ main t = MWait /\ pool t !! w = Some (WaitReset r) /\ (r < round t)%nat.
Lemma stuck_step w r t t' : stuck w r t -> sync t t' -> stuck w r t'.
Proof.
  intros (I & M & E & Hr) St. assert (sync_inv t') as I' by by eapply sync_inv_step.
  split; [done|]. pose proof (go_waits _ I) as G. pose proof (runs _ I) as Ru. rewrite M in G, Ru.
  destruct St as [| |? _ L| |? v Ev|? v Ev|? v x Ev Gv|? v x Ev]; cbn; try congruence.
  - exfalso. rewrite (counted _ I M) in L. apply filter_all in L.
    eapply Forall_lookup_1 in E; [|exact L]. cbn in E. apply Nat.eqb_eq in E. lia.
  - destruct (decide (v = w)) as [->|]; [congruence|]. by rewrite list_lookup_insert_ne.
  - destruct (decide (v = w)) as [->|]; [congruence|]. by rewrite list_lookup_insert_ne.
Qed.
(** One step to a state that is written out. *)
Ltac step_to t rule := apply (rtc_l _ _ t); [apply rule; (reflexivity || cbn; lia)|].

(** The barrier can hang: the game thread starts the next round before a worker has
    seen the end of the last one. *)
Lemma workers_can_hang :
  exists t, rtc sync (spawned 2) t /\ forall t', rtc sync t t' -> main t' = MWait.
Proof.
  set (t := mkThreads MWait true 0 true [WaitGo; WaitReset 1] 2).
  assert (rtc sync (spawned 2) t) as R.
  { step_to (mkThreads MArmed false 0 true [WaitGo; WaitGo] 0) (m_arm (spawned 2)).
    step_to (mkThreads MWait true 0 true [WaitGo; WaitGo] 1) m_go.
    step_to (mkThreads MWait true 0 true [Working; WaitGo] 1) (fun t => w_go t 0).
    step_to (mkThreads MWait true 0 true [Working; Working] 1) (fun t => w_go t 1).
    step_to (mkThreads MWait true 1 true [WaitReset 1; Working] 1) (fun t => w_done t 0).
    step_to (mkThreads MWait true 2 true [WaitReset 1; WaitReset 1] 1) (fun t => w_done t 1).
    step_to (mkThreads MIdle false 2 true [WaitReset 1; WaitReset 1] 1) m_finish.
    step_to (mkThreads MIdle false 2 true [WaitGo; WaitReset 1] 1) (fun t => w_reset t 0 1).
    step_to (mkThreads MArmed false 0 true [WaitGo; WaitReset 1] 1) m_arm.
    step_to t m_go. apply rtc_refl. }
  exists t. split; [done|]. intros t' R'.
  assert (stuck 1 1 t) as S.
  { split_and!; [|done|done|cbn; lia]. eapply sync_inv_steps; [apply sync_inv_spawned|done]. }
  clear R. induction R' as [|x y z St R' IH]; [apply S|]. apply IH. by eapply stuck_step.
Qed.

(** ** The send buffer *)

(** A worker that sends copies the packet to [server->send_buf] and hands the buffer over
    with the destination and the length. *)
Inductive sender : Type := Ready (dest : address) (packet : bytes) | Filled (dest : address) (len : nat) | SentOff.
Record sending : Type := mkSending { send_buf : bytes; senders : list sender; handed : list (address * bytes) }.
Inductive send_step : sending -> sending -> Prop :=
  | s_fill t w dest p : senders t !! w = Some (Ready dest p) ->
      send_step t (mkSending (p ++ drop (length p) (send_buf t)) (<[w := Filled dest (length p)]> (senders t)) (handed t))
  | s_hand t w dest n : senders t !! w = Some (Filled dest n) ->
      send_step t (mkSending (send_buf t) (<[w := SentOff]> (senders t)) (handed t ++ [(dest, take n (send_buf t))])).

(** A thread that sends alone hands over its packet. *)
Lemma lone_sender buf dest p t :
  rtc send_step (mkSending buf [Ready dest p] []) t -> senders t = [SentOff] -> handed t = [(dest, p)].
Proof.
  intros R E.
  apply rtc_inv in R as [<-|(t1 & S1 & R)]; [done|]. inversion S1 as [? w d q Ew|? w d n Ew]; subst;
    cbn in Ew; (destruct w; [|done]); [injection Ew as <- <-|done].
  apply rtc_inv in R as [<-|(t2 & S2 & R)]; [done|]. inversion S2 as [? w d q Ew|? w d n Ew]; subst;
    cbn in Ew; (destruct w; [|done]); [done|injection Ew as <- <-]. cbn in R. rewrite take_app_length in R.
  apply rtc_inv in R as [<-|(t3 & S3 & R)]; [done|]. inversion S3 as [? w d q Ew|? w d n Ew]; subst;
    cbn in Ew; by destruct w.
Qed.
(** Two workers: the packet of the second goes to both peers and that of the first to none. *)
Lemma send_buf_race buf d1 d2 p1 p2 :
  length p1 = length p2 ->
  rtc send_step (mkSending buf [Ready d1 p1; Ready d2 p2] [])
    (mkSending (p2 ++ drop (length p2) (p1 ++ drop (length p1) buf)) [SentOff; SentOff] [(d1, p2); (d2, p2)]).
Proof.
  intros Hl. eapply rtc_l; [by apply (s_fill _ 0)|]. eapply rtc_l; [by apply (s_fill _ 1)|].
  eapply rtc_l; [by apply (s_hand _ 0)|]. eapply rtc_l; [by apply (s_hand _ 1)|]. cbn.
  rewrite Hl, take_app_length. apply rtc_refl.
Qed.

(** ** Examples *)

(** Two clients that have just connected, and the workers reach the second first. *)
Definition demo_request (cid nonce : Z) : bytes :=
  default [] (
    '(_, token) ← Token.netudp_generate_connect_token Token.demo_lock 1 [Token.demo_addr] 60 10 cid 6 (replicate 32 1) None
       (replicate 32 2) (replicate 32 3) (replicate 24 nonce) 1000 (replicate 2048 0);
    c ← Client.netudp_client_connect (Some demo_alloc) ClientSafety.demo_new token;
    c ← Client.netudp_client_update (H := Crypto.none_aead) c (d_of_Z 1) [];
    Client.csent c !! 0%nat).
Definition two_clients : list call :=
  [Update (d_of_Z 1) [(demo_client, demo_request 5 4); (mkAddress (a_data demo_client) 7778 1, demo_request 6 5)]].
Definition demo_served : option Server :=
  ServerSafety.run (H := Crypto.none_aead) demo_hash demo_hash Token.demo_unlock demo_alloc
    (netudp_server_start (netudp_server_create demo_config d0) 2) two_clients.

Lemma packet_checked data :
  forallb (fun b => (0 <=? b) && (b <? 256)) data && (1 <=? zlen data) && (zlen data <=? 1200) = true ->
  packet_ok (H := Crypto.none_aead) data.
Proof.
  intros [[Hb H1]%andb_true_iff H2]%andb_true_iff. split.
  - apply list.Forall_forall. intros b Hx. rewrite forallb_forall in Hb.
    apply list_elem_of_In in Hx. specialize (Hb b Hx). unfold is_u8. lia.
  - bool_facts. change MAX_SAFE_PACKET with 1215. lia.
Qed.
Lemma two_clients_ok : Forall (call_ok (H := Crypto.none_aead) 2) two_clients.
Proof.
  apply Forall_cons_2; [|apply Forall_nil_2].
  apply Forall_cons_2; [|apply Forall_cons_2; [|apply Forall_nil_2]]; apply packet_checked; vm_compute; reflexivity.
Qed.
Lemma demo_served_wf : exists s, demo_served = Some s /\ server_wf s.
Proof.
  destruct (run_ok (H := Crypto.none_aead) demo_hash demo_hash Token.demo_unlock demo_alloc
    demo_unlock_len demo_alloc_ok two_clients (netudp_server_start (netudp_server_create demo_config d0) 2))
    as (s & E & G & _).
  - vm_compute. discriminate.
  - apply started_wf. reflexivity.
  - exact two_clients_ok.
  - exists s. split; [exact E|exact G].
Qed.
Lemma workers_any_order_witness :
  exists s, demo_served = Some s /\ active_count s = 2 /\
    exists s1 s2, worker_slots (H := Crypto.none_aead) demo_hash s [0; 1] (d_of_Z 3) (d_of_Z 1) = Some s1
      /\ worker_slots (H := Crypto.none_aead) demo_hash s [1; 0] (d_of_Z 3) (d_of_Z 1) = Some s2
      /\ connections s2 = connections s1 /\ out s2 ≡ₚ out s1 /\ server_wf s2.
Proof.
  destruct demo_served_wf as (s & E & W).
  assert (active_count s = 2) as Hc.
  { enough ((fun s => active_count s) <$> demo_served = Some 2) as Hn by (rewrite E in Hn; by injection Hn). by vm_compute. }
  exists s. split; [exact E|]. split; [exact Hc|].
  pose proof (workers_any_order (H := Crypto.none_aead) demo_hash s [1; 0] (d_of_Z 3) (d_of_Z 1) W) as T.
  rewrite Hc in T. apply T. apply perm_swap.
Defined.

Lemma workers_exclusive_witness :
  let t := mkThreads MWait true 0 true [Working; Working] 1 in
  rtc sync (spawned 2) t /\ forall a, in_slice 5 2 0 a -> in_slice 5 2 1 a -> 0%nat = 1%nat.
Proof.
  intros t. assert (rtc sync (spawned 2) t) as R.
  { eapply rtc_l; [by apply m_arm|]. eapply rtc_l; [by apply m_go|].
    eapply rtc_l; [by apply (w_go _ 0)|]. eapply rtc_l; [by apply (w_go _ 1)|]. apply rtc_refl. }
  split; [exact R|]. pose proof (workers_exclusive 2 t R) as (_ & _ & _ & T). intros a. by apply (T 5 0%nat 1%nat a).
Defined.

End Workers.
