(* ===== verification/NetSim.v ===== *)
(** The network simulator (src/src/sim/network_sim.h and network_sim.cpp).

    A queue of packets with the times at which they are due; what [submit] does with a
    packet is drawn from an xorshift generator.  The specification is a list of packets:
    [submit] appends none, one or two copies, [poll] takes out those that are due. *)

From S2P Require Import Prelude Bytes Double Address Quantize.

Module NetSim.
Import Address.

Record NetSimConfig : Type := mkConfig {
  latency_min_ms : spec_float; latency_max_ms : spec_float; jitter_ms : spec_float;
  loss_percent : spec_float; duplicate_percent : spec_float; reorder_percent : spec_float;
  incoming_lag_ms : spec_float }.
(** The bytes of [data] past [len] are never read. *)
Record SimPacket : Type := mkPacket { data : bytes; from : address; deliver_time : double }.
#[export] Instance sim_packet_inhabited : Inhabited SimPacket := populate (mkPacket [] address_zero d0).
Record NetworkSimulator : Type := mkSim {
  config : NetSimConfig; queue : list SimPacket; head : Z; tail : Z; count : Z; rng_state : Z }.

Definition CAPACITY : Z := 512.
Definition MAX_DATA : Z := 1500.

(** ** The generator *)

Definition rand_u32 (s : Z) : Z :=
  let s := Z.lxor s (u32 (Z.shiftl s 13)) in
  let s := Z.lxor s (Z.shiftr s 17) in
  Z.lxor s (u32 (Z.shiftl s 5)).
Definition percent (v : Z) : spec_float := fdiv (f_of_Z (v mod 10000)) (f_of_Z 100).
Definition set_rng (s : NetworkSimulator) (x : Z) : NetworkSimulator :=
  mkSim (config s) (queue s) (head s) (tail s) (count s) x.
Definition rand_float (s : NetworkSimulator) : spec_float * NetworkSimulator :=
  let x := rand_u32 (rng_state s) in (percent x, set_rng s x).

(** ** Operations *)

Definition insert (s : NetworkSimulator) (p : bytes) (a : address) (t : double) : NetworkSimulator :=
  if CAPACITY <=? count s then s
  else
    let copy_len := if zlen p <? MAX_DATA then zlen p else MAX_DATA in
    mkSim (config s) (aset (queue s) (tail s) (mkPacket (take (Z.to_nat copy_len) p) a t)) (head s)
      ((tail s + 1) mod CAPACITY) (count s + 1) (rng_state s).

Definition init (s : NetworkSimulator) (cfg : NetSimConfig) (seed : Z) : NetworkSimulator :=
  mkSim cfg (queue s) 0 0 0 seed.
Definition reset (s : NetworkSimulator) : NetworkSimulator :=
  mkSim (config s) (queue s) 0 0 0 (rng_state s).

Definition fmax (a b : spec_float) : spec_float := if SFltb a b then b else a.
Definition submit (s : NetworkSimulator) (p : bytes) (a : address) (current_time : double) : Z * NetworkSimulator :=
  let '(r, s) := rand_float s in
  if SFltb r (loss_percent (config s)) then (0, s)
  else
    let range_ms := fsub (latency_max_ms (config s)) (latency_min_ms (config s)) in
    let '(r, s) := rand_float s in
    let delay_ms := fadd (latency_min_ms (config s)) (fmul (fdiv r (f_of_Z 100)) range_ms) in
    let '(r, s) := rand_float s in
    let jitter_offset :=
      fsub (fmul (fmul (fdiv r (f_of_Z 100)) (jitter_ms (config s))) (f_of_Z 2)) (jitter_ms (config s)) in
    let delay_ms := fmax (fadd delay_ms jitter_offset) (f_of_Z 0) in
    let deliver := dadd current_time (ddiv (d_of_f delay_ms) (d_of_Z 1000)) in
    let '(r, s) := rand_float s in
    if SFltb r (duplicate_percent (config s)) then (2, insert (insert s p a deliver) p a deliver)
    else
      let '(r, s) := rand_float s in
      let '(deliver, s) :=
        if SFltb r (reorder_percent (config s)) then
          let '(r, s) := rand_float s in
          let extra_ms := fmul (fdiv r (f_of_Z 100)) (f_of_Z 50) in
          (dadd deliver (ddiv (d_of_f extra_ms) (d_of_Z 1000)), s)
        else (deliver, s) in
      (1, insert s p a deliver).

(** The loop of [poll] from [n] for the [k] entries left; [out] is what the callback got. *)
Fixpoint poll_loop (k : nat) (n write hd : Z) (now : double) (q out : list SimPacket) : list SimPacket * Z * list SimPacket :=
  match k with
  | O => (q, write, out)
  | S k =>
      let idx := (hd + n) mod CAPACITY in
      if dle (deliver_time q.[idx]) now
      then poll_loop k (n + 1) write hd now q (out ++ [q.[idx]])
      else poll_loop k (n + 1) (write + 1) hd now (if write =? idx then q else aset q write q.[idx]) out
  end.
Definition poll (s : NetworkSimulator) (now : double) : list SimPacket * NetworkSimulator :=
  let '(q, write, out) := poll_loop (Z.to_nat (count s)) 0 0 (head s) now (queue s) [] in
  (out, mkSim (config s) q 0 (write mod CAPACITY) write (rng_state s)).

(** * The queue as a list *)

Record wf (s : NetworkSimulator) : Prop := {
  w_len : zlen (queue s) = CAPACITY;
  w_head : head s = 0;
  w_count : 0 <= count s <= CAPACITY;
  w_tail : tail s = count s mod CAPACITY }.
Definition contents (s : NetworkSimulator) : list SimPacket := take (Z.to_nat (count s)) (queue s).
Definition due (now : double) (p : SimPacket) : bool := dle (deliver_time p) now.

Lemma aset_mid {A} (a b : list A) x y : aset (a ++ y :: b) (zlen a) x = a ++ x :: b.
Proof. unfold aset, zlen. rewrite Nat2Z.id, insert_app_r_alt, Nat.sub_diag by lia. done. Qed.
Lemma aget_mid `{Inhabited A} (a b : list A) y : (a ++ y :: b).[zlen a] = y.
Proof. unfold aget, zlen. rewrite Nat2Z.id. by apply list_lookup_total_middle. Qed.

Lemma poll_loop_spec now todo : forall kept junk rest out n,
  zlen (kept ++ junk ++ todo ++ rest) = CAPACITY -> n = zlen (kept ++ junk) ->
  exists junk', poll_loop (length todo) n (zlen kept) 0 now (kept ++ junk ++ todo ++ rest) out
      = (kept ++ filter (fun p => due now p = false) todo ++ junk',
         zlen kept + zlen (filter (fun p => due now p = false) todo),
         out ++ filter (fun p => due now p = true) todo)
    /\ zlen (kept ++ filter (fun p => due now p = false) todo ++ junk') = CAPACITY.
Proof.
  induction todo as [|x todo IH]; intros kept junk rest out n Hl ->; cbn [length poll_loop].
  { exists (junk ++ rest). cbn. rewrite app_nil_r, zlen_nil, Z.add_0_r. done. }
  rewrite Z.add_0_l, Z.mod_small by (revert Hl; zlen_simpl; unfold zlen, CAPACITY; lia).
  rewrite (app_assoc kept junk). cbn [app]. rewrite aget_mid. fold (due now x).
  destruct (due now x) eqn:E.
  - destruct (IH kept (junk ++ [x]) rest (out ++ [x]) (zlen (kept ++ junk) + 1)) as (junk' & Eq & Hz).
    { by rewrite <- Hl, <- !app_assoc. }
    { by rewrite app_assoc, (zlen_app (kept ++ junk)). }
    exists junk'. rewrite filter_cons_False, filter_cons_True by congruence.
    rewrite <- !app_assoc in Eq |- *. cbn [app] in Eq. rewrite Eq. by rewrite <- app_assoc.
  - rewrite filter_cons_True, filter_cons_False by congruence.
    destruct junk as [|y junk].
    + rewrite app_nil_r, Z.eqb_refl.
      destruct (IH (kept ++ [x]) [] rest out (zlen kept + 1)) as (junk' & Eq & Hz).
      { by rewrite <- Hl, <- !app_assoc. }
      { by rewrite app_nil_r, zlen_app. }
      exists junk'. rewrite (zlen_app kept [x]) in Eq. change (zlen [x]) with 1 in Eq. cbn [app] in Eq. rewrite <- !app_assoc in Eq, Hz. cbn [app] in Eq, Hz |- *.
      rewrite Eq. split; [|done]. by rewrite zlen_cons, Z.add_assoc, <- app_assoc.
    + rewrite (proj2 (Z.eqb_neq _ _)) by (zlen_simpl; unfold zlen; lia).
      rewrite <- app_assoc. cbn [app]. rewrite aset_mid.
      destruct (IH (kept ++ [x]) (junk ++ [x]) rest out (zlen (kept ++ y :: junk) + 1)) as (junk' & Eq & Hz).
      { rewrite <- Hl. zlen_simpl. cbn [app]. zlen_simpl. lia. }
      { zlen_simpl. lia. }
      exists junk'. rewrite (zlen_app kept [x]) in Eq. change (zlen [x]) with 1 in Eq. rewrite <- (app_assoc junk) in Eq. rewrite <- !app_assoc in Eq, Hz. cbn [app] in Eq, Hz |- *.
      rewrite Eq. split; [|done]. by rewrite zlen_cons, Z.add_assoc, <- app_assoc.
Qed.

(** [poll] hands over the packets that are due and keeps the others, both in order. *)
Lemma poll_spec s now :
  wf s -> exists s', poll s now = (filter (fun p => due now p = true) (contents s), s')
    /\ wf s' /\ contents s' = filter (fun p => due now p = false) (contents s)
    /\ config s' = config s /\ rng_state s' = rng_state s.
Proof.
  intros []. unfold poll. rewrite w_head0.
  assert (Z.to_nat (count s) = length (contents s)) as Hc.
  { unfold contents, CAPACITY, zlen in *. rewrite length_take. lia. }
  destruct (poll_loop_spec now (contents s) [] [] (drop (Z.to_nat (count s)) (queue s)) [] 0) as (junk & E & Hz);
    [by cbn [app]; unfold contents; rewrite take_drop|done|].
  cbn [app] in E, Hz. unfold contents in E at 2. rewrite take_drop, <- Hc in E. change (zlen []) with 0 in E. rewrite E.
  eexists. split; [done|]. set (f := filter (fun p => due now p = false) (contents s)) in *.
  assert (0 <= zlen f <= CAPACITY) as Hf by (rewrite zlen_app in Hz; unfold zlen, CAPACITY in *; lia).
  split; [split; cbn; [done..|by rewrite Z.add_0_l|done]|].
  split; [|done]. unfold contents. cbn. rewrite take_app_length'; [done|]. unfold zlen. lia.
Qed.

(** ** Submitting *)

Definition copy (p : bytes) (a : address) (t : double) : SimPacket := mkPacket (take 1500 p) a t.

Lemma sim_insert_spec s p a t :
  wf s -> wf (insert s p a t) /\ contents (insert s p a t) = take 512 (contents s ++ [copy p a t])
    /\ config (insert s p a t) = config s /\ rng_state (insert s p a t) = rng_state s.
Proof.
  intros Hw. pose proof Hw as []. unfold insert.
  assert (length (contents s) = Z.to_nat (count s)) as Hc.
  { unfold contents, CAPACITY, zlen in *. rewrite length_take. lia. }
  case_if.
  - split_and!; try done. unfold CAPACITY in *. rewrite take_app_le, take_ge by lia. done.
  - assert (take (Z.to_nat (if zlen p <? MAX_DATA then zlen p else MAX_DATA)) p = take 1500 p) as ->.
    { unfold MAX_DATA, zlen. case_if; [|done]. rewrite !take_ge; [done|lia..]. }
    fold (copy p a t). rewrite w_tail0, (Z.mod_small (count s)) by lia. split_and!; try done.
    + split; cbn; [by rewrite zlen_aset|done|lia|].  done.
    + unfold contents at 1. cbn. unfold CAPACITY, zlen in *.
      rewrite (take_ge (contents s ++ _)) by (rewrite length_app, Hc; cbn; lia).
      unfold aset, contents. rewrite Z2Nat.inj_add, Nat.add_1_r by lia.
      rewrite (take_S_r _ _ (copy p a t)) by (apply list_lookup_insert_eq; lia).
      by rewrite take_insert_ge by lia.
Qed.

Lemma rand_float_spec s : forall r s', rand_float s = (r, s') ->
  r = percent (rand_u32 (rng_state s)) /\ (wf s -> wf s') /\ contents s' = contents s /\ config s' = config s
  /\ rng_state s' = rand_u32 (rng_state s).
Proof. intros r s' [= <- <-]. split_and!; try done. intros []. by split. Qed.

(** What [submit] may add. *)
Definition accepts (s : NetworkSimulator) (p : bytes) (a : address) (o : Z * NetworkSimulator) : Prop :=
  wf o.2 /\ config o.2 = config s /\ 0 <= o.1 <= 2 /\
  exists t, contents o.2 = take 512 (contents s ++ replicate (Z.to_nat o.1) (copy p a t)).

Lemma take_twice {A} n (l m : list A) : take n (take n l ++ m) = take n (l ++ m).
Proof.
  destruct (decide (n <= length l)%nat).
  - rewrite !take_app_le, take_take by (rewrite ?length_take; lia). f_equal. lia.
  - by rewrite (take_ge l) by lia.
Qed.

Lemma submit_accepts s p a now : wf s -> accepts s p a (submit s p a now).
Proof.
  intros Hw. unfold submit.
  destruct (rand_float s) as [r1 s1] eqn:E1. apply rand_float_spec in E1 as (_ & W1 & C1 & F1 & _).
  case_if; [split_and!; cbn; [auto|done|lia|lia|]; exists d0|].
  { rewrite C1, app_nil_r. rewrite take_ge; [done|]. destruct Hw. unfold contents, CAPACITY, zlen in *. rewrite length_take. lia. }
  destruct (rand_float s1) as [r2 s2] eqn:E2. apply rand_float_spec in E2 as (_ & W2 & C2 & F2 & _).
  destruct (rand_float s2) as [r3 s3] eqn:E3. apply rand_float_spec in E3 as (_ & W3 & C3 & F3 & _).
  set (t := dadd now _). destruct (rand_float s3) as [r4 s4] eqn:E4. apply rand_float_spec in E4 as (_ & W4 & C4 & F4 & _).
  assert (wf s4) as H4 by auto. assert (contents s4 = contents s) as H4c by congruence.
  assert (config s4 = config s) as H4f by congruence. case_if.
  - destruct (sim_insert_spec s4 p a t H4) as (W5 & C5 & F5 & _). destruct (sim_insert_spec _ p a t W5) as (W6 & C6 & F6 & _).
    split_and!; cbn [fst snd]; [done|congruence|lia|lia|]. exists t.
    rewrite C6, C5, H4c, take_twice, <- app_assoc. done.
  - destruct (rand_float s4) as [r5 s5] eqn:E5. apply rand_float_spec in E5 as (_ & W5 & C5 & F5 & _).
    assert (forall t' s', wf s' -> contents s' = contents s -> config s' = config s -> accepts s p a (1, insert s' p a t')) as Done.
    { intros t' s' W' C' F'. destruct (sim_insert_spec s' p a t' W') as (W6 & C6 & F6 & _).
      split_and!; cbn [fst snd]; [done|congruence|lia|lia|]. exists t'. by rewrite C6, C'. }
    case_if; [|apply Done; [auto|congruence..]].
    destruct (rand_float s5) as [r6 s6] eqn:E6. apply rand_float_spec in E6 as (_ & W6 & C6 & F6 & _).
    apply Done; [auto|congruence..].
Qed.

(** ** The generator never sticks *)

Lemma xor_shl_nonzero s k : 0 < k -> is_u32 s -> s <> 0 -> Z.lxor s (u32 (Z.shiftl s k)) <> 0.
Proof.
  intros Hk Hs Hn E%Z.lxor_eq. apply Hn, Z.bits_inj_0. intros i.
  destruct (decide (0 <= i)) as [Hi|]; [|by rewrite Z.testbit_neg_r by lia].
  revert Hi. generalize (Z.lt_wf 0 i). induction 1 as [i _ IH]. intros Hi.
  rewrite E. unfold u32. destruct (decide (i < 32)); [|by rewrite Z.mod_pow2_bits_high by lia].
  rewrite Z.mod_pow2_bits_low, Z.shiftl_spec by lia.
  destruct (decide (i < k)); [by rewrite Z.testbit_neg_r by lia|]. apply IH; lia.
Qed.
Lemma xor_shr_nonzero s k : 0 < k -> is_u32 s -> s <> 0 -> Z.lxor s (Z.shiftr s k) <> 0.
Proof.
  intros Hk [Hs _] Hn E%Z.lxor_eq. rewrite Z.shiftr_div_pow2 in E by lia.
  pose proof (Z.div_lt s (2 ^ k) ltac:(lia) (proj1 (Z.pow_gt_1 2 k ltac:(lia)) Hk)). lia.
Qed.
Lemma rand_u32_nonzero s : is_u32 s -> s <> 0 -> is_u32 (rand_u32 s) /\ rand_u32 s <> 0.
Proof.
  intros Hs Hn. unfold rand_u32.
  set (a := Z.lxor s (u32 (Z.shiftl s 13))).
  assert (is_u32 a) as Ha by (apply lxor_u32; [done|apply u32_range]).
  assert (a <> 0) as Hna by (by apply xor_shl_nonzero).
  set (b := Z.lxor a (Z.shiftr a 17)).
  assert (is_u32 b) as Hb by (apply lxor_u32; [done|by apply shr_u32]).
  assert (b <> 0) as Hnb by (by apply xor_shr_nonzero).
  split; [apply lxor_u32; [done|apply u32_range]|by apply xor_shl_nonzero].
Qed.

(** A test that all 10000 values of [rand_float] pass. *)
Lemma percents (P : spec_float -> bool) :
  forallb (fun v => P (percent v)) (seqZ 0 10000) = true -> forall v, P (percent v) = true.
Proof.
  intros HP v. pose proof (Quantize.forall_seqZ _ 0 10000 (v mod 10000) HP) as Q. cbn beta in Q.
  unfold percent in Q |- *. rewrite Z.mod_mod in Q by lia. apply Q. mlia.
Qed.
Lemma percent_range v : SFleb (f_of_Z 0) (percent v) = true /\ SFltb (percent v) (f_of_Z 100) = true.
Proof.
  apply andb_true_iff. apply (percents (fun r => SFleb (f_of_Z 0) r && SFltb r (f_of_Z 100))). by vm_compute.
Qed.

(** ** A simulator without effects *)

Definition calm (s : NetworkSimulator) : Prop :=
  config s = mkConfig (f_of_Z 0) (f_of_Z 0) (f_of_Z 0) (f_of_Z 0) (f_of_Z 0) (f_of_Z 0) (f_of_Z 0).
Lemma percent_not_below_0 v : SFltb (percent v) (f_of_Z 0) = false.
Proof. apply negb_true_iff, (percents (fun r => negb (SFltb r (f_of_Z 0)))). by vm_compute. Qed.
Definition is_pos_zero (f : spec_float) : bool := match f with S754_zero false => true | _ => false end.
Lemma is_pos_zero_eq f : is_pos_zero f = true -> f = S754_zero false.
Proof. by destruct f as [[]|[]| |[]]. Qed.
Lemma scaled_zero v : fmul (fdiv (percent v) (f_of_Z 100)) (f_of_Z 0) = S754_zero false.
Proof.
  apply is_pos_zero_eq, (percents (fun r => is_pos_zero (fmul (fdiv r (f_of_Z 100)) (f_of_Z 0)))). by vm_compute.
Qed.

Lemma add_zero_due now : is_nan now = false -> dle (dadd now (S754_zero false)) now = true.
Proof. destruct now as [[]|[]| |]; intros; try done; cbn; by apply (dle_refl (S754_finite _ _ _)). Qed.

Lemma calm_submit s p a now :
  wf s -> calm s -> is_nan now = false ->
  exists s' t, submit s p a now = (1, s') /\ wf s' /\ calm s' /\ dle t now = true
    /\ contents s' = take 512 (contents s ++ [copy p a t]).
Proof.
  intros Hw Hc Hn. unfold submit, rand_float. cbn [config set_rng]. rewrite Hc.
  cbn [latency_min_ms latency_max_ms jitter_ms loss_percent duplicate_percent reorder_percent].
  rewrite !percent_not_below_0. change (fsub (f_of_Z 0) (f_of_Z 0)) with (f_of_Z 0). rewrite !scaled_zero.
  set (t := dadd now _). set (s1 := set_rng _ _).
  assert (wf s1) as W1 by (destruct Hw; by split).
  destruct (sim_insert_spec s1 p a t W1) as (W2 & C2 & F2 & _).
  exists (insert s1 p a t), t. split_and!; [done|done| | |].
  - unfold calm. by rewrite F2.
  - apply (add_zero_due now Hn).
  - by rewrite C2.
Qed.

(** * Theorems *)

Lemma filter_id {A} (P : A -> Prop) `{forall x, Decision (P x)} (l : list A) : Forall P l -> filter P l = l.
Proof. induction 1; [done|]. rewrite filter_cons_True by done. by f_equal. Qed.
Lemma filter_empty {A} (P : A -> Prop) `{forall x, Decision (P x)} (l : list A) :
  Forall (fun x => ~ P x) l -> filter P l = [].
Proof. induction 1; [done|]. by rewrite filter_cons_False. Qed.

(** The simulator is a list of pending packets: [submit] appends at most two copies
    of the packet it is given, cut to 1500 bytes, while fewer than 512 wait; [poll]
    gives the callback exactly the packets that are due, in the order they were
    submitted, keeps the others, and never makes up or alters one.  The queue stays in
    its array, and a generator with a seed other than 0 stays so.  With every
    parameter 0 a submitted packet is due at once and none is lost or doubled. *)
Theorem simulator_refines_list s p a now :
  wf s -> is_u32 (rng_state s) -> rng_state s <> 0 ->
  (exists n s' t, submit s p a now = (n, s') /\ wf s' /\ 0 <= n <= 2
     /\ contents s' = take 512 (contents s ++ replicate (Z.to_nat n) (copy p a t)))
  /\ (exists s', poll s now = (filter (fun q => due now q = true) (contents s), s') /\ wf s'
     /\ contents s' = filter (fun q => due now q = false) (contents s))
  /\ (is_u32 (rand_u32 (rng_state s)) /\ rand_u32 (rng_state s) <> 0)
  /\ (calm s -> is_nan now = false -> Forall (fun q => due now q = true) (contents s) -> count s < CAPACITY ->
      exists s1 s2 t, submit s p a now = (1, s1) /\ poll s1 now = (contents s ++ [copy p a t], s2) /\ contents s2 = []).
Proof.
  intros Hw Hr Hn. split_and!.
  - destruct (submit_accepts s p a now Hw) as (W & _ & Hc & t & E). destruct (submit s p a now) as [n s'].
    by exists n, s', t.
  - destruct (poll_spec s now Hw) as (s' & E & W & C & _). by exists s'.
  - by apply rand_u32_nonzero.
  - by apply rand_u32_nonzero.
  - intros Hcalm Hnan Hdue Hcount.
    destruct (calm_submit s p a now Hw Hcalm Hnan) as (s1 & t & E & W1 & _ & Ht & C1).
    destruct (poll_spec s1 now W1) as (s2 & E2 & W2 & C2 & _).
    rewrite take_ge in C1.
    2: { rewrite length_app. unfold contents, CAPACITY in *. rewrite length_take. destruct Hw. cbn. lia. }
    assert (Forall (fun q => due now q = true) (contents s1)) as Hd.
    { rewrite C1. apply Forall_app. split; [done|]. by apply Forall_singleton. }
    exists s1, s2, t. split; [done|]. rewrite E2, C2, C1 in *. split.
    + f_equal. by apply filter_id.
    + apply filter_empty. eapply Forall_impl; [|exact Hd]. cbn. congruence.
Qed.

(** A simulator without effects, seeded as by default. *)
Definition demo_calm : NetSimConfig :=
  mkConfig (f_of_Z 0) (f_of_Z 0) (f_of_Z 0) (f_of_Z 0) (f_of_Z 0) (f_of_Z 0) (f_of_Z 0).
Definition demo_sim : NetworkSimulator :=
  init (mkSim demo_calm (replicate (Z.to_nat CAPACITY) inhabitant) 0 0 0 0) demo_calm 12345.
Lemma demo_sim_wf : wf demo_sim.
Proof. split; [by vm_compute|done|cbn; unfold CAPACITY; lia|done]. Qed.
Lemma simulator_refines_list_witness :
  exists s1 s2 t, submit demo_sim [7; 8] address_zero (d_of_Z 5) = (1, s1)
    /\ poll s1 (d_of_Z 5) = (contents demo_sim ++ [copy [7; 8] address_zero t], s2) /\ contents s2 = [].
Proof.
  destruct (simulator_refines_list demo_sim [7; 8] address_zero (d_of_Z 5)) as (_ & _ & _ & T).
  - exact demo_sim_wf.
  - vm_compute. split; [discriminate|reflexivity].
  - discriminate.
  - apply T; [reflexivity|reflexivity|apply Forall_nil_2|reflexivity].
Defined.

End NetSim.
