(* ===== verification/ServerSim.v ===== *)
(** The server behind the network simulator (src/src/server.cpp, the branches of
    netudp_server_update on [sim_enabled]): packets from the socket go into the
    simulator, and those that are due come out of it to the dispatcher. *)

From S2P Require Import Prelude Bytes Double RingBuffer HashMap Replay PacketTracker ReliableChannel Channel.
From S2P Require Import Fragment Address Rtt Bandwidth Ddos Stats RateLimiter PacketCrypto ConnectToken.
From S2P Require Import Connection Receive Send IndexSet Group Slots Server ConnSafety ServerSafety NetSim.

Module ServerSim.
Import Address Connection Receive Send Server ConnSafety ServerSafety.

Section Sim.
Context `{Crypto.Aead} (blake2b_keyed blake2b_keyed_64 : bytes -> bytes -> bytes)
        (crypto_aead_unlock : bytes -> bytes -> bytes -> bytes -> bytes -> option bytes)
        (alloc : option (Z -> option bytes)).

(** A packet from the socket: unknown senders are rate limited, the others submitted. *)
Definition submit_packet (s : Server) (sim : NetSim.NetworkSimulator) (from : address) (data : bytes)
  : Server * NetSim.NetworkSimulator :=
  let '(ok, s) :=
    match find_slot s from with
    | Some _ => (true, s)
    | None => let '(ok, l) := RateLimiter.allow (limiter s) from (current_time s) in (ok, set_limiter s l)
    end in
  if ok then (s, snd (NetSim.submit sim data from (current_time s))) else (bad_packet s, sim).
Fixpoint submit_packets (s : Server) (sim : NetSim.NetworkSimulator) (l : list (address * bytes))
  : Server * NetSim.NetworkSimulator :=
  match l with
  | [] => (s, sim)
  | (from, data) :: l => let '(s, sim) := submit_packet s sim from data in submit_packets s sim l
  end.
(** [sim_deliver_cb] for each packet that is due. *)
Fixpoint deliver_packets (s : Server) (l : list NetSim.SimPacket) : option Server :=
  match l with
  | [] => Some s
  | p :: l =>
      s ← server_dispatch_packet blake2b_keyed blake2b_keyed_64 crypto_aead_unlock alloc s (NetSim.from p) (NetSim.data p);
      deliver_packets s l
  end.
Definition netudp_server_update_sim (s : Server) (sim : NetSim.NetworkSimulator) (time : double)
    (arrived : list (address * bytes)) : option (Server * NetSim.NetworkSimulator) :=
  if negb (running s) then Some (s, sim)
  else
    let dt := dsub time (current_time s) in
    let s := set_current_time s time in
    let s := set_ddos s (Ddos.update (ddos s) dt) in
    let '(s, sim) := submit_packets s sim arrived in
    let '(l, sim) := NetSim.poll sim time in
    s ← deliver_packets s l;
    s ← update_rest blake2b_keyed s time dt;
    Some (s, sim).
(** A sequence of updates. *)
Fixpoint updates_sim (s : Server) (sim : NetSim.NetworkSimulator) (l : list (double * list (address * bytes)))
  : option (Server * NetSim.NetworkSimulator) :=
  match l with
  | [] => Some (s, sim)
  | (time, arrived) :: l => '(s, sim) ← netudp_server_update_sim s sim time arrived; updates_sim s sim l
  end.
End Sim.

#[local] Hint Resolve fp_kept_refl : core.

Section Safe.
Context `{Crypto.Aead} `{!ConnSafety.AeadBytes} (blake2b_keyed blake2b_keyed_64 : bytes -> bytes -> bytes)
        (crypto_aead_unlock : bytes -> bytes -> bytes -> bytes -> bytes -> option bytes)
        (falloc : Z -> option bytes).
Context (unlock_len : forall key nonce aad mac ct pt,
           crypto_aead_unlock key nonce aad mac ct = Some pt -> length pt = length ct)
        (falloc_ok : forall i, exists b, falloc i = Some b /\ zlen b = NETUDP_MAX_MESSAGE_SIZE).

(** The packets in the simulator are packets the server may be given. *)
Definition sim_ok (sim : NetSim.NetworkSimulator) : Prop :=
  NetSim.wf sim /\ Forall (fun p => packet_ok (NetSim.data p)) (NetSim.contents sim).

Lemma forall_filter {A} (P Q : A -> Prop) `{forall x, Decision (Q x)} (l : list A) : Forall P l -> Forall P (filter Q l).
Proof. induction 1; [done|]. rewrite filter_cons. case_decide; [by constructor|done]. Qed.
Lemma copy_ok p a t : packet_ok p -> packet_ok (NetSim.data (NetSim.copy p a t)).
Proof.
  intros [Hb Hl]. split; [by apply Forall_take|]. unfold NetSim.copy, zlen in *. cbn [NetSim.data].
  rewrite length_take. lia.
Qed.
Lemma submit_ok sim p a t : sim_ok sim -> packet_ok p -> sim_ok (snd (NetSim.submit sim p a t)).
Proof.
  intros [Hw Hc] Hp. destruct (NetSim.submit_accepts sim p a t Hw) as (W & _ & _ & t' & E). split; [done|].
  rewrite E. apply Forall_take, Forall_app. split; [done|]. by apply Forall_replicate, copy_ok.
Qed.
Lemma submit_packet_ok s sim from data : server_wf s -> sim_ok sim -> packet_ok data ->
  good s (submit_packet s sim from data).1 /\ sim_ok (submit_packet s sim from data).2.
Proof.
  intros Hs Hsim Hd. unfold submit_packet. destruct (find_slot s from).
  - split; [by apply good_refl|by apply submit_ok].
  - pose proof (good_limiter s from (current_time s) Hs) as G.
    destruct (RateLimiter.allow _ _ _) as [ok lm]. cbn [snd] in G.
    destruct ok; (split; [|try by apply submit_ok]); [exact G| |exact Hsim].
    exact (good_trans _ _ _ G (good_bad_packet _ (proj1 G))).
Qed.
Lemma submit_packets_ok l : forall s sim,
  server_wf s -> sim_ok sim -> Forall (fun p => packet_ok p.2) l ->
  good s (fst (submit_packets s sim l)) /\ sim_ok (snd (submit_packets s sim l)).
Proof.
  induction l as [|[from data] l IH]; intros s sim Hs Hsim F; cbn [submit_packets]; [by split; [apply good_refl|]|].
  apply Forall_cons_1 in F as [Hd F]. destruct (submit_packet_ok s sim from data Hs Hsim Hd) as [G1 S1].
  destruct (submit_packet s sim from data) as [s1 sim1]. cbn [fst snd] in G1, S1.
  destruct (IH s1 sim1 (proj1 G1) S1 F) as [G2 S2]. split; [|done]. exact (good_trans _ _ _ G1 G2).
Qed.
Lemma deliver_packets_ok l : forall s,
  4 <= zlen (cfg_channels (cfg s)) -> server_wf s -> Forall (fun p => packet_ok (NetSim.data p)) l ->
  exists s', deliver_packets blake2b_keyed blake2b_keyed_64 crypto_aead_unlock (Some falloc) s l = Some s' /\ good s s'.
Proof.
  induction l as [|p l IH]; intros s Hc Hs F; cbn [deliver_packets]; [exists s; split; [done|by apply good_refl]|].
  apply Forall_cons_1 in F as [Hd F].
  destruct (dispatch_ok blake2b_keyed blake2b_keyed_64 crypto_aead_unlock falloc unlock_len falloc_ok s (NetSim.from p) (NetSim.data p) Hc Hs Hd)
    as (s1 & -> & G1). rewrite Some_bind.
  destruct (IH s1) as (s2 & -> & G2); [by destruct G1 as [_ (-> & _)]|apply G1|done|].
  exists s2. split; [done|]. exact (good_trans _ _ _ G1 G2).
Qed.
Lemma update_sim_ok s sim time arrived :
  4 <= zlen (cfg_channels (cfg s)) -> server_wf s -> sim_ok sim -> Forall (fun p => packet_ok p.2) arrived ->
  exists s' sim', netudp_server_update_sim blake2b_keyed blake2b_keyed_64 crypto_aead_unlock (Some falloc) s sim time arrived
    = Some (s', sim') /\ good s s' /\ sim_ok sim'.
Proof.
  intros Hc Hs Hsim Hp. unfold netudp_server_update_sim. case_if; [exists s, sim; by split_and!; try apply good_refl|]. cbv zeta.
  set (s1 := set_ddos _ _). assert (good s s1) as G1 by (split; [|done]; by destruct Hs; split).
  destruct (submit_packets_ok arrived s1 sim (proj1 G1) Hsim Hp) as [G2 [W2 C2]].
  destruct (submit_packets s1 sim arrived) as [s2 sim2]. cbn [fst snd] in *.
  destruct (NetSim.poll_spec sim2 time W2) as (sim3 & -> & W3 & C3 & _).
  pose proof (good_trans _ _ _ G1 G2) as G.
  destruct (deliver_packets_ok (filter (fun p => NetSim.due time p = true) (NetSim.contents sim2)) s2) as (s3 & -> & G3);
    [by destruct G as [_ (-> & _)]|apply G|by apply forall_filter|]. rewrite Some_bind.
  destruct (update_rest_ok blake2b_keyed s3 time (dsub time (current_time s)) (proj1 G3)) as (s4 & -> & G4).
  exists s4, sim3. split; [done|]. split; [exact (good_trans _ _ _ G (good_trans _ _ _ G3 G4))|].
  split; [done|]. rewrite C3. by apply forall_filter.
Qed.

Lemma updates_sim_ok l : forall s sim,
  4 <= zlen (cfg_channels (cfg s)) -> server_wf s -> sim_ok sim -> Forall (fun u => Forall (fun p => packet_ok p.2) u.2) l ->
  exists s' sim', updates_sim blake2b_keyed blake2b_keyed_64 crypto_aead_unlock (Some falloc) s sim l = Some (s', sim')
    /\ good s s' /\ sim_ok sim'.
Proof.
  induction l as [|[time arrived] l IH]; intros s sim Hc Hs Hsim F; cbn [updates_sim].
  { exists s, sim. split_and!; [done|by apply good_refl|done]. }
  apply Forall_cons_1 in F as [Hp F].
  destruct (update_sim_ok s sim time arrived Hc Hs Hsim Hp) as (s1 & sim1 & -> & G1 & S1). rewrite Some_bind.
  destruct (IH s1 sim1) as (s2 & sim2 & -> & G2 & S2); [by destruct G1 as [_ (-> & _)]|apply G1|done|done|].
  exists s2, sim2. split_and!; [done| |done]. exact (good_trans _ _ _ G1 G2).
Qed.

(** A started server behind the network simulator stays safe: whatever the
    simulator loses, delays, doubles or reorders, and however it is configured, every
    update returns without an access outside an object, the invariant of the server
    holds after it, and the simulator's queue stays in its array. *)
Theorem simulated_server_stays_safe config time n sim_cfg seed queue updates :
  0 < n -> 4 <= zlen (cfg_channels config) -> zlen queue = NetSim.CAPACITY ->
  Forall (fun u => Forall (fun p => packet_ok p.2) u.2) updates ->
  exists s sim, updates_sim blake2b_keyed blake2b_keyed_64 crypto_aead_unlock (Some falloc)
      (netudp_server_start (netudp_server_create config time) n)
      (NetSim.init (NetSim.mkSim sim_cfg queue 0 0 0 0) sim_cfg seed) updates = Some (s, sim)
    /\ server_wf s /\ max_clients s = n /\ NetSim.wf sim.
Proof.
  intros Hn Hc Hq Hu. set (s0 := netudp_server_start _ _).
  assert (cfg s0 = config /\ max_clients s0 = n) as (E1 & E2).
  { unfold s0, netudp_server_start. by rewrite (proj2 (Z.leb_gt n 0)) by done. }
  destruct (updates_sim_ok updates s0 (NetSim.init (NetSim.mkSim sim_cfg queue 0 0 0 0) sim_cfg seed))
    as (s & sim & E & [W (_ & F2 & _)] & [S _]); [by rewrite E1|by apply started_wf| |done|].
  { split; [|by apply Forall_nil_2]. split; [exact Hq|done|cbn; unfold NetSim.CAPACITY; lia|done]. }
  exists s, sim. split_and!; [done|done|congruence|done].
Qed.
End Safe.

(** Half of the packets are lost and a quarter of the others doubled. *)
Definition demo_lossy : NetSim.NetSimConfig :=
  NetSim.mkConfig (f_of_Z 10) (f_of_Z 40) (f_of_Z 5) (f_of_Z 50) (f_of_Z 25) (f_of_Z 10) (f_of_Z 0).
Definition demo_updates : list (double * list (address * bytes)) :=
  [(d_of_Z 1, [(demo_client, [20; 0; 0; 9; 9]); (demo_client, [4; 1; 2])]); (d_of_Z 2, [])].
Lemma simulated_server_stays_safe_witness :
  exists s sim, updates_sim (H := Crypto.none_aead) demo_hash demo_hash Token.demo_unlock (Some demo_alloc)
      (netudp_server_start (netudp_server_create demo_config d0) 2)
      (NetSim.init (NetSim.mkSim demo_lossy (replicate (Z.to_nat NetSim.CAPACITY) (NetSim.mkPacket [] address_zero d0)) 0 0 0 0) demo_lossy 12345)
      demo_updates = Some (s, sim)
    /\ server_wf s /\ max_clients s = 2 /\ NetSim.wf sim.
Proof.
  apply (simulated_server_stays_safe (H := Crypto.none_aead) demo_hash demo_hash Token.demo_unlock demo_alloc
    demo_unlock_len demo_alloc_ok).
  - reflexivity.
  - vm_compute. discriminate.
  - by vm_compute.
  - repeat constructor; vm_compute; discriminate.
Defined.

End ServerSim.
