(* ===== verification/ServerIo.v ===== *)
(** The server on its sockets (src/src/server.cpp: the socket part of
    netudp_server_create and netudp_server_destroy, the receive loops of
    netudp_server_update, server_send_packet and the pipeline threads).

    [Server] is given the packets that arrived; here they come from the kernel.  The
    theorems say that an update without the pipeline reads its socket dry in order, and
    one with it the queue, and hands the server exactly those packets, that no descriptor
    leaks, and that the pipeline's threads carry packets between the socket and the server
    unchanged.  The pipeline does not read the additional sockets
    ([additional_sockets_unread]). *)

From stdpp Require Import gmap.
From S2P Require Import Prelude Bytes Double RingBuffer HashMap Replay PacketTracker ReliableChannel Channel.
From S2P Require Import Fragment Address Rtt Bandwidth Ddos Stats RateLimiter PacketCrypto ConnectToken.
From S2P Require Import Connection Receive Send IndexSet Group Slots Server ConnSafety ServerSafety Pipeline Socket.

Module ServerIo.
Import Address Connection Receive Send Server ConnSafety ServerSafety.

(** ** State *)

Record IOWorker : Type := mkIOWorker { w_socket : Socket.Socket; w_pkts : list Socket.SocketPacket; thread_index : Z }.
Record Sockets : Type := mkSockets { num_io_threads : Z; primary : Socket.Socket; io_workers : list IOWorker }.

Definition empty_packet : Socket.SocketPacket :=
  Socket.mkSocketPacket address_zero (replicate (Z.to_nat Socket.NETUDP_MAX_PACKET_ON_WIRE) 0) 0.
Definition batch_pkts : list Socket.SocketPacket := replicate (Z.to_nat Socket.kSocketBatchMax) empty_packet.

(** ** Creation and destruction *)

Definition clamp_threads (num_threads : Z) : Z :=
  let n := if num_threads <=? 0 then 1 else num_threads in
  if 16 <? n then 16 else n.
Definition BUFFER_SIZE : Z := 4 * 1024 * 1024.
Definition no_socket : Socket.Socket := Socket.mkSocket Socket.NETUDP_INVALID_SOCKET.

Section Lifecycle.
Context {K : Type} `{!Socket.Kernel K}.

Definition destroy_workers (k : K) (ws : list IOWorker) : K :=
  foldl (fun k w => (Socket.socket_destroy k (w_socket w)).2) k ws.
(** [n] more sockets after those of [done]; on an error those are closed again. *)
Fixpoint create_workers (n : nat) (k : K) (bind_addr : address) (flags : Z) (done : list IOWorker)
  : option (list IOWorker) * K :=
  match n with
  | O => (Some done, k)
  | S n =>
      let '(rc, sock, k) := Socket.socket_create k no_socket bind_addr BUFFER_SIZE BUFFER_SIZE flags in
      if negb (rc =? NETUDP_OK) then (None, destroy_workers k done)
      else create_workers n k bind_addr flags (done ++ [mkIOWorker sock batch_pkts (zlen done + 1)])
  end.
(** [alloc_workers] says whether [new IOWorker[...]] succeeds. *)
Definition open_sockets (k : K) (bind_addr : address) (config_threads : Z) (alloc_workers : bool)
  : option Sockets * K :=
  let num_threads := clamp_threads config_threads in
  let sock_flags := if 1 <? num_threads then Socket.kSocketFlagReusePort else 0 in
  let '(rc, sock, k) := Socket.socket_create k no_socket bind_addr BUFFER_SIZE BUFFER_SIZE sock_flags in
  if negb (rc =? NETUDP_OK) then (None, k)
  else if 1 <? num_threads then
    if negb alloc_workers then (None, (Socket.socket_destroy k sock).2)
    else
      let '(ws, k) := create_workers (Z.to_nat (num_threads - 1)) k bind_addr sock_flags [] in
      match ws with
      | None => (None, (Socket.socket_destroy k sock).2)
      | Some ws => (Some (mkSockets num_threads sock ws), k)
      end
  else (Some (mkSockets num_threads sock []), k).
(** The whole of [netudp_server_create] on an address string. *)
Definition create_server (k : K) (addr : list Z) (config : Config) (config_threads : Z) (time : double)
    (alloc_workers : bool) : option (Server * Sockets) * K :=
  let '(rc, bind_addr) := netudp_parse_address addr in
  if negb (rc =? NETUDP_OK) then (None, k)
  else
    let '(ss, k) := open_sockets k bind_addr config_threads alloc_workers in
    (match ss with None => None | Some ss => Some (netudp_server_create config time, ss) end, k).
(** [netudp_server_destroy]: a running server is stopped, then its sockets are closed. *)
Definition close_sockets (k : K) (ss : Sockets) : K :=
  let k := destroy_workers k (io_workers ss) in (Socket.socket_destroy k (primary ss)).2.
Definition destroy_server (k : K) (s : Server) (ss : Sockets) : Server * K :=
  let s := if running s then netudp_server_stop s else s in (s, close_sockets k ss).
End Lifecycle.

(** The descriptors of a server. *)
Definition worker_handles (ws : list IOWorker) : list Z := Socket.handle ∘ w_socket <$> ws.
Definition handles (ss : Sockets) : list Z := Socket.handle (primary ss) :: worker_handles (io_workers ss).

Lemma clamp_range n : 1 <= clamp_threads n <= 16.
Proof. unfold clamp_threads. cbv zeta. destruct (n <=? 0) eqn:E; case_if; bool_facts; lia. Qed.

Section NoLeak.
Context {K : Type} `{Socket.KernelLaws K}.

Lemma destroy_opened k sock : Socket.handle sock <> Socket.NETUDP_INVALID_SOCKET ->
  Socket.opened (Socket.socket_destroy k sock).2 = Socket.opened k ∖ {[Socket.handle sock]}.
Proof.
  intros Hh. destruct (Socket.socket_destroy k sock) as [sock' k'] eqn:E. apply Socket.destroy_outcome in E as [_ E].
  cbn [snd]. rewrite E.
  by rewrite (proj2 (Z.eqb_neq _ _)).
Qed.
Lemma destroy_workers_opened ws : forall k, Forall (fun h => h <> -1) (worker_handles ws) ->
  Socket.opened (destroy_workers k ws) = Socket.opened k ∖ list_to_set (worker_handles ws).
Proof.
  induction ws as [|w ws IH]; intros k F; [cbn; set_solver|].
  apply Forall_cons_1 in F as [Hw F]. change (destroy_workers k (w :: ws)) with (destroy_workers (Socket.socket_destroy k (w_socket w)).2 ws).
  rewrite IH, destroy_opened by done. cbn. set_solver.
Qed.
(** The sockets opened so far, over what was open before ([base]). *)
Definition holds_sockets (base : gset Z) (k : K) (hs : list Z) : Prop :=
  NoDup hs /\ Forall (fun h => h <> -1) hs /\ Forall (fun h => h ∉ base) hs /\
  Socket.opened k = list_to_set hs ∪ base.
Lemma create_holds base k hs out a fl rc sock k' :
  holds_sockets base k hs -> Socket.socket_create k out a BUFFER_SIZE BUFFER_SIZE fl = (rc, sock, k') ->
  rc = NETUDP_OK /\ holds_sockets base k' (hs ++ [Socket.handle sock]) \/ rc <> NETUDP_OK /\ Socket.opened k' = Socket.opened k.
Proof.
  intros (N & V & B & O) E. apply Socket.create_outcome in E as [(-> & Hh & Hn & O' & _)|(-> & _ & O')]; [|by right].
  left. split; [done|]. rewrite O in Hn. split_and!.
  - apply list.NoDup_app. split_and!; [done| |apply NoDup_singleton]. intros x Hx ->%list_elem_of_singleton. set_solver.
  - apply Forall_app. by split; [|constructor].
  - apply Forall_app. split; [done|constructor; [set_solver|done]].
  - rewrite O', O, list_to_set_app_L. set_solver.
Qed.
Lemma create_workers_holds base a fl hd n : forall k done r k',
  holds_sockets base k (hd :: worker_handles done) -> create_workers n k a fl done = (r, k') ->
  match r with
  | Some ws => holds_sockets base k' (hd :: worker_handles ws) /\ length ws = (length done + n)%nat
  | None => Socket.opened k' = {[hd]} ∪ base
  end.
Proof.
  induction n as [|n IH]; intros k done r k' H1 E; cbn [create_workers] in E.
  { injection E as <- <-. split; [done|lia]. }
  destruct (Socket.socket_create _ _ _ _ _ _) as [[rc sock] k1] eqn:E1.
  destruct (create_holds _ _ _ _ _ _ _ _ _ H1 E1) as [[-> H2]|[Hrc O]].
  - cbn [negb Z.eqb] in E. apply IH in E; [|unfold worker_handles in *; by rewrite fmap_app].
    destruct r as [ws|]; [|done]. destruct E as [? El]. split; [done|]. rewrite length_app in El. cbn in El. lia.
  - rewrite (proj2 (Z.eqb_neq _ _)) in E by done. injection E as <- <-.
    destruct H1 as (N & V & B & O1). apply Forall_cons_1 in V as [_ V].
    rewrite destroy_workers_opened by done. rewrite O, O1. apply list.NoDup_cons in N as [N _].
    apply Forall_cons_1 in B as [_ B]. rewrite list.Forall_forall in B. cbn. set_solver.
Qed.
(** Success leaves exactly the sockets of the server open in addition; failure none. *)
Lemma open_sockets_spec k a n alloc r k' : open_sockets k a n alloc = (r, k') ->
  match r with
  | Some ss => holds_sockets (Socket.opened k) k' (handles ss) /\ num_io_threads ss = clamp_threads n /\
      zlen (handles ss) = num_io_threads ss
  | None => Socket.opened k' = Socket.opened k
  end.
Proof.
  unfold open_sockets. set (base := Socket.opened k). destruct (Socket.socket_create _ _ _ _ _ _) as [[rc sock] k1] eqn:E1.
  assert (holds_sockets base k []) as H0 by (split_and!; [apply base.NoDup_nil_2|done|done|set_solver]).
  destruct (create_holds _ _ _ _ _ _ _ _ _ H0 E1) as [[-> H1]|[Hrc O]].
  2: { rewrite (proj2 (Z.eqb_neq _ _)) by done. by intros [= <- <-]. }
  cbn [app] in H1. change (negb (NETUDP_OK =? NETUDP_OK)) with false. cbv iota.
  assert (forall k2, Socket.opened k2 = {[Socket.handle sock]} ∪ base -> Socket.opened (Socket.socket_destroy k2 sock).2 = base) as Hd.
  { intros k2 O2. destruct H1 as (_ & V & B & _). apply Forall_cons_1 in V as [V _], B as [B _].
    rewrite destroy_opened, O2 by done. set_solver. }
  case_if.
  - destruct alloc; cbn [negb].
    2: { intros [= <- <-]. apply Hd. destruct H1 as (_ & _ & _ & ->). cbn. set_solver. }
    destruct (create_workers _ _ _ _ _) as [ws k2] eqn:E2. apply (create_workers_holds base _ _ (Socket.handle sock)) in E2; [|done].
    destruct ws as [ws|]; intros [= <- <-]; [|by apply Hd]. destruct E2 as [H2 L2]. split_and!; [done..|].
    unfold handles, zlen, worker_handles. cbn [primary io_workers length num_io_threads]. rewrite length_fmap, L2. cbn [length]. lia.
  - intros [= <- <-]. split_and!; [done..|]. change (zlen (handles _)) with 1. cbn [num_io_threads].
    pose proof (clamp_range n). lia.
Qed.

(** C23. No descriptor leaks: whatever fails while a server is created (the address, a
    socket, an allocation, the fifth of eight sockets), the process has as many open
    descriptors as before; a created server has one open socket per I/O thread, all
    different and none of them in use before; and destroying the server closes exactly
    these. *)
Theorem server_sockets_balanced (k : K) (addr : list Z) (config : Config) (threads : Z) (time : double) (alloc : bool) :
  match create_server k addr config threads time alloc with
  | (None, k') => Socket.opened k' = Socket.opened k
  | (Some (s, ss), k') =>
      NoDup (handles ss) /\ 1 <= num_io_threads ss <= 16 /\ zlen (handles ss) = num_io_threads ss /\
      Forall (fun h => h ∉ Socket.opened k) (handles ss) /\
      Socket.opened k' = list_to_set (handles ss) ∪ Socket.opened k /\
      Socket.opened (destroy_server k' s ss).2 = Socket.opened k
  end.
Proof.
  unfold create_server. destruct (netudp_parse_address addr) as [rc a]. case_if; [done|].
  destruct (open_sockets k a threads alloc) as [r k'] eqn:E1. apply open_sockets_spec in E1.
  destruct r as [ss|]; [|done]. destruct E1 as ((N & V & B & O) & T & L).
  pose proof (clamp_range threads).
  split_and!; [done|lia|lia|done..|]. cbn [destroy_server snd]. unfold close_sockets. unfold handles in *.
  apply Forall_cons_1 in V as [Vp V]. rewrite destroy_opened, destroy_workers_opened, O by done.
  rewrite list.Forall_forall in B. cbn. set_solver.
Qed.
End NoLeak.

(** Three sockets on a fresh kernel, opened and closed again. *)
Definition any_address : list Z := [48; 46; 48; 46; 48; 46; 48; 58; 55; 55; 55; 55].  (** "0.0.0.0:7777" *)
Lemma server_sockets_balanced_witness :
  exists s ss k', create_server (Socket.fifo0 true) any_address demo_config 3 d0 true = (Some (s, ss), k') /\
    handles ss = [3; 4; 5] /\ Socket.opened (destroy_server k' s ss).2 = Socket.opened (Socket.fifo0 true).
Proof.
  pose proof (server_sockets_balanced (Socket.fifo0 true) any_address demo_config 3 d0 true) as T.
  destruct (create_server _ _ _ _ _ _) as [[[s ss]|] k'] eqn:E; [|by vm_compute in E].
  exists s, ss, k'. split; [done|]. split; [|apply T].
  change (handles ss) with (handles (snd (default (s, ss) (fst (Some (s, ss), k'))))). rewrite <- E. by vm_compute.
Defined.

(** * Receiving *)

Section Update.
Context {K : Type} `{!Socket.Kernel K}.
Context `{HA : Crypto.Aead} (blake2b_keyed blake2b_keyed_64 : bytes -> bytes -> bytes)
        (crypto_aead_unlock : bytes -> bytes -> bytes -> bytes -> bytes -> option bytes)
        (alloc : option (Z -> option bytes)).
Abbreviation recv_packet := (receive_packet blake2b_keyed blake2b_keyed_64 crypto_aead_unlock alloc).
Abbreviation recv_packets := (receive_packets blake2b_keyed blake2b_keyed_64 crypto_aead_unlock alloc).
Abbreviation dispatch_packet := (server_dispatch_packet blake2b_keyed blake2b_keyed_64 crypto_aead_unlock alloc).

(** A packet from one of the additional sockets: everyone is rate limited there. *)
Definition receive_limited (s : Server) (from : address) (data : bytes) : option Server :=
  let '(ok, l) := RateLimiter.allow (limiter s) from (current_time s) in
  let s := set_limiter s l in
  if ok then dispatch_packet s from data else Some (bad_packet s).

(** The additional sockets in turn. *)
Fixpoint drain_workers (fuel : positive) (ws : list IOWorker) (s : Server) (k : K)
  : option (Server * list IOWorker * K) :=
  match ws with
  | [] => Some (s, [], k)
  | w :: ws =>
      '(s, pkts, k) ← Socket.drain receive_limited fuel (w_socket w) s (w_pkts w) k;
      '(s, ws, k) ← drain_workers fuel ws s k;
      Some (s, mkIOWorker (w_socket w) pkts (thread_index w) :: ws, k)
  end.

(** A server with its sockets; [recv_queue] and [send_queue] are there in pipeline mode. *)
Record Io : Type := mkIo {
  srv : Server; sockets : Sockets; pkts : list Socket.SocketPacket;
  recv_queue : option Pipeline.queue; send_queue : option Pipeline.queue }.
Definition packet_pair (p : Pipeline.packet) : address * bytes := (Pipeline.addr p, Pipeline.data p).

(** The packets of one update: from the queue in pipeline mode, else from the sockets. *)
Definition receive_all (fuel : positive) (io : Io) (s : Server) (k : K) : option (Io * K) :=
  match recv_queue io with
  | Some q =>
      '(l, q) ← Pipeline.drain_recv 4096 q;
      s ← recv_packets s (packet_pair <$> l);
      Some (mkIo s (sockets io) (pkts io) (Some q) (send_queue io), k)
  | None =>
      '(s, b, k) ← Socket.drain recv_packet fuel (primary (sockets io)) s (pkts io) k;
      '(s, ws, k) ← drain_workers fuel (io_workers (sockets io)) s k;
      Some (mkIo s (mkSockets (num_io_threads (sockets io)) (primary (sockets io)) ws) b None (send_queue io), k)
  end.
Definition with_srv (io : Io) (s : Server) : Io := mkIo s (sockets io) (pkts io) (recv_queue io) (send_queue io).
(** The connections are served by the calling thread, as with up to two I/O threads; from
    three on the connection workers do it (Workers). *)
Definition update_io (fuel : positive) (io : Io) (time : double) (k : K) : option (Io * K) :=
  let s := srv io in
  if negb (running s) then Some (io, k)
  else
    let dt := dsub time (current_time s) in
    let s := set_current_time s time in
    let s := set_ddos s (Ddos.update (ddos s) dt) in
    '(io, k) ← receive_all fuel io s k;
    s ← update_rest blake2b_keyed (srv io) time dt;
    Some (with_srv io s, k).

(** ** The threads of the pipeline *)

(** [netudp_server_start]: from two I/O threads on, the queues are made. *)
Definition start_pipeline (io : Io) : Io :=
  if 2 <=? num_io_threads (sockets io)
  then mkIo (srv io) (sockets io) (pkts io) (Some Pipeline.empty_queue) (Some Pipeline.empty_queue)
  else io.
(** One turn of [pipeline_recv_thread]. *)
Definition recv_thread_turn (k : K) (sock : Socket.Socket) (b : list Socket.SocketPacket) (q : Pipeline.queue)
  : option (list Socket.SocketPacket * Pipeline.queue * K) :=
  '(n, b, k) ← Socket.socket_recv_batch k sock b Socket.kSocketBatchMax Socket.NETUDP_MAX_PACKET_ON_WIRE;
  if n <=? 0 then Some (b, q, k)
  else
    q ← Pipeline.pipeline_recv_batch q
          ((fun p => let '(a, d) := Socket.received p in Pipeline.mkPacket a d) <$> take (Z.to_nat n) b);
    Some (b, q, k).
(** One turn of [pipeline_send_thread]; the result of the send is not looked at. *)
Definition out_packet (p : Pipeline.packet) : Socket.SocketPacket :=
  Socket.mkSocketPacket (Pipeline.addr p)
    (Socket.poke (replicate (Z.to_nat Socket.NETUDP_MAX_PACKET_ON_WIRE) 0) 0 (Pipeline.data p)) (zlen (Pipeline.data p)).
Definition send_thread_turn (k : K) (sock : Socket.Socket) (q : Pipeline.queue) : option (Pipeline.queue * K) :=
  '(l, q) ← Pipeline.send_drain Pipeline.kSocketBatchMax q;
  if 0 <? zlen l then
    '(_, k) ← Socket.socket_send_batch k sock (out_packet <$> l) (zlen l);
    Some (q, k)
  else Some (q, k).
(** [server_send_packet]: [cached_sa] is the destination's socket address. *)
Definition server_send_packet (k : K) (io : Io) (dest : address) (cached_sa data : bytes) : option (Io * K) :=
  match send_queue io with
  | Some q =>
      '(_, q) ← Pipeline.send_push q (Pipeline.mkPacket dest data);
      Some (mkIo (srv io) (sockets io) (pkts io) (recv_queue io) (Some q), k)
  | None => Some (io, (Socket.socket_send_raw k (primary (sockets io)) cached_sa data).2)
  end.

(** What an update is to do with given packets, those of the primary socket and those of
    the others: [netudp_server_update] when there are no others. *)
Definition update_from (s : Server) (time : double) (arrived extra : list (address * bytes)) : option Server :=
  if negb (running s) then Some s
  else
    let dt := dsub time (current_time s) in
    let s := set_current_time s time in
    let s := set_ddos s (Ddos.update (ddos s) dt) in
    s ← recv_packets s arrived;
    s ← Socket.handle_all receive_limited s extra;
    update_rest blake2b_keyed s time dt.
Lemma update_from_primary s time arrived :
  update_from s time arrived [] = netudp_server_update blake2b_keyed blake2b_keyed_64 crypto_aead_unlock alloc s time arrived.
Proof.
  unfold update_from, netudp_server_update. case_if; [done|]. cbv zeta. by destruct (recv_packets _ _).
Qed.
Lemma handle_all_receive l : forall s, Socket.handle_all recv_packet s l = recv_packets s l.
Proof.
  induction l as [|[from d] l IH]; intros s; cbn; [done|]. destruct (recv_packet s from d) as [s1|]; [|done]. apply IH.
Qed.
End Update.

Section Drained.
Context {K : Type} `{Socket.Quiet K} `{HA : Crypto.Aead} (blake2b_keyed blake2b_keyed_64 : bytes -> bytes -> bytes)
        (crypto_aead_unlock : bytes -> bytes -> bytes -> bytes -> bytes -> option bytes)
        (alloc : option (Z -> option bytes)).
Abbreviation recv_limited := (receive_limited blake2b_keyed blake2b_keyed_64 crypto_aead_unlock alloc).
Abbreviation drain_extra := (drain_workers blake2b_keyed blake2b_keyed_64 crypto_aead_unlock alloc).
Abbreviation MAXB := Socket.NETUDP_MAX_PACKET_ON_WIRE.

(** The packets waiting at a socket, as the library reads them. *)
Definition waiting (k : K) (h : Z) : list (address * bytes) := Socket.arrival MAXB <$> Socket.queue k h.
Definition buffers_ok (b : list Socket.SocketPacket) : Prop := zlen b = Socket.kSocketBatchMax /\ Socket.buffers MAXB b.
Definition enough (fuel : positive) (k : K) (h : Z) : Prop := zlen (Socket.queue k h) / Socket.kSocketBatchMax < Z.pos fuel.

(** Only the queues of the sockets in question matter. *)
Lemma waiting_same k k1 hs : (forall g, g ∈ hs -> Socket.queue k1 g = Socket.queue k g) -> hs ≫= waiting k1 = hs ≫= waiting k.
Proof.
  induction hs as [|g l IH]; intros E; [done|]. rewrite !bind_cons, IH by set_solver. unfold waiting. by rewrite E by set_solver.
Qed.
Lemma enough_same k k1 fuel hs : (forall g, g ∈ hs -> Socket.queue k1 g = Socket.queue k g) ->
  Forall (enough fuel k) hs -> Forall (enough fuel k1) hs.
Proof. rewrite !list.Forall_forall. intros E F g Hg. unfold enough. rewrite E by done. by apply F. Qed.

Lemma drain_workers_exact fuel ws : forall s k s',
  NoDup (worker_handles ws) -> Forall (fun h => h <> -1) (worker_handles ws) -> Forall (fun w => buffers_ok (w_pkts w)) ws ->
  Forall (enough fuel k) (worker_handles ws) ->
  Socket.handle_all recv_limited s (worker_handles ws ≫= waiting k) = Some s' ->
  exists ws' k', drain_extra fuel ws s k = Some (s', ws', k') /\ worker_handles ws' = worker_handles ws /\
    Forall (fun h => Socket.queue k' h = []) (worker_handles ws) /\
    (forall g, g ∉ worker_handles ws -> Socket.queue k' g = Socket.queue k g).
Proof.
  induction ws as [|w ws IH]; intros s k s' N V B F E.
  { cbn in E. injection E as <-. exists [], k. by split_and!. }
  apply list.NoDup_cons in N as [Nw N]. apply Forall_cons_1 in V as [Vw V], B as [[Lw Bw] B], F as [Fw F].
  cbn [worker_handles] in E. change (worker_handles (w :: ws)) with (Socket.handle (w_socket w) :: worker_handles ws) in *.
  rewrite bind_cons, Socket.handle_all_app in E. set (h := Socket.handle (w_socket w)) in *.
  pose proof (Socket.drain_exact recv_limited (w_socket w) fuel s (w_pkts w) k Vw Lw Bw Fw) as D.
  change (Socket.arrival MAXB <$> Socket.queue k (Socket.handle (w_socket w))) with (waiting k h) in D.
  destruct (Socket.handle_all _ s _) as [s1|]; [|done]. rewrite Some_bind in E.
  destruct D as (b & k1 & Ed & _ & _ & Q1 & O1). cbn [ServerIo.drain_workers]. rewrite Ed, Some_bind.
  assert (forall g, g ∈ worker_handles ws -> Socket.queue k1 g = Socket.queue k g) as O2 by (intros g Hg; apply O1; by intros ->).
  destruct (IH s1 k1 s') as (ws' & k' & -> & L & Q & O); [done..| | |].
  { by apply (enough_same k). }
  { by rewrite (waiting_same k). }
  rewrite Some_bind. eexists _, k'. split; [done|]. split; [by rewrite <- L|]. split.
  - constructor; [|done]. rewrite O by done. done.
  - intros g Hg. rewrite O, O1 by set_solver. done.
Qed.

(** The sockets of an open server, each with 64 buffers of the size of a packet. *)
Record io_ok (io : Io) : Prop := {
  io_nodup : NoDup (handles (sockets io));
  io_valid : Forall (fun h => h <> -1) (handles (sockets io));
  io_pkts : buffers_ok (pkts io);
  io_wpkts : Forall (fun w => buffers_ok (w_pkts w)) (io_workers (sockets io)) }.
Abbreviation upd_io := (update_io blake2b_keyed blake2b_keyed_64 crypto_aead_unlock alloc).
Abbreviation upd_from := (update_from blake2b_keyed blake2b_keyed_64 crypto_aead_unlock alloc).

Lemma update_io_exact fuel io time k s' :
  io_ok io -> recv_queue io = None -> running (srv io) = true -> Forall (enough fuel k) (handles (sockets io)) ->
  upd_from (srv io) time (waiting k (Socket.handle (primary (sockets io))))
    (worker_handles (io_workers (sockets io)) ≫= waiting k) = Some s' ->
  exists io' k', upd_io fuel io time k = Some (io', k') /\ srv io' = s' /\ handles (sockets io') = handles (sockets io) /\
    Forall (fun h => Socket.queue k' h = []) (handles (sockets io)).
Proof.
  intros [N V [Lp Bp] Bw] Hq Hr F. unfold ServerIo.update_from, ServerIo.update_io. rewrite Hr. cbn [negb]. cbv zeta.
  set (s0 := set_ddos _ _). set (h := Socket.handle (primary (sockets io))) in *. unfold handles in *. fold h in N, V, F |- *.
  apply list.NoDup_cons in N as [Nh N]. apply Forall_cons_1 in V as [Vh V], F as [Fh F].
  pose proof (Socket.drain_exact (receive_packet blake2b_keyed blake2b_keyed_64 crypto_aead_unlock alloc)
    (primary (sockets io)) fuel s0 (pkts io) k Vh Lp Bp Fh) as D. rewrite handle_all_receive in D.
  change (Socket.arrival MAXB <$> Socket.queue k (Socket.handle (primary (sockets io)))) with (waiting k h) in D.
  destruct (receive_packets _ _ _ _ s0 _) as [s1|]; [|done]. rewrite Some_bind.
  destruct D as (b & k1 & Ed & _ & _ & Q1 & O1). unfold receive_all. rewrite Hq, Ed, Some_bind.
  destruct (Socket.handle_all _ s1 _) as [s2|] eqn:E2; [|done]. rewrite Some_bind. intros E3.
  assert (forall g, g ∈ worker_handles (io_workers (sockets io)) -> Socket.queue k1 g = Socket.queue k g) as O2
    by (intros g Hg; apply O1; by intros ->).
  destruct (drain_workers_exact fuel (io_workers (sockets io)) s1 k1 s2) as (ws' & k' & -> & L & Q & O); [done..| | |].
  { by apply (enough_same k). }
  { by rewrite (waiting_same k). }
  rewrite !Some_bind. cbn [srv]. rewrite E3, Some_bind. eexists _, k'. split; [done|]. split; [done|]. split; [unfold handles; cbn [sockets primary io_workers with_srv]; by rewrite L|].
  constructor; [by rewrite O|done].
Qed.
End Drained.

(** * An update from the sockets *)

#[local] Hint Resolve fp_kept_refl : core.

Section Safe.
Context {K : Type} `{Socket.Quiet K} `{HA : Crypto.Aead} `{!ConnSafety.AeadBytes} (blake2b_keyed blake2b_keyed_64 : bytes -> bytes -> bytes)
        (crypto_aead_unlock : bytes -> bytes -> bytes -> bytes -> bytes -> option bytes)
        (falloc : Z -> option bytes).
Context (unlock_len : forall key nonce aad mac ct pt,
           crypto_aead_unlock key nonce aad mac ct = Some pt -> length pt = length ct)
        (falloc_ok : forall i, exists b, falloc i = Some b /\ zlen b = NETUDP_MAX_MESSAGE_SIZE).

Lemma receive_limited_ok s from data :
  4 <= zlen (cfg_channels (cfg s)) -> server_wf s -> packet_ok data ->
  exists s', receive_limited blake2b_keyed blake2b_keyed_64 crypto_aead_unlock (Some falloc) s from data = Some s' /\ good s s'.
Proof.
  intros Hc Hs Hd. unfold receive_limited. pose proof (good_limiter s from (current_time s) Hs) as G1.
  destruct (RateLimiter.allow _ _ _) as [ok l]. cbn [snd] in G1.
  destruct ok.
  - destruct (dispatch_ok blake2b_keyed blake2b_keyed_64 crypto_aead_unlock falloc unlock_len falloc_ok (set_limiter s l) from data Hc (proj1 G1) Hd)
      as (s' & -> & G2). exists s'. split; [done|]. exact (good_trans _ _ _ G1 G2).
  - eexists. split; [done|]. eapply good_trans; [exact G1|]. apply good_bad_packet, G1.
Qed.
Lemma receive_limited_all_ok l : forall s,
  4 <= zlen (cfg_channels (cfg s)) -> server_wf s -> Forall (fun p => packet_ok p.2) l ->
  exists s', Socket.handle_all (receive_limited blake2b_keyed blake2b_keyed_64 crypto_aead_unlock (Some falloc)) s l = Some s' /\ good s s'.
Proof.
  induction l as [|[from data] l IH]; intros s Hc Hs Hl; cbn [Socket.handle_all]; [exists s; split; [done|by apply good_refl]|].
  apply Forall_cons_1 in Hl as [Hd Hl].
  destruct (receive_limited_ok s from data Hc Hs Hd) as (s1 & -> & G1). rewrite Some_bind.
  destruct (IH s1) as (s2 & -> & G2); [by destruct G1 as [_ (-> & _)]|apply G1|done|].
  exists s2. split; [done|]. exact (good_trans _ _ _ G1 G2).
Qed.
Lemma update_from_ok s time arrived extra :
  4 <= zlen (cfg_channels (cfg s)) -> server_wf s -> Forall (fun p => packet_ok p.2) arrived -> Forall (fun p => packet_ok p.2) extra ->
  exists s', update_from blake2b_keyed blake2b_keyed_64 crypto_aead_unlock (Some falloc) s time arrived extra = Some s' /\ good s s'.
Proof.
  intros Hc Hs Ha He. unfold update_from. case_if; [exists s; split; [done|by apply good_refl]|]. cbv zeta.
  set (s1 := set_ddos _ _). assert (good s s1) as G1 by (split; [|done]; by destruct Hs; split).
  destruct (receive_packets_ok blake2b_keyed blake2b_keyed_64 crypto_aead_unlock falloc unlock_len falloc_ok arrived s1 Hc (proj1 G1) Ha)
    as (s2 & -> & G2). rewrite Some_bind. pose proof (good_trans _ _ _ G1 G2) as G.
  destruct (receive_limited_all_ok extra s2) as (s3 & -> & G3); [by destruct G as [_ (-> & _)]|apply G|done|]. rewrite Some_bind.
  destruct (update_rest_ok blake2b_keyed s3 time (dsub time (current_time s)) (proj1 G3)) as (s4 & -> & G4).
  exists s4. split; [done|]. exact (good_trans _ _ _ G (good_trans _ _ _ G3 G4)).
Qed.

(** The sockets of a server whose pipeline has no queues (they could not be allocated) are
    all read in one update: those of the additional sockets under the rate limit. *)
Lemma update_every_socket fuel io time (k : K) :
  4 <= zlen (cfg_channels (cfg (srv io))) -> server_wf (srv io) -> running (srv io) = true ->
  io_ok io -> recv_queue io = None -> Forall (enough fuel k) (handles (sockets io)) ->
  Forall (fun h => Forall (fun p => packet_ok p.2) (waiting k h)) (handles (sockets io)) ->
  exists io' k',
    update_io blake2b_keyed blake2b_keyed_64 crypto_aead_unlock (Some falloc) fuel io time k = Some (io', k') /\
    update_from blake2b_keyed blake2b_keyed_64 crypto_aead_unlock (Some falloc) (srv io) time
      (waiting k (Socket.handle (primary (sockets io)))) (worker_handles (io_workers (sockets io)) ≫= waiting k) = Some (srv io') /\
    server_wf (srv io') /\ Forall (fun h => Socket.queue k' h = []) (handles (sockets io)).
Proof.
  intros Hc Hs Hr Hio Hq He Hp. unfold handles in Hp at 1. apply Forall_cons_1 in Hp as [Hp Hw].
  assert (Forall (fun p => packet_ok p.2) (worker_handles (io_workers (sockets io)) ≫= waiting k)) as Hw'.
  { induction Hw as [|h l Hh _ IH]; [by apply Forall_nil_2|]. rewrite bind_cons. by apply Forall_app. }
  destruct (update_from_ok (srv io) time _ _ Hc Hs Hp Hw') as (s' & Eu & G).
  destruct (update_io_exact blake2b_keyed blake2b_keyed_64 crypto_aead_unlock (Some falloc) fuel io time k s' Hio Hq Hr He Eu)
    as (io' & k' & E & <- & Eh & Q).
  exists io', k'. split_and!; [done..|apply G|done].
Qed.
(** In pipeline mode the packets are those of the queue, and no socket is touched. *)
Lemma update_from_queue fuel io time (k : K) q l s' :
  running (srv io) = true -> recv_queue io = Some q -> Pipeline.represents q l ->
  netudp_server_update blake2b_keyed blake2b_keyed_64 crypto_aead_unlock (Some falloc) (srv io) time (packet_pair <$> l) = Some s' ->
  exists io' q',
    update_io blake2b_keyed blake2b_keyed_64 crypto_aead_unlock (Some falloc) fuel io time k = Some (io', k) /\
    srv io' = s' /\ recv_queue io' = Some q' /\ Pipeline.represents q' [].
Proof.
  intros Hr Hq R. unfold netudp_server_update, update_io, receive_all. rewrite Hr, Hq. cbn [negb]. cbv zeta.
  destruct (Pipeline.drain_recv_represents 4096 q l R) as (q' & -> & R').
  { pose proof (Pipeline.represents_bound q l R). lia. }
  rewrite Some_bind. destruct (receive_packets _ _ _ _ _ _) as [s1|]; [|done]. rewrite !Some_bind. cbn [srv].
  intros ->. rewrite Some_bind. by eexists _, q'.
Qed.

(** C12. One update of a server from the system up is [netudp_server_update] on the
    packets that wait, in the two ways a server with one or two I/O threads runs.  With
    one, it reads its socket dry: every waiting datagram is read, in order and once, and
    nothing is left.  With two, it takes every packet of the pipeline's queue, in order
    and once, and leaves the queue empty and the sockets alone.  In both the update
    returns, leaves no object, and keeps the server's invariant.  The packets have 1 to
    1215 bytes and a tag ([packet_ok]), and nothing arrives during the call.  The bound on
    the turns of the receive loop is one per full batch and one more. *)
Theorem update_handles_waiting fuel io time (k : K) :
  4 <= zlen (cfg_channels (cfg (srv io))) -> server_wf (srv io) -> running (srv io) = true -> io_ok io ->
  num_io_threads (sockets io) <= 2 ->
  let h := Socket.handle (primary (sockets io)) in
  let upd := update_io blake2b_keyed blake2b_keyed_64 crypto_aead_unlock (Some falloc) fuel io time k in
  let model := netudp_server_update blake2b_keyed blake2b_keyed_64 crypto_aead_unlock (Some falloc) (srv io) time in
  (io_workers (sockets io) = [] -> recv_queue io = None -> enough fuel k h ->
   Forall (fun p => packet_ok p.2) (waiting k h) ->
   exists io' k', upd = Some (io', k') /\ model (waiting k h) = Some (srv io') /\ server_wf (srv io') /\ Socket.queue k' h = []) /\
  (forall q l, recv_queue io = Some q -> Pipeline.represents q l -> Forall (fun p => packet_ok p.2) (packet_pair <$> l) ->
   exists io' q', upd = Some (io', k) /\ model (packet_pair <$> l) = Some (srv io') /\ server_wf (srv io') /\
     recv_queue io' = Some q' /\ Pipeline.represents q' []).
Proof.
  intros Hc Hs Hr Hio _ h upd model. split.
  - intros Hw Hq He Hp.
    destruct (update_every_socket fuel io time k Hc Hs Hr Hio Hq) as (io' & k' & E & Eu & W & Q).
    { unfold handles. rewrite Hw. by repeat constructor. }
    { unfold handles. rewrite Hw. by repeat constructor. }
    exists io', k'. rewrite Hw, update_from_primary in Eu. unfold handles in Q. by apply Forall_cons_1 in Q as [Q _].
  - intros q l Hq R Hp.
    destruct (update_ok blake2b_keyed blake2b_keyed_64 crypto_aead_unlock falloc unlock_len falloc_ok (srv io) time _ Hc Hs Hp)
      as (s' & E & G).
    destruct (update_from_queue fuel io time k q l s' Hr Hq R E) as (io' & q' & Eu & <- & Eq & R'). exists io', q'.
    split_and!; [done..|apply G|done|done].
Qed.

(** An additional socket limits the rate of connected clients too, which the primary
    socket does not. *)
Lemma known_peer_limited s from slot data l :
  find_slot s from = Some slot -> RateLimiter.allow (limiter s) from (current_time s) = (false, l) ->
  receive_limited blake2b_keyed blake2b_keyed_64 crypto_aead_unlock (Some falloc) s from data = Some (bad_packet (set_limiter s l)) /\
  receive_packet blake2b_keyed blake2b_keyed_64 crypto_aead_unlock (Some falloc) s from data
    = server_dispatch_packet blake2b_keyed blake2b_keyed_64 crypto_aead_unlock (Some falloc) s from data.
Proof. intros Hf Ha. unfold receive_limited, receive_packet. by rewrite Ha, Hf. Qed.
End Safe.

(** A server with one I/O thread and a packet at its socket, and one with two I/O threads
    and two packets in its queue. *)
Definition demo_started : Server := netudp_server_start (netudp_server_create demo_config d0) 2.
Definition demo_io : Io := start_pipeline (mkIo demo_started (mkSockets 1 (Socket.mkSocket 3) []) batch_pkts None None).
Definition demo_kernel : Socket.fifo :=
  Socket.mkFifo {[3]} 5 ∅ ∅ {[ 3 := [(Socket.sockaddr Socket.loopback, [20; 0; 0; 9; 9])] ]} [] true ∅.
Definition demo_out : list Pipeline.packet :=
  [Pipeline.mkPacket Socket.loopback [20; 1]; Pipeline.mkPacket Socket.loopback [20; 2; 3]].
Definition demo_piped (q : Pipeline.queue) : Io :=
  mkIo demo_started (mkSockets 2 (Socket.mkSocket 3) [mkIOWorker (Socket.mkSocket 4) batch_pkts 1]) batch_pkts
    (Some q) (Some Pipeline.empty_queue).
Lemma batch_pkts_ok : buffers_ok batch_pkts.
Proof. split; [by vm_compute|]. apply Forall_replicate. by vm_compute. Qed.
Lemma demo_io_ok : io_ok demo_io.
Proof. split; cbn; [apply NoDup_singleton|by apply Forall_cons_2|exact batch_pkts_ok|constructor]. Qed.
Lemma demo_piped_ok q : io_ok (demo_piped q).
Proof.
  split; cbn; [|by do 2 (apply Forall_cons_2; [done|])|exact batch_pkts_ok|apply Forall_cons_2; [exact batch_pkts_ok|constructor]].
  repeat (constructor; [set_solver|]). apply base.NoDup_nil_2.
Qed.
Lemma update_handles_waiting_witness :
  (exists io' k', update_io (HA := Crypto.none_aead) demo_hash demo_hash Token.demo_unlock (Some demo_alloc) 1 demo_io (d_of_Z 1) demo_kernel
      = Some (io', k') /\ server_wf (srv io') /\ Socket.queue k' 3 = []) /\
  (exists q io' q', Pipeline.pipeline_recv_batch Pipeline.empty_queue demo_out = Some q /\
    update_io (HA := Crypto.none_aead) demo_hash demo_hash Token.demo_unlock (Some demo_alloc) 1 (demo_piped q) (d_of_Z 1) demo_kernel
      = Some (io', demo_kernel) /\ server_wf (srv io') /\ recv_queue io' = Some q' /\ Pipeline.represents q' []).
Proof.
  split.
  - destruct (update_handles_waiting (HA := Crypto.none_aead) demo_hash demo_hash Token.demo_unlock demo_alloc
      demo_unlock_len demo_alloc_ok 1 demo_io (d_of_Z 1) demo_kernel) as [T _];
      [by vm_compute|by apply started_wf|reflexivity|exact demo_io_ok|by vm_compute|].
    destruct T as (io' & k' & E & _ & W & Q); [reflexivity|reflexivity|by vm_compute|repeat constructor; vm_compute; done|].
    exact (ex_intro _ io' (ex_intro _ k' (conj E (conj W Q)))).
  - destruct (Pipeline.recv_batch_represents demo_out Pipeline.empty_queue [] Pipeline.represents_empty) as (q & E & R); [by repeat constructor|].
    destruct (update_handles_waiting (HA := Crypto.none_aead) demo_hash demo_hash Token.demo_unlock demo_alloc
      demo_unlock_len demo_alloc_ok 1 (demo_piped q) (d_of_Z 1) demo_kernel) as [_ T];
      [by vm_compute|by apply started_wf|reflexivity|apply demo_piped_ok|by vm_compute|].
    destruct (T q demo_out eq_refl R) as (io' & q' & Eu & _ & W & Eq & R'); [repeat constructor; vm_compute; done|].
    exact (ex_intro _ q (ex_intro _ io' (ex_intro _ q' (conj E (conj Eu (conj W (conj Eq R'))))))).
Defined.

(** * The threads of the pipeline *)

Section PipelineThreads.
Context {K : Type} `{Socket.Quiet K}.
Implicit Types (k : K) (q : Pipeline.queue).
Definition as_packet (p : address * bytes) : Pipeline.packet := Pipeline.mkPacket p.1 p.2.

Lemma arrival_fits d : Pipeline.fits_slot (as_packet (Socket.arrival Socket.NETUDP_MAX_PACKET_ON_WIRE d)) = true.
Proof.
  unfold Pipeline.fits_slot. apply Z.leb_le. unfold zlen. cbn [Pipeline.data as_packet snd Socket.arrival].
  rewrite length_take. change (Z.to_nat Socket.NETUDP_MAX_PACKET_ON_WIRE) with (Z.to_nat Pipeline.NETUDP_MAX_PACKET_ON_WIRE).
  unfold Pipeline.NETUDP_MAX_PACKET_ON_WIRE. lia.
Qed.
Lemma out_packet_sendable p : Pipeline.fits_slot p = true ->
  Socket.sendable (out_packet p) /\ Socket.datagram (out_packet p) = (Socket.sockaddr (Pipeline.addr p), Pipeline.data p).
Proof.
  unfold Pipeline.fits_slot. intros Hf. bool_facts. split.
  - split; [|exact Hf]. cbn [out_packet Socket.len Socket.data]. split; [apply zlen_nonneg|].
    unfold Socket.poke, zlen. rewrite take_0. cbn [app]. rewrite length_app. lia.
  - unfold Socket.datagram. cbn [out_packet Socket.len Socket.data Socket.addr]. unfold zlen. by rewrite Nat2Z.id, Socket.take_poke.
Qed.

(** A packet as the kernel gets it. *)
Definition wire_form (p : Pipeline.packet) : Socket.dgram := (Socket.sockaddr (Pipeline.addr p), Pipeline.data p).
(** C16. The pipeline's threads carry packets between the socket and the server's queues
    unchanged and in order.  A turn of the receive thread takes up to 64 waiting
    datagrams and appends them to the queue, as far as its 4095 places go; a turn of
    the send thread takes up to 64 packets from its queue and puts all of them on the
    wire, each as one datagram to its destination, unless the kernel takes fewer: then the
    packets were given to one [sendmmsg] and the wire has as many of the first as its
    answer says; the others are lost, since the thread does not look at the answer.
    Neither leaves its buffers.  Nothing arrives at the socket during the turn. *)
Theorem pipeline_carries_packets k sock b q l :
  Socket.handle sock <> Socket.NETUDP_INVALID_SOCKET -> Pipeline.represents q l ->
  (buffers_ok b ->
   exists b' q' k', recv_thread_turn k sock b q = Some (b', q', k') /\ buffers_ok b' /\
     Pipeline.represents q' (take 4095 (l ++ (as_packet <$> take 64 (waiting k (Socket.handle sock))))) /\
     Socket.queue k' (Socket.handle sock) = drop 64 (Socket.queue k (Socket.handle sock))) /\
  (Forall (fun p => Pipeline.fits_slot p = true) l ->
   exists q' k' sent, send_thread_turn k sock q = Some (q', k') /\ Pipeline.represents q' (drop 64 l) /\
     (sent = length (take 64 l) \/
      exists k1 r, Socket.wire k1 = Socket.wire k /\
        Socket.sys_sendmmsg k1 (Socket.handle sock) (wire_form <$> take 64 l) = (r, k') /\ r < zlen (take 64 l) /\ sent = Z.to_nat r) /\
     Socket.wire k' = Socket.wire k ++
       ((fun p => (Socket.handle sock, wire_form p)) <$> take sent (take 64 l))).
Proof.
  intros Hh R. split.
  - intros [Lb Bb]. unfold recv_thread_turn.
    destruct (Socket.recv_batch_quiet k sock b Socket.kSocketBatchMax Socket.NETUDP_MAX_PACKET_ON_WIRE Hh ltac:(unfold Socket.kSocketBatchMax in *; lia) Bb)
      as (b' & k' & -> & B' & L' & Er & Eq & _). rewrite Some_bind.
    change (Socket.batch_of Socket.kSocketBatchMax) with 64 in *. change (Z.to_nat 64) with 64%nat in *.
    assert (buffers_ok b') as Hb' by (split; [unfold zlen in *; lia|done]).
    set (w := waiting k (Socket.handle sock)). set (n := Z.min 64 _) in *.
    assert ((fun p => let '(a, d) := Socket.received p in Pipeline.mkPacket a d) <$> take (Z.to_nat n) b' = as_packet <$> take 64 w) as Ep.
    { unfold w, waiting. rewrite <- fmap_take, <- Er, <- list_fmap_compose. done. }
    case_if.
    + exists b', q, k'. split_and!; [done..| |done].
      assert (w = []) as -> by (unfold w, waiting, n in *; destruct (Socket.queue k _); [done|]; rewrite zlen_cons in *; pose proof (zlen_nonneg l0); lia).
      cbn. rewrite app_nil_r, take_ge by by eapply Pipeline.represents_bound. done.
    + rewrite Ep. destruct (Pipeline.recv_batch_represents (as_packet <$> take 64 w) q l R) as (q' & -> & R').
      { apply Forall_fmap, Forall_take, Forall_fmap. apply Forall_true. intros d. apply arrival_fits. }
      rewrite Some_bind. by exists b', q', k'.
  - intros F. unfold send_thread_turn.
    destruct (Pipeline.send_drain_represents Pipeline.kSocketBatchMax q l R) as (q' & -> & R'). rewrite Some_bind.
    change Pipeline.kSocketBatchMax with 64%nat in *. set (l1 := take 64 l) in *.
    case_if; [|exists q', k, 0%nat; split_and!; [done..|left; unfold zlen in *; lia|]; cbn; by rewrite app_nil_r].
    assert (Forall (fun p => Pipeline.fits_slot p = true) l1) as F1 by by apply Forall_take.
    assert (zlen l1 <= 64) as Hl by (unfold l1, zlen; rewrite length_take; lia).
    assert (Socket.batch_of (zlen l1) = zlen l1) as Eb by (unfold Socket.batch_of, Socket.kSocketBatchMax; case_if; lia).
    assert (take (Z.to_nat (Socket.batch_of (zlen l1))) (out_packet <$> l1) = out_packet <$> l1) as Et
      by (rewrite Eb; apply take_ge; rewrite length_fmap; unfold zlen; lia).
    assert (Forall Socket.sendable (out_packet <$> l1)) as Fs.
    { apply Forall_fmap. eapply Forall_impl; [|exact F1]. intros p Hp. by apply out_packet_sendable. }
    assert (zlen (out_packet <$> l1) = zlen l1) as Ez by (unfold zlen; by rewrite length_fmap).
    assert (Socket.datagram <$> (out_packet <$> l1) = wire_form <$> l1) as Ed.
    { rewrite <- list_fmap_compose. apply list_fmap_ext. intros i p Hi. by apply out_packet_sendable, (Forall_lookup_1 _ _ _ _ F1 Hi). }
    destruct (Socket.send_batch_spec k sock (out_packet <$> l1) (zlen l1)) as (r & k' & Es & Hr & W);
      [lia|by rewrite Et|].
    assert (0 < zlen l1 <= zlen (out_packet <$> l1)) as Hpos by (rewrite Ez; lia).
    pose proof (Socket.send_batch_refusal k sock (out_packet <$> l1) (zlen l1) r k' Hh Hpos ltac:(by rewrite Et) Es) as Hall.
    cbv zeta in Hall. rewrite Et in Hr, W, Hall. rewrite Ez, Ed in Hall. rewrite Ez in Hr. rewrite Es, Some_bind.
    exists q', k', (Z.to_nat r). split_and!; [done..| |].
    { destruct Hall as [->|(k1 & sent & W1 & Em & Esent)]; [left; unfold zlen; lia|].
      destruct (decide (r = zlen l1)) as [->|Hne]; [left; unfold zlen; lia|]. right.
      exists k1, sent. split_and!; [done..| |]; case_if_in Esent; lia. }
    rewrite W. f_equal. rewrite list_fmap_compose, fmap_take, Ed, <- fmap_take, <- list_fmap_compose. done.
Qed.

(** ** What the threads do not read *)

Lemma recv_batch_others k sock b n m r b' k' g :
  Socket.socket_recv_batch k sock b n m = Some (r, b', k') -> g <> Socket.handle sock -> Socket.queue k' g = Socket.queue k g.
Proof.
  unfold Socket.socket_recv_batch. case_if; [by intros [= <- <- <-]|]. destruct (guard_ub _); [|done]. rewrite Some_bind.
  destruct (Socket.sys_recvmmsg _ _ _ _) as [res k1] eqn:E1. apply Socket.quiet_recvmmsg in E1 as [O _];
    [|unfold Socket.batch_of, Socket.kSocketBatchMax in *; case_if; lia].
  intros E' Hg. by destruct res; injection E' as <- <- <-; apply O.
Qed.
Lemma recv_turn_others k sock b q b' q' k' g :
  recv_thread_turn k sock b q = Some (b', q', k') -> g <> Socket.handle sock -> Socket.queue k' g = Socket.queue k g.
Proof.
  unfold recv_thread_turn. destruct (Socket.socket_recv_batch _ _ _ _ _) as [[[n b1] k1]|] eqn:E1; [|done]. rewrite Some_bind.
  intros E2 Hg. rewrite <- (recv_batch_others _ _ _ _ _ _ _ _ _ E1 Hg). case_if_in E2; [by injection E2 as <- <- <-|].
  destruct (Pipeline.pipeline_recv_batch _ _); [|done]. rewrite Some_bind in E2. by injection E2 as <- <- <-.
Qed.
Lemma send_turn_others k sock q q' k' g : send_thread_turn k sock q = Some (q', k') -> Socket.queue k' g = Socket.queue k g.
Proof.
  unfold send_thread_turn. destruct (Pipeline.send_drain _ _) as [[l q1]|]; [|done]. rewrite Some_bind. case_if; [|by intros [= <- <-]].
  destruct (Socket.socket_send_batch _ _ _ _) as [[r k1]|] eqn:E1; [|done]. rewrite Some_bind. intros [= <- <-].
  by apply (Socket.send_batch_quiet _ _ _ _ _ _ E1).
Qed.

Context `{HA : Crypto.Aead} (blake2b_keyed blake2b_keyed_64 : bytes -> bytes -> bytes)
        (crypto_aead_unlock : bytes -> bytes -> bytes -> bytes -> bytes -> option bytes)
        (alloc : option (Z -> option bytes)).
(** The threads of a server in pipeline mode: the two of the pipeline and the one that
    calls [netudp_server_update]. *)
Inductive pipeline_step : Io * K -> Io * K -> Prop :=
  | PipelineRecv io k q b b' q' k' :
      recv_queue io = Some q -> recv_thread_turn k (primary (sockets io)) b q = Some (b', q', k') ->
      pipeline_step (io, k) (mkIo (srv io) (sockets io) (pkts io) (Some q') (send_queue io), k')
  | PipelineSend io k q q' k' :
      send_queue io = Some q -> send_thread_turn k (primary (sockets io)) q = Some (q', k') ->
      pipeline_step (io, k) (mkIo (srv io) (sockets io) (pkts io) (recv_queue io) (Some q'), k')
  | PipelineUpdate io k fuel time io' k' :
      update_io blake2b_keyed blake2b_keyed_64 crypto_aead_unlock alloc fuel io time k = Some (io', k') ->
      pipeline_step (io, k) (io', k').

Lemma pipeline_step_others st st' g :
  pipeline_step st st' -> is_Some (recv_queue st.1) -> g <> Socket.handle (primary (sockets st.1)) ->
  is_Some (recv_queue st'.1) /\ sockets st'.1 = sockets st.1 /\ Socket.queue st'.2 g = Socket.queue st.2 g.
Proof.
  intros S Hq Hg. destruct S as [io k q b b' q' k' Eq E|io k q q' k' Eq E|io k fuel time io' k' E]; cbn [fst snd] in *.
  - split_and!; [done..|]. by apply (recv_turn_others _ _ _ _ _ _ _ _ E).
  - split_and!; [done..|]. by apply (send_turn_others _ _ _ _ _ _ E).
  - unfold update_io in E. case_if_in E; [by injection E as <- <-|]. cbv zeta in E. destruct Hq as [q Hq].
    unfold receive_all in E. rewrite Hq in E. destruct (Pipeline.drain_recv 4096 q) as [[l q']|]; [|done]. rewrite Some_bind in E.
    destruct (receive_packets _ _ _ _ _ _) as [s1|]; [|done]. rewrite !Some_bind in E.
    destruct (update_rest _ _ _ _) as [s2|]; [|done]. rewrite Some_bind in E. by injection E as <- <-.
Qed.
(** With two or more I/O threads, nothing ever reads the additional sockets, which are
    bound to the server's port like the primary one. *)
Lemma additional_sockets_unread io io' (k k' : K) w :
  2 <= num_io_threads (sockets io) -> NoDup (handles (sockets io)) -> w ∈ io_workers (sockets io) ->
  rtc pipeline_step (start_pipeline io, k) (io', k') ->
  Socket.queue k' (Socket.handle (w_socket w)) = Socket.queue k (Socket.handle (w_socket w)).
Proof.
  intros Hn N Hw R. unfold handles in N. apply list.NoDup_cons in N as [N _].
  assert (Socket.handle (w_socket w) <> Socket.handle (primary (sockets io))) as Hg.
  { intros E. apply N. rewrite <- E. apply list_elem_of_fmap. by exists w. }
  set (g := Socket.handle (w_socket w)) in *.
  enough (forall st st', rtc pipeline_step st st' -> is_Some (recv_queue st.1) -> g <> Socket.handle (primary (sockets st.1)) ->
            Socket.queue st'.2 g = Socket.queue st.2 g) as X.
  { apply X in R; [done| |]; unfold start_pipeline; rewrite (proj2 (Z.leb_le _ _)) by done; [by eexists|done]. }
  induction 1 as [st|st st1 st2 S _ IH]; intros Hq Hp; [done|].
  destruct (pipeline_step_others _ _ g S Hq Hp) as (Hq1 & E1 & <-). apply IH; [done|by rewrite E1].
Qed.
End PipelineThreads.

Lemma pipeline_carries_packets_witness :
  (exists b' q' k', recv_thread_turn demo_kernel (Socket.mkSocket 3) batch_pkts Pipeline.empty_queue = Some (b', q', k') /\
    Pipeline.represents q' (take 4095 ([] ++ (as_packet <$> take 64 (waiting demo_kernel 3)))) /\
    Socket.queue k' 3 = drop 64 (Socket.queue demo_kernel 3)) /\
  exists q, Pipeline.pipeline_recv_batch Pipeline.empty_queue demo_out = Some q /\
    exists q' k', send_thread_turn demo_kernel (Socket.mkSocket 3) q = Some (q', k') /\
      Socket.wire k' = (fun p => (3, wire_form p)) <$> demo_out.
Proof.
  split.
  - destruct (pipeline_carries_packets demo_kernel (Socket.mkSocket 3) batch_pkts Pipeline.empty_queue []) as [T _];
      [done|exact Pipeline.represents_empty|].
    destruct (T (io_pkts _ demo_io_ok)) as (b' & q' & k' & E & _ & R & Q). exact (ex_intro _ b' (ex_intro _ q' (ex_intro _ k' (conj E (conj R Q))))).
  - destruct (Pipeline.recv_batch_represents demo_out Pipeline.empty_queue [] Pipeline.represents_empty) as (q & E & R); [by repeat constructor|].
    exists q. split; [exact E|].
    destruct (pipeline_carries_packets demo_kernel (Socket.mkSocket 3) batch_pkts q demo_out) as [_ T]; [done|exact R|].
    destruct (T ltac:(by repeat constructor)) as (q' & k' & sent & Es & _ & [->|(k1 & r & _ & Em & Hr & _)] & W).
    + exists q', k'. split; [exact Es|]. rewrite W. reflexivity.
    + exfalso. vm_compute in Em. injection Em as <- _. vm_compute in Hr. discriminate.
Defined.
End ServerIo.
