(* ===== verification/ClientIo.v ===== *)
(** The client on its socket (src/src/client.cpp: the socket part of
    netudp_client_create, netudp_client_connect, netudp_client_update and
    netudp_client_destroy).

    [Client] is given the packets that arrived and collects those it sends; here both
    go through the socket, in the order the code has.  The theorem says that an update
    is the update of [Client] on the packets that wait at the socket, and that what is
    on the wire afterwards is what it sent, less what the kernel refuses. *)

From stdpp Require Import gmap.
From S2P Require Import Prelude Bytes Double RingBuffer Replay PacketTracker Channel Address Bandwidth Stats.
From S2P Require Import PacketCrypto ConnectToken Connection Receive Send Server ConnSafety ServerSafety Client ClientSafety Socket.

Module ClientIo.
Import Address Connection Receive Send Client ClientSafety.

Record Cio : Type := mkCio { cli : Client; sock : Socket.Socket; recv_buf : bytes }.
Abbreviation MAXB := Socket.NETUDP_MAX_PACKET_ON_WIRE.
Definition BUFFER_SIZE : Z := 4 * 1024 * 1024.

Section Code.
Context {K : Type} `{!Socket.Kernel K} `{HA : Crypto.Aead} (alloc : option (Z -> option bytes)).

(** Without an address the client binds to any port of IPv4; the parser's verdict on
    the one that is given is not looked at. *)
Definition bind_address (addr : option (list Z)) : address :=
  match addr with
  | Some s => (netudp_parse_address s).2
  | None => mkAddress (replicate 16 0) 0 NETUDP_ADDRESS_IPV4
  end.
Definition create_client (k : K) (addr : option (list Z)) (config : Config) (time : double) : option Cio * K :=
  let '(rc, s, k) := Socket.socket_create k (Socket.mkSocket Socket.NETUDP_INVALID_SOCKET) (bind_address addr) BUFFER_SIZE BUFFER_SIZE 0 in
  if negb (rc =? NETUDP_OK) then (None, k)
  else (Some (mkCio (netudp_client_create config time) s (replicate (Z.to_nat MAXB) 0)), k).
Definition destroy_client (k : K) (io : Cio) : K := (Socket.socket_destroy k (sock io)).2.

Definition connect_client (k : K) (io : Cio) (token : bytes) : option (Cio * K) :=
  c ← netudp_client_connect alloc (cli io) token;
  let k := match connected_to c with
           | Some dest => if bool_decide (state c = SENDING_REQUEST) then (Socket.socket_connect k (sock io) dest).2 else k
           | None => k
           end in
  Some (mkCio c (sock io) (recv_buf io), k).

(** The packets [c'] has sent since it was [c]. *)
Definition sent_since (c c' : Client) : list bytes := drop (length (csent c)) (csent c').
Definition send_all (k : K) (s : Socket.Socket) (l : list bytes) : K :=
  foldl (fun k p => (Socket.socket_send_connected k s p).2) k l.
Fixpoint recv_loop (n : nat) (c : Client) (time : double) (k : K) (s : Socket.Socket) (buf : bytes) : option (Client * bytes * K) :=
  match n with
  | O => Some (c, buf, k)
  | S n =>
      '(received, _, buf, k) ← Socket.socket_recv k s address_zero buf MAXB;
      if received <=? 0 then Some (c, buf, k)
      else c ← client_packet_in c time (take (Z.to_nat received) buf); recv_loop n c time k s buf
  end.
Definition update_client (k : K) (io : Cio) (time : double) : option (Cio * K) :=
  let c0 := cli io in
  let dt := dsub time (ccurrent_time c0) in
  let c := set_ctime c0 time in
  '(done, c1) ← (if bool_decide (state c = SENDING_REQUEST) then update_request c time else Some (false, c));
  let k := send_all k (sock io) (sent_since c c1) in
  if (done : bool) then Some (mkCio c1 (sock io) (recv_buf io), k)
  else
    '(done, c2) ← (if bool_decide (state c1 = CONNECTED) then update_connected c1 time dt else Some (false, c1));
    let k := send_all k (sock io) (sent_since c1 c2) in
    if (done : bool) then Some (mkCio c2 (sock io) (recv_buf io), k)
    else
      '(c3, buf, k) ← recv_loop 64 c2 time k (sock io) (recv_buf io);
      Some (mkCio c3 (sock io) buf, k).
End Code.

(** * Opening and closing *)

Section Life.
Context {K : Type} `{Socket.KernelLaws K} (alloc : option (Z -> option bytes)).
(** A client that cannot be created leaves nothing open; one that was has one socket,
    which destroying it closes. *)
Lemma client_socket_balanced (k : K) addr config time :
  match create_client k addr config time with
  | (None, k') => Socket.opened k' = Socket.opened k
  | (Some io, k') =>
      let h := Socket.handle (sock io) in
      h ∉ Socket.opened k /\ Socket.opened k' = {[h]} ∪ Socket.opened k /\
      Socket.bound k' h = Some (Socket.sockaddr (bind_address addr)) /\
      Socket.opened (destroy_client k' io) = Socket.opened k
  end.
Proof.
  unfold create_client. destruct (Socket.socket_create _ _ _ _ _ _) as [[rc s] k'] eqn:E.
  destruct (Socket.create_outcome _ _ _ _ _ _ _ _ _ E) as [(-> & Hh & Hn & O & B & _)|(-> & _ & O)]; [|done].
  cbn [negb Z.eqb]. split_and!; [done..|]. unfold destroy_client. cbn [sock].
  destruct (Socket.socket_destroy k' s) as [s' k2] eqn:E2. apply Socket.destroy_outcome in E2 as [_ O2]. cbn [snd].
  rewrite O2, (proj2 (Z.eqb_neq _ _)), O by done. set_solver.
Qed.
(** A token that can be read connects the socket to the first server it names. *)
Lemma connect_sets_peer (k : K) io token c io' k' dest : Socket.handle (sock io) <> Socket.NETUDP_INVALID_SOCKET ->
  netudp_client_connect alloc (cli io) token = Some c -> state c = SENDING_REQUEST -> connected_to c = Some dest ->
  (Socket.socket_connect k (sock io) dest).1 = 0 -> connect_client alloc k io token = Some (io', k') ->
  Socket.peer k' (Socket.handle (sock io')) = Some (Socket.sockaddr dest).
Proof.
  intros Hh E S D. unfold connect_client. rewrite E, Some_bind, D, bool_decide_true by done. cbv zeta.
  unfold Socket.socket_connect. rewrite (proj2 (Z.eqb_neq _ _)) by done.
  destruct (Socket.sys_connect _ _ _) as [r k1] eqn:E1. cbn [fst snd]. intros Hr [= <- <-]. cbn [sock].
  apply (Socket.law_connect _ _ _ _ _ E1). by case_if_in Hr.
Qed.
End Life.

(** * Sending *)

Definition extends (c c' : Client) : Prop := csent c' = csent c ++ sent_since c c'.
Lemma extends_by c c' l : csent c' = csent c ++ l -> extends c c' /\ sent_since c c' = l.
Proof. unfold extends, sent_since. intros ->. by rewrite drop_app_length. Qed.
Lemma extends_trans c1 c2 c3 : extends c1 c2 -> extends c2 c3 ->
  extends c1 c3 /\ sent_since c1 c3 = sent_since c1 c2 ++ sent_since c2 c3.
Proof. intros E1 E2. apply extends_by. by rewrite E2, E1, <- app_assoc. Qed.
Lemma extends_same c c' : csent c' = csent c -> extends c c' /\ sent_since c c' = [].
Proof. intros E. apply extends_by. by rewrite app_nil_r. Qed.

Section Sent.
Context `{Crypto.Aead}.
Lemma request_extends c time b c' : update_request c time = Some (b, c') -> extends c c'.
Proof.
  unfold update_request. intros E. assert (exists l, csent c' = csent c ++ l) as [l El]; [|by apply (extends_by c c' l)].
  case_if_in E; [destruct (request_packet _) as [q|]; [|done]; rewrite Some_bind in E|]; rewrite Some_bind in E; cbn zeta in E.
  - exists [q]. by repeat case_if_in E; injection E as <- <-.
  - exists []. rewrite app_nil_r. by repeat case_if_in E; injection E as <- <-.
Qed.
Lemma pending_extends c c' : send_pending_now c = Some c' -> extends c c'.
Proof.
  unfold send_pending_now. destruct (client_send_pending _ _ _ _) as [[k l]|]; [|done]. rewrite Some_bind. intros [= <-].
  by apply (extends_by _ _ l).
Qed.
Lemma connected_extends c time dt b c' : update_connected c time dt = Some (b, c') -> extends c c'.
Proof.
  unfold update_connected. cbv zeta. destruct (send_pending_now _) as [c1|] eqn:E1; [|done]. rewrite Some_bind.
  apply pending_extends in E1. change (extends c c1) in E1. intros E.
  destruct (if dgt _ _ then _ else _) as [c2|] eqn:E2 in E; [|done]. rewrite Some_bind in E.
  assert (extends c1 c2) as X.
  { case_if_in E2; [|injection E2 as <-; by apply extends_same].
    destruct (client_send_keepalive _ _ _ _) as [[k l]|]; [|done]. rewrite Some_bind in E2. injection E2 as <-. by apply (extends_by _ _ l). }
  destruct (extends_trans _ _ _ E1 X) as [X2 _]. case_if_in E; injection E as <- <-; exact X2.
Qed.
(** An update that ends early has given up. *)
Lemma request_gives_up c time b c' : update_request c time = Some (b, c') -> b = true -> state c' = REQUEST_TIMED_OUT.
Proof.
  unfold update_request. intros E ->. destruct (if dgt (dsub time (clast_send_time c)) _ then _ else _) as [c1|] in E; [|done].
  rewrite Some_bind in E. cbn zeta in E. repeat case_if_in E; by simplify_eq.
Qed.
Lemma connected_gives_up c time dt b c' : update_connected c time dt = Some (b, c') -> b = true -> state c' = CONNECTION_TIMED_OUT.
Proof.
  unfold update_connected. cbv zeta. intros E ->. destruct (send_pending_now _) as [c1|]; [|done]. rewrite Some_bind in E.
  destruct (if dgt _ _ then _ else _) as [c2|] in E; [|done]. rewrite Some_bind in E. case_if_in E; by simplify_eq.
Qed.
Lemma packet_in_sent c time p c' : client_packet_in c time p = Some c' -> csent c' = csent c.
Proof.
  unfold client_packet_in, on_accepted, client_handle_data_packet. intros E.
  destruct (oget p 0) as [prefix|]; [|done]. rewrite Some_bind in E. cbv zeta in E. case_if_in E; [|case_if_in E; [|by injection E as <-]].
  - destruct (mread p 1 _) as [ct|]; [|done]. rewrite Some_bind in E. destruct (Crypto.packet_decrypt _ _ _ _ _) as [[pt|] e].
    + destruct (mwrite _ _ _) as [pl|]; [|done]. rewrite Some_bind in E. case_if_in E; [|by injection E as <-].
      destruct (mread_u pl 0 2); [|done]. rewrite Some_bind in E. destruct (mread_u pl 2 4); [|done]. rewrite Some_bind in E. by injection E as <-.
    + by injection E as <-.
  - destruct (client_packet _ _ _ _) as [[?|[?|? ?]]|]; [..|done]; rewrite Some_bind in E; by injection E as <-.
Qed.
Lemma packets_in_sent l : forall c time c', client_packets_in c time l = Some c' -> csent c' = csent c.
Proof.
  induction l as [|p l IH]; intros c time c'; cbn [client_packets_in]; [by intros [= <-]|].
  destruct (client_packet_in c time p) as [c1|] eqn:E; [|done]. rewrite Some_bind. intros E'. rewrite (IH _ _ _ E'). by eapply packet_in_sent.
Qed.
End Sent.

(** * The update on the socket *)

Section OnSocket.
Context {K : Type} `{Socket.Quiet K} `{HA : Crypto.Aead}.
Implicit Types (k : K).

(** Packets offered to the kernel on a connected socket one after the other: those it does
    not refuse, and the kernel afterwards. *)
Fixpoint offer k (h : Z) (l : list bytes) : list bytes * K :=
  match l with
  | [] => ([], k)
  | p :: l =>
      let '(r, k1) := Socket.sys_send k h p in
      let '(taken, k2) := offer k1 h l in
      (if r <? 0 then taken else p :: taken, k2)
  end.
Lemma offer_app h l1 l2 : forall k,
  offer k h (l1 ++ l2) = ((offer k h l1).1 ++ (offer (offer k h l1).2 h l2).1, (offer (offer k h l1).2 h l2).2).
Proof.
  induction l1 as [|p l1 IH]; intros k; cbn [offer app fst snd]; [by destruct (offer k h l2)|].
  destruct (Socket.sys_send k h p) as [r k1]. rewrite IH. destruct (offer k1 h l1) as [t1 k2]. cbn [fst snd].
  destruct (offer k2 h l2) as [t2 k3]. cbn [fst snd]. by case_if.
Qed.
(** Sending is offering; what is taken is on the wire, addressed to the peer. *)
Lemma send_all_spec s name l : Socket.handle s <> Socket.NETUDP_INVALID_SOCKET -> forall k,
  Socket.peer k (Socket.handle s) = Some name ->
  send_all k s l = (offer k (Socket.handle s) l).2 /\
  (forall g, Socket.queue (send_all k s l) g = Socket.queue k g) /\
  Socket.peer (send_all k s l) (Socket.handle s) = Some name /\
  Socket.wire (send_all k s l) = Socket.wire k ++ ((fun p => (Socket.handle s, (name, p))) <$> (offer k (Socket.handle s) l).1).
Proof.
  intros Hs. induction l as [|p l IH]; intros k Hp.
  { split_and!; [done..|]. cbn. by rewrite app_nil_r. }
  change (send_all k s (p :: l)) with (send_all (Socket.socket_send_connected k s p).2 s l).
  unfold Socket.socket_send_connected. rewrite (proj2 (Z.eqb_neq _ _)) by done. cbn [offer].
  pose proof (Socket.quiet_send k (Socket.handle s) p) as Q. destruct (Socket.sys_send k _ p) as [r k1] eqn:E. cbn [snd] in *.
  apply Socket.law_send in E as [P W]. rewrite Hp in P, W.
  destruct (IH k1 P) as (O2 & Q2 & P2 & W2). destruct (offer k1 (Socket.handle s) l) as [taken k2]. cbn [fst snd] in *.
  split_and!; [done|intros g; by rewrite Q2|done|]. rewrite W2, W. case_if; [by rewrite app_nil_r|].
  rewrite fmap_cons. by rewrite <- app_assoc.
Qed.

(** The datagrams an update reads, at most [n] and no further than the first empty one,
    which is taken too; and those it leaves. *)
Fixpoint readable (n : nat) (q : list Socket.dgram) : list bytes * list Socket.dgram :=
  match n, q with
  | S n, d :: q =>
      if zlen d.2 =? 0 then ([], q)
      else let '(l, rest) := readable n q in (take (Z.to_nat MAXB) d.2 :: l, rest)
  | _, _ => ([], q)
  end.
Lemma readable_length n : forall q, (length (readable n q).1 <= n)%nat.
Proof.
  induction n as [|n IH]; intros [|d q]; cbn [readable]; try (cbn; lia). case_if; [cbn; lia|].
  specialize (IH q). destruct (readable n q) as [l rest]. cbn in *. lia.
Qed.
Lemma recv_loop_spec s time : Socket.handle s <> Socket.NETUDP_INVALID_SOCKET ->
  forall n c k buf c', zlen buf = MAXB ->
  client_packets_in c time (readable n (Socket.queue k (Socket.handle s))).1 = Some c' ->
  exists buf' k', recv_loop n c time k s buf = Some (c', buf', k') /\ zlen buf' = MAXB /\
    Socket.queue k' (Socket.handle s) = (readable n (Socket.queue k (Socket.handle s))).2 /\ Socket.wire k' = Socket.wire k.
Proof.
  intros Hs. induction n as [|n IH]; intros c k buf c' Hb; cbn [recv_loop readable].
  { intros [= <-]. by exists buf, k. }
  unfold Socket.socket_recv. rewrite (proj2 (Z.eqb_neq _ _)), (proj2 (Z.leb_le _ _)) by (done || lia). cbn [guard_ub]. rewrite Some_bind.
  destruct (Socket.sys_recvfrom k _ MAXB) as [r k1] eqn:E. pose proof (proj1 (Socket.law_recvfrom _ _ _ _ _ E)) as W.
  apply Socket.quiet_recvfrom in E as [_ L]. destruct (Socket.queue k (Socket.handle s)) as [|d q] eqn:Eq.
  - destruct L as [-> L]. intros [= <-]. rewrite Z.eqb_refl, Some_bind. by exists buf, k1.
  - destruct L as [-> L]. unfold Socket.truncate. rewrite Some_bind. cbn [fst snd].
    set (p := take (Z.to_nat MAXB) d.2).
    assert (zlen (Socket.poke buf 0 p) = MAXB) as Hb'.
    { unfold Socket.poke, p. rewrite take_0. cbn [app]. unfold zlen in *. rewrite length_app, length_drop, length_take. unfold MAXB in *. lia. }
    assert (0 <= zlen p <= MAXB /\ (zlen p = 0 <-> zlen d.2 = 0)) as [Hp Hz].
    { unfold p, zlen. rewrite length_take. unfold MAXB. lia. }
    destruct (zlen d.2 =? 0) eqn:E0; bool_facts.
    + cbn [fst snd]. intros [= <-]. rewrite (proj2 (Z.leb_le _ _)) by lia. by exists (Socket.poke buf 0 p), k1.
    + rewrite (proj2 (Z.leb_gt _ _)) by lia. unfold zlen at 1. rewrite Nat2Z.id, Socket.take_poke.
      destruct (readable n q) as [l rest] eqn:Er. cbn [fst snd client_packets_in]. fold p.
      destruct (client_packet_in c time p) as [c1|]; [|done]. rewrite !Some_bind. intros E'.
      destruct (IH c1 k1 (Socket.poke buf 0 p) c') as (buf' & k' & E2 & B2 & Q2 & W2); [done|by rewrite L, Er|].
      exists buf', k'. rewrite E2, Q2, L, Er, W2. by split_and!.
Qed.

Context `{!ConnSafety.AeadBytes}.
(** C13. A client on its socket is the client of the model.  An update reads the waiting
    datagrams in order, up to 64 and no further than the first empty one, and ends as the
    model's update on them does, inside its objects and with the client's invariant.  The
    packets the model's update sends are offered to the kernel, all of them, in order and
    once, and the wire has those it does not refuse, addressed to the server the socket is
    connected to.  Only a client that gives up on its server leaves the datagrams where
    they are.  The datagrams read are of the lengths the client's buffers are safe for
    ([packet_ok]), and nothing arrives during the call. *)
Theorem client_update_on_socket (io : Cio) time k name :
  let h := Socket.handle (sock io) in
  let read := (readable 64 (Socket.queue k h)).1 in
  let rest := (readable 64 (Socket.queue k h)).2 in
  client_wf (cli io) -> h <> Socket.NETUDP_INVALID_SOCKET -> zlen (recv_buf io) = MAXB ->
  Socket.peer k h = Some name -> Forall packet_ok read ->
  exists io' k', update_client k io time = Some (io', k') /\
    netudp_client_update (cli io) time read = Some (cli io') /\
    client_wf (cli io') /\ sock io' = sock io /\ zlen (recv_buf io') = MAXB /\
    Socket.wire k' = Socket.wire k ++
      ((fun p => (h, (name, p))) <$> (offer k h (sent_since (cli io) (cli io'))).1) /\
    (Socket.queue k' h = rest \/
     Socket.queue k' h = Socket.queue k h /\ (state (cli io') = REQUEST_TIMED_OUT \/ state (cli io') = CONNECTION_TIMED_OUT)).
Proof.
  cbv zeta. set (h := Socket.handle (sock io)) in *.
  destruct (readable 64 (Socket.queue k h)) as [read rest] eqn:Er. cbn [fst snd].
  intros Hc Hs Hb Hp Hok.
  destruct (client_update_ok (cli io) time read Hc Hok) as (c' & Eu & [Hc' _]).
  pose proof Eu as Em. unfold netudp_client_update in Em. unfold update_client. cbv zeta in *.
  set (c := set_ctime (cli io) time) in *.
  destruct (if bool_decide (state c = SENDING_REQUEST) then update_request c time else Some (false, c)) as [[b1 c1]|] eqn:E1; [|done].
  rewrite Some_bind in Em. rewrite Some_bind.
  assert (extends c c1 /\ (b1 = true -> state c1 = REQUEST_TIMED_OUT)) as [X1 T1].
  { clear Em. case_bool_decide; [split; [by eapply request_extends|by eapply request_gives_up]|injection E1 as <- <-; split; [by apply extends_same|done]]. }
  destruct (send_all_spec (sock io) name (sent_since c c1) Hs k Hp) as (O1 & Q1 & P1 & W1). fold h in O1, P1, W1.
  set (k1 := send_all k (sock io) (sent_since c c1)) in *. destruct b1.
  { injection Em as <-. eexists _, _. split; [done|]. split_and!; try done. right. split; [by rewrite Q1|left; by apply T1]. }
  destruct (if bool_decide (state c1 = CONNECTED) then update_connected c1 time (dsub time (ccurrent_time (cli io))) else Some (false, c1)) as [[b2 c2]|] eqn:E2; [|done].
  rewrite Some_bind in Em. rewrite Some_bind.
  assert (extends c1 c2 /\ (b2 = true -> state c2 = CONNECTION_TIMED_OUT)) as [X2 T2].
  { clear Em. case_bool_decide; [split; [by eapply connected_extends|by eapply connected_gives_up]|injection E2 as <- <-; split; [by apply extends_same|done]]. }
  destruct (extends_trans _ _ _ X1 X2) as [X Es].
  destruct (send_all_spec (sock io) name (sent_since c1 c2) Hs k1 P1) as (O2 & Q2 & P2 & W2). fold h in O2, P2, W2.
  set (k2 := send_all k1 (sock io) (sent_since c1 c2)) in *.
  assert (Socket.wire k2 = Socket.wire k ++ ((fun p => (h, (name, p))) <$> (offer k h (sent_since (cli io) c2)).1)) as W12.
  { change (sent_since (cli io) c2) with (sent_since c c2). rewrite Es, offer_app, <- O1. cbn [fst].
    rewrite W2, W1, fmap_app, <- app_assoc. done. }
  destruct b2.
  { injection Em as <-. eexists _, _. split; [done|]. split_and!; try done. right. split; [by rewrite Q2, Q1|right; by apply T2]. }
  assert (take 64 read = read) as Et.
  { apply take_ge. pose proof (readable_length 64 (Socket.queue k h)) as L. by rewrite Er in L. }
  rewrite Et in Em. destruct (recv_loop_spec (sock io) time Hs 64 c2 k2 (recv_buf io) c' Hb) as (buf' & k' & -> & B & Q & W).
  { fold h. by rewrite Q2, Q1, Er. }
  rewrite Some_bind. eexists _, k'. split; [done|]. cbn [cli sock recv_buf]. split_and!; try done.
  - rewrite W, W12. unfold sent_since. by rewrite (packets_in_sent _ _ _ _ Em).
  - left. fold h in Q. by rewrite Q, Q2, Q1, Er.
Qed.
End OnSocket.

#[local] Existing Instance ServerSafety.none_aead_bytes.
(** A client that has asked a server, with an answer, an empty datagram and another one
    waiting at its socket. *)
Definition demo_kernel : Socket.fifo :=
  let d p := (Socket.sockaddr Socket.loopback, p) in
  Socket.mkFifo {[3]} 4 ∅ ∅ {[ 3 := [d [21; 1; 2; 3]; d []; d [20; 4; 4]] ]} [] true {[ 3 := Socket.sockaddr Socket.loopback ]}.
Lemma client_update_on_socket_witness : exists c io' k',
  netudp_client_connect (Some ServerSafety.demo_alloc) demo_new demo_token = Some c /\
  update_client (HA := Crypto.none_aead) demo_kernel (mkCio c (Socket.mkSocket 3) (replicate 1400 0)) (d_of_Z 1) = Some (io', k') /\
  netudp_client_update (H := Crypto.none_aead) c (d_of_Z 1) [[21; 1; 2; 3]] = Some (cli io') /\ client_wf (cli io') /\
  Socket.wire k' = (fun p => (3, (Socket.sockaddr Socket.loopback, p))) <$> (offer demo_kernel 3 (sent_since c (cli io'))).1.
Proof.
  destruct (connect_ok ServerSafety.demo_alloc ServerSafety.demo_alloc_ok demo_new demo_token)
    as (c & E & Hw & _); [apply created_wf, demo_config_ok|apply demo_token_ok..|].
  destruct (client_update_on_socket (HA := Crypto.none_aead) (mkCio c (Socket.mkSocket 3) (replicate 1400 0)) (d_of_Z 1)
    demo_kernel (Socket.sockaddr Socket.loopback) Hw) as (io' & k' & E1 & E2 & Hw' & _ & _ & W & _).
  - done.
  - by vm_compute.
  - by vm_compute.
  - apply Forall_cons_2; [|constructor]. split; [by repeat constructor|]. split; [split; vm_compute; discriminate|]. intros _. vm_compute. discriminate.
  - exists c, io', k'. split; [exact E|]. split; [exact E1|]. split; [exact E2|]. split; [exact Hw'|exact W].
Defined.
End ClientIo.
