(* ===== verification/Simd.v ===== *)
(** The processor-specific routines (src/src/simd/simd_generic.cpp, simd_sse42.cpp,
    simd_avx2.cpp, netudp_simd_detect.cpp, src/src/crypto/crc32c.cpp).

    [netudp_init] picks one of several tables of function pointers.  The processor's
    instructions behind the compiler's intrinsics are a parameter, the class
    [Intrinsics], whose laws are the operations of the instruction set's manual.
    [tables_correct] says that every table computes the same functions; copying and
    clearing of memory, and ARM, follow in SimdPlatforms. *)

From stdpp Require Import sets.
From S2P Require Import Prelude Bytes Quantize.

Module Simd.

(** * The portable table *)

(** The Castagnoli table, as the source spells it. *)
Definition g_crc32c_table : list Z :=
  [
   0x00000000; 0xf26b8303; 0xe13b70f7; 0x1350f3f4; 0xc79a971f; 0x35f1141c; 0x26a1e7e8; 0xd4ca64eb;
   0x8ad958cf; 0x78b2dbcc; 0x6be22838; 0x9989ab3b; 0x4d43cfd0; 0xbf284cd3; 0xac78bf27; 0x5e133c24;
   0x105ec76f; 0xe235446c; 0xf165b798; 0x030e349b; 0xd7c45070; 0x25afd373; 0x36ff2087; 0xc494a384;
   0x9a879fa0; 0x68ec1ca3; 0x7bbcef57; 0x89d76c54; 0x5d1d08bf; 0xaf768bbc; 0xbc267848; 0x4e4dfb4b;
   0x20bd8ede; 0xd2d60ddd; 0xc186fe29; 0x33ed7d2a; 0xe72719c1; 0x154c9ac2; 0x061c6936; 0xf477ea35;
   0xaa64d611; 0x580f5512; 0x4b5fa6e6; 0xb93425e5; 0x6dfe410e; 0x9f95c20d; 0x8cc531f9; 0x7eaeb2fa;
   0x30e349b1; 0xc288cab2; 0xd1d83946; 0x23b3ba45; 0xf779deae; 0x05125dad; 0x1642ae59; 0xe4292d5a;
   0xba3a117e; 0x4851927d; 0x5b016189; 0xa96ae28a; 0x7da08661; 0x8fcb0562; 0x9c9bf696; 0x6ef07595;
   0x417b1dbc; 0xb3109ebf; 0xa0406d4b; 0x522bee48; 0x86e18aa3; 0x748a09a0; 0x67dafa54; 0x95b17957;
   0xcba24573; 0x39c9c670; 0x2a993584; 0xd8f2b687; 0x0c38d26c; 0xfe53516f; 0xed03a29b; 0x1f682198;
   0x5125dad3; 0xa34e59d0; 0xb01eaa24; 0x42752927; 0x96bf4dcc; 0x64d4cecf; 0x77843d3b; 0x85efbe38;
   0xdbfc821c; 0x2997011f; 0x3ac7f2eb; 0xc8ac71e8; 0x1c661503; 0xee0d9600; 0xfd5d65f4; 0x0f36e6f7;
   0x61c69362; 0x93ad1061; 0x80fde395; 0x72966096; 0xa65c047d; 0x5437877e; 0x4767748a; 0xb50cf789;
   0xeb1fcbad; 0x197448ae; 0x0a24bb5a; 0xf84f3859; 0x2c855cb2; 0xdeeedfb1; 0xcdbe2c45; 0x3fd5af46;
   0x7198540d; 0x83f3d70e; 0x90a324fa; 0x62c8a7f9; 0xb602c312; 0x44694011; 0x5739b3e5; 0xa55230e6;
   0xfb410cc2; 0x092a8fc1; 0x1a7a7c35; 0xe811ff36; 0x3cdb9bdd; 0xceb018de; 0xdde0eb2a; 0x2f8b6829;
   0x82f63b78; 0x709db87b; 0x63cd4b8f; 0x91a6c88c; 0x456cac67; 0xb7072f64; 0xa457dc90; 0x563c5f93;
   0x082f63b7; 0xfa44e0b4; 0xe9141340; 0x1b7f9043; 0xcfb5f4a8; 0x3dde77ab; 0x2e8e845f; 0xdce5075c;
   0x92a8fc17; 0x60c37f14; 0x73938ce0; 0x81f80fe3; 0x55326b08; 0xa759e80b; 0xb4091bff; 0x466298fc;
   0x1871a4d8; 0xea1a27db; 0xf94ad42f; 0x0b21572c; 0xdfeb33c7; 0x2d80b0c4; 0x3ed04330; 0xccbbc033;
   0xa24bb5a6; 0x502036a5; 0x4370c551; 0xb11b4652; 0x65d122b9; 0x97baa1ba; 0x84ea524e; 0x7681d14d;
   0x2892ed69; 0xdaf96e6a; 0xc9a99d9e; 0x3bc21e9d; 0xef087a76; 0x1d63f975; 0x0e330a81; 0xfc588982;
   0xb21572c9; 0x407ef1ca; 0x532e023e; 0xa145813d; 0x758fe5d6; 0x87e466d5; 0x94b49521; 0x66df1622;
   0x38cc2a06; 0xcaa7a905; 0xd9f75af1; 0x2b9cd9f2; 0xff56bd19; 0x0d3d3e1a; 0x1e6dcdee; 0xec064eed;
   0xc38d26c4; 0x31e6a5c7; 0x22b65633; 0xd0ddd530; 0x0417b1db; 0xf67c32d8; 0xe52cc12c; 0x1747422f;
   0x49547e0b; 0xbb3ffd08; 0xa86f0efc; 0x5a048dff; 0x8ecee914; 0x7ca56a17; 0x6ff599e3; 0x9d9e1ae0;
   0xd3d3e1ab; 0x21b862a8; 0x32e8915c; 0xc083125f; 0x144976b4; 0xe622f5b7; 0xf5720643; 0x07198540;
   0x590ab964; 0xab613a67; 0xb831c993; 0x4a5a4a90; 0x9e902e7b; 0x6cfbad78; 0x7fab5e8c; 0x8dc0dd8f;
   0xe330a81a; 0x115b2b19; 0x020bd8ed; 0xf0605bee; 0x24aa3f05; 0xd6c1bc06; 0xc5914ff2; 0x37faccf1;
   0x69e9f0d5; 0x9b8273d6; 0x88d28022; 0x7ab90321; 0xae7367ca; 0x5c18e4c9; 0x4f48173d; 0xbd23943e;
   0xf36e6f75; 0x0105ec76; 0x12551f82; 0xe03e9c81; 0x34f4f86a; 0xc69f7b69; 0xd5cf889d; 0x27a40b9e;
   0x79b737ba; 0x8bdcb4b9; 0x988c474d; 0x6ae7c44e; 0xbe2da0a5; 0x4c4623a6; 0x5f16d052; 0xad7d5351].

Definition crc_table_byte (crc b : Z) : Z :=
  Z.lxor g_crc32c_table.[Z.land (Z.lxor crc b) 255] (Z.shiftr crc 8).
Definition generic_crc32c (data : bytes) : Z :=
  Z.lxor (fold_left crc_table_byte data (2 ^ 32 - 1)) (2 ^ 32 - 1).

(** [indices] as a list, in the order they are stored. *)
Definition generic_ack_bits_scan (bits : Z) : list Z :=
  fold_left (fun out i => if negb (Z.land bits (Z.shiftl 1 i) =? 0) then out ++ [i] else out) (seqZ 0 32) [].

Definition generic_popcount32 (v : Z) : Z :=
  let v := u32 (v - Z.land (Z.shiftr v 1) 0x55555555) in
  let v := u32 (Z.land v 0x33333333 + Z.land (Z.shiftr v 2) 0x33333333) in
  Z.shiftr (u32 (Z.land (u32 (v + Z.shiftr v 4)) 0x0f0f0f0f * 0x01010101)) 24.

Fixpoint generic_replay_check (window : list Z) (seq : Z) : Z :=
  match window with
  | [] => 0
  | x :: window => if x =? seq then 1 else generic_replay_check window seq
  end.

Fixpoint mask_loop {A} (n : nat) (i : Z) (mask : bytes) (missing : Z -> A) (all : A) : option A :=
  match n with
  | O => Some all
  | S n =>
      b ← oget mask (Z.quot i 8);
      if Z.land b (Z.shiftl 1 (Z.rem i 8)) =? 0 then Some (missing i) else mask_loop n (i + 1) mask missing all
  end.
Definition generic_fragment_bitmask_complete (mask : bytes) (total : Z) : option Z :=
  mask_loop (Z.to_nat total) 0 mask (fun _ => 0) 1.
Definition generic_fragment_next_missing (mask : bytes) (total : Z) : option Z :=
  mask_loop (Z.to_nat total) 0 mask (fun i => i) (-1).

Fixpoint generic_accumulate_u64 (dst src : list Z) : list Z :=
  match dst, src with
  | d :: dst, s :: src => u64 (d + s) :: generic_accumulate_u64 dst src
  | _, _ => []
  end.

Definition generic_addr_equal (a b : bytes) (len : Z) : Z :=
  if bool_decide (take (Z.to_nat len) a = take (Z.to_nat len) b) then 1 else 0.

(** * What they compute *)

Definition POLY : Z := 0x82f63b78.
(** One bit of the reflected CRC, [n] bits, and a byte. *)
Definition crc_bit (x : Z) : Z := Z.lxor (Z.shiftr x 1) (if Z.odd x then POLY else 0).
Fixpoint crc_bits (n : nat) (x : Z) : Z := match n with O => x | S n => crc_bits n (crc_bit x) end.
Definition crc_byte (crc b : Z) : Z := crc_bits 8 (Z.lxor crc b).
Definition crc32c_spec (data : bytes) : Z := Z.lxor (fold_left crc_byte data (2 ^ 32 - 1)) (2 ^ 32 - 1).

(** The positions of the set bits, and their number. *)
Definition set_bits (v : Z) : list Z := filter (fun i => Z.testbit v i = true) (seqZ 0 32).
Definition bit_count (v : Z) : Z := zlen (set_bits v).

(** ** The table is the polynomial's *)

Lemma crc_bit_lxor x y : crc_bit (Z.lxor x y) = Z.lxor (crc_bit x) (crc_bit y).
Proof.
  unfold crc_bit. rewrite Z.shiftr_lxor. rewrite <- !Z.bit0_odd, Z.lxor_spec.
  apply Z.bits_inj'. intros i Hi. rewrite !Z.lxor_spec.
  destruct (Z.testbit x 0), (Z.testbit y 0); cbn [xorb]; rewrite ?Z.bits_0;
    destruct (Z.testbit (Z.shiftr x 1) i), (Z.testbit (Z.shiftr y 1) i), (Z.testbit POLY i); done.
Qed.
Lemma crc_bits_lxor n x y : crc_bits n (Z.lxor x y) = Z.lxor (crc_bits n x) (crc_bits n y).
Proof. revert x y. induction n as [|n IH]; intros x y; [done|]. cbn [crc_bits]. by rewrite crc_bit_lxor, IH. Qed.
(** Zero bits are shifted out. *)
Lemma crc_bits_shift n y : crc_bits n (Z.shiftl y (Z.of_nat n)) = y.
Proof.
  revert y. induction n as [|n IH]; intros y; [by rewrite Z.shiftl_0_r|]. cbn [crc_bits].
  assert (crc_bit (Z.shiftl y (Z.of_nat (S n))) = Z.shiftl y (Z.of_nat n)) as ->; [|apply IH].
  unfold crc_bit. rewrite <- Z.bit0_odd, Z.shiftl_spec_low by lia. rewrite Z.lxor_0_r, Z.shiftr_shiftl_l by lia.
  f_equal. lia.
Qed.
Lemma crc_bits_add m n x : crc_bits (m + n) x = crc_bits n (crc_bits m x).
Proof. revert x. induction m as [|m IH]; intros x; [done|]. cbn. apply IH. Qed.

Lemma table_correct i : 0 <= i < 256 -> g_crc32c_table.[i] = crc_bits 8 i.
Proof.
  intros Hi. apply Z.eqb_eq.
  apply (Quantize.forall_seqZ (fun i => g_crc32c_table.[i] =? crc_bits 8 i) 0 256); [by vm_compute|lia].
Qed.
Lemma split_byte x : x = Z.lxor (Z.land x 255) (Z.shiftl (Z.shiftr x 8) 8).
Proof.
  apply Z.bits_inj'. intros i Hi. rewrite Z.lxor_spec. change 255 with (Z.ones 8).
  rewrite Z.land_spec, Z.shiftl_spec, Z.testbit_ones_nonneg by lia. destruct (i <? 8) eqn:E; bool_facts.
  - by rewrite (Z.testbit_neg_r _ (i - 8)), andb_true_r, xorb_false_r by lia.
  - rewrite Z.shiftr_spec by lia. rewrite andb_false_r, xorb_false_l. f_equal. lia.
Qed.
(** A step of a fold, by rewriting, so that nothing is computed. *)
Lemma fold_left_cons {A B} (f : A -> B -> A) x l a : fold_left f (x :: l) a = fold_left f l (f a x).
Proof. done. Qed.
Lemma table_byte crc b : is_u8 b -> crc_table_byte crc b = crc_byte crc b.
Proof.
  intros Hb. unfold crc_table_byte, crc_byte. rewrite table_correct.
  2: { change 255 with (Z.ones 8). rewrite Z.land_ones by lia. apply Z.mod_pos_bound. lia. }
  rewrite (split_byte (Z.lxor crc b)) at 2. rewrite crc_bits_lxor, (crc_bits_shift 8).
  rewrite Z.shiftr_lxor. assert (Z.shiftr b 8 = 0) as ->; [|by rewrite Z.lxor_0_r].
  rewrite Z.shiftr_div_pow2 by lia. unfold is_u8 in Hb. by apply Z.div_small.
Qed.
Lemma generic_crc32c_correct data : is_bytes data -> generic_crc32c data = crc32c_spec data.
Proof.
  intros Hd. unfold generic_crc32c, crc32c_spec. f_equal. generalize (2 ^ 32 - 1).
  induction Hd as [|b data Hb Hd IH]; intros crc; [done|]. by rewrite !fold_left_cons, table_byte, IH.
Qed.

(** * The processor's instructions *)

(** Vector registers are lists of 64-bit lanes. *)
Class Intrinsics : Type := {
  mm_crc32_u8 : Z -> Z -> Z; mm_crc32_u32 : Z -> Z -> Z; mm_crc32_u64 : Z -> Z -> Z;
  tzcnt_u32 : Z -> Z; popcnt_u32 : Z -> Z;
  cmpeq_epi64 : list Z -> list Z -> list Z; movemask_epi8 : list Z -> Z; add_epi64 : list Z -> list Z -> list Z;
  movemask_cmpeq_epi8 : bytes -> bytes -> Z }.
(** Their operation as the manual gives it: the CRC of the operand's bits, the number of
    zero bits below the lowest set bit, the number of set bits, a lane of ones where the
    lanes agree, the top bits of all bytes, the sum of the lanes, and a bit for each of 16
    bytes that agree. *)
Class IntrinsicsSpec `{Intrinsics} : Prop := {
  crc32_u8_spec crc v : is_u32 crc -> is_u8 v -> mm_crc32_u8 crc v = crc_bits 8 (Z.lxor crc v);
  crc32_u32_spec crc v : is_u32 crc -> is_u32 v -> mm_crc32_u32 crc v = crc_bits 32 (Z.lxor crc v);
  crc32_u64_spec crc v : is_u32 crc -> is_u64 v -> mm_crc32_u64 crc v = crc_bits 64 (Z.lxor crc v);
  tzcnt_spec v : is_u32 v -> v <> 0 ->
    0 <= tzcnt_u32 v /\ Z.testbit v (tzcnt_u32 v) = true /\ forall j, 0 <= j < tzcnt_u32 v -> Z.testbit v j = false;
  popcnt_spec v : is_u32 v -> popcnt_u32 v = bit_count v;
  cmpeq_spec a b : length a = length b ->
    cmpeq_epi64 a b = zip_with (fun x y => if x =? y then 2 ^ 64 - 1 else 0) a b;
  movemask_spec l : movemask_epi8 l = 0 <-> Forall (fun x => forall k, 0 <= k < 8 -> Z.testbit x (8 * k + 7) = false) l;
  add_spec a b : length a = length b -> add_epi64 a b = zip_with (fun x y => u64 (x + y)) a b;
  cmpeq8_spec a b : length a = 16%nat -> length b = 16%nat -> 0 <= movemask_cmpeq_epi8 a b < 2 ^ 16 /\
    forall i : nat, (i < 16)%nat -> Z.testbit (movemask_cmpeq_epi8 a b) (Z.of_nat i) = bool_decide (a !! i = b !! i) }.

(** [for (; i + w - 1 < len; i += w)]: whole words of [w] bytes, and what is left. *)
Fixpoint crc_words (fuel : nat) (w : nat) (op : Z -> Z -> Z) (crc : Z) (data : bytes) : Z * bytes :=
  match fuel with
  | O => (crc, data)
  | S fuel =>
      if (w <=? length data)%nat then crc_words fuel w op (op crc (le_value (take w data))) (drop w data) else (crc, data)
  end.
(** Words of eight bytes where the processor has them, then of four, then bytes. *)
Definition word_crc32c (has_u64 : bool) (op8 op4 op1 : Z -> Z -> Z) (data : bytes) : Z :=
  let n := length data in
  let crc := 2 ^ 32 - 1 in
  let '(crc, data) := if has_u64 then crc_words n 8 op8 crc data else (crc, data) in
  let '(crc, data) := crc_words n 4 op4 crc data in
  let '(crc, _) := crc_words n 1 op1 crc data in
  Z.lxor crc (2 ^ 32 - 1).
(** [while (bits != 0)]: the position of the lowest set bit, which is then cleared. *)
Fixpoint scan_loop (ctz : Z -> Z) (fuel : nat) (bits : Z) : list Z :=
  match fuel with
  | O => []
  | S fuel => if bits =? 0 then [] else ctz bits :: scan_loop ctz fuel (Z.land bits (bits - 1))
  end.
(** [w] lanes at a time, then one by one; [hit] is the comparison of a register. *)
Fixpoint vector_replay_check (hit : list Z -> list Z -> bool) (fuel w : nat) (window : list Z) (seq : Z) : Z :=
  match fuel with
  | O => generic_replay_check window seq
  | S fuel =>
      if (w <=? length window)%nat then
        if hit (take w window) (replicate w seq) then 1
        else vector_replay_check hit fuel w (drop w window) seq
      else generic_replay_check window seq
  end.
Fixpoint vector_accumulate (add : list Z -> list Z -> list Z) (fuel w : nat) (dst src : list Z) : list Z :=
  match fuel with
  | O => generic_accumulate_u64 dst src
  | S fuel =>
      if (w <=? length dst)%nat then add (take w dst) (take w src) ++ vector_accumulate add fuel w (drop w dst) (drop w src)
      else generic_accumulate_u64 dst src
  end.

Section Vector.
Context `{Intrinsics}.

Definition sse42_crc32c (arch_x64 : bool) (data : bytes) : Z :=
  word_crc32c arch_x64 (fun c v => u32 (mm_crc32_u64 c v)) mm_crc32_u32 mm_crc32_u8 data.
Definition sse42_ack_bits_scan (bits : Z) : list Z := scan_loop tzcnt_u32 33 bits.
Definition sse42_popcount32 (v : Z) : Z := popcnt_u32 v.

(** The comparison of whole registers. *)
Definition mm_hit (a b : list Z) : bool := negb (movemask_epi8 (cmpeq_epi64 a b) =? 0).
Definition sse42_replay_check (window : list Z) (seq : Z) : Z := vector_replay_check mm_hit (length window) 2 window seq.
Definition avx2_replay_check (window : list Z) (seq : Z) : Z := vector_replay_check mm_hit (length window) 4 window seq.
Definition sse42_accumulate_u64 (dst src : list Z) : list Z := vector_accumulate add_epi64 (length dst) 2 dst src.
Definition avx2_accumulate_u64 (dst src : list Z) : list Z := vector_accumulate add_epi64 (length dst) 4 dst src.

(** The addresses are read as 16 bytes; [1 << len] is undefined from 31 on. *)
Definition sse42_addr_equal (a b : bytes) (len : Z) : option Z :=
  if 16 <=? len then
    va ← mread a 0 16; vb ← mread b 0 16;
    _ ← guard_ub (len <? 31);
    let m := Z.shiftl 1 len - 1 in
    Some (if Z.land (movemask_cmpeq_epi8 va vb) m =? m then 1 else 0)
  else Some (generic_addr_equal a b len).

(** ** The tables *)

Record SimdOps : Type := mkOps {
  crc32c_ : bytes -> Z; ack_bits_scan_ : Z -> list Z; popcount32_ : Z -> Z; replay_check_ : list Z -> Z -> Z;
  fragment_bitmask_complete_ : bytes -> Z -> option Z; fragment_next_missing_ : bytes -> Z -> option Z;
  accumulate_u64_ : list Z -> list Z -> list Z; addr_equal_ : bytes -> bytes -> Z -> option Z }.
Definition g_ops_generic : SimdOps :=
  mkOps generic_crc32c generic_ack_bits_scan generic_popcount32 generic_replay_check generic_fragment_bitmask_complete
    generic_fragment_next_missing generic_accumulate_u64 (fun a b len => Some (generic_addr_equal a b len)).
Definition g_ops_sse42 (x64 : bool) : SimdOps :=
  mkOps (sse42_crc32c x64) sse42_ack_bits_scan sse42_popcount32 sse42_replay_check generic_fragment_bitmask_complete
    generic_fragment_next_missing sse42_accumulate_u64 sse42_addr_equal.
Definition g_ops_avx2 (x64 : bool) : SimdOps :=
  mkOps (sse42_crc32c x64) sse42_ack_bits_scan sse42_popcount32 avx2_replay_check generic_fragment_bitmask_complete
    generic_fragment_next_missing avx2_accumulate_u64 sse42_addr_equal.

Inductive simd_level : Type := NETUDP_SIMD_GENERIC | NETUDP_SIMD_SSE42 | NETUDP_SIMD_AVX2.
(** [cpuid function subfunction] gives EAX, EBX, ECX and EDX. *)
Definition detect_x86 (cpuid : Z -> Z -> Z * Z * Z * Z) : simd_level :=
  let '(max_function, _, _, _) := cpuid 0 0 in
  if max_function <? 1 then NETUDP_SIMD_GENERIC
  else
    let '(_, _, ecx, _) := cpuid 1 0 in
    let has_sse42 := negb (Z.land ecx (Z.shiftl 1 20) =? 0) in
    let has_popcnt := negb (Z.land ecx (Z.shiftl 1 23) =? 0) in
    let has_avx2 :=
      if 7 <=? max_function then let '(_, ebx, _, _) := cpuid 7 0 in negb (Z.land ebx (Z.shiftl 1 5) =? 0) else false in
    if has_avx2 then NETUDP_SIMD_AVX2
    else if has_sse42 && has_popcnt then NETUDP_SIMD_SSE42
    else NETUDP_SIMD_GENERIC.
Definition detect_and_set (x64 : bool) (cpuid : Z -> Z -> Z * Z * Z * Z) : SimdOps :=
  match detect_x86 cpuid with
  | NETUDP_SIMD_AVX2 => g_ops_avx2 x64
  | NETUDP_SIMD_SSE42 => g_ops_sse42 x64
  | NETUDP_SIMD_GENERIC => g_ops_generic
  end.
(** [netudp::crypto::crc32c]; [g_simd] is null before [netudp_init]. *)
Definition crc32c (g_simd : option SimdOps) (data : bytes) : Z :=
  match g_simd with Some ops => crc32c_ ops data | None => crc32c_ g_ops_generic data end.
End Vector.

(** ** The checksum in words *)

Lemma crc_bit_u32 x : is_u32 x -> is_u32 (crc_bit x).
Proof.
  intros Hx. unfold crc_bit. apply lxor_u32; [by apply shr_u32|]. case_if; unfold is_u32, POLY; lia.
Qed.
Lemma crc_bits_u32 n x : is_u32 x -> is_u32 (crc_bits n x).
Proof. revert x. induction n as [|n IH]; intros x Hx; [done|]. cbn [crc_bits]. by apply IH, crc_bit_u32. Qed.
Lemma u8_u32 b : is_u8 b -> is_u32 b.
Proof. unfold is_u8, is_u32. lia. Qed.
Lemma crc_fold_u32 data crc : is_bytes data -> is_u32 crc -> is_u32 (fold_left crc_byte data crc).
Proof.
  intros Hd. revert crc. induction Hd as [|b data Hb Hd IH]; intros crc Hc; [done|]. rewrite fold_left_cons.
  apply IH. unfold crc_byte. apply crc_bits_u32, lxor_u32; [done|by apply u8_u32].
Qed.

Lemma le_value_lxor b l : is_u8 b -> le_value (b :: l) = Z.lxor b (Z.shiftl (le_value l) 8).
Proof.
  intros Hb. cbn [le_value]. rewrite Z.shiftl_mul_pow2, Z.mul_comm by lia. apply Z.add_nocarry_lxor.
  apply Z.bits_inj_0. intros i. rewrite Z.land_spec. change 256 with (2 ^ 8).
  destruct (decide (i < 0)); [by rewrite Z.testbit_neg_r by lia|]. destruct (decide (i < 8)).
  - rewrite (Z.mul_pow2_bits_low (le_value l) 8 i) by lia. apply andb_false_r.
  - rewrite <- (Z.mod_small b (2 ^ 8)) by done. by rewrite Z.mod_pow2_bits_high by lia.
Qed.
#[local] Strategy expand [crc_byte].
(** A word is its bytes, lowest first. *)
Lemma crc_word l crc : is_bytes l -> crc_bits (8 * length l) (Z.lxor crc (le_value l)) = fold_left crc_byte l crc.
Proof.
  intros Hl. revert crc. induction Hl as [|b l Hb Hl IH]; intros crc; [cbn; by rewrite Z.lxor_0_r|].
  replace (8 * length (b :: l))%nat with (8 + 8 * length l)%nat by (cbn; lia).
  rewrite crc_bits_add, le_value_lxor, <- Z.lxor_assoc, crc_bits_lxor by done.
  rewrite (crc_bits_shift 8), fold_left_cons. exact (IH (crc_byte crc b)).
Qed.

Definition word_op (w : nat) (op : Z -> Z -> Z) : Prop :=
  forall crc l, is_u32 crc -> is_bytes l -> length l = w -> op crc (le_value l) = fold_left crc_byte l crc.
Lemma crc_words_spec w op fuel : word_op w op -> (0 < w)%nat -> forall crc data,
  is_u32 crc -> is_bytes data -> (length data <= fuel)%nat ->
  exists crc' rest, crc_words fuel w op crc data = (crc', rest) /\ is_u32 crc' /\ is_bytes rest /\
    (length rest < w)%nat /\ (length rest <= length data)%nat /\ fold_left crc_byte rest crc' = fold_left crc_byte data crc.
Proof.
  intros Hop Hw. induction fuel as [|fuel IH]; intros crc data Hc Hd Hl; cbn [crc_words].
  { destruct data; [|cbn in Hl; lia]. by exists crc, []. }
  destruct (w <=? length data)%nat eqn:E.
  - apply Nat.leb_le in E. assert (is_bytes (take w data)) as Ht by by apply Forall_take.
    rewrite Hop; [|done|done|rewrite length_take; lia].
    destruct (IH (fold_left crc_byte (take w data) crc) (drop w data)) as (crc' & rest & -> & H1 & H2 & H3 & H4 & H5).
    + by apply crc_fold_u32.
    + by apply Forall_drop.
    + rewrite length_drop. lia.
    + exists crc', rest. rewrite length_drop in H4. split_and!; try done; [lia|].
      by rewrite H5, <- fold_left_app, take_drop.
  - apply Nat.leb_gt in E. by exists crc, data.
Qed.

(** ** Set bits *)

Lemma land_bit_zero v i : 0 <= i -> (Z.land v (Z.shiftl 1 i) =? 0) = negb (Z.testbit v i).
Proof.
  intros Hi. rewrite Z.shiftl_1_l. apply eq_true_iff_eq. rewrite negb_true_iff, Z.eqb_eq. split.
  - intros E. assert (Z.testbit (Z.land v (2 ^ i)) i = false) as T by by rewrite E, Z.bits_0.
    by rewrite Z.land_spec, Z.pow2_bits_true, andb_true_r in T by done.
  - intros E. apply Z.bits_inj'. intros j Hj. rewrite Z.land_spec, Z.bits_0.
    destruct (decide (j = i)) as [->|]; [by rewrite E|]. by rewrite Z.pow2_bits_false, andb_false_r by done.
Qed.
Lemma fold_filter (P : Z -> bool) (l out : list Z) :
  fold_left (fun out i => if P i then out ++ [i] else out) l out = out ++ filter (fun i => P i = true) l.
Proof.
  revert out. induction l as [|x l IH]; intros out; [by rewrite app_nil_r|]. cbn [fold_left]. rewrite IH, filter_cons.
  destruct (P x) eqn:E; case_decide; try congruence. by rewrite <- app_assoc.
Qed.
Lemma filter_ext_in (P Q : Z -> bool) (l : list Z) : (forall i, i ∈ l -> P i = Q i) ->
  filter (fun i => P i = true) l = filter (fun i => Q i = true) l.
Proof.
  induction l as [|x l IH]; intros E; [done|].
  rewrite !filter_cons, (E x) by constructor. rewrite IH; [done|]. intros i Hi. apply E. by constructor.
Qed.
Lemma generic_scan_correct v : generic_ack_bits_scan v = set_bits v.
Proof.
  unfold generic_ack_bits_scan, set_bits. rewrite (fold_filter (fun i => negb (Z.land v (Z.shiftl 1 i) =? 0))).
  apply (filter_ext_in (fun i => negb (Z.land v (Z.shiftl 1 i) =? 0)) (Z.testbit v)).
  intros i Hi%elem_of_seqZ. by rewrite land_bit_zero, negb_involutive by lia.
Qed.

(** [v & (v - 1)] clears the lowest set bit. *)
Lemma clear_lowest v t : 0 <= t -> Z.testbit v t = true -> (forall j, 0 <= j < t -> Z.testbit v j = false) ->
  forall j, 0 <= j -> Z.testbit (Z.land v (v - 1)) j = Z.testbit v j && negb (j =? t).
Proof.
  intros Ht Hv Hlow j Hj. rewrite Z.land_spec. destruct (Z.testbit v j) eqn:Ej; [|done]. cbn [andb].
  assert (t <= j) as Htj. { destruct (decide (t <= j)); [done|]. by rewrite Hlow in Ej by lia. }
  assert (v mod 2 ^ t = 0) as Hm.
  { apply Z.bits_inj'. intros k Hk. rewrite testbit_mod_pow2, Z.bits_0 by lia.
    destruct (k <? t) eqn:E; [|done]. bool_facts. rewrite Hlow by lia. done. }
  pose proof (Z.pow_pos_nonneg 2 t ltac:(lia) Ht) as Hp. pose proof (Z.div_mod v (2 ^ t) ltac:(lia)) as Hd.
  assert (Z.odd (v / 2 ^ t) = true) as Hodd by by rewrite <- Z.bit0_odd, Z.div_pow2_bits, Z.add_0_l by lia.
  apply Z.odd_spec in Hodd as [m Hm2].
  assert (v - 1 = (2 ^ t - 1) + 2 ^ (t + 1) * m) as Hv1.
  { rewrite Z.pow_add_r by lia. change (2 ^ 1) with 2. rewrite Hd, Hm, Hm2. ring. }
  assert (v = 2 ^ t + 2 ^ (t + 1) * m) as Hv2 by lia.
  pose proof (Z.pow_pos_nonneg 2 (t + 1) ltac:(lia) ltac:(lia)).
  assert (2 ^ (t + 1) = 2 * 2 ^ t) as Hp2 by (rewrite Z.pow_add_r by lia; lia).
  destruct (decide (j = t)) as [->|Hne].
  - rewrite Z.eqb_refl. cbn [negb]. rewrite Z.testbit_odd, Z.shiftr_div_pow2, Hv1 by lia.
    replace (2 ^ t - 1 + 2 ^ (t + 1) * m) with (2 ^ t - 1 + (2 * m) * 2 ^ t) by (rewrite Hp2; ring).
    rewrite Z.div_add, Z.div_small by lia. by rewrite Z.add_0_l, Z.odd_mul.
  - rewrite (proj2 (Z.eqb_neq j t)) by done. cbn [negb]. rewrite <- Ej.
    replace j with (j - (t + 1) + (t + 1)) by lia. rewrite <- !Z.div_pow2_bits by lia. f_equal.
    rewrite Hv1. rewrite Hv2 at 1. rewrite !(Z.mul_comm (2 ^ (t + 1))), !Z.div_add, !Z.div_small by lia. done.
Qed.

(** ** Counting bits *)

Definition word (a b c d : Z) : Z := a + 256 * (b + 256 * (c + 256 * d)).

Lemma byte_test (P : Z -> bool) x : forallb P (seqZ 0 256) = true -> is_u8 x -> P x = true.
Proof. intros HP Hx. apply (Quantize.forall_seqZ P 0 256 x HP). done. Qed.
Lemma word_split v : is_u32 v -> exists a b c d, v = word a b c d /\ is_u8 a /\ is_u8 b /\ is_u8 c /\ is_u8 d.
Proof.
  intros Hv. exists (v mod 256), (v / 256 mod 256), (v / 256 / 256 mod 256), (v / 256 / 256 / 256).
  unfold word, is_u8, is_u32 in *. split_and!; mlia.
Qed.
Lemma testbit_cat a b i : is_u8 a -> 0 <= i -> Z.testbit (a + 256 * b) i = if i <? 8 then Z.testbit a i else Z.testbit b (i - 8).
Proof.
  intros Ha Hi. unfold is_u8 in Ha. case_if.
  - rewrite <- (Z.mod_pow2_bits_low _ 8) by lia. f_equal. change (2 ^ 8) with 256. mlia.
  - replace i with (i - 8 + 8) at 1 by lia. rewrite <- Z.div_pow2_bits by lia. f_equal. change (2 ^ 8) with 256. mlia.
Qed.
Lemma land_cat a m b n : is_u8 a -> is_u8 m -> Z.land (a + 256 * b) (m + 256 * n) = Z.land a m + 256 * Z.land b n.
Proof.
  intros Ha Hm. apply Z.bits_inj'. intros i Hi.
  rewrite Z.land_spec, !testbit_cat by (done || apply (land_range 8); done || lia). case_if; by rewrite Z.land_spec.
Qed.
Lemma land_word a b c d k : is_u8 a -> is_u8 b -> is_u8 c -> is_u8 k ->
  Z.land (word a b c d) (word k k k k) = word (Z.land a k) (Z.land b k) (Z.land c k) (Z.land d k).
Proof. intros. unfold word. by rewrite !land_cat. Qed.

(** The three steps on a byte; the bits that come in from the next byte are masked. *)
Definition step1 (x : Z) : Z := x - Z.land (x / 2) 0x55.
Definition step2 (x : Z) : Z := Z.land x 0x33 + Z.land (x / 4) 0x33.
Definition step3 (x : Z) : Z := Z.land (x + x / 16) 0x0f.
Lemma shift_mask1 x y : is_u8 x -> Z.land (x / 2 + 128 * (y mod 2)) 0x55 = Z.land (x / 2) 0x55.
Proof.
  intros Hx. apply Z.eqb_eq. pose proof (byte_test (fun x => (Z.land (x / 2 + 128 * 0) 0x55 =? Z.land (x / 2) 0x55)
    && (Z.land (x / 2 + 128 * 1) 0x55 =? Z.land (x / 2) 0x55)) x ltac:(by vm_compute) Hx) as T.
  apply andb_true_iff in T as [T0 T1]. assert (y mod 2 = 0 \/ y mod 2 = 1) as [->| ->] by mlia; done.
Qed.
Lemma shift_mask2 x y : is_u8 x -> Z.land (x / 4 + 64 * (y mod 4)) 0x33 = Z.land (x / 4) 0x33.
Proof.
  intros Hx. apply Z.eqb_eq. pose proof (byte_test (fun x => forallb (fun p => Z.land (x / 4 + 64 * p) 0x33 =? Z.land (x / 4) 0x33) (seqZ 0 4))
    x ltac:(by vm_compute) Hx) as T. apply (Quantize.forall_seqZ _ 0 4 (y mod 4) T). mlia.
Qed.
Lemma mask3 x y : Z.land (x + 16 * y) 0x0f = Z.land x 0x0f.
Proof. change 0x0f with (Z.ones 4). rewrite !Z.land_ones by lia. change (2 ^ 4) with 16. mlia. Qed.
Lemma step_bounds x : is_u8 x -> is_u8 (step1 x) /\ 0 <= step2 (step1 x) <= 0x44 /\ step2 (step1 x) mod 16 <= 4
  /\ 0 <= step3 (step2 (step1 x)) <= 8.
Proof.
  intros Hx. pose proof (byte_test (fun x => (0 <=? step1 x) && (step1 x <? 256) && (0 <=? step2 (step1 x)) && (step2 (step1 x) <=? 0x44)
    && (step2 (step1 x) mod 16 <=? 4) && (0 <=? step3 (step2 (step1 x))) && (step3 (step2 (step1 x)) <=? 8)) x ltac:(by vm_compute) Hx) as T.
  cbn beta in T. unfold is_u8. bool_facts. lia.
Qed.

Lemma stage1 a b c d : is_u8 a -> is_u8 b -> is_u8 c -> is_u8 d ->
  u32 (word a b c d - Z.land (Z.shiftr (word a b c d) 1) 0x55555555) = word (step1 a) (step1 b) (step1 c) (step1 d).
Proof.
  intros Ha Hb Hc Hd. pose proof (proj1 (step_bounds a Ha)). pose proof (proj1 (step_bounds b Hb)).
  pose proof (proj1 (step_bounds c Hc)). pose proof (proj1 (step_bounds d Hd)).
  rewrite Z.shiftr_div_pow2 by lia. change (2 ^ 1) with 2. change 0x55555555 with (word 0x55 0x55 0x55 0x55).
  assert (word a b c d / 2 = word (a / 2 + 128 * (b mod 2)) (b / 2 + 128 * (c mod 2)) (c / 2 + 128 * (d mod 2)) (d / 2)) as ->
    by (unfold word, is_u8 in *; mlia).
  rewrite land_word, !shift_mask1 by (done || (unfold is_u8 in *; mlia)).
  rewrite u32_small; [|unfold is_u32]; unfold word, step1, is_u8 in *; lia.
Qed.
Lemma stage2 a b c d : is_u8 a -> is_u8 b -> is_u8 c -> is_u8 d ->
  u32 (Z.land (word a b c d) 0x33333333 + Z.land (Z.shiftr (word a b c d) 2) 0x33333333) = word (step2 a) (step2 b) (step2 c) (step2 d).
Proof.
  intros Ha Hb Hc Hd.
  assert (forall x, is_u8 x -> 0 <= step2 x <= 0x66) as B.
  { intros x Hx. pose proof (byte_test (fun x => (0 <=? step2 x) && (step2 x <=? 0x66)) x ltac:(by vm_compute) Hx) as T.
    cbn beta in T. bool_facts. lia. }
  pose proof (B a Ha). pose proof (B b Hb). pose proof (B c Hc). pose proof (B d Hd). clear B.
  rewrite Z.shiftr_div_pow2 by lia. change (2 ^ 2) with 4. change 0x33333333 with (word 0x33 0x33 0x33 0x33).
  assert (word a b c d / 4 = word (a / 4 + 64 * (b mod 4)) (b / 4 + 64 * (c mod 4)) (c / 4 + 64 * (d mod 4)) (d / 4)) as ->
    by (unfold word, is_u8 in *; mlia).
  rewrite !land_word, !shift_mask2 by (done || (unfold is_u8 in *; mlia)).
  rewrite u32_small; [|unfold is_u32]; unfold word, step2, is_u8 in *; lia.
Qed.
Lemma stage3 a b c d : 0 <= a <= 0x44 -> 0 <= b <= 0x44 -> 0 <= c <= 0x44 -> 0 <= d <= 0x44 ->
  b mod 16 <= 4 -> c mod 16 <= 4 -> d mod 16 <= 4 ->
  Z.land (u32 (word a b c d + Z.shiftr (word a b c d) 4)) 0x0f0f0f0f = word (step3 a) (step3 b) (step3 c) (step3 d).
Proof.
  intros. rewrite Z.shiftr_div_pow2 by lia. change (2 ^ 4) with 16. change 0x0f0f0f0f with (word 0x0f 0x0f 0x0f 0x0f).
  assert (word a b c d / 16 = word (a / 16 + 16 * (b mod 16)) (b / 16 + 16 * (c mod 16)) (c / 16 + 16 * (d mod 16)) (d / 16)) as ->
    by (unfold word; mlia).
  rewrite u32_small by (unfold is_u32, word; mlia).
  assert (word a b c d + word (a / 16 + 16 * (b mod 16)) (b / 16 + 16 * (c mod 16)) (c / 16 + 16 * (d mod 16)) (d / 16)
    = word (a + a / 16 + 16 * (b mod 16)) (b + b / 16 + 16 * (c mod 16)) (c + c / 16 + 16 * (d mod 16)) (d + d / 16)) as ->
    by (unfold word; ring).
  rewrite land_word, !mask3 by (unfold is_u8; mlia). done.
Qed.
Lemma stage4 a b c d : 0 <= a <= 8 -> 0 <= b <= 8 -> 0 <= c <= 8 -> 0 <= d <= 8 ->
  Z.shiftr (u32 (word a b c d * 0x01010101)) 24 = a + b + c + d.
Proof.
  intros. rewrite Z.shiftr_div_pow2 by lia. unfold u32, word.
  replace ((a + 256 * (b + 256 * (c + 256 * d))) * 0x01010101)
    with ((a + b + c + d) * 2 ^ 24 + (a + (a + b) * 2 ^ 8 + (a + b + c) * 2 ^ 16)
          + (b + c + d + (c + d) * 2 ^ 8 + d * 2 ^ 16) * 2 ^ 32) by ring.
  rewrite Z.mod_add, Z.mod_small by lia. rewrite Z.div_add_l, Z.div_small by lia. lia.
Qed.

Definition byte_bits (x : Z) : Z := zlen (filter (fun i => Z.testbit x i = true) (seqZ 0 8)).
Lemma byte_bits_steps x : is_u8 x -> byte_bits x = step3 (step2 (step1 x)).
Proof. intros Hx. apply Z.eqb_eq. apply (byte_test (fun x => byte_bits x =? step3 (step2 (step1 x)))); [by vm_compute|done]. Qed.

Lemma filter_shift (P Q : Z -> bool) m n k : (forall i, m <= i < m + n -> P (i + k) = Q i) ->
  zlen (filter (fun i => P i = true) (seqZ (m + k) n)) = zlen (filter (fun i => Q i = true) (seqZ m n)).
Proof.
  intros E. pose proof (fmap_seqZ_shift (fun i => i) m n k) as S. rewrite list_fmap_id in S. rewrite S.
  assert (forall i, i ∈ seqZ m n -> P (i + k) = Q i) as E'.
  { intros i Hi%elem_of_seqZ. by apply E. }
  clear E S. induction (seqZ m n) as [|x l IH]; [done|]. cbn [fmap list_fmap]. rewrite !filter_cons, E' by constructor.
  assert (zlen (filter (fun i => P i = true) ((fun i => i + k) <$> l)) = zlen (filter (fun i => Q i = true) l)) as IH'.
  { apply IH. intros i Hi. apply E'. by constructor. }
  case_decide; rewrite ?zlen_cons; [f_equal|]; exact IH'.
Qed.
Lemma bit_count_word a b c d : is_u8 a -> is_u8 b -> is_u8 c -> is_u8 d ->
  bit_count (word a b c d) = byte_bits a + byte_bits b + byte_bits c + byte_bits d.
Proof.
  intros. unfold bit_count, set_bits, byte_bits.
  change (seqZ 0 32) with (seqZ (0 + 0) 8 ++ seqZ (0 + 8) 8 ++ seqZ (0 + 16) 8 ++ seqZ (0 + 24) 8).
  rewrite !list.filter_app, !zlen_app.
  rewrite (filter_shift _ (Z.testbit a)), (filter_shift _ (Z.testbit b)), (filter_shift _ (Z.testbit c)), (filter_shift _ (Z.testbit d)); [lia|..];
    intros i Hi; unfold word; rewrite !testbit_cat by (done || lia); repeat case_if; try lia; f_equal; lia.
Qed.
Lemma generic_popcount_correct v : is_u32 v -> generic_popcount32 v = bit_count v.
Proof.
  intros Hv. destruct (word_split v Hv) as (a & b & c & d & -> & Ha & Hb & Hc & Hd). unfold generic_popcount32.
  rewrite stage1 by done.
  destruct (step_bounds a Ha) as (A1 & A2 & A3 & A4), (step_bounds b Hb) as (B1 & B2 & B3 & B4),
    (step_bounds c Hc) as (C1 & C2 & C3 & C4), (step_bounds d Hd) as (D1 & D2 & D3 & D4).
  rewrite stage2, stage3, stage4 by done. rewrite bit_count_word, !byte_bits_steps by done. done.
Qed.

Lemma word_op_of w op : (forall crc v, is_u32 crc -> 0 <= v < 2 ^ (8 * Z.of_nat w) -> op crc v = crc_bits (8 * w) (Z.lxor crc v)) ->
  word_op w op.
Proof.
  intros H crc l Hc Hl Hn. pose proof (le_value_range l Hl) as R. unfold zlen in R. rewrite Hn in R.
  rewrite H by done. rewrite <- (crc_word l crc Hl), Hn. done.
Qed.
Lemma word_crc32c_correct b op8 op4 op1 data : word_op 8 op8 -> word_op 4 op4 -> word_op 1 op1 ->
  is_bytes data -> word_crc32c b op8 op4 op1 data = crc32c_spec data.
Proof.
  intros W8 W4 W1 Hd. unfold word_crc32c, crc32c_spec.
  assert (is_u32 (2 ^ 32 - 1)) as Hff by (unfold is_u32; lia).
  assert (exists c1 d1, (if b then crc_words (length data) 8 op8 (2 ^ 32 - 1) data
      else (2 ^ 32 - 1, data)) = (c1, d1) /\ is_u32 c1 /\ is_bytes d1 /\ (length d1 <= length data)%nat
      /\ fold_left crc_byte d1 c1 = fold_left crc_byte data (2 ^ 32 - 1)) as (c1 & d1 & -> & U1 & B1 & L1 & E1).
  { destruct b; [|by eexists _, _].
    destruct (crc_words_spec 8 _ (length data) W8 ltac:(lia) _ data Hff Hd ltac:(done)) as (c & r & E & ? & ? & _ & ? & ?).
    by exists c, r. }
  destruct (crc_words_spec 4 _ (length data) W4 ltac:(lia) c1 d1 U1 B1 L1) as (c2 & d2 & -> & U2 & B2 & _ & L2 & E2).
  destruct (crc_words_spec 1 _ (length data) W1 ltac:(lia) c2 d2 U2 B2 ltac:(lia)) as (c3 & d3 & -> & U3 & B3 & L3 & _ & E3).
  destruct d3; [|cbn in L3; lia]. cbn in E3. by rewrite E3, E2, E1.
Qed.

(** What the processor's count of trailing zeros promises. *)
Definition counts_zeros (ctz : Z -> Z) : Prop := forall v, is_u32 v -> v <> 0 ->
  0 <= ctz v /\ Z.testbit v (ctz v) = true /\ forall j, 0 <= j < ctz v -> Z.testbit v j = false.
Lemma scan_loop_correct ctz fuel : counts_zeros ctz -> forall v p,
  is_u32 v -> 0 <= p <= 32 -> (forall j, 0 <= j < p -> Z.testbit v j = false) -> 32 - p < Z.of_nat fuel ->
  scan_loop ctz fuel v = filter (fun i => Z.testbit v i = true) (seqZ p (32 - p)).
Proof.
  intros Z0. induction fuel as [|fuel IH]; intros v p Hv Hp Hlow Hf; [lia|]. cbn [scan_loop]. case_if.
  { subst v. symmetry. induction (seqZ p (32 - p)) as [|x l IHl]; [done|]. by rewrite filter_cons, Z.bits_0. }
  destruct (Z0 v Hv) as (Ht & Hb & Hl); [done|]. set (t := ctz v) in *.
  assert (p <= t) as Hpt. { destruct (decide (p <= t)); [done|]. by rewrite Hlow in Hb by lia. }
  assert (t < 32) as Ht32.
  { destruct (decide (t < 32)); [done|]. rewrite <- (u32_small v Hv) in Hb. unfold u32 in Hb.
    by rewrite Z.mod_pow2_bits_high in Hb by lia. }
  replace (32 - p) with ((t - p) + (1 + (31 - t))) by lia. rewrite seqZ_app by lia.
  replace (p + (t - p)) with t by lia. rewrite (seqZ_cons t) by lia.
  replace (Z.pred (1 + (31 - t))) with (32 - (t + 1)) by lia. change (Z.succ t) with (t + 1).
  pose proof (clear_lowest v t Ht Hb Hl) as Hc.
  rewrite list.filter_app, filter_cons_True by done. rewrite (IH (Z.land v (v - 1)) (t + 1)); [|apply land_range; [lia|done]|lia| |lia].
  - assert (filter (fun i => Z.testbit v i = true) (seqZ p (t - p)) = []) as ->.
    { rewrite (filter_ext_in (Z.testbit v) (fun _ => false)).
      - by induction (seqZ p (t - p)).
      - intros i Hi%elem_of_seqZ. apply Hl. lia. }
    cbn [app]. f_equal. apply (filter_ext_in (Z.testbit (Z.land v (v - 1))) (Z.testbit v)).
    intros i Hi%elem_of_seqZ. rewrite Hc by lia. rewrite (proj2 (Z.eqb_neq i t)) by lia. by rewrite andb_true_r.
  - intros j Hj. rewrite Hc by lia. destruct (decide (j = t)) as [->|]; [by rewrite Z.eqb_refl, andb_false_r|].
    by rewrite Hl by lia.
Qed.
Lemma scan_correct ctz v : counts_zeros ctz -> is_u32 v -> scan_loop ctz 33 v = set_bits v.
Proof.
  intros Hz Hv. pose proof (scan_loop_correct ctz 33 Hz v 0) as E. unfold set_bits. rewrite E by (done || lia). done.
Qed.

(** ** Lanes *)

Lemma replay_check_app a b seq :
  generic_replay_check (a ++ b) seq = if bool_decide (seq ∈ a) then 1 else generic_replay_check b seq.
Proof.
  induction a as [|x a IH]; [done|]. cbn. rewrite IH. case_if; [subst; by rewrite bool_decide_true by constructor|].
  rewrite (bool_decide_ext (seq ∈ x :: a) (seq ∈ a)); [done|]. split; [intros [?|?]%elem_of_cons; [congruence|done]|by constructor].
Qed.
Lemma vector_replay_correct hit w fuel : (forall l seq, length l = w -> hit l (replicate w seq) = bool_decide (seq ∈ l)) -> forall window seq,
  vector_replay_check hit fuel w window seq = generic_replay_check window seq.
Proof.
  intros Hh. induction fuel as [|fuel IH]; intros window seq; cbn [vector_replay_check]; [done|].
  destruct (w <=? length window)%nat eqn:E; [|done]. apply Nat.leb_le in E.
  rewrite <- (take_drop w window) at 3. rewrite replay_check_app.
  rewrite Hh by (rewrite length_take; lia). case_if; [done|apply IH].
Qed.

Lemma accumulate_zip dst src : generic_accumulate_u64 dst src = zip_with (fun x y => u64 (x + y)) dst src.
Proof. revert src. induction dst as [|x dst IH]; intros [|y src]; cbn; [done..|]. by rewrite IH. Qed.
Lemma vector_accumulate_correct add w fuel :
  (forall a b, length a = length b -> add a b = zip_with (fun x y => u64 (x + y)) a b) -> forall dst src,
  length dst = length src -> vector_accumulate add fuel w dst src = generic_accumulate_u64 dst src.
Proof.
  intros Ha. induction fuel as [|fuel IH]; intros dst src Hl; cbn [vector_accumulate]; [done|].
  destruct (w <=? length dst)%nat eqn:E; [|done]. apply Nat.leb_le in E.
  rewrite Ha by (rewrite !length_take; lia). rewrite IH by (rewrite !length_drop; lia).
  rewrite (accumulate_zip dst), (accumulate_zip (drop w dst)).
  rewrite <- zip_with_app by (rewrite !length_take; lia). by rewrite !take_drop.
Qed.

(** ** Masks and addresses *)

Definition mask_bit (mask : bytes) (i : Z) : bool := Z.testbit mask.[i / 8] (i mod 8).
Lemma mask_loop_spec {A} mask (missing : Z -> A) all n : forall i,
  0 <= i -> i + Z.of_nat n <= 8 * zlen mask ->
  (mask_loop n i mask missing all = Some all /\ forall j, i <= j < i + Z.of_nat n -> mask_bit mask j = true)
  \/ exists j, i <= j < i + Z.of_nat n /\ mask_loop n i mask missing all = Some (missing j) /\ mask_bit mask j = false
       /\ forall k, i <= k < j -> mask_bit mask k = true.
Proof.
  induction n as [|n IH]; intros i Hi Hn; cbn [mask_loop]; [left; split; [done|lia]|].
  rewrite Z.quot_div_nonneg, Z.rem_mod_nonneg by lia.
  rewrite oget_aget, Some_bind by (split; [apply Z.div_pos; lia|apply Z.div_lt_upper_bound; lia]).
  rewrite land_bit_zero by (apply Z.mod_pos_bound; lia). fold (mask_bit mask i).
  destruct (mask_bit mask i) eqn:E; cbn [negb].
  - destruct (IH (i + 1)) as [[E1 H1]|(j & Hj & E1 & H1 & H2)]; [lia|lia|left|right].
    + split; [done|]. intros j Hj. destruct (decide (j = i)) as [->|]; [done|]. apply H1. lia.
    + exists j. split_and!; [lia|lia|done|done|]. intros k Hk. destruct (decide (k = i)) as [->|]; [done|]. apply H2. lia.
  - right. exists i. split_and!; [lia|lia|done|done|lia].
Qed.

Lemma lookup_prefix_eq (a b : bytes) n :
  length a = n -> length b = n -> (forall i, (i < n)%nat -> a !! i = b !! i) -> a = b.
Proof.
  intros La Lb E. apply list_eq. intros i. destruct (decide (i < n)%nat); [by apply E|].
  rewrite !lookup_ge_None_2 by lia. done.
Qed.
Section Agree.
Context `{IntrinsicsSpec}.

Lemma sse42_crc32c_correct x64 data : is_bytes data -> sse42_crc32c x64 data = crc32c_spec data.
Proof.
  apply word_crc32c_correct; apply word_op_of.
  - intros crc v Hc Hv. rewrite crc32_u64_spec by done. apply u32_small.
    pose proof (crc_word (le_bytes 8 v) crc (le_bytes_is_bytes 8 v)) as E.
    rewrite length_le_bytes, le_value_bytes_small in E by done. change 64%nat with (8 * 8)%nat. rewrite E.
    apply crc_fold_u32; [apply le_bytes_is_bytes|done].
  - intros crc v Hc Hv. by apply crc32_u32_spec.
  - intros crc v Hc Hv. by apply crc32_u8_spec.
Qed.
Lemma sse42_scan_correct v : is_u32 v -> sse42_ack_bits_scan v = set_bits v.
Proof. exact (scan_correct tzcnt_u32 v tzcnt_spec). Qed.
Lemma lanes_equal w l seq : length l = w -> mm_hit l (replicate w seq) = bool_decide (seq ∈ l).
Proof.
  intros <-. unfold mm_hit. rewrite cmpeq_spec by by rewrite length_replicate.
  rewrite <- (negb_involutive (bool_decide _)). f_equal.
  apply eq_true_iff_eq. rewrite Z.eqb_eq, negb_true_iff, bool_decide_eq_false, movemask_spec.
  induction l as [|x l IH]; [set_solver|]. cbn [length replicate zip_with].
  rewrite Forall_cons_iff, IH, not_elem_of_cons. case_if.
  - subst. split; [|by intros [? _]]. intros [E _]. specialize (E 0 ltac:(lia)). by vm_compute in E.
  - split; [intros [_ ?]; split; [congruence|done]|]. intros [_ ?]. split; [|done]. intros k _. apply Z.bits_0.
Qed.

Lemma sse42_addr_equal_correct a b len :
  0 <= len <= 16 -> (len <= zlen a) -> (len <= zlen b) ->
  sse42_addr_equal a b len = Some (generic_addr_equal a b len).
Proof.
  intros Hl Ha Hb. unfold sse42_addr_equal. case_if; [|done]. assert (len = 16) as -> by lia.
  unfold mread. rewrite !(proj2 (Z.leb_le _ _)) by lia. cbn [andb]. rewrite !Some_bind.
  change (Z.to_nat 0) with 0%nat. rewrite !drop_0. unfold generic_addr_equal.
  set (va := take (Z.to_nat 16) a). set (vb := take (Z.to_nat 16) b).
  assert (length va = 16%nat /\ length vb = 16%nat) as [La Lb] by (subst va vb; unfold zlen in *; rewrite !length_take; lia).
  change (guard_ub (16 <? 31)) with (Some tt). rewrite Some_bind.
  destruct (cmpeq8_spec va vb La Lb) as [R T]. change (Z.shiftl 1 16 - 1) with (Z.ones 16).
  rewrite Z.land_ones, Z.mod_small by (done || lia).
  enough ((movemask_cmpeq_epi8 va vb =? Z.ones 16) = bool_decide (va = vb)) as -> by done.
  apply eq_true_iff_eq. rewrite Z.eqb_eq, bool_decide_eq_true. split.
  - intros Eq. apply (lookup_prefix_eq va vb 16 La Lb). intros i Hi. specialize (T i Hi).
    rewrite Eq, Z.ones_spec_low in T by lia. symmetry in T. by apply bool_decide_eq_true in T.
  - intros Eq. apply Z.bits_inj'. intros j Hj. destruct (decide (j < 16)).
    + rewrite Z.ones_spec_low by lia. rewrite <- (Z2Nat.id j) by done. rewrite T by lia. rewrite Eq. by apply bool_decide_true.
    + rewrite Z.ones_spec_high by lia. rewrite <- (Z.mod_small _ _ R). by rewrite Z.mod_pow2_bits_high by lia.
Qed.

(** ** Every table *)

(** What the callers of [g_simd] rely on. *)
Record simd_correct (ops : SimdOps) : Prop := {
  ok_crc data : is_bytes data -> crc32c_ ops data = crc32c_spec data;
  ok_scan v : is_u32 v -> ack_bits_scan_ ops v = set_bits v;
  ok_popcount v : is_u32 v -> popcount32_ ops v = bit_count v;
  ok_replay window seq : replay_check_ ops window seq = if bool_decide (seq ∈ window) then 1 else 0;
  ok_complete mask total : 0 <= total <= 8 * zlen mask -> exists r, fragment_bitmask_complete_ ops mask total = Some r
    /\ (r = 0 \/ r = 1) /\ (r = 1 <-> forall i, 0 <= i < total -> mask_bit mask i = true);
  ok_missing mask total : 0 <= total <= 8 * zlen mask -> exists r, fragment_next_missing_ ops mask total = Some r
    /\ ((r = -1 /\ forall i, 0 <= i < total -> mask_bit mask i = true)
        \/ (0 <= r < total /\ mask_bit mask r = false /\ forall i, 0 <= i < r -> mask_bit mask i = true));
  ok_accumulate dst src : length dst = length src ->
    accumulate_u64_ ops dst src = zip_with (fun x y => u64 (x + y)) dst src;
  ok_addr a b len : 0 <= len <= 16 -> len <= zlen a -> len <= zlen b ->
    addr_equal_ ops a b len = Some (if bool_decide (take (Z.to_nat len) a = take (Z.to_nat len) b) then 1 else 0) }.

Lemma replay_spec window seq : generic_replay_check window seq = if bool_decide (seq ∈ window) then 1 else 0.
Proof. rewrite <- (app_nil_r window) at 1. by rewrite replay_check_app. Qed.
Lemma complete_spec mask total : 0 <= total <= 8 * zlen mask -> exists r, generic_fragment_bitmask_complete mask total = Some r
  /\ (r = 0 \/ r = 1) /\ (r = 1 <-> forall i, 0 <= i < total -> mask_bit mask i = true).
Proof.
  intros Ht. unfold generic_fragment_bitmask_complete.
  destruct (mask_loop_spec mask (fun _ => 0) 1 (Z.to_nat total) 0) as [[-> H1]|(j & Hj & -> & H1 & _)]; [lia|lia|..].
  - exists 1. split_and!; [done|by right|]. split; [|done]. intros _ i Hi. apply H1. lia.
  - exists 0. split_and!; [done|by left|]. split; [done|]. intros A. rewrite A in H1 by lia. done.
Qed.
Lemma missing_spec mask total : 0 <= total <= 8 * zlen mask -> exists r, generic_fragment_next_missing mask total = Some r
  /\ ((r = -1 /\ forall i, 0 <= i < total -> mask_bit mask i = true)
      \/ (0 <= r < total /\ mask_bit mask r = false /\ forall i, 0 <= i < r -> mask_bit mask i = true)).
Proof.
  intros Ht. unfold generic_fragment_next_missing.
  destruct (mask_loop_spec mask (fun i => i) (-1) (Z.to_nat total) 0) as [[-> H1]|(j & Hj & -> & H1 & H2)]; [lia|lia|..].
  - exists (-1). split; [done|left]. split; [done|]. intros i Hi. apply H1. lia.
  - exists j. split; [done|right]. split_and!; [lia|lia|done|done].
Qed.

Lemma generic_correct : simd_correct g_ops_generic.
Proof.
  split.
  - exact generic_crc32c_correct.
  - intros v _. exact (generic_scan_correct v).
  - exact generic_popcount_correct.
  - exact replay_spec.
  - exact complete_spec.
  - exact missing_spec.
  - intros dst src _. exact (accumulate_zip dst src).
  - done.
Qed.
(** A vector table with [w] lanes. *)
Lemma vector_correct x64 w : simd_correct
  (mkOps (sse42_crc32c x64) sse42_ack_bits_scan sse42_popcount32
     (fun window seq => vector_replay_check mm_hit (length window) w window seq)
     generic_fragment_bitmask_complete generic_fragment_next_missing
     (fun dst src => vector_accumulate add_epi64 (length dst) w dst src) sse42_addr_equal).
Proof.
  split.
  - exact (sse42_crc32c_correct x64).
  - exact sse42_scan_correct.
  - exact popcnt_spec.
  - intros window seq. cbn [replay_check_]. rewrite vector_replay_correct; [apply replay_spec|]. intros l x. apply lanes_equal.
  - exact complete_spec.
  - exact missing_spec.
  - intros dst src E. cbn [accumulate_u64_]. rewrite vector_accumulate_correct; [apply accumulate_zip|exact add_spec|done].
  - exact sse42_addr_equal_correct.
Qed.

Lemma tables_correct x64 cpuid : simd_correct (detect_and_set x64 cpuid).
Proof. unfold detect_and_set. destruct (detect_x86 cpuid); [exact generic_correct|exact (vector_correct x64 2)|exact (vector_correct x64 4)]. Qed.

(** Longer addresses never compare equal, not even with themselves. *)
Lemma sse42_addr_equal_long a len : 16 < len < 31 -> 16 <= zlen a -> sse42_addr_equal a a len = Some 0.
Proof.
  intros Hl Ha. unfold sse42_addr_equal. rewrite (proj2 (Z.leb_le 16 len)) by lia.
  unfold mread. rewrite !(proj2 (Z.leb_le _ _)) by lia. cbn [andb]. rewrite !Some_bind.
  rewrite (proj2 (Z.ltb_lt len 31)) by lia. cbn [guard_ub]. rewrite Some_bind. do 2 f_equal.
  set (va := take _ _). assert (length va = 16%nat) as La by (subst va; unfold zlen in *; rewrite length_take, length_drop; lia).
  destruct (cmpeq8_spec va va La La) as [R _].
  assert (Z.testbit (Z.land (movemask_cmpeq_epi8 va va) (Z.shiftl 1 len - 1)) 16 = false) as T.
  { rewrite Z.land_spec, <- (Z.mod_small _ _ R). by rewrite Z.mod_pow2_bits_high by lia. }
  rewrite (proj2 (Z.eqb_neq _ _)); [done|]. intros E. rewrite E, Z.shiftl_1_l in T. change (2 ^ len - 1) with (Z.pred (2 ^ len)) in T.
  rewrite <- Z.ones_equiv, Z.ones_spec_low in T by lia. done.
Qed.
End Agree.

(** * The instructions in software *)

Fixpoint soft_mask (a b : bytes) : Z :=
  match a, b with
  | x :: a, y :: b => Z.b2z (x =? y) + 2 * soft_mask a b
  | _, _ => 0
  end.
Definition soft : Intrinsics := {|
  mm_crc32_u8 crc v := crc_bits 8 (Z.lxor crc v);
  mm_crc32_u32 crc v := crc_bits 32 (Z.lxor crc v);
  mm_crc32_u64 crc v := crc_bits 64 (Z.lxor crc v);
  tzcnt_u32 v := default 32 (set_bits v !! 0%nat);
  popcnt_u32 := bit_count;
  cmpeq_epi64 a b := zip_with (fun x y => if x =? y then 2 ^ 64 - 1 else 0) a b;
  movemask_epi8 l :=
    if forallb (fun x => forallb (fun k => negb (Z.testbit x (8 * k + 7))) (seqZ 0 8)) l then 0 else 1;
  add_epi64 a b := zip_with (fun x y => u64 (x + y)) a b;
  movemask_cmpeq_epi8 := soft_mask |}.

Lemma soft_mask_spec a : forall b, length a = length b ->
  0 <= soft_mask a b < 2 ^ zlen a /\
  forall i : nat, (i < length a)%nat -> Z.testbit (soft_mask a b) (Z.of_nat i) = bool_decide (a !! i = b !! i).
Proof.
  induction a as [|x a IH]; intros [|y b] Hl; try done; [split; [done|cbn; lia]|].
  destruct (IH b ltac:(by injection Hl)) as [R T]. cbn [soft_mask]. rewrite zlen_cons, Z.pow_add_r by (unfold zlen; lia).
  split; [destruct (x =? y); cbn; lia|]. intros [|i] Hi.
  - change (Z.of_nat 0) with 0. rewrite Z.add_comm, Z.testbit_0_r. cbn [lookup list_lookup].
    destruct (x =? y) eqn:E; bool_facts; symmetry; [apply bool_decide_true|apply bool_decide_false]; congruence.
  - rewrite Nat2Z.inj_succ, Z.add_comm, Z.testbit_succ_r by lia. apply T. cbn in Hi. lia.
Qed.
Lemma set_bits_first v : is_u32 v -> v <> 0 -> exists t l, set_bits v = t :: l /\ 0 <= t /\ Z.testbit v t = true
  /\ forall j, 0 <= j < t -> Z.testbit v j = false.
Proof.
  intros Hv Hn. assert (exists k, 0 <= k < 32 /\ Z.testbit v k = true) as (k & Hk & Hbit).
  { exists (Z.log2 v). assert (0 < v) as Hp by (unfold is_u32 in Hv; lia). split; [|by apply Z.bit_log2].
    split; [apply Z.log2_nonneg|]. apply Z.log2_lt_pow2; [done|apply Hv]. }
  unfold set_bits. assert (forall n p, 0 <= p -> p <= k < p + Z.of_nat n -> (forall j, 0 <= j < p -> Z.testbit v j = false) ->
    exists t l, filter (fun i => Z.testbit v i = true) (seqZ p (Z.of_nat n)) = t :: l /\ 0 <= t /\ Z.testbit v t = true
      /\ forall j, 0 <= j < t -> Z.testbit v j = false) as W.
  { induction n as [|n IH]; intros p Hp Hr Hlow; [lia|]. rewrite seqZ_cons by lia. rewrite filter_cons.
    case_decide as D; [by eexists p, _|]. replace (Z.pred (Z.of_nat (S n))) with (Z.of_nat n) by lia. apply IH; [lia| |].
    - destruct (decide (p = k)); [congruence|lia].
    - intros j Hj. destruct (decide (j = p)) as [->|]; [by apply not_true_is_false|]. apply Hlow. lia. }
  apply (W 32%nat 0); [lia|lia|lia].
Qed.
#[export] Instance soft_spec : IntrinsicsSpec (H := soft).
Proof.
  split; cbn; try done.
  - intros v Hv Hn. destruct (set_bits_first v Hv Hn) as (t & l & -> & ?). done.
  - intros l. case_if.
    + split; [|done]. intros _. rewrite forallb_forall in E. apply list.Forall_forall. intros x Hx k Hk.
      apply list_elem_of_In in Hx. specialize (E x Hx).
      apply (Quantize.forall_seqZ _ 0 8 k) in E; [|lia]. by apply negb_true_iff in E.
    + split; [done|]. intros F. exfalso. apply not_true_iff_false in E. apply E, forallb_forall. intros x Hx%list_elem_of_In.
      rewrite list.Forall_forall in F. apply forallb_forall. intros k Hk%list_elem_of_In%elem_of_seqZ.
      apply negb_true_iff, (F x Hx). lia.
  - intros a b La Lb. destruct (soft_mask_spec a b) as [R T]; [congruence|]. unfold zlen in R. rewrite La in R, T. done.
Qed.

End Simd.
