(* ===== verification/SimdPlatforms.v ===== *)
(** The rest of the processor-specific routines: copying and clearing memory in all
    tables (src/src/simd/simd_generic.cpp, simd_sse42.cpp, simd_avx2.cpp,
    simd_neon.cpp), the ARM table (simd_neon.cpp), and the table a platform gets
    (netudp_simd_detect.cpp).

    ARM's instructions are a second parameter, the class [Neon]. *)

From stdpp Require Import sets.
From S2P Require Import Prelude Bytes Simd.

Module SimdPlatforms.
Import Simd.

(** * Copying and clearing *)

(** A streaming store needs an address aligned to its width; [base] is the address of
    the destination. *)
Definition stream (base w : Z) (d : bytes) (i : Z) (v : bytes) : option bytes :=
  _ ← guard_ub ((base + i) mod w =? 0); mwrite d i v.
(** [for (; i + w - 1 < len; i += w)]. *)
Fixpoint block_loop (load : Z -> option bytes) (store : bytes -> Z -> bytes -> option bytes) (fuel : nat) (w : Z)
    (d : bytes) (i len : Z) : option (bytes * Z) :=
  if i + (w - 1) <? len then
    match fuel with
    | O => None
    | S fuel => v ← load i; d ← store d i v; block_loop load store fuel w d (i + w) len
    end
  else Some (d, i).
(** Whole registers, then bytes. *)
Definition blocks (load : Z -> Z -> option bytes) (store : bytes -> Z -> bytes -> option bytes) (w : Z)
    (d : bytes) (len : Z) : option bytes :=
  '(d, i) ← block_loop (load w) store (Z.to_nat len) w d 0 len;
  '(d, _) ← block_loop (load 1) mwrite (Z.to_nat len) 1 d i len;
  Some d.
Definition load_from (s : bytes) (w i : Z) : option bytes := mread s i w.
Definition load_zero (w i : Z) : option bytes := Some (replicate (Z.to_nat w) 0).
Definition aligned_store (base w : Z) : bytes -> Z -> bytes -> option bytes :=
  if Z.land base (w - 1) =? 0 then stream base w else mwrite.

Definition generic_memcpy_nt (base : Z) (d s : bytes) (len : Z) : option bytes := v ← mread s 0 len; mwrite d 0 v.
Definition generic_memset_zero (base : Z) (d : bytes) (len : Z) : option bytes := mwrite d 0 (replicate (Z.to_nat len) 0).
Definition sse42_memcpy_nt (base : Z) (d s : bytes) (len : Z) : option bytes := blocks (load_from s) (aligned_store base 16) 16 d len.
Definition sse42_memset_zero (base : Z) (d : bytes) (len : Z) : option bytes := blocks load_zero (aligned_store base 16) 16 d len.
Definition avx2_memcpy_nt (base : Z) (d s : bytes) (len : Z) : option bytes := blocks (load_from s) (aligned_store base 32) 32 d len.
Definition avx2_memset_zero (base : Z) (d : bytes) (len : Z) : option bytes := blocks load_zero (aligned_store base 32) 32 d len.
Definition neon_memcpy_nt (base : Z) (d s : bytes) (len : Z) : option bytes := blocks (load_from s) mwrite 16 d len.
Definition neon_memset_zero (base : Z) (d : bytes) (len : Z) : option bytes := blocks load_zero mwrite 16 d len.

Section Blocks.
(** [src] is what the loop writes, [d0] what it writes over. *)
Context (src d0 : bytes) (len : Z) (Hlen : zlen src = len) (Hd : len <= zlen d0).
Definition written (i : Z) : bytes := take (Z.to_nat i) src ++ drop (Z.to_nat i) d0.
Definition loads (load : Z -> option bytes) (w : Z) : Prop := forall i, 0 <= i -> i + w <= len ->
  load i = Some (take (Z.to_nat w) (drop (Z.to_nat i) src)).

Lemma write_block w i : 0 < w -> 0 <= i -> i + w <= len ->
  mwrite (written i) i (take (Z.to_nat w) (drop (Z.to_nat i) src)) = Some (written (i + w)).
Proof.
  intros Hw Hi Hl. unfold written.
  rewrite (mwrite_at _ i _ (take (Z.to_nat i) src) (take (Z.to_nat w) (drop (Z.to_nat i) d0)) (drop (Z.to_nat (i + w)) d0)).
  - rewrite Z2Nat.inj_add, app_assoc by lia. by rewrite take_take_drop.
  - rewrite Z2Nat.inj_add by lia. rewrite <- drop_drop. by rewrite take_drop.
  - unfold zlen in *. rewrite length_take. lia.
  - unfold zlen in *. rewrite !length_take, !length_drop. lia.
Qed.
Lemma block_loop_spec load store w : 0 < w -> loads load w ->
  (forall d i v, i mod w = 0 -> store d i v = mwrite d i v) ->
  forall fuel i, 0 <= i <= len -> i mod w = 0 -> len - i <= Z.of_nat fuel ->
  exists i', block_loop load store fuel w (written i) i len = Some (written i', i') /\ i <= i' <= len /\ len - i' < w.
Proof.
  intros Hw Hload Hst. induction fuel as [|fuel IH]; intros i Hi Hm Hf; cbn [block_loop]; case_if.
  - lia.
  - exists i. split; [done|lia].
  - rewrite Hload by lia. rewrite Some_bind, Hst by done. rewrite write_block by lia. rewrite Some_bind.
    destruct (IH (i + w)) as (i' & E' & R & L); [lia| |lia|].
    { rewrite <- Z.add_mod_idemp_r, Z.mod_same, Z.add_0_r by lia. done. }
    exists i'. split; [done|lia].
  - exists i. split; [done|lia].
Qed.
Lemma blocks_spec load store w : 0 < w -> 0 <= len -> loads (load w) w -> loads (load 1) 1 ->
  (forall d i v, i mod w = 0 -> store d i v = mwrite d i v) ->
  blocks load store w d0 len = Some (src ++ drop (Z.to_nat len) d0).
Proof.
  intros Hw H0 Lw L1 Hst. unfold blocks.
  destruct (block_loop_spec (load w) store w Hw Lw Hst (Z.to_nat len) 0) as (i & E & Hi & _); [lia|by apply Z.mod_0_l; lia|lia|].
  unfold written at 1 in E. change (Z.to_nat 0) with 0%nat in E. rewrite take_0, drop_0 in E. cbn [app] in E.
  rewrite E, Some_bind.
  destruct (block_loop_spec (load 1) mwrite 1 ltac:(lia) L1 ltac:(done) (Z.to_nat len) i) as (i' & E' & Hi' & Hr); [lia|apply Z.mod_1_r|lia|].
  rewrite E', Some_bind. assert (i' = len) as -> by lia. unfold written. rewrite take_ge; [done|]. unfold zlen in *. lia.
Qed.
End Blocks.

Lemma aligned_store_ok base w : w = 16 \/ w = 32 -> forall d i v, i mod w = 0 -> aligned_store base w d i v = mwrite d i v.
Proof.
  intros Hw d i v Hi. unfold aligned_store. case_if; [|done]. unfold stream.
  assert (Z.land base (w - 1) = base mod w) as El.
  { destruct Hw as [->| ->]; [exact (Z.land_ones base 4 ltac:(lia))|exact (Z.land_ones base 5 ltac:(lia))]. }
  rewrite El in E. rewrite (proj2 (Z.eqb_eq _ _)); [done|].
  rewrite <- Z.add_mod_idemp_l, E, Z.add_0_l by lia. done.
Qed.

Definition copies (f : Z -> bytes -> bytes -> Z -> option bytes) : Prop := forall base d s len,
  0 <= len -> len <= zlen d -> len <= zlen s -> f base d s len = Some (take (Z.to_nat len) s ++ drop (Z.to_nat len) d).
Definition clears (f : Z -> bytes -> Z -> option bytes) : Prop := forall base d len,
  0 <= len -> len <= zlen d -> f base d len = Some (replicate (Z.to_nat len) 0 ++ drop (Z.to_nat len) d).

Lemma load_from_ok s len w : len <= zlen s -> 0 <= w -> loads (take (Z.to_nat len) s) len (load_from s w) w.
Proof.
  intros Hs Hw i Hi Hl. unfold load_from. rewrite mread_Some by lia. f_equal.
  rewrite skipn_firstn_comm, take_take. f_equal. lia.
Qed.
Lemma load_zero_ok len w : 0 <= w -> loads (replicate (Z.to_nat len) 0) len (load_zero w) w.
Proof.
  intros Hw i Hi Hl. unfold load_zero. f_equal. rewrite drop_replicate, take_replicate. f_equal. lia.
Qed.
Lemma blocks_copy w store : 0 < w -> (forall d i v, i mod w = 0 -> store d i v = mwrite d i v) ->
  forall d s len, 0 <= len -> len <= zlen d -> len <= zlen s ->
  blocks (load_from s) store w d len = Some (take (Z.to_nat len) s ++ drop (Z.to_nat len) d).
Proof.
  intros Hw Hst d s len H0 Hd Hs. apply blocks_spec; [unfold zlen in *; rewrite length_take; lia|done|done|done|..|done]; apply load_from_ok; lia.
Qed.
Lemma blocks_clear w store : 0 < w -> (forall d i v, i mod w = 0 -> store d i v = mwrite d i v) ->
  forall d len, 0 <= len -> len <= zlen d ->
  blocks load_zero store w d len = Some (replicate (Z.to_nat len) 0 ++ drop (Z.to_nat len) d).
Proof.
  intros Hw Hst d len H0 Hd. apply blocks_spec; [rewrite zlen_replicate; lia|done|done|done|..|done]; apply load_zero_ok; lia.
Qed.
Lemma generic_copies : copies generic_memcpy_nt.
Proof.
  intros base d s len H0 Hd Hs. unfold generic_memcpy_nt. rewrite mread_Some by lia. rewrite Some_bind. change (Z.to_nat 0) with 0%nat. rewrite drop_0.
  apply (mwrite_at d 0 _ [] (take (Z.to_nat len) d)); [by rewrite take_drop|done|unfold zlen in *; rewrite !length_take; lia].
Qed.
Lemma generic_clears : clears generic_memset_zero.
Proof.
  intros base d len H0 Hd. apply (mwrite_at d 0 _ [] (take (Z.to_nat len) d)); [by rewrite take_drop|done|].
  unfold zlen in *. rewrite length_take, length_replicate. lia.
Qed.

(** * ARM *)

(** Registers are lists of lanes. *)
Class Neon : Type := {
  crc32cb : Z -> Z -> Z; crc32cw : Z -> Z -> Z; crc32cd : Z -> Z -> Z; builtin_ctz : Z -> Z;
  vcnt_u8 : bytes -> bytes; vaddv_u8 : bytes -> Z;
  vceqq_u64 : list Z -> list Z -> list Z; vaddq_u64 : list Z -> list Z -> list Z;
  vceqq_u8 : bytes -> bytes -> bytes; vminvq_u8 : bytes -> Z }.
(** The CRC of the operand's bits, the zero bits below the lowest set bit, the set bits
    of every lane, the sum of the lanes in eight bits, lanes of ones where the operands
    agree, the sums of the lanes, and the least lane. *)
Class NeonSpec `{Neon} : Prop := {
  crc32cb_spec crc v : is_u32 crc -> is_u8 v -> crc32cb crc v = crc_bits 8 (Z.lxor crc v);
  crc32cw_spec crc v : is_u32 crc -> is_u32 v -> crc32cw crc v = crc_bits 32 (Z.lxor crc v);
  crc32cd_spec crc v : is_u32 crc -> is_u64 v -> crc32cd crc v = crc_bits 64 (Z.lxor crc v);
  ctz_spec : counts_zeros builtin_ctz;
  vcnt_spec l : length l = 8%nat -> is_bytes l -> vcnt_u8 l = byte_bits <$> l;
  vaddv_spec l : length l = 8%nat -> is_bytes l -> vaddv_u8 l = u8 (foldr Z.add 0 l);
  vceqq_u64_spec a b : length a = length b ->
    vceqq_u64 a b = zip_with (fun x y => if x =? y then 2 ^ 64 - 1 else 0) a b;
  vaddq_spec a b : length a = length b -> vaddq_u64 a b = zip_with (fun x y => u64 (x + y)) a b;
  vceqq_u8_spec a b : length a = length b -> vceqq_u8 a b = zip_with (fun x y => if x =? y then 255 else 0) a b;
  vminvq_spec l : length l = 16%nat -> is_bytes l -> vminvq_u8 l = foldr Z.min 255 l }.

Section Arm.
Context `{Neon}.
(** [feature_crc32] is [__ARM_FEATURE_CRC32]. *)
Definition neon_crc32c (feature_crc32 : bool) (data : bytes) : Z :=
  if feature_crc32 then word_crc32c true crc32cd crc32cw crc32cb data else crc32c_ g_ops_generic data.
Definition neon_ack_bits_scan (bits : Z) : list Z := scan_loop builtin_ctz 33 bits.
Definition neon_popcount32 (v : Z) : Z := vaddv_u8 (vcnt_u8 (le_bytes 8 v)).
Definition neon_hit (vals target : list Z) : bool :=
  let cmp := vceqq_u64 vals target in negb (cmp.[0] =? 0) || negb (cmp.[1] =? 0).
Definition neon_replay_check (window : list Z) (seq : Z) : Z := vector_replay_check neon_hit (length window) 2 window seq.
Definition neon_accumulate_u64 (dst src : list Z) : list Z := vector_accumulate vaddq_u64 (length dst) 2 dst src.
Definition neon_addr_equal (a b : bytes) (len : Z) : option Z :=
  if 16 <=? len then
    va ← mread a 0 16; vb ← mread b 0 16;
    Some (if vminvq_u8 (vceqq_u8 va vb) =? 255 then 1 else 0)
  else Some (generic_addr_equal a b len).
Definition g_ops_neon (feature_crc32 : bool) : SimdOps :=
  mkOps (neon_crc32c feature_crc32) neon_ack_bits_scan neon_popcount32 neon_replay_check generic_fragment_bitmask_complete
    generic_fragment_next_missing neon_accumulate_u64 neon_addr_equal.
End Arm.

Section ArmCorrect.
Context `{NeonSpec}.
Lemma neon_crc32c_correct b data : is_bytes data -> neon_crc32c b data = crc32c_spec data.
Proof.
  unfold neon_crc32c. destruct b; [|exact (generic_crc32c_correct data)].
  apply word_crc32c_correct; apply word_op_of; intros crc v Hc Hv; [by apply crc32cd_spec|by apply crc32cw_spec|by apply crc32cb_spec].
Qed.
Lemma byte_bits_range x : is_u8 x -> 0 <= byte_bits x <= 8.
Proof.
  intros _. unfold byte_bits, zlen. pose proof (length_filter (fun i => Z.testbit x i = true) (seqZ 0 8)) as L.
  rewrite length_seqZ in L. lia.
Qed.
Lemma neon_popcount_correct v : is_u32 v -> neon_popcount32 v = bit_count v.
Proof.
  intros (a & b & c & d & -> & Ha & Hb & Hc & Hd)%word_split. unfold neon_popcount32.
  assert (is_bytes [a; b; c; d; 0; 0; 0; 0]) as B by (repeat (constructor; [done|]); constructor).
  assert (word a b c d = le_value [a; b; c; d; 0; 0; 0; 0]) as Ew by (unfold word; cbn [le_value]; lia).
  pose proof (le_bytes_value [a; b; c; d; 0; 0; 0; 0] B) as El. rewrite <- Ew in El.
  change (length [a; b; c; d; 0; 0; 0; 0]) with 8%nat in El. rewrite El, vcnt_spec by done.
  rewrite bit_count_word by done.
  pose proof (byte_bits_range a Ha). pose proof (byte_bits_range b Hb).
  pose proof (byte_bits_range c Hc). pose proof (byte_bits_range d Hd).
  assert (byte_bits 0 = 0) as E0 by done. rewrite vaddv_spec; [|done|].
  - cbn [fmap list_fmap foldr]. rewrite E0. rewrite u8_small by (unfold is_u8; lia). lia.
  - unfold is_bytes, is_u8. cbn [fmap list_fmap]. rewrite E0. repeat (constructor; [lia|]). constructor.
Qed.
Lemma neon_hit_correct l seq : length l = 2%nat -> neon_hit l (replicate 2 seq) = bool_decide (seq ∈ l).
Proof.
  destruct l as [|x [|y [|]]]; intros L; try done. unfold neon_hit. rewrite vceqq_u64_spec by done. cbn [replicate zip_with].
  change ([if x =? seq then 2 ^ 64 - 1 else 0; if y =? seq then 2 ^ 64 - 1 else 0].[0]) with (if x =? seq then 2 ^ 64 - 1 else 0).
  change ([if x =? seq then 2 ^ 64 - 1 else 0; if y =? seq then 2 ^ 64 - 1 else 0].[1]) with (if y =? seq then 2 ^ 64 - 1 else 0).
  symmetry. destruct (x =? seq) eqn:E1; bool_facts; cbn [negb orb].
  - subst. apply bool_decide_true. by left.
  - destruct (y =? seq) eqn:E2; bool_facts; cbn [negb orb].
    + subst. apply bool_decide_true. by right; left.
    + apply bool_decide_false. intros [?|[?|?%elem_of_nil]%elem_of_cons]%elem_of_cons; congruence.
Qed.
Lemma least_lane (a b : bytes) : length a = length b ->
  foldr Z.min 255 (zip_with (fun x y => if x =? y then 255 else 0) a b) = if bool_decide (a = b) then 255 else 0.
Proof.
  revert b. induction a as [|x a IH]; intros [|y b] L; try done. cbn [zip_with foldr]. rewrite IH by (cbn in L; lia).
  destruct (x =? y) eqn:E; bool_facts.
  - subst. rewrite (bool_decide_ext (y :: a = y :: b) (a = b)); [by case_bool_decide|]. split; [by intros [= ?]|by intros ->].
  - rewrite (bool_decide_false (x :: a = y :: b)) by congruence. by case_bool_decide.
Qed.
Lemma zip_is_bytes a b : is_bytes (zip_with (fun x y : Z => if x =? y then 255 else 0) a b).
Proof. revert b. induction a as [|x a IH]; intros [|y b]; cbn; constructor; [by case_if|apply IH]. Qed.
(** Sixteen bytes are compared exactly; what comes after them is not looked at. *)
Lemma neon_addr_equal_spec a b len : 16 <= len -> 16 <= zlen a -> 16 <= zlen b ->
  neon_addr_equal a b len = Some (if bool_decide (take 16 a = take 16 b) then 1 else 0).
Proof.
  intros Hl Ha Hb. unfold neon_addr_equal. rewrite (proj2 (Z.leb_le 16 len)) by done. rewrite !mread_Some by lia. rewrite !Some_bind.
  change (Z.to_nat 0) with 0%nat. rewrite !drop_0. change (Z.to_nat 16) with 16%nat.
  assert (length (take 16 a) = 16%nat /\ length (take 16 b) = 16%nat) as [La Lb] by (unfold zlen in *; rewrite !length_take; lia).
  rewrite vceqq_u8_spec by congruence. rewrite vminvq_spec; [|rewrite length_zip_with; lia|apply zip_is_bytes].
  rewrite least_lane by congruence. by case_bool_decide.
Qed.
Lemma neon_addr_equal_prefix a x y : length a = 16%nat -> neon_addr_equal (a ++ x) (a ++ y) 24 = Some 1.
Proof.
  intros L. pose proof (zlen_nonneg x). pose proof (zlen_nonneg y). assert (zlen a = 16) by (unfold zlen; lia).
  rewrite neon_addr_equal_spec by (rewrite ?zlen_app; lia). rewrite !take_app_le, !take_ge by lia. by rewrite bool_decide_true.
Qed.
Lemma neon_correct b : simd_correct (g_ops_neon b).
Proof.
  split.
  - exact (neon_crc32c_correct b).
  - intros v. exact (scan_correct builtin_ctz v ctz_spec).
  - exact neon_popcount_correct.
  - intros window seq. cbn [replay_check_ g_ops_neon]. unfold neon_replay_check.
    rewrite vector_replay_correct; [apply replay_spec|exact neon_hit_correct].
  - exact complete_spec.
  - exact missing_spec.
  - intros dst src E. cbn [accumulate_u64_ g_ops_neon]. unfold neon_accumulate_u64.
    rewrite vector_accumulate_correct; [apply accumulate_zip|exact vaddq_spec|done].
  - intros a c len Hl Ha Hc. cbn [addr_equal_ g_ops_neon]. destruct (decide (len = 16)) as [->|].
    + by rewrite neon_addr_equal_spec.
    + unfold neon_addr_equal. rewrite (proj2 (Z.leb_gt 16 len)) by lia. done.
Qed.
End ArmCorrect.

(** * What a platform gets *)

Record MemOps : Type := mkMem { memcpy_nt_ : Z -> bytes -> bytes -> Z -> option bytes; memset_zero_ : Z -> bytes -> Z -> option bytes }.
Definition mem_generic : MemOps := mkMem generic_memcpy_nt generic_memset_zero.
Definition mem_sse42 : MemOps := mkMem sse42_memcpy_nt sse42_memset_zero.
Definition mem_avx2 : MemOps := mkMem avx2_memcpy_nt avx2_memset_zero.
Definition mem_neon : MemOps := mkMem neon_memcpy_nt neon_memset_zero.

(** The architecture the library is compiled for, and what the processor says. *)
Inductive platform : Type :=
| X86 (x64 : bool) (cpuid : Z -> Z -> Z * Z * Z * Z)
| Arm64 (feature_crc32 : bool)
| OtherArch.
(** [detect_and_set]. *)
Definition install `{Intrinsics} `{Neon} (p : platform) : SimdOps * MemOps :=
  match p with
  | X86 x64 cpuid =>
      (detect_and_set x64 cpuid,
       match detect_x86 cpuid with
       | NETUDP_SIMD_AVX2 => mem_avx2 | NETUDP_SIMD_SSE42 => mem_sse42 | NETUDP_SIMD_GENERIC => mem_generic
       end)
  | Arm64 crc => (g_ops_neon crc, mem_neon)
  | OtherArch => (g_ops_generic, mem_generic)
  end.

Definition mem_correct (m : MemOps) : Prop := copies (memcpy_nt_ m) /\ clears (memset_zero_ m).
Lemma mem_tables_correct : mem_correct mem_generic /\ mem_correct mem_sse42 /\ mem_correct mem_avx2 /\ mem_correct mem_neon.
Proof.
  split_and!; split; try exact generic_copies; try exact generic_clears; intros base d.
  - intros s len. apply blocks_copy; [lia|]. apply aligned_store_ok. by left.
  - intros len. apply blocks_clear; [lia|]. apply aligned_store_ok. by left.
  - intros s len. apply blocks_copy; [lia|]. apply aligned_store_ok. by right.
  - intros len. apply blocks_clear; [lia|]. apply aligned_store_ok. by right.
  - intros s len. by apply blocks_copy.
  - intros len. by apply blocks_clear.
Qed.

(** C26. Whatever processor the library runs on, x86 with or without SSE4.2 and AVX2, ARM
    with or without its CRC instructions or any other, the routines it installs compute
    the same functions: the CRC-32C of the reflected Castagnoli polynomial (by table, or
    by words of eight, four and one byte), the positions and the number of the set bits,
    membership in a replay window, the first missing fragment, the lane-wise sum,
    equality of addresses of up to 16 bytes, and copying and clearing of memory, which
    write the bytes asked for and no other and store to no misaligned address. *)
Theorem every_platform_agrees `{HI : IntrinsicsSpec} `{HN : NeonSpec} (p : platform) :
  simd_correct (install p).1 /\ mem_correct (install p).2.
Proof.
  destruct mem_tables_correct as (G & S & A & N). destruct p as [x64 cpuid|crc|]; cbn [install fst snd].
  - split; [exact (tables_correct x64 cpuid)|]. by destruct (detect_x86 cpuid).
  - split; [exact (neon_correct crc)|done].
  - split; [exact generic_correct|done].
Qed.

(** ARM's instructions in software. *)
Definition soft_neon : Neon := {|
  crc32cb crc v := crc_bits 8 (Z.lxor crc v);
  crc32cw crc v := crc_bits 32 (Z.lxor crc v);
  crc32cd crc v := crc_bits 64 (Z.lxor crc v);
  builtin_ctz v := default 32 (set_bits v !! 0%nat);
  vcnt_u8 l := byte_bits <$> l;
  vaddv_u8 l := u8 (foldr Z.add 0 l);
  vceqq_u64 a b := zip_with (fun x y => if x =? y then 2 ^ 64 - 1 else 0) a b;
  vaddq_u64 a b := zip_with (fun x y => u64 (x + y)) a b;
  vceqq_u8 a b := zip_with (fun x y => if x =? y then 255 else 0) a b;
  vminvq_u8 l := foldr Z.min 255 l |}.
#[export] Instance soft_neon_spec : NeonSpec (H := soft_neon).
Proof.
  split; cbn; try done. intros v Hv Hn. destruct (set_bits_first v Hv Hn) as (t & l & E & ?). cbn. by rewrite E.
Qed.

Lemma every_platform_agrees_witness :
  let ops := install (H := soft) (H0 := soft_neon) (Arm64 true) in
  crc32c_ ops.1 [49; 50; 51; 52; 53; 54; 55; 56; 57] = 0xe3069283 /\ popcount32_ ops.1 0xf0f = 8 /\
  memcpy_nt_ ops.2 4096 (replicate 20 9) (seqZ 0 18) 18 = Some (seqZ 0 18 ++ [9; 9]).
Proof.
  destruct (every_platform_agrees (HI := soft_spec) (HN := soft_neon_spec) (Arm64 true)) as [S [C _]].
  split_and!.
  - rewrite (ok_crc _ S); [by vm_compute|]. repeat constructor; vm_compute; discriminate.
  - rewrite (ok_popcount _ S); [by vm_compute|]. by vm_compute.
  - rewrite C; [by vm_compute|by vm_compute..].
Defined.
End SimdPlatforms.
