(* ===== verification/Buffer.v ===== *)
(** The buffers for messages (src/src/api.cpp, netudp_buffer_write and read functions).

    64 buffers of [NETUDP_MTU] bytes; typed values are appended at a position that the
    reading functions advance too.  A [float] or [double] is given by its bit pattern,
    which is what the functions copy.  [None] is an access outside the array or a sum
    of [int]s that overflows. *)

From S2P Require Import Prelude Bytes Address Channel Quantize.

Module Buffer.

Record buffer : Type := mkBuffer { data : bytes; capacity : Z; position : Z }.
#[export] Instance buffer_inhabited : Inhabited buffer := populate (mkBuffer [] 0 0).

(** [BUF_CHECK]: the sum is one of [int]s, so it is undefined out of their range. *)
Definition fits (b : buffer) (needed : Z) : option bool :=
  let sum := position b + needed in
  guard_ub ((- 2 ^ 31 <=? sum) && (sum <? 2 ^ 31)) ;; Some (negb (capacity b <? sum)).
(** [memcpy(buf->data + buf->position, &v, n); buf->position += n]. *)
Definition put (b : buffer) (l : bytes) : option buffer :=
  d ← mwrite (data b) (position b) l; Some (mkBuffer d (capacity b) (position b + zlen l)).
Definition checked_put (b : buffer) (l : bytes) : option buffer :=
  ok ← fits b (zlen l); if (ok : bool) then put b l else Some b.

(** ** Writing *)

Definition netudp_buffer_write_u8 (b : buffer) (v : Z) : option buffer := checked_put b [u8 v].
Definition netudp_buffer_write_u16 (b : buffer) (v : Z) : option buffer := checked_put b (le_bytes 2 v).
Definition netudp_buffer_write_u32 (b : buffer) (v : Z) : option buffer := checked_put b (le_bytes 4 v).
Definition netudp_buffer_write_u64 (b : buffer) (v : Z) : option buffer := checked_put b (le_bytes 8 v).
Definition netudp_buffer_write_f32 (b : buffer) (bits : Z) : option buffer := checked_put b (le_bytes 4 bits).
Definition netudp_buffer_write_f64 (b : buffer) (bits : Z) : option buffer := checked_put b (le_bytes 8 bits).

(** The bytes the loop of [write_varint] stores; 32 bits are at most five. *)
Fixpoint varint_bytes (fuel : nat) (uv : Z) : bytes :=
  match fuel with
  | O => []
  | S fuel =>
      if 127 <? uv then Z.lor (Z.land uv 127) 128 :: varint_bytes fuel (Z.shiftr uv 7) else [uv]
  end.
Definition netudp_buffer_write_varint (b : buffer) (v : Z) : option buffer :=
  ok ← fits b 5; if (ok : bool) then put b (varint_bytes 5 (u32 v)) else Some b.

(** [l] is the bytes at [data], of which the first [len] are copied; a null pointer is [None]. *)
Definition netudp_buffer_write_bytes (b : buffer) (l : option bytes) (len : Z) : option buffer :=
  ok ← fits b len;
  if (ok : bool) then
    match l with
    | Some l => if 0 <? len then l ← mread l 0 len; put b l else Some b
    | None => Some b
    end
  else Some b.

(** [str] is the characters before the terminating null. *)
Definition netudp_buffer_write_string (b : buffer) (str : option bytes) (max_len : Z) : option buffer :=
  match str with
  | None => Some b
  | Some str =>
      let chars := take (Z.to_nat max_len) str in
      ok ← fits b (2 + zlen chars);
      if (ok : bool) then b ← put b (le_bytes 2 (zlen chars)); put b chars else Some b
  end.

(** ** Reading *)

Definition get (b : buffer) (n : nat) : option (Z * buffer) :=
  ok ← fits b (Z.of_nat n);
  if (ok : bool) then
    v ← mread_u (data b) (position b) n; Some (v, mkBuffer (data b) (capacity b) (position b + Z.of_nat n))
  else Some (0, b).
Definition netudp_buffer_read_u8 (b : buffer) : option (Z * buffer) := get b 1.
Definition netudp_buffer_read_u16 (b : buffer) : option (Z * buffer) := get b 2.
Definition netudp_buffer_read_u32 (b : buffer) : option (Z * buffer) := get b 4.
Definition netudp_buffer_read_u64 (b : buffer) : option (Z * buffer) := get b 8.
Definition netudp_buffer_read_f32 (b : buffer) : option (Z * buffer) := get b 4.
Definition netudp_buffer_read_f64 (b : buffer) : option (Z * buffer) := get b 8.

(** At most five turns: the loop ends when [shift] reaches 35. *)
Fixpoint varint_loop (turns : nat) (d : bytes) (pos cap shift result : Z) : option (Z * Z) :=
  match turns with
  | O => Some (result, pos)
  | S turns =>
      if pos <? cap then
        byte ← oget d pos;
        let result := Z.lor result (u32 (Z.shiftl (Z.land byte 127) shift)) in
        if Z.land byte 128 =? 0 then Some (result, pos + 1)
        else varint_loop turns d (pos + 1) cap (shift + 7) result
      else Some (result, pos)
  end.
Definition netudp_buffer_read_varint (b : buffer) : option (Z * buffer) :=
  '(r, pos) ← varint_loop 5 (data b) (position b) (capacity b) 0 0;
  Some (i32 r, mkBuffer (data b) (capacity b) pos).

(** ** The pool *)

Record pool : Type := mkPool { g_buffer_pool : list buffer; g_buffer_in_use : list bool }.
Fixpoint first_free (used : list bool) (i : nat) : option nat :=
  match used with
  | [] => None
  | u :: used => if negb u then Some i else first_free used (S i)
  end.
Definition netudp_server_acquire_buffer (p : pool) : option nat * pool :=
  match first_free (g_buffer_in_use p) 0 with
  | Some i =>
      (Some i, mkPool (<[i := mkBuffer (replicate 1200 0) NETUDP_MTU 0]> (g_buffer_pool p)) (<[i := true]> (g_buffer_in_use p)))
  | None => (None, p)
  end.
(** The buffer goes back whatever [netudp_server_send], here [send], returns. *)
Definition netudp_server_send_buffer {S} (send : bytes -> S -> option (Z * S)) (s : option S) (p : pool) (buf : option nat)
    : option (Z * option S * pool) :=
  match buf with
  | None => Some (Address.NETUDP_ERROR_INVALID_PARAM, s, p)
  | Some i =>
      b ← g_buffer_pool p !! i;
      '(result, s) ←
        match s with
        | Some s => '(r, s) ← send (take (Z.to_nat (position b)) (data b)) s; Some (r, Some s)
        | None => Some (Address.NETUDP_ERROR_INVALID_PARAM, None)
        end;
      Some (result, s, mkPool (g_buffer_pool p) (<[i := false]> (g_buffer_in_use p)))
  end.

(** * What was written is read back *)

Inductive item : Type :=
  | U8 (v : Z) | U16 (v : Z) | U32 (v : Z) | U64 (v : Z) | F32 (bits : Z) | F64 (bits : Z) | VarInt (v : Z)
  | Blob (l : bytes) | Str (l : bytes).
(** Values of the C++ type; a string has no null and fits the two-byte length, and a
    byte string is short enough for [BUF_CHECK] not to overflow at any position. *)
Definition item_ok (x : item) : Prop :=
  match x with
  | U8 v => is_u8 v
  | U16 v => is_u16 v
  | U32 v | F32 v => is_u32 v
  | U64 v | F64 v => is_u64 v
  | VarInt v => - 2 ^ 31 <= v < 2 ^ 31
  | Blob l => is_bytes l /\ zlen l < 2 ^ 31 - NETUDP_MTU
  | Str l => is_bytes l /\ zlen l < 2 ^ 16
  end.
Definition write_item (b : buffer) (x : item) : option buffer :=
  match x with
  | U8 v => netudp_buffer_write_u8 b v
  | U16 v => netudp_buffer_write_u16 b v
  | U32 v => netudp_buffer_write_u32 b v
  | U64 v => netudp_buffer_write_u64 b v
  | F32 v => netudp_buffer_write_f32 b v
  | F64 v => netudp_buffer_write_f64 b v
  | VarInt v => netudp_buffer_write_varint b v
  | Blob l => netudp_buffer_write_bytes b (Some l) (zlen l)
  | Str l => netudp_buffer_write_string b (Some l) (zlen l)
  end.
(** The reader asks for the same types; bytes and characters are read one by one. *)
Fixpoint read_bytes (b : buffer) (n : nat) : option (bytes * buffer) :=
  match n with
  | O => Some ([], b)
  | S n => '(v, b) ← netudp_buffer_read_u8 b; '(l, b) ← read_bytes b n; Some (v :: l, b)
  end.
Definition read_item (b : buffer) (like : item) : option (item * buffer) :=
  match like with
  | U8 _ => '(v, b) ← netudp_buffer_read_u8 b; Some (U8 v, b)
  | U16 _ => '(v, b) ← netudp_buffer_read_u16 b; Some (U16 v, b)
  | U32 _ => '(v, b) ← netudp_buffer_read_u32 b; Some (U32 v, b)
  | U64 _ => '(v, b) ← netudp_buffer_read_u64 b; Some (U64 v, b)
  | F32 _ => '(v, b) ← netudp_buffer_read_f32 b; Some (F32 v, b)
  | F64 _ => '(v, b) ← netudp_buffer_read_f64 b; Some (F64 v, b)
  | VarInt _ => '(v, b) ← netudp_buffer_read_varint b; Some (VarInt v, b)
  | Blob l => '(l, b) ← read_bytes b (length l); Some (Blob l, b)
  | Str _ => '(n, b) ← netudp_buffer_read_u16 b; '(l, b) ← read_bytes b (Z.to_nat n); Some (Str l, b)
  end.
Fixpoint write_items (b : buffer) (l : list item) : option buffer :=
  match l with [] => Some b | x :: l => b ← write_item b x; write_items b l end.
Fixpoint read_items (b : buffer) (like : list item) : option (list item * buffer) :=
  match like with
  | [] => Some ([], b)
  | x :: like => '(x, b) ← read_item b x; '(l, b) ← read_items b like; Some (x :: l, b)
  end.

(** The bytes of an item, and the room its writer asks for. *)
Definition encoding (x : item) : bytes :=
  match x with
  | U8 v => [v]
  | U16 v => le_bytes 2 v
  | U32 v | F32 v => le_bytes 4 v
  | U64 v | F64 v => le_bytes 8 v
  | VarInt v => varint_bytes 5 (u32 v)
  | Blob l => l
  | Str l => le_bytes 2 (zlen l) ++ l
  end.
Definition needed (x : item) : Z := match x with VarInt _ => 5 | _ => zlen (encoding x) end.
Fixpoint all_fit (pos : Z) (l : list item) : Prop :=
  match l with [] => True | x :: l => pos + needed x <= NETUDP_MTU /\ all_fit (pos + zlen (encoding x)) l end.

Record wf (b : buffer) : Prop := {
  wf_data : zlen (data b) = NETUDP_MTU; wf_cap : capacity b = NETUDP_MTU; wf_pos : 0 <= position b <= NETUDP_MTU }.

Lemma varint_bytes_go n : forall v, 0 <= v -> varint_bytes n v = Quantize.varint_go n v.
Proof.
  induction n as [|n IH]; intros v Hv; [done|]. cbn [varint_bytes Quantize.varint_go].
  rewrite IH by (by apply Z.shiftr_nonneg). rewrite Z.shiftr_div_pow2 by lia. change (2 ^ 7) with 128.
  assert (Z.land v 127 = v mod 128) as -> by exact (Z.land_ones v 7 ltac:(lia)).
  repeat case_if; [exfalso; mlia|done|f_equal; mlia|exfalso; mlia].
Qed.
Lemma varint_bytes_length v : 0 <= v -> 1 <= zlen (varint_bytes 5 v) <= 5.
Proof. intros Hv. rewrite varint_bytes_go by done. apply (Quantize.varint_go_length 5). lia. Qed.
Lemma needed_enough x : zlen (encoding x) <= needed x.
Proof. destruct x; cbn [encoding needed]; try lia. apply varint_bytes_length, u32_range. Qed.

Lemma put_wf b l : wf b -> position b + zlen l <= NETUDP_MTU ->
  exists b', put b l = Some b' /\ wf b' /\ position b' = position b + zlen l.
Proof.
  intros [] Hl. unfold put. rewrite mwrite_Some, Some_bind by lia. eexists. split; [done|]. split; [|done].
  pose proof (zlen_nonneg l). split; cbn; [|done|lia].
  rewrite <- wf_data0. unfold zlen in *. rewrite !length_app, length_take, length_drop. lia.
Qed.
Lemma fits_le b n :
  wf b -> 0 <= n < 2 ^ 31 - NETUDP_MTU -> fits b n = Some (position b + n <=? NETUDP_MTU).
Proof.
  intros [] Hn. unfold fits. cbv zeta.
  replace ((- 2 ^ 31 <=? position b + n) && (position b + n <? 2 ^ 31)) with true
    by (symmetry; apply andb_true_iff; split; [apply Z.leb_le|apply Z.ltb_lt]; lia).
  cbn [guard_ub mbind option_bind]. rewrite wf_cap0. f_equal. apply eq_true_iff_eq.
  rewrite negb_true_iff, Z.ltb_ge, Z.leb_le. done.
Qed.
(** The room any valid item asks for is in the range of the check. *)
Lemma needed_range x : item_ok x -> 0 <= needed x < 2 ^ 31 - NETUDP_MTU.
Proof.
  intros Hx. unfold NETUDP_MTU in *. split; [unfold needed; destruct x; try lia; apply zlen_nonneg|].
  destruct x; cbn [needed encoding item_ok] in *; zlen_simpl; rewrite ?zlen_le_bytes; unfold NETUDP_MTU in *;
    first [lia | unfold zlen in *; cbn [length]; lia].
Qed.
Lemma mread_all (l : bytes) : mread l 0 (zlen l) = Some l.
Proof.
  pose proof (zlen_nonneg l). rewrite mread_Some by lia. unfold zlen. by rewrite Nat2Z.id, drop_0, take_ge.
Qed.

Lemma put_app b l l' : wf b -> position b + zlen l + zlen l' <= NETUDP_MTU ->
  (b ← put b l; put b l') = put b (l ++ l').
Proof.
  intros [] Hl. unfold put. rewrite <- mwrite_mwrite by lia.
  destruct (mwrite (data b) (position b) l) as [d|]; [|done]. rewrite !Some_bind. cbn [data position capacity].
  destruct (mwrite d _ l'); [|done]. rewrite !Some_bind. rewrite zlen_app. do 2 f_equal. lia.
Qed.
Lemma put_nil b : wf b -> put b [] = Some b.
Proof.
  intros []. unfold put. rewrite mwrite_Some by (change (zlen []) with 0; lia). rewrite Some_bind.
  cbn [app length]. rewrite Nat.add_0_r, take_drop. destruct b. do 2 f_equal. cbn. change (zlen []) with 0. lia.
Qed.

(** A write stores the encoding, or nothing when it does not fit. *)
Lemma write_item_spec b x :
  wf b -> item_ok x -> position b + needed x <= NETUDP_MTU ->
  exists b', write_item b x = Some b' /\ put b (encoding x) = Some b'.
Proof.
  intros Hw Hx Hn. pose proof (needed_enough x).
  destruct (put_wf b (encoding x) Hw ltac:(lia)) as (b' & Hb & Hw' & Hp').
  pose proof (needed_range x Hx) as Hr.
  exists b'. split; [|done]. destruct x; cbn [write_item encoding needed item_ok] in *;
    unfold netudp_buffer_write_u8, netudp_buffer_write_u16, netudp_buffer_write_u32, netudp_buffer_write_u64,
      netudp_buffer_write_f32, netudp_buffer_write_f64, netudp_buffer_write_varint, netudp_buffer_write_bytes,
      netudp_buffer_write_string, checked_put; rewrite ?u8_small by done.
  all: rewrite ?Nat2Z.id, ?take_ge by (unfold zlen; lia).
  all: rewrite fits_le, Some_bind by (done || (revert Hr; zlen_simpl; unfold zlen; cbn [length]; lia)).
  all: rewrite (proj2 (Z.leb_le _ _)) by (revert Hn; zlen_simpl; unfold zlen; cbn [length]; lia); try done.
  - case_if; [by rewrite mread_all|]. destruct l; [|zlen_simpl; pose proof (zlen_nonneg l); lia]. by rewrite put_nil in Hb.
  - rewrite put_app; [done..|]. zlen_simpl. lia.
Qed.

(** ** Reading what is there *)

Lemma get_spec b n v :
  wf b -> holds (data b) (position b) (le_bytes n v) -> 0 <= v < 2 ^ (8 * Z.of_nat n) ->
  get b n = Some (v, mkBuffer (data b) (capacity b) (position b + Z.of_nat n)).
Proof.
  intros Hw Hh Hv. unfold get. pose proof (holds_bound _ _ _ Hh) as [_ Hb]. rewrite zlen_le_bytes, (wf_data _ Hw) in Hb.
  pose proof (wf_pos _ Hw). rewrite fits_le, Some_bind, (proj2 (Z.leb_le _ _)) by (done || (unfold NETUDP_MTU in *; lia)). by rewrite (holds_mread_u _ _ _ _ Hh Hv), Some_bind.
Qed.
Lemma byte_le v : is_u8 v -> le_bytes 1 v = [v].
Proof. intros Hv. unfold is_u8 in Hv. unfold le_bytes. do 2 f_equal. mlia. Qed.
Lemma read_bytes_spec l : forall b,
  wf b -> is_bytes l -> holds (data b) (position b) l ->
  read_bytes b (length l) = Some (l, mkBuffer (data b) (capacity b) (position b + zlen l)).
Proof.
  induction l as [|x l IH]; intros b Hw Hl Hh; cbn [read_bytes length].
  { destruct b. change (zlen []) with 0. cbn. by rewrite Z.add_0_r. }
  apply Forall_cons_1 in Hl as [Hx Hl]. change (x :: l) with ([x] ++ l) in Hh. apply holds_app in Hh as [H1 H2].
  unfold netudp_buffer_read_u8. rewrite (get_spec b 1 x), Some_bind; [|done|by rewrite byte_le|done].
  pose proof (holds_bound _ _ _ H2) as [Hp1 Hp2]. destruct Hw. pose proof (zlen_nonneg l).
  rewrite IH; [|split; cbn; [done|done|unfold zlen in *; cbn in *; lia]|done|exact H2].
  rewrite Some_bind. cbn [data capacity position]. rewrite zlen_cons. do 3 f_equal. lia.
Qed.

Lemma varint_loop_spec n : forall v d pos shift result,
  0 <= v < 2 ^ (7 * Z.of_nat n) -> (0 < n)%nat -> 0 <= shift -> 0 <= result < 2 ^ shift -> v * 2 ^ shift < 2 ^ 32 ->
  holds d pos (Quantize.varint_go n v) ->
  varint_loop n d pos (zlen d) shift result = Some (result + v * 2 ^ shift, pos + zlen (Quantize.varint_go n v)).
Proof.
  induction n as [|n IH]; intros v d pos shift result Hv Hn Hs Hr Hu Hh; [lia|].
  cbn [Quantize.varint_go varint_loop] in *.
  assert (Z.land v 127 = v mod 128) as Eb by exact (Z.land_ones v 7 ltac:(lia)).
  assert (Z.shiftr v 7 = v / 128) as Ev by by rewrite Z.shiftr_div_pow2. rewrite Eb, Ev in *.
  pose proof (Z.mod_pos_bound v 128 ltac:(done)) as Hm. pose proof (Z.div_mod v 128 ltac:(done)) as Hd.
  assert (0 <= v / 128) as Hq by (apply Z.div_pos; lia). assert (0 < 2 ^ shift) as Hp by lia.
  assert (v mod 128 * 2 ^ shift <= v * 2 ^ shift) as Hmu by (apply Z.mul_le_mono_nonneg_r; lia).
  assert (0 <= v mod 128 * 2 ^ shift) as Hm0 by (apply Z.mul_nonneg_nonneg; lia).
  set (more := negb (v / 128 =? 0)).
  assert (holds d pos [if more then Z.lor (v mod 128) 128 else v mod 128]) as Hb.
  { subst more. destruct (v / 128 =? 0); cbn [negb]; [done|].
    change (?x :: ?l) with ([x] ++ l) in Hh. by apply holds_app in Hh as [? _]. }
  pose proof (holds_bound _ _ _ Hb) as [Hb1 Hb2]. change (zlen [_]) with 1 in Hb2.
  rewrite (proj2 (Z.ltb_lt pos (zlen d))) by lia. rewrite (holds_oget _ _ _ Hb), Some_bind.
  destruct (Quantize.varint_byte (v mod 128) more ltac:(lia)) as [E1 E2]. rewrite E1, E2.
  rewrite Z.shiftl_mul_pow2 by lia. rewrite u32_small by (unfold is_u32; lia).
  assert (Z.lor result (v mod 128 * 2 ^ shift) = result + v mod 128 * 2 ^ shift) as ->
    by (rewrite <- lor_shift, Z.shiftl_mul_pow2 by lia; done).
  subst more. destruct (v / 128 =? 0) eqn:E; cbn [negb] in *; bool_facts.
  { change (zlen [_]) with 1. replace (v mod 128) with v by lia. done. }
  change (?x :: ?l) with ([x] ++ l) in Hh. apply holds_app in Hh as [_ Hh]. change (zlen [_]) with 1 in Hh.
  assert (2 ^ (shift + 7) = 128 * 2 ^ shift) as Ep by (rewrite Z.pow_add_r by lia; lia).
  rewrite (IH (v / 128)); try done; try lia.
  - rewrite zlen_cons. do 2 f_equal; [|lia]. rewrite Ep. rewrite Hd at 3. ring.
  - split; [lia|]. apply Z.div_lt_upper_bound; [lia|].
    replace (7 * Z.of_nat (S n)) with (7 + 7 * Z.of_nat n) in Hv by lia.
    rewrite Z.pow_add_r in Hv by lia. change (2 ^ 7) with 128 in Hv. lia.
  - destruct n; [|lia]. exfalso. change (7 * Z.of_nat 1) with 7 in Hv. apply E. apply Z.div_small. lia.
  - assert (v mod 128 * 2 ^ shift <= 127 * 2 ^ shift) by (apply Z.mul_le_mono_nonneg_r; lia). lia.
Qed.


Lemma read_item_spec b x :
  wf b -> item_ok x -> holds (data b) (position b) (encoding x) ->
  read_item b x = Some (x, mkBuffer (data b) (capacity b) (position b + zlen (encoding x))).
Proof.
  intros Hw Hx Hh. pose proof (holds_bound _ _ _ Hh) as [_ Hb]. destruct x; cbn [read_item encoding item_ok] in *.
  all: unfold netudp_buffer_read_u8, netudp_buffer_read_u16, netudp_buffer_read_u32, netudp_buffer_read_u64,
    netudp_buffer_read_f32, netudp_buffer_read_f64.
  1: rewrite (get_spec b 1 v); [done|done|by rewrite byte_le|done].
  1-5: erewrite get_spec by done; by rewrite zlen_le_bytes.
  - unfold netudp_buffer_read_varint. pose proof (u32_range v) as Hu. rewrite varint_bytes_go in * by apply Hu.
    rewrite (wf_cap _ Hw), <- (wf_data _ Hw), (varint_loop_spec 5 (u32 v)); try done; try (cbn; unfold is_u32 in Hu; lia).
    rewrite !Some_bind. rewrite Z.add_0_l, Z.mul_1_r. do 3 f_equal. unfold i32, u32. mlia.
  - by rewrite (read_bytes_spec l b Hw (proj1 Hx) Hh).
  - destruct Hx as [Hl Hn]. apply holds_app in Hh as [H1 H2]. pose proof (zlen_nonneg l). zlen_simpl.
    rewrite (get_spec b 2 (zlen l)), !Some_bind; [|done|done|cbn; lia].
    destruct Hw. unfold zlen at 1. rewrite Nat2Z.id.
    rewrite (read_bytes_spec l (mkBuffer (data b) (capacity b) (position b + Z.of_nat 2))); [|split; cbn; [done|done|]|done|done].
    + rewrite Some_bind. cbn [data capacity position]. do 3 f_equal. lia.
    + lia.
Qed.

(** The writes together. *)
Lemma write_items_spec l : forall b,
  wf b -> Forall item_ok l -> all_fit (position b) l ->
  exists b', write_items b l = Some b' /\ put b (concat (encoding <$> l)) = Some b' /\ wf b'
    /\ position b' = position b + zlen (concat (encoding <$> l)) /\ position b + zlen (concat (encoding <$> l)) <= NETUDP_MTU.
Proof.
  induction l as [|x l IH]; intros b Hw Hl Hf; cbn [write_items fmap list_fmap concat all_fit] in *.
  { exists b. rewrite (put_nil b Hw). change (zlen []) with 0. rewrite Z.add_0_r. destruct Hw. split_and!; try done. lia. }
  apply Forall_cons_1 in Hl as [Hx Hl]. destruct Hf as [Hf1 Hf2]. pose proof (needed_enough x).
  destruct (write_item_spec b x Hw Hx Hf1) as (b1 & -> & P1). rewrite Some_bind.
  destruct (put_wf b (encoding x) Hw ltac:(lia)) as (b1' & P1' & W1 & Q1). rewrite P1 in P1'. injection P1' as <-.
  rewrite <- Q1 in Hf2. destruct (IH b1 W1 Hl Hf2) as (b' & E & P2 & W2 & Q2 & L2).
  exists b'. rewrite zlen_app. split_and!; [done| |done|lia|lia].
  rewrite <- put_app, P1, Some_bind; [done..|]. lia.
Qed.
Lemma read_items_spec l : forall b,
  wf b -> Forall item_ok l -> holds (data b) (position b) (concat (encoding <$> l)) ->
  read_items b l = Some (l, mkBuffer (data b) (capacity b) (position b + zlen (concat (encoding <$> l)))).
Proof.
  induction l as [|x l IH]; intros b Hw Hl Hh; cbn [read_items fmap list_fmap concat] in *.
  { destruct b. change (zlen []) with 0. cbn. by rewrite Z.add_0_r. }
  apply Forall_cons_1 in Hl as [Hx Hl]. apply holds_app in Hh as [H1 H2].
  rewrite (read_item_spec b x Hw Hx H1), Some_bind. pose proof (holds_bound _ _ _ H2) as [Hp1 Hp2].
  pose proof (zlen_nonneg (concat (encoding <$> l))). destruct Hw.
  rewrite IH; [|split; cbn; [done|done|unfold zlen in *; lia]|done|done]. rewrite Some_bind.
  cbn [data capacity position]. rewrite zlen_app. do 3 f_equal. lia.
Qed.
Lemma put_holds b l b' : wf b -> put b l = Some b' -> holds (data b') (position b) l.
Proof.
  intros [] E. unfold put in E. destruct (mwrite (data b) (position b) l) as [d|] eqn:M; [|done].
  rewrite Some_bind in E. injection E as <-. cbn [data]. unfold mwrite in M. case_if_in M; [|done]. injection M as <-.
  eexists _, _. split; [done|]. unfold zlen in *. rewrite length_take. lia.
Qed.

(** ** No access outside the array *)

(** A write that does not fit changes nothing. *)
Lemma write_item_safe b x :
  wf b -> item_ok x -> exists b', write_item b x = Some b' /\ wf b' /\ (NETUDP_MTU < position b + needed x -> b' = b).
Proof.
  intros Hw Hx. destruct (decide (position b + needed x <= NETUDP_MTU)) as [Hf|Hf].
  - destruct (write_item_spec b x Hw Hx Hf) as (b' & E & P). pose proof (needed_enough x).
    destruct (put_wf b (encoding x) Hw ltac:(lia)) as (b1 & P1 & W1 & _). exists b'. split_and!; [done|congruence|lia].
  - pose proof (needed_range x Hx) as Hr.
    exists b. split_and!; [|done|done]. destruct x; cbn [write_item encoding needed] in *;
      unfold netudp_buffer_write_u8, netudp_buffer_write_u16, netudp_buffer_write_u32, netudp_buffer_write_u64,
        netudp_buffer_write_f32, netudp_buffer_write_f64, netudp_buffer_write_varint, netudp_buffer_write_bytes,
        netudp_buffer_write_string, checked_put;
      rewrite ?Nat2Z.id, ?take_ge by (unfold zlen; lia);
      rewrite fits_le, Some_bind by (done || (revert Hr; zlen_simpl; unfold zlen; cbn [length]; lia));
      rewrite (proj2 (Z.leb_gt _ _)); try done; revert Hf; zlen_simpl; unfold zlen; cbn [length]; lia.
Qed.
Lemma get_safe b n : wf b -> (n <= 8)%nat -> exists v b', get b n = Some (v, b') /\ wf b'.
Proof.
  intros Hw Hn. unfold get. rewrite fits_le, Some_bind by (done || (unfold NETUDP_MTU; lia)). case_if; [|by exists 0, b]. destruct Hw.
  unfold mread_u. rewrite mread_Some by lia. cbn [fmap option_fmap option_map mbind option_bind].
  eexists _, _. split; [done|]. split; cbn; [done|done|lia].
Qed.
Lemma varint_loop_safe n : forall d pos shift result,
  0 <= pos <= zlen d -> exists r pos', varint_loop n d pos (zlen d) shift result = Some (r, pos') /\ 0 <= pos' <= zlen d.
Proof.
  induction n as [|n IH]; intros d pos shift result Hp; cbn [varint_loop]; [by eexists _, _|].
  case_if; [|by eexists _, _]. rewrite oget_aget, Some_bind by lia. case_if; [|apply IH; lia].
  eexists _, _. split; [done|]. lia.
Qed.
Lemma read_bytes_safe n : forall b, wf b -> exists l b', read_bytes b n = Some (l, b') /\ wf b'.
Proof.
  induction n as [|n IH]; intros b Hw; cbn [read_bytes]; [by eexists _, _|].
  destruct (get_safe b 1 Hw ltac:(lia)) as (v & b1 & E & W1). unfold netudp_buffer_read_u8. rewrite E, Some_bind.
  destruct (IH b1 W1) as (l & b2 & -> & W2). rewrite Some_bind. by eexists _, _.
Qed.
Lemma read_item_safe b x : wf b -> exists y b', read_item b x = Some (y, b') /\ wf b'.
Proof.
  intros Hw. destruct x; cbn [read_item];
    unfold netudp_buffer_read_u8, netudp_buffer_read_u16, netudp_buffer_read_u32, netudp_buffer_read_u64,
      netudp_buffer_read_f32, netudp_buffer_read_f64.
  1-6: edestruct (get_safe b) as (r & b1 & -> & W1); [done|lia|]; rewrite Some_bind; by eexists _, _.
  - unfold netudp_buffer_read_varint. destruct Hw. rewrite wf_cap0, <- wf_data0.
    destruct (varint_loop_safe 5 (data b) (position b) 0 0) as (r & pos & -> & Hp); [lia|]. rewrite !Some_bind.
    eexists _, _. split; [done|]. split; cbn; [done|done|lia].
  - destruct (read_bytes_safe (length l) b Hw) as (r & b1 & -> & W1). rewrite Some_bind. by eexists _, _.
  - destruct (get_safe b 2 Hw ltac:(lia)) as (r & b1 & -> & W1). rewrite Some_bind.
    destruct (read_bytes_safe (Z.to_nat r) b1 W1) as (r' & b2 & -> & W2). rewrite Some_bind. by eexists _, _.
Qed.

(** With bytes already in the buffer, a length of [INT_MAX] overflows the check that
    should refuse it. *)
Lemma long_write_overflows b l :
  wf b -> 0 < position b -> netudp_buffer_write_bytes b (Some l) (2 ^ 31 - 1) = None.
Proof.
  intros Hw Hp. unfold netudp_buffer_write_bytes, fits. cbv zeta.
  rewrite (proj2 (Z.ltb_ge _ (2 ^ 31))), andb_false_r by lia. done.
Qed.

(** ** The pool *)

Lemma first_free_spec used : forall k,
  match first_free used k with
  | Some i => exists j, i = (k + j)%nat /\ used !! j = Some false
  | None => Forall (fun u => u = true) used
  end.
Proof.
  induction used as [|u used IH]; intros k; cbn [first_free]; [constructor|]. destruct u; cbn [negb].
  - specialize (IH (S k)). destruct (first_free used (S k)); [|by constructor].
    destruct IH as (j & -> & E). exists (S j). split; [lia|done].
  - exists 0%nat. split; [lia|done].
Qed.
(** A buffer is handed out only while it is free, and is blank. *)
Lemma acquire_spec p :
  length (g_buffer_pool p) = length (g_buffer_in_use p) ->
  match netudp_server_acquire_buffer p with
  | (Some i, p') => g_buffer_in_use p !! i = Some false /\ g_buffer_in_use p' = <[i := true]> (g_buffer_in_use p)
      /\ g_buffer_pool p' !! i = Some (mkBuffer (replicate 1200 0) NETUDP_MTU 0)
  | (None, p') => p' = p /\ Forall (fun u => u = true) (g_buffer_in_use p)
  end.
Proof.
  intros Hl. unfold netudp_server_acquire_buffer. pose proof (first_free_spec (g_buffer_in_use p) 0) as F.
  destruct (first_free (g_buffer_in_use p) 0) as [i|]; [|done]. destruct F as (j & -> & E). cbn [Nat.add].
  split_and!; [done|done|]. cbn [g_buffer_pool]. apply list_lookup_insert_eq. rewrite Hl. by eapply lookup_lt_Some.
Qed.
Lemma blank_wf : wf (mkBuffer (replicate 1200 0) NETUDP_MTU 0).
Proof. split; cbn; [by vm_compute|done|unfold NETUDP_MTU; lia]. Qed.

(** C27. Values written to an acquired buffer are the values read from it: for every
    sequence of integers, floats, varints, byte strings and strings that fits, the
    reader that asks for the same types from the start gets them back and stops where
    the writer did, and the bytes handed to [netudp_server_send] are exactly their
    encodings.  Any one write or read of a valid item stays inside the array, and a
    write that does not fit changes nothing.  Valid ([item_ok]) are values of the C++
    types, strings of fewer than 65536 characters, and byte strings of less than
    [INT_MAX] - 1199 bytes: for longer ones the check itself overflows
    ([long_write_overflows]). *)
Theorem buffer_roundtrip p i p' l :
  length (g_buffer_pool p) = length (g_buffer_in_use p) ->
  netudp_server_acquire_buffer p = (Some i, p') -> Forall item_ok l -> all_fit 0 l ->
  (exists b b', g_buffer_pool p' !! i = Some b /\ write_items b l = Some b'
    /\ read_items (mkBuffer (data b') (capacity b') 0) l = Some (l, b')
    /\ take (Z.to_nat (position b')) (data b') = concat (encoding <$> l))
  /\ (forall b x, wf b -> item_ok x -> exists b' y b'', write_item b x = Some b' /\ wf b' /\
        (NETUDP_MTU < position b + needed x -> b' = b) /\ read_item b x = Some (y, b'') /\ wf b'').
Proof.
  intros Hp Ha Hl Hf. split.
  - pose proof (acquire_spec p Hp) as A. rewrite Ha in A. destruct A as (_ & _ & Eb).
    destruct (write_items_spec l _ blank_wf Hl Hf) as (b' & E & P & W & Q & L). pose proof (put_holds _ _ _ blank_wf P) as Hh.
    cbn [position] in Q, Hh. rewrite Z.add_0_l in Q. eexists _, b'. split_and!; [done|done| |].
    + rewrite (read_items_spec l (mkBuffer (data b') (capacity b') 0)); [|by destruct W|done|done].
      cbn [data capacity position]. rewrite Z.add_0_l, <- Q. by destruct b'.
    + rewrite Q. destruct Hh as (a & c & -> & Hz). destruct a; [|unfold zlen in Hz; cbn in Hz; lia].
      cbn [app]. unfold zlen. by rewrite Nat2Z.id, take_app_length.
  - intros b x Hw Hx. destruct (write_item_safe b x Hw Hx) as (b' & E & W & S), (read_item_safe b x Hw) as (y & b'' & E' & W').
    by exists b', y, b''.
Qed.
Definition demo_pool : pool := mkPool (replicate 64 inhabitant) (true :: replicate 63 false).
Definition demo_items : list item := [U8 171; VarInt (-1); Str [104; 105]; F64 4611686018427387904; VarInt 300; Blob [1; 2; 3]; U16 65535].
Lemma buffer_roundtrip_witness :
  exists b b', g_buffer_pool (snd (netudp_server_acquire_buffer demo_pool)) !! 1%nat = Some b /\ write_items b demo_items = Some b'
    /\ read_items (mkBuffer (data b') (capacity b') 0) demo_items = Some (demo_items, b')
    /\ take (Z.to_nat (position b')) (data b') = concat (encoding <$> demo_items).
Proof.
  apply (buffer_roundtrip demo_pool 1 (snd (netudp_server_acquire_buffer demo_pool)) demo_items).
  - reflexivity.
  - reflexivity.
  - repeat constructor; vm_compute; discriminate.
  - vm_compute. repeat split; discriminate.
Defined.

End Buffer.
