(* ===== verification/Pool.v ===== *)
(** The object pool (src/src/core/pool.h).

    Elements lie side by side in one allocation, and the free ones form a list whose
    links are stored in their first eight bytes.  The model keeps the bytes: a pointer is
    an address, null is 0, and a link is read back from the bytes of the element.  The
    specification is a stack of free elements.  [None] is an access outside the
    allocation. *)

From S2P Require Import Prelude Bytes.

Module Pool.

Section Pool.
(** [sizeof(T)], at least that of a pointer. *)
Variable size : Z.

(** [storage] is the address of the allocation and its elements. *)
Record pool : Type := mkPool {
  storage : option (Z * list bytes); free_head : Z; capacity_ : Z; available_ : Z }.
Definition new_pool : pool := mkPool None 0 0 0.

Definition address_of (base i : Z) : Z := base + i * size.
(** The element at an address. *)
Definition index_of (base : Z) (mem : list bytes) (p : Z) : option Z :=
  let i := (p - base) / size in
  if ((p - base) mod size =? 0) && (0 <=? i) && (i <? zlen mem) then Some i else None.
Definition set_link (e : bytes) (p : Z) : option bytes := mwrite e 0 (le_bytes 8 p).

(** The loop of [init] from element [i]: each links to the next, the last to null. *)
Fixpoint link_all (n : nat) (base i : Z) : option (list bytes) :=
  match n with
  | O => Some []
  | S n =>
      e ← set_link (replicate (Z.to_nat size) 0) (match n with O => 0 | S _ => address_of base (i + 1) end);
      l ← link_all n base (i + 1);
      Some (e :: l)
  end.
(** [alloc] is the allocator's answer: an address, or 0. *)
Definition init (p : pool) (capacity : Z) (alloc : Z) : option (bool * pool) :=
  if (capacity <=? 0) || (match storage p with Some _ => true | None => false end) then Some (false, p)
  else if alloc =? 0 then Some (false, mkPool None (free_head p) capacity capacity)
  else mem ← link_all (Z.to_nat capacity) alloc 0; Some (true, mkPool (Some (alloc, mem)) alloc capacity capacity).
Definition destroy (p : pool) : pool :=
  match storage p with Some _ => mkPool None 0 0 0 | None => p end.
(** The move constructor: the new pool and the old one. *)
Definition move (other : pool) : pool * pool := (other, mkPool None 0 0 0).
(** The move assignment, which leaves a pool assigned to itself alone. *)
Definition move_assign (same : bool) (p other : pool) : pool * pool :=
  if same then (p, other) else (other, mkPool None 0 0 0).

Definition acquire (p : pool) : option (Z * pool) :=
  if free_head p =? 0 then Some (0, p)
  else
    '(base, mem) ← storage p;
    i ← index_of base mem (free_head p);
    e ← oget mem i;
    next ← mread_u e 0 8;
    e ← mwrite e 0 (replicate 8 0);
    Some (free_head p, mkPool (Some (base, aset mem i e)) next (capacity_ p) (available_ p - 1)).
Definition release (p : pool) (element : Z) : option pool :=
  if element =? 0 then Some p
  else
    '(base, mem) ← storage p;
    i ← index_of base mem element;
    e ← set_link (replicate (Z.to_nat size) 0) (free_head p);
    Some (mkPool (Some (base, aset mem i e)) element (capacity_ p) (available_ p + 1)).
Definition in_use (p : pool) : Z := capacity_ p - available_ p.
Definition empty (p : pool) : bool := available_ p =? 0.

(** * A stack of free elements *)

Hypothesis size_ok : 8 <= size.

Definition blank : bytes := replicate (Z.to_nat size) 0.
Definition link (p : Z) : bytes := le_bytes 8 p ++ replicate (Z.to_nat (size - 8)) 0.
Definition head_ptr (base : Z) (free : list Z) : Z := match free with [] => 0 | i :: _ => address_of base i end.
(** The elements [free] of [mem] are linked in this order. *)
Fixpoint linked (base : Z) (mem : list bytes) (free : list Z) : Prop :=
  match free with
  | [] => True
  | i :: rest => 0 <= i < zlen mem /\ mem.[i] = link (head_ptr base rest) /\ linked base mem rest
  end.
Record pool_ok (p : pool) (base : Z) (mem : list bytes) (free : list Z) : Prop := {
  po_storage : storage p = Some (base, mem);
  po_base : 0 < base /\ base + capacity_ p * size <= 2 ^ 64;
  po_cap : zlen mem = capacity_ p;
  po_nodup : NoDup free;
  po_linked : linked base mem free;
  po_head : free_head p = head_ptr base free;
  po_avail : available_ p = zlen free }.

Lemma set_link_blank p : set_link blank p = Some (link p).
Proof.
  unfold set_link, blank. rewrite (mwrite_at _ _ (le_bytes 8 p) [] (replicate 8 0) (replicate (Z.to_nat (size - 8)) 0)).
  - done.
  - cbn [app]. rewrite <- replicate_add. f_equal. lia.
  - done.
  - by rewrite zlen_le_bytes.
Qed.
Lemma link_read p : 0 <= p < 2 ^ 64 -> mread_u (link p) 0 8 = Some p.
Proof. intros Hp. apply (holds_mread_u _ _ 8); [|exact Hp]. by exists [], (replicate (Z.to_nat (size - 8)) 0). Qed.
Lemma link_clear p : mwrite (link p) 0 (replicate 8 0) = Some blank.
Proof.
  unfold link, blank. rewrite (mwrite_at _ _ (replicate 8 0) [] (le_bytes 8 p) (replicate (Z.to_nat (size - 8)) 0)).
  - cbn [app]. rewrite <- replicate_add. do 2 f_equal. lia.
  - done.
  - done.
  - by rewrite zlen_le_bytes.
Qed.
Lemma index_address base mem i : 0 <= i < zlen mem -> index_of base mem (address_of base i) = Some i.
Proof.
  intros Hi. unfold index_of, address_of. replace (base + i * size - base) with (i * size) by lia.
  rewrite Z.mod_mul, Z.div_mul by lia. cbn. rewrite (proj2 (Z.leb_le 0 i)), (proj2 (Z.ltb_lt i _)) by lia. done.
Qed.
Lemma linked_other base mem free i e :
  0 <= i -> i ∉ free -> linked base mem free -> linked base (aset mem i e) free.
Proof.
  intros Hi. induction free as [|j free IH]; intros Hn; cbn [linked]; [done|].
  apply not_elem_of_cons in Hn as [Hne Hn]. intros (Hj & E & L). rewrite zlen_aset. split_and!; [lia|lia| |by apply IH].
  rewrite aget_aset_ne by lia. done.
Qed.
Lemma head_ptr_range p base mem free :
  pool_ok p base mem free -> 0 <= head_ptr base free < 2 ^ 64 /\ (free <> [] -> head_ptr base free <> 0).
Proof.
  intros []. destruct free as [|i free]; cbn [head_ptr linked] in *; [done|]. destruct po_linked0 as ([Hi1 Hi2] & _).
  unfold address_of. assert (0 <= i * size) by nia. assert ((i + 1) * size <= capacity_ p * size) by nia. lia.
Qed.

Lemma acquire_ok p base mem free :
  pool_ok p base mem free ->
  match free with
  | [] => acquire p = Some (0, p)
  | i :: rest => exists p', acquire p = Some (address_of base i, p') /\ pool_ok p' base (aset mem i blank) rest
  end.
Proof.
  intros Hok. pose proof Hok as []. unfold acquire. rewrite po_head0. destruct free as [|i rest]; [done|].
  destruct (head_ptr_range _ _ _ _ Hok) as [Hr Hz]. rewrite (proj2 (Z.eqb_neq _ 0)) by by apply Hz.
  rewrite po_storage0, Some_bind. cbn [linked head_ptr] in po_linked0 |- *. destruct po_linked0 as (Hi & E & L).
  apply list.NoDup_cons in po_nodup0 as [Hn N].
  rewrite index_address, Some_bind, oget_aget, Some_bind, E by done.
  assert (0 <= head_ptr base rest < 2 ^ 64) as Hnext.
  { destruct rest as [|j rest]; cbn [head_ptr linked] in *; [done|]. destruct L as ([Hj1 Hj2] & _). unfold address_of.
    assert (0 <= j * size) by nia. assert ((j + 1) * size <= capacity_ p * size) by nia. lia. }
  rewrite link_read, Some_bind, link_clear, Some_bind by done. eexists. split; [done|].
  split; cbn; try done; [by rewrite zlen_aset|apply linked_other; [lia|done|done]|]. rewrite po_avail0, zlen_cons. lia.
Qed.
Lemma release_ok p base mem free i :
  pool_ok p base mem free -> 0 <= i < capacity_ p -> i ∉ free ->
  exists p', release p (address_of base i) = Some p' /\ pool_ok p' base (aset mem i (link (head_ptr base free))) (i :: free).
Proof.
  intros Hok Hi Hn. pose proof Hok as []. unfold release. rewrite (proj2 (Z.eqb_neq _ 0)) by (unfold address_of; nia).
  rewrite po_storage0, Some_bind, index_address, Some_bind by lia. fold blank. rewrite po_head0, set_link_blank, Some_bind.
  eexists. split; [done|]. split; cbn; try done.
  - by rewrite zlen_aset.
  - by apply list.NoDup_cons.
  - rewrite zlen_aset. split_and!; [lia|lia| |apply linked_other; [lia|done|done]]. apply aget_aset_eq. lia.
  - rewrite po_avail0, zlen_cons. lia.
Qed.

Lemma link_all_ok n : forall base i, exists mem, link_all n base i = Some mem /\ zlen mem = Z.of_nat n /\
  forall k, 0 <= k < Z.of_nat n -> mem.[k] = link (if k =? Z.of_nat n - 1 then 0 else address_of base (i + k + 1)).
Proof.
  induction n as [|n IH]; intros base i; cbn [link_all]; [exists []; split_and!; [done|done|lia]|].
  fold blank. rewrite set_link_blank, Some_bind. destruct (IH base (i + 1)) as (mem & -> & Hl & Hm). rewrite Some_bind.
  eexists. split; [done|]. rewrite zlen_cons. split; [lia|]. intros k Hk. destruct (decide (k = 0)) as [->|].
  - change ((?x :: mem).[0]) with x. f_equal. destruct n; [done|]. rewrite (proj2 (Z.eqb_neq _ _)) by lia. f_equal. lia.
  - assert (forall x, (x :: mem).[k] = mem.[k - 1]) as ->.
    { intros x. unfold aget. replace (Z.to_nat k) with (S (Z.to_nat (k - 1))) by lia. done. }
    rewrite Hm by lia. f_equal. replace (k - 1 =? Z.of_nat n - 1) with (k =? Z.of_nat (S n) - 1); [|apply eq_true_iff_eq; rewrite !Z.eqb_eq; lia].
    case_if; [done|]. f_equal. lia.
Qed.
Lemma linked_seq base mem n : forall i : Z, 0 <= i -> i + Z.of_nat n = zlen mem ->
  (forall k, 0 <= k < zlen mem -> mem.[k] = link (if k =? zlen mem - 1 then 0 else address_of base (0 + k + 1))) ->
  linked base mem (seqZ i (Z.of_nat n)).
Proof.
  induction n as [|n IH]; intros i Hi Hn Hm; [done|]. rewrite seqZ_cons by lia. replace (Z.pred (Z.of_nat (S n))) with (Z.of_nat n) by lia.
  cbn [linked]. split_and!; [lia|lia| |apply IH; [lia|lia|done]]. rewrite Hm by lia. f_equal.
  destruct n as [|n]; [by rewrite (proj2 (Z.eqb_eq _ _)) by lia|].
  rewrite (proj2 (Z.eqb_neq _ _)) by lia. rewrite seqZ_cons by lia. cbn [head_ptr]. by f_equal.
Qed.
Lemma init_ok cap base :
  0 < cap -> 0 < base -> base + cap * size <= 2 ^ 64 ->
  exists mem p, init new_pool cap base = Some (true, p) /\ pool_ok p base mem (seqZ 0 cap) /\ capacity_ p = cap.
Proof.
  intros Hc Hb Hs. unfold init. rewrite (proj2 (Z.leb_gt cap 0)), (proj2 (Z.eqb_neq base 0)) by lia. cbn [orb storage new_pool].
  destruct (link_all_ok (Z.to_nat cap) base 0) as (mem & -> & Hl & Hm). rewrite Some_bind.
  rewrite Z2Nat.id in Hl, Hm by lia. rewrite <- Hl in Hm. exists mem. eexists. split; [done|]. split; [|done].
  split; cbn [storage free_head capacity_ available_]; try done.
  - apply NoDup_seqZ.
  - rewrite <- (Z2Nat.id cap) by lia. apply linked_seq; [lia|lia|done].
  - rewrite seqZ_cons by lia. cbn [head_ptr]. unfold address_of. lia.
  - unfold zlen. rewrite length_seqZ. lia.
Qed.

(** Calls, and what they do to the stack of free elements. *)
Inductive call : Type := Acquire | Release (i : Z).
Definition perform (base : Z) (p : pool) (c : call) : option (Z * pool) :=
  match c with
  | Acquire => acquire p
  | Release i => p ← release p (address_of base i); Some (0, p)
  end.
Fixpoint run (base : Z) (p : pool) (l : list call) : option (list Z * pool) :=
  match l with
  | [] => Some ([], p)
  | c :: l => '(r, p) ← perform base p c; '(out, p) ← run base p l; Some (r :: out, p)
  end.
Fixpoint spec_run (base : Z) (free : list Z) (l : list call) : list Z * list Z :=
  match l with
  | [] => ([], free)
  | Acquire :: l => let '(out, free') := spec_run base (drop 1 free) l in (head_ptr base free :: out, free')
  | Release i :: l => let '(out, free') := spec_run base (i :: free) l in (0 :: out, free')
  end.
(** Only elements that are out are released. *)
Fixpoint legal (cap : Z) (free : list Z) (l : list call) : Prop :=
  match l with
  | [] => True
  | Acquire :: l => legal cap (drop 1 free) l
  | Release i :: l => 0 <= i < cap /\ (i ∉ free) /\ legal cap (i :: free) l
  end.

Lemma pool_run_refines base l : forall p mem free,
  pool_ok p base mem free -> legal (capacity_ p) free l ->
  exists p' mem', run base p l = Some (fst (spec_run base free l), p') /\ pool_ok p' base mem' (snd (spec_run base free l))
    /\ capacity_ p' = capacity_ p.
Proof.
  induction l as [|[|i] l IH]; intros p mem free Hok Hl; cbn [run spec_run legal perform] in *.
  - by exists p, mem.
  - pose proof (acquire_ok p base mem free Hok) as A. destruct free as [|i rest].
    + rewrite A, Some_bind. change (drop 1 []) with (@nil Z) in *. destruct (IH p mem [] Hok Hl) as (p' & mem' & -> & Hok' & Hc).
      rewrite Some_bind. destruct (spec_run base [] l). by exists p', mem'.
    + destruct A as (p1 & E & Hok1). assert (capacity_ p1 = capacity_ p) as Hc1.
      { rewrite <- (po_cap _ _ _ _ Hok1), <- (po_cap _ _ _ _ Hok). apply zlen_aset. }
      rewrite E, Some_bind. cbn [drop] in *. rewrite <- Hc1 in Hl.
      destruct (IH p1 _ rest Hok1 Hl) as (p' & mem' & -> & Hok' & Hc). rewrite Some_bind. rewrite skipn_0 in *.
      destruct (spec_run base rest l). exists p', mem'. split_and!; [done|done|congruence].
  - destruct Hl as (Hi & Hn & Hl). destruct (release_ok p base mem free i Hok Hi Hn) as (p1 & -> & Hok1).
    assert (capacity_ p1 = capacity_ p) as Hc1.
    { rewrite <- (po_cap _ _ _ _ Hok1), <- (po_cap _ _ _ _ Hok). apply zlen_aset. }
    rewrite !Some_bind. rewrite <- Hc1 in Hl.
    destruct (IH p1 _ (i :: free) Hok1 Hl) as (p' & mem' & -> & Hok' & Hc). rewrite Some_bind.
    destruct (spec_run base (i :: free) l). exists p', mem'. split_and!; [done|done|congruence].
Qed.

(** The pool is a stack of free elements: after [init] every sequence of [acquire]s
    and of [release]s of elements that are out returns the addresses the stack gives
    (null when it is empty), never the same element twice in between, the element is
    all zero when it is handed out, [available] counts the stack, and every link read
    back from the elements' own bytes stays inside the allocation. *)
Theorem pool_refines_stack cap base l :
  0 < cap -> 0 < base -> base + cap * size <= 2 ^ 64 -> legal cap (seqZ 0 cap) l ->
  exists p0 p mem, init new_pool cap base = Some (true, p0)
    /\ run base p0 l = Some (fst (spec_run base (seqZ 0 cap) l), p)
    /\ pool_ok p base mem (snd (spec_run base (seqZ 0 cap) l))
    /\ (forall i rest, snd (spec_run base (seqZ 0 cap) l) = i :: rest ->
         exists p' mem', acquire p = Some (address_of base i, p') /\ storage p' = Some (base, mem') /\ mem'.[i] = blank /\ i ∉ rest).
Proof.
  intros Hc Hb Hs Hl. destruct (init_ok cap base Hc Hb Hs) as (mem0 & p0 & E0 & Hok0 & Hcap). rewrite <- Hcap in Hl at 1.
  destruct (pool_run_refines base l p0 mem0 _ Hok0 Hl) as (p & mem & E & Hok & _). exists p0, p, mem. split_and!; [done|done|done|].
  intros i rest Ef. rewrite Ef in Hok. destruct (acquire_ok _ _ _ _ Hok) as (p' & Ea & Hok').
  pose proof Hok as [_ _ _ N L _ _]. cbn [linked] in L. destruct L as (Hi & _). apply list.NoDup_cons in N as [Hn _].
  exists p', (aset mem i blank). split_and!; [done|apply Hok'|by apply aget_aset_eq|done].
Qed.
End Pool.

Lemma pool_refines_stack_witness :
  exists p0 p mem, init 24 new_pool 3 4096 = Some (true, p0)
    /\ run 24 4096 p0 [Acquire; Acquire; Release 0; Acquire; Acquire; Acquire] = Some ([4096; 4120; 0; 4096; 4144; 0], p)
    /\ pool_ok 24 p 4096 mem [].
Proof.
  destruct (pool_refines_stack 24 ltac:(lia) 3 4096 [Acquire; Acquire; Release 0; Acquire; Acquire; Acquire])
    as (p0 & p & mem & E & R & K & _).
  - lia.
  - lia.
  - lia.
  - cbn [legal]. change (seqZ 0 3) with [0; 1; 2]. cbn [drop]. split_and!; [lia|lia| |done].
    by apply not_elem_of_cons; split; [|apply not_elem_of_nil].
  - exists p0, p, mem. split_and!; [exact E|exact R|exact K].
Defined.
End Pool.
