(* ===== verification/Compressor.v ===== *)
(** The compression wrapper (src/src/compress/compressor.h).

    The netc library is a parameter, the class [Netc]; [Lossless] states what such a
    library documents: what one side compresses the other decompresses, message by
    message, with contexts that stay in step in the stateful mode.  Built without
    [NETUDP_HAS_NETC] the wrapper copies.  [None] is undefined behaviour. *)

From S2P Require Import Prelude Bytes.

Module Compressor.

Inductive CompressionMode : Type := None_ | Stateful | Stateless.

Class Netc : Type := {
  netc_dict : Type; netc_ctx : Type;
  netc_ctx_create : netc_dict -> bool -> option netc_ctx;
  netc_compress : netc_ctx -> bytes -> Z -> option bytes * netc_ctx;
  netc_compress_stateless : netc_dict -> bytes -> Z -> option bytes;
  netc_decompress : netc_ctx -> bytes -> Z -> option bytes * netc_ctx;
  netc_decompress_stateless : netc_dict -> bytes -> Z -> option bytes }.

Section Compressor.
Context `{Netc}.
(** Whether the library is compiled in. *)
Context (has_netc : bool).

Record compressor : Type := mkCompressor { mode_ : CompressionMode; dict_ : option netc_dict; ctx_ : option netc_ctx }.
Definition new_compressor : compressor := mkCompressor None_ None None.
Definition enabled (c : compressor) : bool := match mode_ c with None_ => false | _ => true end.

Definition init (c : compressor) (mode : CompressionMode) (dict : option netc_dict) : bool * compressor :=
  match mode, dict with
  | None_, _ | _, None => (true, mkCompressor None_ dict (ctx_ c))
  | _, Some d =>
      if has_netc then
        match netc_ctx_create d (match mode with Stateful => true | _ => false end) with
        | None => (false, mkCompressor None_ dict None)
        | Some ctx => (true, mkCompressor mode dict (Some ctx))
        end
      else (true, mkCompressor mode dict (ctx_ c))
  end.
Definition destroy (c : compressor) : compressor := mkCompressor None_ (dict_ c) None.

(** [memcpy(dst, src, src_len)] into a buffer of [cap] bytes. *)
Definition copy_out (src : bytes) (cap : Z) : option bytes := _ ← guard_ub (zlen src <=? cap); Some src.

(** The bytes left in [dst], and [*compressed]. *)
Definition compress (c : compressor) (src : bytes) (dst_cap : Z) : option (bytes * bool * compressor) :=
  let pass c := d ← copy_out src dst_cap; Some (d, false, c) in
  if negb (enabled c) || (zlen src <=? 0) then pass c
  else if negb has_netc then pass c
  else
    '(r, c) ←
      match mode_ c with
      | Stateful =>
          ctx ← ctx_ c; let '(r, ctx) := netc_compress ctx src dst_cap in
          Some (r, mkCompressor (mode_ c) (dict_ c) (Some ctx))
      | _ => d ← dict_ c; Some (netc_compress_stateless d src dst_cap, c)
      end;
    match r with
    | Some out => if zlen out <? zlen src then Some (out, true, c) else pass c
    | None => pass c
    end.
(** [inl (-1)] is the error. *)
Definition decompress (c : compressor) (src : bytes) (dst_cap : Z) : option ((Z + bytes) * compressor) :=
  let pass := d ← copy_out src dst_cap; Some (inr d, c) in
  if negb (enabled c) || (zlen src <=? 0) then pass
  else if negb has_netc then pass
  else
    '(r, c) ←
      match mode_ c with
      | Stateful =>
          ctx ← ctx_ c; let '(r, ctx) := netc_decompress ctx src dst_cap in
          Some (r, mkCompressor (mode_ c) (dict_ c) (Some ctx))
      | _ => d ← dict_ c; Some (netc_decompress_stateless d src dst_cap, c)
      end;
    Some (match r with Some out => inr out | None => inl (-1) end, c).

(** ** A channel *)

(** The sender's bytes and flag for each message; the receiver decompresses the flagged. *)
Fixpoint send_all (c : compressor) (cap : Z) (l : list bytes) : option (list (bytes * bool)) :=
  match l with
  | [] => Some []
  | m :: l => '(d, z, c) ← compress c m cap; out ← send_all c cap l; Some ((d, z) :: out)
  end.
Fixpoint receive_all (c : compressor) (cap : Z) (l : list (bytes * bool)) : option (list (Z + bytes)) :=
  match l with
  | [] => Some []
  | (d, true) :: l => '(m, c) ← decompress c d cap; out ← receive_all c cap l; Some (m :: out)
  | (d, false) :: l => out ← receive_all c cap l; Some (inr d :: out)
  end.

(** What the library promises: messages come back, and a pair of contexts made from one
    dictionary stays in step as long as each side sees every message. *)
Class Lossless (in_step : netc_ctx -> netc_ctx -> Prop) : Prop := {
  created d e c : netc_ctx_create d true = Some e -> netc_ctx_create d true = Some c -> in_step e c;
  stateless_ok d src cap out : netc_compress_stateless d src cap = Some out -> zlen src <= cap ->
    out <> [] /\ netc_decompress_stateless d out cap = Some src;
  stateful_ok e c src cap out e' : in_step e c -> netc_compress e src cap = (Some out, e') -> zlen src <= cap ->
    out <> [] /\ exists c', netc_decompress c out cap = (Some src, c') /\ in_step e' c' }.

Lemma compress_bound c src cap d z c' :
  compress c src cap = Some (d, z, c') -> zlen d <= zlen src /\ (z = false -> d = src) /\ mode_ c' = mode_ c /\ dict_ c' = dict_ c.
Proof.
  unfold compress, copy_out. intros E.
  assert (forall c0, (d0 ← (_ ← guard_ub (zlen src <=? cap); Some src); Some (d0, false, c0)) = Some (d, z, c') ->
    mode_ c0 = mode_ c -> dict_ c0 = dict_ c -> zlen d <= zlen src /\ (z = false -> d = src) /\ mode_ c' = mode_ c /\ dict_ c' = dict_ c) as Pass.
  { intros c0. unfold guard_ub. case_if; [|done]. rewrite !Some_bind. by intros [= <- <- <-]. }
  case_if_in E; [by apply (Pass c)|]. case_if_in E; [by apply (Pass c)|].
  destruct (match mode_ c with Stateful => _ | _ => _ end) as [[r c0]|] eqn:Er; [|done]. rewrite Some_bind in E.
  assert (mode_ c0 = mode_ c /\ dict_ c0 = dict_ c) as [Em Ed].
  { destruct (mode_ c) eqn:Em; [destruct (dict_ c) eqn:Ed; [|done]; injection Er as <- <-; done| |destruct (dict_ c) eqn:Ed; [|done]; injection Er as <- <-; done].
    destruct (ctx_ c); [|done]. rewrite Some_bind in Er. destruct (netc_compress _ _ _). by injection Er as <- <-. }
  destruct r as [out|]; [|by apply (Pass c0)]. case_if_in E; [|by apply (Pass c0)]. injection E as <- <- <-. split_and!; [lia|done..].
Qed.

(** Sender and receiver of one channel. *)
Definition paired (in_step : netc_ctx -> netc_ctx -> Prop) (a b : compressor) : Prop :=
  mode_ a = mode_ b /\ (has_netc = true -> match mode_ a with
    | None_ => True
    | Stateless => exists d, dict_ a = Some d /\ dict_ b = Some d
    | Stateful => exists e c, ctx_ a = Some e /\ ctx_ b = Some c /\ in_step e c
    end).
Lemma init_paired in_step `{!Lossless in_step} mode dict a b :
  init new_compressor mode dict = (true, a) -> init new_compressor mode dict = (true, b) -> paired in_step a b.
Proof.
  unfold init. intros Ea Eb. rewrite Ea in Eb. injection Eb as <-. split; [done|]. intros Hn. rewrite Hn in Ea.
  destruct mode, dict as [d|]; try (injection Ea as <-; done).
  - destruct (netc_ctx_create d true) as [e|] eqn:E; [|done]. injection Ea as <-. cbn. exists e, e. split_and!; [done..|].
    by eapply created.
  - destruct (netc_ctx_create d false) as [e|] eqn:E; [|done]. injection Ea as <-. cbn. by exists d.
Qed.

(** One message: compressed ones come back, and the contexts stay in step unless a
    stateful sender fell back to copying. *)
Lemma compressed_message_ok in_step `{!Lossless in_step} a b m cap :
  paired in_step a b -> zlen m <= cap ->
  exists d z a', compress a m cap = Some (d, z, a') /\ zlen d <= zlen m /\ (z = false -> d = m) /\
    (z = false -> mode_ a <> Stateful -> paired in_step a' b) /\
    (z = true -> exists b', decompress b d cap = Some (inr m, b') /\ paired in_step a' b' /\ mode_ a' = mode_ a).
Proof.
  intros [Em P] Hm.
  assert (copy_out m cap = Some m) as Ec by (unfold copy_out, guard_ub; by rewrite (proj2 (Z.leb_le _ _))).
  assert (forall a', mode_ a' = mode_ a -> dict_ a' = dict_ a ->
    exists d z a0, Some (m, false, a') = Some (d, z, a0) /\ zlen d <= zlen m /\ (z = false -> d = m) /\
    (z = false -> mode_ a <> Stateful -> paired in_step a0 b) /\
    (z = true -> exists b', decompress b d cap = Some (inr m, b') /\ paired in_step a0 b' /\ mode_ a0 = mode_ a)) as Pass.
  { intros a' Hma Hda. exists m, false, a'. split_and!; try done. intros _ Hs. split; [congruence|]. intros Hn. specialize (P Hn).
    rewrite Hma, Hda. by destruct (mode_ a). }
  unfold compress. rewrite Ec, !Some_bind. case_if; [by apply Pass|]. case_if; [by apply Pass|].
  specialize (P E). unfold enabled in H0.
  destruct (mode_ a) eqn:Ema; [done| |].
  - destruct P as (e & c & Ea & Eb & Hs). rewrite Ea, Some_bind. destruct (netc_compress e m cap) as [[out|] e'] eqn:Eo; rewrite Some_bind.
    2: { by apply Pass. }
    case_if; [|by apply Pass]. destruct (stateful_ok e c m cap out e' Hs Eo Hm) as (Hne & c' & Ed & Hs').
    eexists _, _, _. split_and!; [done|lia|done|done|]. intros _. unfold decompress, enabled. rewrite <- Em, Eb, Some_bind, Ed, E.
    rewrite (proj2 (Z.leb_gt (zlen out) 0)) by (destruct out; [done|rewrite zlen_cons; pose proof (zlen_nonneg out); lia]).
    cbn [negb orb]. rewrite Some_bind. eexists. split; [done|]. split; [|done]. split; [done|]. intros _. cbn. by exists e', c'.
  - destruct P as (dd & Ea & Eb). rewrite Ea, Some_bind. destruct (netc_compress_stateless dd m cap) as [out|] eqn:Eo; rewrite Some_bind.
    2: { by apply Pass. }
    case_if; [|by apply Pass]. destruct (stateless_ok dd m cap out Eo Hm) as (Hne & Ed).
    eexists _, _, _. split_and!; [done|lia|done|done|]. intros _. unfold decompress, enabled. rewrite <- Em, Eb, Some_bind, Ed, E.
    rewrite (proj2 (Z.leb_gt (zlen out) 0)) by (destruct out; [done|rewrite zlen_cons; pose proof (zlen_nonneg out); lia]).
    cbn [negb orb]. rewrite Some_bind. eexists. split; [done|]. split; [|done]. split; [by rewrite Ema|]. intros _. rewrite Ema. by exists dd.
Qed.

(** A compressor that [init] accepted has what its mode needs. *)
Definition ready (c : compressor) : Prop := has_netc = true ->
  match mode_ c with None_ => True | Stateless => is_Some (dict_ c) | Stateful => is_Some (ctx_ c) end.
Lemma paired_ready in_step a b : paired in_step a b -> ready a.
Proof.
  intros [_ P] Hn. specialize (P Hn). destruct (mode_ a); [done| |].
  - destruct P as (e & c & -> & _). by eexists.
  - destruct P as (d & -> & _). by eexists.
Qed.
Lemma compress_total c m cap : ready c -> zlen m <= cap -> exists d z c', compress c m cap = Some (d, z, c') /\ ready c'.
Proof.
  intros R Hm. assert (copy_out m cap = Some m) as Ec by (unfold copy_out, guard_ub; by rewrite (proj2 (Z.leb_le _ _))).
  unfold compress. rewrite Ec, !Some_bind. case_if; [by eexists _, _, _|]. case_if; [by eexists _, _, _|].
  unfold ready in *. specialize (R E). unfold enabled in H0. destruct (mode_ c) eqn:Em; [done| |].
  - destruct R as [e Ee]. rewrite Ee, Some_bind. destruct (netc_compress e m cap) as [[out|] e']; rewrite Some_bind; [case_if|];
      rewrite ?Some_bind; eexists _, _, _; (split; [done|]); intros _; cbn; by eexists.
  - destruct R as [d Ed]. rewrite Ed, Some_bind. destruct (netc_compress_stateless d m cap) as [out|]; rewrite Some_bind; [case_if|];
      rewrite ?Some_bind; eexists _, _, _; (split; [done|]); intros _; rewrite Em, Ed; by eexists.
Qed.
Lemma send_all_total cap l : forall c, ready c -> Forall (fun m => zlen m <= cap) l ->
  exists out, send_all c cap l = Some out /\ Forall2 (fun m x => zlen x.1 <= zlen m /\ (x.2 = false -> x.1 = m)) l out.
Proof.
  induction l as [|m l IH]; intros c R F; cbn [send_all]; [exists []; by split; [|constructor]|].
  apply Forall_cons_1 in F as [Hm F]. destruct (compress_total c m cap R Hm) as (d & z & c' & E & R').
  rewrite E, Some_bind. destruct (IH c' R' F) as (out & -> & F2). rewrite Some_bind. eexists. split; [done|].
  constructor; [|done]. by destruct (compress_bound c m cap d z c' E) as (? & ? & _).
Qed.
Lemma receive_all_ok in_step `{!Lossless in_step} cap l : forall a b out,
  paired in_step a b -> Forall (fun m => zlen m <= cap) l -> send_all a cap l = Some out ->
  mode_ a <> Stateful \/ Forall (fun x => x.2 = true) out -> receive_all b cap out = Some (inr <$> l).
Proof.
  induction l as [|m l IH]; intros a b out P F Es Hc; cbn [send_all] in Es; [by injection Es as <-|].
  apply Forall_cons_1 in F as [Hm F].
  destruct (compressed_message_ok in_step a b m cap P Hm) as (d & z & a' & E & _ & Hz & Pf & Pt).
  pose proof (compress_bound a m cap d z a' E) as (_ & _ & Ema & _).
  rewrite E, Some_bind in Es. destruct (send_all a' cap l) as [out'|] eqn:Eo; [|done]. rewrite Some_bind in Es. injection Es as <-.
  cbn [receive_all fmap list_fmap]. destruct z.
  - destruct (Pt eq_refl) as (b' & -> & P' & _). rewrite Some_bind. rewrite (IH a' b' out' P' F Eo), Some_bind; [done|].
    destruct Hc as [?|Hc]; [left; congruence|right]. by apply Forall_cons_1 in Hc as [_ ?].
  - destruct Hc as [Hs|Hc]; [|by apply Forall_cons_1 in Hc as [? _]].
    rewrite (IH a' b out' (Pf eq_refl Hs) F Eo), Some_bind; [|left; congruence]. by rewrite Hz.
Qed.

(** Compression never grows a message and never damages one, given a lossless
    library: whatever the mode, what a channel sends for a message is no longer than the
    message, and is the message itself when not flagged as compressed; without
    contexts the receiver gets every message back, and with contexts it does as long as
    no message was copied instead of compressed. *)
Theorem compression_lossless in_step `{!Lossless in_step} mode dict a cap l :
  init new_compressor mode dict = (true, a) -> Forall (fun m => zlen m <= cap) l ->
  exists out, send_all a cap l = Some out
    /\ Forall2 (fun m x => zlen x.1 <= zlen m /\ (x.2 = false -> x.1 = m)) l out
    /\ (mode_ a <> Stateful \/ Forall (fun x => x.2 = true) out -> receive_all a cap out = Some (inr <$> l)).
Proof.
  intros Ei F. pose proof (init_paired in_step mode dict a a Ei Ei) as P.
  destruct (send_all_total cap l a (paired_ready _ _ _ P) F) as (out & E & F2). exists out. split_and!; [done|done|].
  by apply (receive_all_ok in_step).
Qed.
End Compressor.

(** ** A library that sends a message equal to the last as one byte *)

Definition repeat_netc : Netc := {|
  netc_dict := unit; netc_ctx := bytes;
  netc_ctx_create _ _ := Some [];
  netc_compress last src _ := (Some (if bool_decide (src = last) then [0] else 1 :: src), src);
  netc_compress_stateless _ src _ := Some (if bool_decide (src = [7; 7; 7]) then [0] else 1 :: src);
  netc_decompress last src _ :=
    match src with [0] => (Some last, last) | 1 :: m => (Some m, m) | _ => (None, last) end;
  netc_decompress_stateless _ src _ :=
    match src with [0] => Some [7; 7; 7] | 1 :: m => Some m | _ => None end |}.
#[export] Instance repeat_lossless : Lossless (H := repeat_netc) eq.
Proof.
  split; cbn.
  - congruence.
  - intros _ src cap out [= <-] _. case_bool_decide; by subst.
  - intros e c src cap out e' -> [= <- <-] _. case_bool_decide; subst; (split; [done|]); by eexists.
Qed.
Lemma compression_lossless_witness :
  exists out, send_all (H := repeat_netc) true (mkCompressor (H := repeat_netc) Stateless (Some tt) (Some [])) 100 [[7; 7; 7]; [1; 2]] = Some out
    /\ Forall2 (fun m x => zlen x.1 <= zlen m /\ (x.2 = false -> x.1 = m)) [[7; 7; 7]; [1; 2]] out
    /\ (Stateless <> Stateful \/ Forall (fun x => x.2 = true) out ->
         receive_all (H := repeat_netc) true (mkCompressor (H := repeat_netc) Stateless (Some tt) (Some [])) 100 out
         = Some (inr <$> [[7; 7; 7]; [1; 2]])).
Proof.
  apply (compression_lossless (H := repeat_netc) true eq Stateless (Some tt)).
  - reflexivity.
  - repeat constructor; vm_compute; discriminate.
Defined.

(** A message copied instead of compressed leaves the contexts out of step: the next
    one comes out wrong. *)
Lemma copying_desynchronises :
  let c := mkCompressor (H := repeat_netc) Stateful (Some tt) (Some []) in
  send_all (H := repeat_netc) true c 100 [[5; 5]; [5; 5]] = Some [([5; 5], false); ([0], true)]
  /\ receive_all (H := repeat_netc) true c 100 [([5; 5], false); ([0], true)] = Some [inr [5; 5]; inr []].
Proof. done. Qed.
End Compressor.
