(* ===== verification/Profiler.v ===== *)
(** The built-in profiler (src/src/profiling/profiler.h, src/src/profiling/profiler.cpp).

    The registry of zones and the scope guard [ProfileZone], first as one thread runs
    them, then the destructor of the guard as any number of threads run it together:
    its steps are the single accesses to the relaxed atomics of a zone, and a relaxed
    load may return any value the variable has held. *)

From stdpp Require Import relations.
From S2P Require Import Prelude.

Module Profiler.

Definition PROFILER_MAX_ZONES : Z := 64.
Definition UINT64_MAX : Z := 2 ^ 64 - 1.

Record ZoneStats : Type := mkZone {
  call_count : Z; total_ns : Z; min_ns : Z; max_ns : Z; last_ns : Z; name : option Z }.
#[export] Instance zone_inhabited : Inhabited ZoneStats := populate (mkZone 0 0 UINT64_MAX 0 0 None).
Definition cleared (z : ZoneStats) : ZoneStats := mkZone 0 0 UINT64_MAX 0 0 (name z).

(** The global state; a name is a pointer to a string literal. *)
Record Profiler : Type := mkProfiler { g_zones : list ZoneStats; g_zone_count : Z; g_profiling_enabled : bool }.
Definition initial : Profiler := mkProfiler (replicate (Z.to_nat PROFILER_MAX_ZONES) inhabitant) 0 false.

Definition register_zone (p : Profiler) (n : Z) : option (Z * Profiler) :=
  let idx := g_zone_count p in
  if PROFILER_MAX_ZONES <=? idx
  then Some (-1, mkProfiler (g_zones p) PROFILER_MAX_ZONES (g_profiling_enabled p))
  else
    zones ← oset (g_zones p) idx (mkZone 0 0 UINT64_MAX 0 0 (Some n));
    Some (idx, mkProfiler zones (idx + 1) (g_profiling_enabled p)).

Definition profiler_enable (p : Profiler) (enabled : Z) : Profiler :=
  mkProfiler (g_zones p) (g_zone_count p) (negb (enabled =? 0)).
Definition profiler_is_enabled (p : Profiler) : Z := if g_profiling_enabled p then 1 else 0.

(** [ProfileZone]: the constructor and the destructor at the given times. *)
Record ProfileZone : Type := mkGuard { idx : Z; start : Z }.
Definition zone_enter (p : Profiler) (zone_idx now : Z) : ProfileZone :=
  mkGuard zone_idx (if g_profiling_enabled p && (0 <=? zone_idx) then now else 0).
(** The accesses of the destructor when no other thread is in the way. *)
Definition record (z : ZoneStats) (elapsed : Z) : ZoneStats :=
  mkZone (u64 (call_count z + 1)) (u64 (total_ns z + elapsed))
    (if elapsed <? min_ns z then elapsed else min_ns z)
    (if elapsed >? max_ns z then elapsed else max_ns z) elapsed (name z).
Definition zone_exit (p : Profiler) (g : ProfileZone) (now : Z) : option Profiler :=
  if negb (g_profiling_enabled p) || (idx g <? 0) then Some p
  else
    z ← oget (g_zones p) (idx g);
    zones ← oset (g_zones p) (idx g) (record z (u64 (now - start g)));
    Some (mkProfiler zones (g_zone_count p) (g_profiling_enabled p)).

(** [netudp_profile_zone_t]. *)
Definition snapshot (z : ZoneStats) : ZoneStats :=
  mkZone (call_count z) (total_ns z) (if min_ns z =? UINT64_MAX then 0 else min_ns z) (max_ns z) (last_ns z) (name z).
Definition zones_in_use (p : Profiler) : Z :=
  if PROFILER_MAX_ZONES <? g_zone_count p then PROFILER_MAX_ZONES else g_zone_count p.
Definition profiler_get_zones (p : Profiler) (max_zones : Z) : list ZoneStats :=
  if max_zones <=? 0 then []
  else
    let count := zones_in_use p in
    let n := if count <? max_zones then count else max_zones in
    snapshot <$> take (Z.to_nat n) (g_zones p).
Definition profiler_reset (p : Profiler) : Profiler :=
  let n := Z.to_nat (zones_in_use p) in
  mkProfiler ((cleared <$> take n (g_zones p)) ++ drop n (g_zones p)) (g_zone_count p) (g_profiling_enabled p).

(** [profiler_now_ns]: from the two fields of the POSIX clock, and from the Windows
    performance counter and its frequency. *)
Definition now_posix (tv_sec tv_nsec : Z) : Z := u64 (u64 (tv_sec * 1000000000) + tv_nsec).
Definition now_qpc (counter freq : Z) : Z := u64 (counter * 1000000000) / freq.

(** * One thread *)

(** Entering a zone while profiling is off and leaving it after it was switched on
    records the absolute time. *)
Lemma enter_disabled p p' i z t0 t1 :
  g_profiling_enabled p = false -> g_profiling_enabled p' = true -> 0 <= i < zlen (g_zones p') -> is_u64 t1 ->
  oget (g_zones p') i = Some z ->
  zone_exit p' (zone_enter p i t0) t1
  = Some (mkProfiler (aset (g_zones p') i (record z t1)) (g_zone_count p') true).
Proof.
  intros E0 E1 Hi Ht Ez. unfold zone_exit, zone_enter. rewrite E0, E1. cbn [andb negb orb idx start].
  rewrite (proj2 (Z.ltb_ge i 0)) by lia. rewrite Ez, Some_bind, oset_aset by done. rewrite Some_bind, Z.sub_0_r, u64_small by done. done.
Qed.
(** The multiplication of the performance counter wraps: with the usual 10 MHz counter
    a tick in the 1845th second reads as the start of time. *)
Lemma qpc_wraps : now_qpc 18446744073 10000000 = 1844674407300 /\ now_qpc 18446744074 10000000 = 29.
Proof. by vm_compute. Qed.

(** The registry: indices are handed out in order up to the limit and never twice. *)
Definition wf (p : Profiler) : Prop := zlen (g_zones p) = PROFILER_MAX_ZONES /\ 0 <= g_zone_count p <= PROFILER_MAX_ZONES.
Lemma register_spec p n : wf p ->
  exists i p', register_zone p n = Some (i, p') /\ wf p' /\
    (g_zone_count p < PROFILER_MAX_ZONES /\ i = g_zone_count p /\ g_zone_count p' = i + 1 /\
       g_zones p' = aset (g_zones p) i (mkZone 0 0 UINT64_MAX 0 0 (Some n)) \/
     g_zone_count p = PROFILER_MAX_ZONES /\ i = -1 /\ p' = p).
Proof.
  intros [Hl Hc]. unfold register_zone. case_if.
  - eexists _, _. split; [done|]. split; [split; cbn [g_zones g_zone_count]; [done|unfold PROFILER_MAX_ZONES; lia]|].
    right. split_and!; [lia|done|]. destruct p as [zs c e]. cbn in *. f_equal. lia.
  - rewrite oset_aset by lia. rewrite Some_bind. eexists _, _. split; [done|]. split.
    + split; cbn [g_zones g_zone_count]; [by rewrite zlen_aset|lia].
    + left. split_and!; [lia|done..].
Qed.
Lemma exit_wf p g t : wf p -> idx g < PROFILER_MAX_ZONES -> exists p', zone_exit p g t = Some p' /\ wf p'.
Proof.
  intros [Hl Hc] Hi. unfold zone_exit. case_if; [by exists p|].
  rewrite oget_aget, Some_bind, oset_aset, Some_bind by lia. eexists. split; [done|]. split; cbn [g_zones g_zone_count]; [by rewrite zlen_aset|done].
Qed.
Lemma reset_wf p : wf p -> wf (profiler_reset p).
Proof.
  intros [Hl Hc]. split; [|done]. unfold profiler_reset, zones_in_use. cbn [g_zones]. rewrite (proj2 (Z.ltb_ge _ _)) by lia.
  unfold zlen in *. rewrite length_app, length_fmap, length_take, length_drop. lia.
Qed.

(** * Any number of threads *)

(** Where a run of the destructor stands: the next access it makes.  [MinTry cur] and
    [MaxTry cur] are the heads of the two loops. *)
Inductive pc : Type :=
  | Count | Total | Last | MinLoad | MinTry (cur : Z) | MaxLoad | MaxTry (cur : Z) | Done.
Record act : Type := mkAct { elapsed : Z; at_pc : pc }.
(** A zone and the runs of destructors on it, finished ones included.  [mins] and
    [maxs] are the values [min_ns] and [max_ns] have held, the current one first. *)
Record zone : Type := mkZ { calls : Z; total : Z; mins : list Z; maxs : list Z; last : Z; acts : list act }.
Definition start_zone : zone := mkZ 0 0 [UINT64_MAX] [0] 0 [].
Definition goto (z : zone) (i : nat) (e : Z) (l : pc) : list act := <[i := mkAct e l]> (acts z).

Inductive step : zone -> zone -> Prop :=
  | Enter z e : is_u64 e -> step z (mkZ (calls z) (total z) (mins z) (maxs z) (last z) (acts z ++ [mkAct e Count]))
  | DoCount z i e : acts z !! i = Some (mkAct e Count) ->
      step z (mkZ (u64 (calls z + 1)) (total z) (mins z) (maxs z) (last z) (goto z i e Total))
  | DoTotal z i e : acts z !! i = Some (mkAct e Total) ->
      step z (mkZ (calls z) (u64 (total z + e)) (mins z) (maxs z) (last z) (goto z i e Last))
  | DoLast z i e : acts z !! i = Some (mkAct e Last) ->
      step z (mkZ (calls z) (total z) (mins z) (maxs z) e (goto z i e MinLoad))
  | LoadMin z i e v : acts z !! i = Some (mkAct e MinLoad) -> v ∈ mins z ->
      step z (mkZ (calls z) (total z) (mins z) (maxs z) (last z) (goto z i e (MinTry v)))
  | LeaveMin z i e cur : acts z !! i = Some (mkAct e (MinTry cur)) -> ~ e < cur ->
      step z (mkZ (calls z) (total z) (mins z) (maxs z) (last z) (goto z i e MaxLoad))
  | CasMin z i e cur l : acts z !! i = Some (mkAct e (MinTry cur)) -> e < cur -> mins z = cur :: l ->
      step z (mkZ (calls z) (total z) (e :: mins z) (maxs z) (last z) (goto z i e MaxLoad))
  | RetryMin z i e cur v : acts z !! i = Some (mkAct e (MinTry cur)) -> e < cur -> v ∈ mins z ->
      step z (mkZ (calls z) (total z) (mins z) (maxs z) (last z) (goto z i e (MinTry v)))
  | LoadMax z i e v : acts z !! i = Some (mkAct e MaxLoad) -> v ∈ maxs z ->
      step z (mkZ (calls z) (total z) (mins z) (maxs z) (last z) (goto z i e (MaxTry v)))
  | LeaveMax z i e cur : acts z !! i = Some (mkAct e (MaxTry cur)) -> ~ cur < e ->
      step z (mkZ (calls z) (total z) (mins z) (maxs z) (last z) (goto z i e Done))
  | CasMax z i e cur l : acts z !! i = Some (mkAct e (MaxTry cur)) -> cur < e -> maxs z = cur :: l ->
      step z (mkZ (calls z) (total z) (mins z) (e :: maxs z) (last z) (goto z i e Done))
  | RetryMax z i e cur v : acts z !! i = Some (mkAct e (MaxTry cur)) -> cur < e -> v ∈ maxs z ->
      step z (mkZ (calls z) (total z) (mins z) (maxs z) (last z) (goto z i e (MaxTry v))).

(** What a run has contributed so far. *)
Definition counted (a : act) : Z := match at_pc a with Count => 0 | _ => 1 end.
Definition totalled (a : act) : Z := match at_pc a with Count | Total => 0 | _ => elapsed a end.
Definition past_min (a : act) : bool := match at_pc a with MaxLoad | MaxTry _ | Done => true | _ => false end.
Definition past_max (a : act) : bool := match at_pc a with Done => true | _ => false end.
(** The loops compare with values the variables have held. *)
Definition act_ok (z : zone) (a : act) : Prop :=
  is_u64 (elapsed a) /\
  match at_pc a with MinTry cur => cur ∈ mins z | MaxTry cur => cur ∈ maxs z | _ => True end.

Record inv (z : zone) : Prop := {
  inv_calls : calls z = u64 (sumZ (counted <$> acts z));
  inv_total : total z = u64 (sumZ (totalled <$> acts z));
  inv_acts : Forall (act_ok z) (acts z);
  (** [min_ns] only falls, to values that were recorded, below all that are done with it. *)
  inv_mins : exists m l, mins z = m :: l /\ Forall (fun v => m <= v) l /\
    (m = UINT64_MAX \/ exists a, a ∈ acts z /\ elapsed a = m) /\
    Forall (fun a => past_min a = true -> m <= elapsed a) (acts z);
  inv_maxs : exists m l, maxs z = m :: l /\ Forall (fun v => v <= m) l /\
    (m = 0 \/ exists a, a ∈ acts z /\ elapsed a = m) /\
    Forall (fun a => past_max a = true -> elapsed a <= m) (acts z) }.

Lemma zinv_start : inv start_zone.
Proof.
  split; [done..|constructor| |].
  - exists UINT64_MAX, []. split_and!; [done|constructor|by left|constructor].
  - exists 0, []. split_and!; [done|constructor|by left|constructor].
Qed.

Section Moves.
Context (z : zone) (i : nat) (e : Z) (l : pc) (Hi : acts z !! i = Some (mkAct e l)).

Lemma goto_sum (f : act -> Z) l' :
  sumZ (f <$> goto z i e l') = sumZ (f <$> acts z) - f (mkAct e l) + f (mkAct e l').
Proof. unfold goto. rewrite list_fmap_insert. apply sumZ_insert. by rewrite list_lookup_fmap, Hi. Qed.
Lemma goto_elem l' m : (exists a, a ∈ acts z /\ elapsed a = m) -> exists a, a ∈ goto z i e l' /\ elapsed a = m.
Proof.
  intros (a & Ha & <-). apply list_elem_of_lookup in Ha as [j Hj]. destruct (decide (i = j)) as [<-|Hij].
  - rewrite Hi in Hj. injection Hj as <-. exists (mkAct e l'). split; [|done].
    apply list_elem_of_lookup. exists i. apply list_lookup_insert_eq. by eapply lookup_lt_Some.
  - exists a. split; [|done]. apply list_elem_of_lookup. exists j. unfold goto. by rewrite list_lookup_insert_ne.
Qed.
Lemma goto_here l' : mkAct e l' ∈ goto z i e l'.
Proof. apply list_elem_of_lookup. exists i. apply list_lookup_insert_eq. by eapply lookup_lt_Some. Qed.

(** A move of one run keeps the invariant if it adds what it is to add and leaves or
    lowers the minimum, leaves or raises the maximum, as it should. *)
Lemma inv_move z' l' : inv z ->
  acts z' = goto z i e l' ->
  calls z' = u64 (calls z + (counted (mkAct e l') - counted (mkAct e l))) ->
  total z' = u64 (total z + (totalled (mkAct e l') - totalled (mkAct e l))) ->
  match l' with MinTry cur => cur ∈ mins z' | MaxTry cur => cur ∈ maxs z' | _ => True end ->
  (mins z' = mins z /\ (past_min (mkAct e l') = true -> past_min (mkAct e l) = true \/ exists v, v ∈ mins z /\ v <= e) \/
   exists m t, mins z = m :: t /\ e < m /\ mins z' = e :: mins z) ->
  (maxs z' = maxs z /\ (past_max (mkAct e l') = true -> past_max (mkAct e l) = true \/ exists v, v ∈ maxs z /\ e <= v) \/
   exists m t, maxs z = m :: t /\ m < e /\ maxs z' = e :: maxs z) ->
  inv z'.
Proof.
  intros [Ic It Ia (m & t & Em & Fm & Hm & Pm) (x & u & Ex & Fx & Hx & Px)] Ea Ec Et Hok Hmin Hmax.
  pose proof (Forall_lookup_1 _ _ _ _ Ia Hi) as [He _]. cbn [elapsed] in He.
  assert (forall v, v ∈ mins z -> m <= v) as Lm.
  { rewrite Em. intros v Hv. apply elem_of_cons in Hv as [->|Hv]; [lia|]. rewrite list.Forall_forall in Fm. by apply Fm. }
  assert (forall v, v ∈ maxs z -> v <= x) as Lx.
  { rewrite Ex. intros v Hv. apply elem_of_cons in Hv as [->|Hv]; [lia|]. rewrite list.Forall_forall in Fx. by apply Fx. }
  assert (mins z ⊆ mins z' /\ maxs z ⊆ maxs z') as [Sm Sx].
  { split; [destruct Hmin as [[-> _]|(? & ? & _ & _ & ->)]|destruct Hmax as [[-> _]|(? & ? & _ & _ & ->)]]; set_solver. }
  split; rewrite ?Ea.
  - rewrite Ec, Ic, goto_sum. unfold u64. rewrite Zplus_mod_idemp_l. f_equal. lia.
  - rewrite Et, It, goto_sum. unfold u64. rewrite Zplus_mod_idemp_l. f_equal. lia.
  - apply Forall_insert; [|by split]. eapply Forall_impl; [|exact Ia]. intros a [Hu Ha]. split; [done|].
    destruct (at_pc a); set_solver.
  - destruct Hmin as [[-> Hp]|(m' & t' & Em' & He' & ->)].
    + exists m, t. split_and!; [done..| |].
      * destruct Hm as [->|Hm]; [by left|right; by apply goto_elem].
      * apply Forall_insert; [done|]. cbn [elapsed]. intros Hpast. destruct (Hp Hpast) as [Hold|(v & Hv & Hle)].
        -- exact (Forall_lookup_1 _ _ _ _ Pm Hi Hold).
        -- specialize (Lm v Hv). lia.
    + rewrite Em in Em'. injection Em' as <- <-. exists e, (mins z). split_and!; [done| | |].
      * apply list.Forall_forall. intros v Hv. specialize (Lm v Hv). lia.
      * right. eexists. split; [apply goto_here|done].
      * apply Forall_insert; [|cbn; lia]. eapply Forall_impl; [|exact Pm]. cbn. intros a Ha Hpast. specialize (Ha Hpast). lia.
  - destruct Hmax as [[-> Hp]|(m' & t' & Em' & He' & ->)].
    + exists x, u. split_and!; [done..| |].
      * destruct Hx as [->|Hx]; [by left|right; by apply goto_elem].
      * apply Forall_insert; [done|]. cbn [elapsed]. intros Hpast. destruct (Hp Hpast) as [Hold|(v & Hv & Hle)].
        -- exact (Forall_lookup_1 _ _ _ _ Px Hi Hold).
        -- specialize (Lx v Hv). lia.
    + rewrite Ex in Em'. injection Em' as <- <-. exists e, (maxs z). split_and!; [done| | |].
      * apply list.Forall_forall. intros v Hv. specialize (Lx v Hv). lia.
      * right. eexists. split; [apply goto_here|done].
      * apply Forall_insert; [|cbn; lia]. eapply Forall_impl; [|exact Px]. cbn. intros a Ha Hpast. specialize (Ha Hpast). lia.
Qed.
End Moves.

Lemma u64_keep z x : inv z -> x = 0 -> calls z = u64 (calls z + x) /\ total z = u64 (total z + x).
Proof.
  intros I ->. rewrite !Z.add_0_r, (inv_calls _ I), (inv_total _ I). unfold u64. by rewrite !Z.mod_mod.
Qed.
Lemma zinv_step z z' : step z z' -> inv z -> inv z'.
Proof.
  intros S I. destruct (u64_keep z 0 I eq_refl) as [Kc Kt].
  destruct S as [z e He|z i e Hi|z i e Hi|z i e Hi|z i e v Hi Hv|z i e cur Hi Hc|z i e cur t Hi Hc Hm|z i e cur v Hi Hc Hv
    |z i e v Hi Hv|z i e cur Hi Hc|z i e cur t Hi Hc Hm|z i e cur v Hi Hc Hv].
  { destruct I as [Ic It Ia (m & t & Em & Fm & Hm & Pm) (x & u & Ex & Fx & Hx & Px)]. split; cbn.
    - rewrite fmap_app, sumZ_app. cbn. by rewrite Z.add_0_r.
    - rewrite fmap_app, sumZ_app. cbn. by rewrite Z.add_0_r.
    - apply Forall_app. split; [done|]. by constructor.
    - exists m, t. split_and!; [done..| |].
      + destruct Hm as [->|(a & Ha & <-)]; [by left|right; exists a; set_solver].
      + apply Forall_app. split; [done|]. by constructor.
    - exists x, u. split_and!; [done..| |].
      + destruct Hx as [->|(a & Ha & <-)]; [by left|right; exists a; set_solver].
      + apply Forall_app. split; [done|]. by constructor. }
  all: pose proof (Forall_lookup_1 _ _ _ _ (inv_acts _ I) Hi) as [_ Hok]; cbn in Hok.
  all: eapply (inv_move z i e _ Hi); [exact I|reflexivity|..]; cbn; rewrite ?Z.sub_diag, ?Z.sub_0_r; try done;
    try (left; split; [reflexivity|first [discriminate|tauto]]); eauto 8 with lia.
Qed.

Lemma zinv_reachable z : rtc step start_zone z -> inv z.
Proof.
  intros R. assert (forall a b, rtc step a b -> inv a -> inv b) as X.
  { induction 1 as [|? ? ? S _ IH]; [done|]. intros I. apply IH. by eapply zinv_step. }
  exact (X _ _ R zinv_start).
Qed.

(** ** A destructor that runs alone *)

Definition abs (z : zone) : ZoneStats :=
  mkZone (calls z) (total z) (default 0 (head (mins z))) (default 0 (head (maxs z))) (last z) None.
Lemma at_end (l : list act) x : (l ++ [x]) !! length l = Some x.
Proof. by rewrite lookup_app_r, Nat.sub_diag. Qed.
Lemma goto_end c t mi ma la l e p p' :
  goto (mkZ c t mi ma la (l ++ [mkAct e p])) (length l) e p' = l ++ [mkAct e p'].
Proof. unfold goto. cbn [acts]. by rewrite insert_app_r_alt, Nat.sub_diag. Qed.
(** It ends, and does what [record] does. *)
Lemma run_alone z e m t x u : is_u64 e -> mins z = m :: t -> maxs z = x :: u ->
  exists z', rtc step z z' /\ abs z' = record (abs z) e /\ acts z' = acts z ++ [mkAct e Done] /\
    (exists m' t', mins z' = m' :: t') /\ (exists x' u', maxs z' = x' :: u').
Proof.
  intros He Em Ex. destruct z as [c to mi ma la l]. cbn [mins maxs acts] in *. subst mi ma.
  set (mi' := if e <? m then e :: m :: t else m :: t). set (ma' := if e >? x then e :: x :: u else x :: u).
  assert (forall c to mi ma la p p' c' to' mi' ma' la',
    step (mkZ c to mi ma la (l ++ [mkAct e p])) (mkZ c' to' mi' ma' la' (goto (mkZ c to mi ma la (l ++ [mkAct e p])) (length l) e p')) ->
    rtc step (mkZ c to mi ma la (l ++ [mkAct e p])) (mkZ c' to' mi' ma' la' (l ++ [mkAct e p']))) as one.
  { intros. apply rtc_once. rewrite goto_end in *. done. }
  exists (mkZ (u64 (c + 1)) (u64 (to + e)) mi' ma' e (l ++ [mkAct e Done])). split_and!; [| |done| |].
  - eapply rtc_l; [by apply (Enter (mkZ c to (m :: t) (x :: u) la l) e)|]. cbn [calls total mins maxs last acts].
    etrans; [apply one, DoCount, at_end|]. etrans; [apply one, DoTotal, at_end|]. etrans; [apply one, DoLast, at_end|].
    cbn [calls total mins maxs last].
    etrans; [apply one, (LoadMin _ _ _ m); [apply at_end|cbn; set_solver]|]. cbn [calls total mins maxs last].
    transitivity (mkZ (u64 (c + 1)) (u64 (to + e)) mi' (x :: u) e (l ++ [mkAct e MaxLoad])).
    { unfold mi'. case_if; apply one; [by eapply CasMin; [apply at_end|done|]|eapply LeaveMin; [apply at_end|lia]]. }
    etrans; [apply one, (LoadMax _ _ _ x); [apply at_end|cbn; set_solver]|]. cbn [calls total mins maxs last].
    unfold ma'. case_if; apply one; [by eapply CasMax; [apply at_end|done|]|eapply LeaveMax; [apply at_end|lia]].
  - unfold abs, record, mi', ma'. cbn -[u64 Z.gtb Z.ltb]. destruct (e <? m), (e >? x); reflexivity.
  - unfold mi'. case_if; eauto.
  - unfold ma'. case_if; eauto.
Qed.

(** ** Least and greatest of the recorded times *)

Lemma least m top l : Forall (fun e => m <= e) l -> m <= top -> m = top \/ m ∈ l -> m = foldr Z.min top l.
Proof.
  induction 1 as [|e l He F IH]; intros Ht Hm; cbn; [by destruct Hm as [->|?%not_elem_of_nil]|].
  assert (m <= foldr Z.min top l) as Hle by (clear -F Ht; induction F; cbn; lia).
  destruct Hm as [->|Hm]; [rewrite <- IH by auto; lia|]. apply elem_of_cons in Hm as [->|Hm]; [lia|]. rewrite <- IH by auto. lia.
Qed.
Lemma greatest m bot l : Forall (fun e => e <= m) l -> bot <= m -> m = bot \/ m ∈ l -> m = foldr Z.max bot l.
Proof.
  induction 1 as [|e l He F IH]; intros Ht Hm; cbn; [by destruct Hm as [->|?%not_elem_of_nil]|].
  assert (foldr Z.max bot l <= m) as Hle by (clear -F Ht; induction F; cbn; lia).
  destruct Hm as [->|Hm]; [rewrite <- IH by auto; lia|]. apply elem_of_cons in Hm as [->|Hm]; [lia|]. rewrite <- IH by auto. lia.
Qed.
Lemma all_le m l : Forall (fun a => at_pc a = Done) l -> Forall (fun a => past_min a = true -> m <= elapsed a) l ->
  Forall (fun e => m <= e) (elapsed <$> l).
Proof.
  intros D P. apply Forall_fmap. rewrite list.Forall_forall in D, P |- *. intros a Ha. apply P; [done|].
  unfold past_min. by rewrite D.
Qed.
Lemma all_ge m l : Forall (fun a => at_pc a = Done) l -> Forall (fun a => past_max a = true -> elapsed a <= m) l ->
  Forall (fun e => e <= m) (elapsed <$> l).
Proof.
  intros D P. apply Forall_fmap. rewrite list.Forall_forall in D, P |- *. intros a Ha. apply P; [done|].
  unfold past_max. by rewrite D.
Qed.
Lemma from_acts m d (l : list act) : m = d \/ (exists a, a ∈ l /\ elapsed a = m) -> m = d \/ m ∈ elapsed <$> l.
Proof. intros [->|(a & Ha & <-)]; [by left|right]. by apply list_elem_of_fmap_2. Qed.
Lemma all_done l : Forall (fun a => at_pc a = Done) l ->
  sumZ (counted <$> l) = zlen l /\ totalled <$> l = elapsed <$> l.
Proof.
  induction 1 as [|[e p] l Hp _ [IH1 IH2]]; [done|]. cbn in Hp. subst p. cbn [fmap list_fmap sumZ counted totalled at_pc elapsed].
  rewrite zlen_cons. split; [lia|]. cbn. by rewrite IH2.
Qed.

(** C39. The statistics of a zone are exact under concurrency.  However the destructors of
    any number of threads interleave, and whatever stale values their relaxed loads
    return, once they are finished the call count is the number of calls and the total
    the sum of their times (both modulo 2^64), the minimum is the smallest time and the
    maximum the largest; and in every state the two loops have somewhere to go: a thread
    that reads the current value leaves its loop at the next step. *)
Theorem zone_statistics_exact z : rtc step start_zone z ->
  (Forall (fun a => at_pc a = Done) (acts z) ->
     calls z = u64 (zlen (acts z)) /\ total z = u64 (sumZ (elapsed <$> acts z)) /\
     head (mins z) = Some (foldr Z.min UINT64_MAX (elapsed <$> acts z)) /\
     head (maxs z) = Some (foldr Z.max 0 (elapsed <$> acts z))) /\
  (forall i e m, acts z !! i = Some (mkAct e (MinTry m)) -> head (mins z) = Some m ->
     exists z', step z z' /\ acts z' = goto z i e MaxLoad) /\
  (forall i e x, acts z !! i = Some (mkAct e (MaxTry x)) -> head (maxs z) = Some x ->
     exists z', step z z' /\ acts z' = goto z i e Done).
Proof.
  intros R. pose proof (zinv_reachable z R) as [Ic It Ia (m & t & Em & Fm & Hm & Pm) (x & u & Ex & Fx & Hx & Px)]. split_and!.
  - intros D. rewrite Ic, It, Em, Ex. cbn [head hd_error].
    destruct (all_done _ D) as [-> ->]. split_and!; [done..| |].
    + f_equal. apply least; [by apply all_le|..|by apply from_acts].
      destruct Hm as [->|(a & Ha & <-)]; [done|]. rewrite list.Forall_forall in Ia. destruct (Ia a Ha) as [[? ?] _]. unfold UINT64_MAX. lia.
    + f_equal. apply greatest; [by apply all_ge|..|by apply from_acts].
      destruct Hx as [->|(a & Ha & <-)]; [done|]. rewrite list.Forall_forall in Ia. by destruct (Ia a Ha) as [[? ?] _].
  - intros i e m' Hi Hh. rewrite Em in Hh. injection Hh as ->. destruct (Z_lt_le_dec e m').
    + eexists. split; [by eapply CasMin|done].
    + eexists. split; [eapply LeaveMin; [done|lia]|done].
  - intros i e x' Hi Hh. rewrite Ex in Hh. injection Hh as ->. destruct (Z_lt_le_dec x' e).
    + eexists. split; [by eapply CasMax|done].
    + eexists. split; [eapply LeaveMax; [done|lia]|done].
Qed.
(** Two calls, of 30 and 20 nanoseconds. *)
Lemma zone_statistics_exact_witness : exists z, rtc step start_zone z /\
  elapsed <$> acts z = [30; 20] /\ calls z = 2 /\ total z = 50 /\ head (mins z) = Some 20 /\ head (maxs z) = Some 30.
Proof.
  destruct (run_alone start_zone 30 _ _ _ _ ltac:(done) eq_refl eq_refl) as (z1 & R1 & _ & A1 & (m & t & Em) & (x & u & Ex)).
  destruct (run_alone z1 20 _ _ _ _ ltac:(done) Em Ex) as (z2 & R2 & _ & A2 & _ & _). rewrite A1 in A2. cbn in A2.
  assert (rtc step start_zone z2) as R by (etrans; eassumption).
  destruct (zone_statistics_exact z2 R) as [T _]. exists z2. split; [exact R|].
  destruct T as (Tc & Tt & Tm & Tx); [rewrite A2; repeat constructor|]. rewrite A2 in *. by vm_compute in Tc, Tt, Tm, Tx.
Defined.
End Profiler.
