(* ===== verification/Api.v ===== *)
(** The library's life cycle and the small calls of the API (src/src/api.cpp:
    netudp_init, netudp_term, netudp_simd_level, netudp_server_send_batch;
    src/src/crypto/aead_dispatch.cpp: the choice of the cipher; src/src/server.cpp:
    netudp_server_get_stats, netudp_server_set_thread_affinity and the getters;
    src/src/crypto/random.cpp). *)

From S2P Require Import Prelude Bytes Double RingBuffer HashMap Replay PacketTracker ReliableChannel Channel.
From S2P Require Import Fragment Address Rtt Bandwidth Ddos Stats RateLimiter PacketCrypto ConnectToken.
From S2P Require Import Connection Receive Send IndexSet Group Slots Server ConnSafety ServerSafety.

Module Api.
Import Address Connection Receive Send Server ConnSafety ServerSafety.

(** * Initialisation *)

Inductive cipher : Type := XChaCha20 | AesGcm | Xor | NoCipher.
#[export] Instance cipher_eq_dec : EqDecision cipher.
Proof. solve_decision. Defined.

(** What the machine answers: the platform, ECX of CPUID leaf 1 (on x86), whether BCrypt
    and Winsock start, and the SIMD level that is found. *)
Record Machine : Type := mkMachine {
  windows : bool; x86 : bool; cpuid1_ecx : Z; aesgcm_starts : bool; wsa_starts : bool; simd_found : Z }.
Definition NETUDP_SIMD_GENERIC : Z := 0.

Definition cpu_has_aesni (m : Machine) : bool :=
  if x86 m then negb (Z.land (cpuid1_ecx m) (Z.shiftl 1 25) =? 0) else false.
Definition try_select_aesgcm (m : Machine) : bool :=
  if windows m then if negb (cpu_has_aesni m) then false else aesgcm_starts m else false.
(** [aead_dispatch_init]: the cipher behind the two function pointers. *)
Definition dispatch_cipher (m : Machine) (mode : Z) : cipher :=
  if mode =? Crypto.NETUDP_CRYPTO_NONE then NoCipher
  else if mode =? Crypto.NETUDP_CRYPTO_AES_GCM then if try_select_aesgcm m then AesGcm else XChaCha20
  else if mode =? Crypto.NETUDP_CRYPTO_AUTO then if try_select_aesgcm m then AesGcm else XChaCha20
  else if mode =? Crypto.NETUDP_CRYPTO_XOR then Xor
  else XChaCha20.
Definition socket_platform_init (m : Machine) : Z := if windows m then if wsa_starts m then 0 else -2 else 0.

(** The globals; [wsa] counts the starts of the socket subsystem not yet undone. *)
Record Lib : Type := mkLib {
  g_initialized : bool; g_detected_simd_level : Z; g_simd_set : bool; g_aead : cipher; wsa : Z }.
Definition lib0 : Lib := mkLib false NETUDP_SIMD_GENERIC false XChaCha20 0.

Definition netudp_init (m : Machine) (l : Lib) : Z * Lib :=
  if g_initialized l then (NETUDP_OK, l)
  else
    let level := simd_found m in
    let sock_err := socket_platform_init m in
    if negb (sock_err =? NETUDP_OK) then (sock_err, mkLib false level true XChaCha20 (wsa l))
    else (NETUDP_OK, mkLib true level true (dispatch_cipher m Crypto.NETUDP_CRYPTO_AUTO) (wsa l + 1)).
Definition netudp_term (l : Lib) : Lib :=
  if negb (g_initialized l) then l else mkLib false NETUDP_SIMD_GENERIC false XChaCha20 (wsa l - 1).
Definition netudp_simd_level (l : Lib) : Z := if negb (g_initialized l) then -1 else g_detected_simd_level l.

Inductive lib_call : Type := Init | Term | Level.
Definition lib_perform (m : Machine) (l : Lib) (c : lib_call) : Lib :=
  match c with Init => (netudp_init m l).2 | Term => netudp_term l | Level => l end.

(** The socket subsystem was started once more than stopped exactly while the library
    is initialised; the cipher is the one the machine calls for then and the default
    otherwise, and only then the level is known. *)
Definition lib_ok (m : Machine) (l : Lib) : Prop :=
  wsa l = (if g_initialized l then 1 else 0) /\
  g_aead l = (if g_initialized l then dispatch_cipher m Crypto.NETUDP_CRYPTO_AUTO else XChaCha20) /\
  netudp_simd_level l = (if g_initialized l then simd_found m else -1) /\
  (g_initialized l = true -> g_simd_set l = true).
Lemma lib_call_ok m l c : lib_ok m l -> lib_ok m (lib_perform m l c).
Proof.
  intros Hl. destruct c; cbn [lib_perform]; [| |done].
  - unfold netudp_init. destruct (g_initialized l) eqn:E; [done|]. unfold lib_ok in Hl. rewrite E in Hl.
    destruct Hl as (W & _). case_if; (split_and!; cbn; [lia|done..]).
  - unfold netudp_term. destruct (g_initialized l) eqn:E; [|done]. unfold lib_ok in Hl. rewrite E in Hl.
    destruct Hl as (W & _). cbn [negb]. split_and!; cbn; [lia|done..].
Qed.
Lemma library_balanced m calls : lib_ok m (foldl (lib_perform m) lib0 calls).
Proof.
  assert (lib_ok m lib0) as H0 by by split_and!. revert H0. generalize lib0.
  induction calls as [|c calls IH]; intros l Hl; [done|]. cbn [foldl]. by apply IH, lib_call_ok.
Qed.
(** Two machines that leave the choice to the library need not choose the same. *)
Lemma auto_differs m m' :
  windows m = true -> x86 m = true -> Z.testbit (cpuid1_ecx m) 25 = true -> aesgcm_starts m = true -> windows m' = false ->
  dispatch_cipher m Crypto.NETUDP_CRYPTO_AUTO = AesGcm /\ dispatch_cipher m' Crypto.NETUDP_CRYPTO_AUTO = XChaCha20.
Proof.
  intros E1 E2 E3 E4 E5. unfold dispatch_cipher, try_select_aesgcm, cpu_has_aesni.
  change (negb (Z.land (cpuid1_ecx m) (Z.shiftl 1 25) =? 0)) with (bit_set (cpuid1_ecx m) 25).
  rewrite bit_set_testbit by lia. by rewrite E1, E2, E3, E4, E5.
Qed.

(** * Batched sends *)

(** [netudp_send_entry_t]. *)
Record SendEntry : Type := mkEntry { e_client : Z; e_channel : Z; e_data : bytes; e_flags : Z }.

Section Batch.
Context `{HA : Crypto.Aead} (blake2b_keyed : bytes -> bytes -> bytes).
Definition send_entry (s : Server) (e : SendEntry) : option (Z * Server) :=
  netudp_server_send blake2b_keyed s (e_client e) (e_channel e) (e_data e) (e_flags e).
Fixpoint send_entries (s : Server) (l : list SendEntry) (queued : Z) : option (Z * Server) :=
  match l with
  | [] => Some (queued, s)
  | e :: l => '(rc, s) ← send_entry s e; send_entries s l (if rc =? NETUDP_OK then queued + 1 else queued)
  end.
(** [count] entries of the array. *)
Definition netudp_server_send_batch (s : Server) (entries : list SendEntry) (count : Z) : option (Z * Server) :=
  if count <=? 0 then Some (NETUDP_ERROR_INVALID_PARAM, s)
  else _ ← guard_ub (count <=? zlen entries); send_entries s (take (Z.to_nat count) entries) 0.
End Batch.

(** * Statistics and threads *)

Record ServerStats : Type := mkServerStats {
  connected_clients : Z; st_max_clients : Z; recv_pps : double; send_pps : double;
  total_bytes_recv : Z; total_bytes_sent : Z; ddos_severity : Z }.
Definition f_to_u64 (f : spec_float) : Z := d_to_u64 (d_of_f f).
(** One turn of the loop; the connections are gone after [netudp_server_stop]. *)
Definition add_stats (st : ServerStats) (c : Connection) : ServerStats :=
  if negb (active c) then st
  else mkServerStats (connected_clients st + 1) (st_max_clients st)
         (dadd (recv_pps st) (d_of_f (Stats.in_packets_per_sec (stats c))))
         (dadd (send_pps st) (d_of_f (Stats.out_packets_per_sec (stats c))))
         (u64 (total_bytes_recv st + f_to_u64 (Stats.in_bytes_per_sec (stats c))))
         (u64 (total_bytes_sent st + f_to_u64 (Stats.out_bytes_per_sec (stats c)))) (ddos_severity st).
Fixpoint collect_stats (n : nat) (i : Z) (s : Server) (st : ServerStats) : option ServerStats :=
  match n with
  | O => Some st
  | S n => c ← conn s i; collect_stats n (i + 1) s (add_stats st c)
  end.
Definition netudp_server_get_stats (s : Server) : option ServerStats :=
  collect_stats (Z.to_nat (max_clients s)) 0 s
    (mkServerStats 0 (max_clients s) d0 d0 0 0 (Ddos.level (Ddos.severity_ (ddos s)))).
Definition netudp_server_max_clients (s : Server) : Z := max_clients s.

(** [netudp_server_set_thread_affinity] on Linux: [worker_running] are the [running]
    flags of the additional sockets' threads, [set_ok] the answer of the system. *)
Definition netudp_server_set_thread_affinity (num_io_threads : Z) (worker_running : list bool)
    (thread_index cpu_id : Z) (set_ok : bool) : option Z :=
  if (thread_index <? 0) || (num_io_threads <=? thread_index) then Some NETUDP_ERROR_INVALID_PARAM
  else if thread_index =? 0 then Some (if set_ok then NETUDP_OK else -2)
  else
    r ← oget worker_running (thread_index - 1);
    Some (if negb r then NETUDP_ERROR_INVALID_PARAM else if set_ok then NETUDP_OK else -2).
(** The flags are false from their initialiser on: only thread 0 can be pinned. *)
Lemma workers_never_pinned n i cpu ok : 1 <= i < n ->
  netudp_server_set_thread_affinity n (replicate (Z.to_nat (n - 1)) false) i cpu ok = Some NETUDP_ERROR_INVALID_PARAM.
Proof.
  intros Hi. unfold netudp_server_set_thread_affinity.
  rewrite (proj2 (Z.ltb_ge i 0)), (proj2 (Z.leb_gt n i)), (proj2 (Z.eqb_neq i 0)) by lia. cbn [orb].
  rewrite (oget_aget _ (i - 1)) by (rewrite zlen_replicate; lia). rewrite Some_bind, aget_replicate by lia. done.
Qed.

(** ** What the calls promise *)

Section BatchSafe.
Context `{HA : Crypto.Aead} `{!ConnSafety.AeadBytes} (blake2b_keyed blake2b_keyed_64 : bytes -> bytes -> bytes)
        (crypto_aead_unlock : bytes -> bytes -> bytes -> bytes -> bytes -> option bytes)
        (falloc : Z -> option bytes).
Definition as_call (e : SendEntry) : call := ServerSafety.Send (e_client e) (e_channel e) (e_data e) (e_flags e).

(** A batch is its sends one after the other, whatever each of them returns, and the
    result counts those that were queued. *)
Lemma send_entries_spec l : forall s q, server_wf s ->
  exists r s', send_entries blake2b_keyed s l q = Some (r, s') /\ q <= r <= q + zlen l /\ server_wf s' /\
    run blake2b_keyed blake2b_keyed_64 crypto_aead_unlock falloc s (as_call <$> l) = Some s'.
Proof.
  induction l as [|e l IH]; intros s q Hs; cbn [send_entries].
  { exists q, s. change (zlen (@nil SendEntry)) with 0. split_and!; [done|lia|lia|done|done]. }
  unfold send_entry. destruct (send_ok blake2b_keyed s (e_client e) (e_channel e) (e_data e) (e_flags e) Hs) as (rc & s1 & E & G).
  rewrite E, Some_bind. destruct (IH s1 (if rc =? NETUDP_OK then q + 1 else q) (proj1 G)) as (r & s' & -> & Hr & W & R).
  exists r, s'. rewrite zlen_cons. split_and!; [done|destruct (rc =? NETUDP_OK); lia..|done|].
  rewrite fmap_cons. cbn [run perform as_call]. rewrite E. exact R.
Qed.
Lemma send_batch_is_sends s entries count : server_wf s -> count <= zlen entries ->
  exists r s', netudp_server_send_batch blake2b_keyed s entries count = Some (r, s') /\ server_wf s' /\
    (count <= 0 /\ r = NETUDP_ERROR_INVALID_PARAM /\ s' = s \/
     0 <= r <= count /\
     run blake2b_keyed blake2b_keyed_64 crypto_aead_unlock falloc s (as_call <$> take (Z.to_nat count) entries) = Some s').
Proof.
  intros Hs Hc. unfold netudp_server_send_batch. case_if; [exists NETUDP_ERROR_INVALID_PARAM, s; by split_and!; [..|left]|].
  rewrite (proj2 (Z.leb_le _ _)) by done. cbn [guard_ub]. rewrite Some_bind.
  destruct (send_entries_spec (take (Z.to_nat count) entries) s 0 Hs) as (r & s' & -> & Hr & W & R).
  exists r, s'. split_and!; [done..|]. right. split; [|done]. unfold zlen in *. rewrite length_take in Hr. lia.
Qed.
End BatchSafe.

Lemma collect_count s n : server_wf s -> forall i st, 0 <= i -> i + Z.of_nat n <= max_clients s ->
  exists st', collect_stats n i s st = Some st' /\
    connected_clients st' = connected_clients st + zlen (filter (fun j => j ∈ Slots.actives (sl s)) (seqZ i (Z.of_nat n))) /\
    st_max_clients st' = st_max_clients st.
Proof.
  intros Hs. induction n as [|n IH]; intros i st Hi Hn; cbn [collect_stats].
  { exists st. split_and!; [done| |done]. symmetry. apply Z.add_0_r. }
  rewrite (conn_at s i Hs) by lia. rewrite Some_bind.
  destruct (IH (i + 1) (add_stats st (connections s).[i])) as (st' & -> & E1 & E2); [lia..|].
  exists st'. split; [done|]. rewrite E1, E2. rewrite (seqZ_cons i (Z.of_nat (S n))) by lia. rewrite filter_cons.
  replace (Z.succ i) with (i + 1) by lia. replace (Z.pred (Z.of_nat (S n))) with (Z.of_nat n) by lia.
  pose proof (cw_active _ _ _ (sw_conns _ Hs) i ltac:(lia)) as Ha. unfold add_stats.
  destruct (active (connections s).[i]); cbn [negb connected_clients st_max_clients]; case_decide as D.
  - rewrite zlen_cons. split; [lia|done].
  - by destruct D; apply Ha.
  - by apply Ha in D.
  - split; [lia|done].
Qed.
(** A started server counts its clients exactly; no slot is looked at outside the array. *)
Lemma stats_count_clients s : server_wf s ->
  exists st, netudp_server_get_stats s = Some st /\ connected_clients st = zlen (Slots.actives (sl s)) /\
    st_max_clients st = max_clients s.
Proof.
  intros Hs. pose proof (sw_clients _ Hs) as Hn. unfold netudp_server_get_stats.
  destruct (collect_count s (Z.to_nat (max_clients s)) Hs 0
    (mkServerStats 0 (max_clients s) d0 d0 0 0 (Ddos.level (Ddos.severity_ (ddos s))))) as (st & -> & E1 & E2); [lia..|].
  exists st. split; [done|]. split; [|done]. rewrite E1. cbn [connected_clients]. rewrite Z.add_0_l. unfold zlen. f_equal.
  apply Permutation_length, NoDup_Permutation.
  - apply list.NoDup_filter, NoDup_seqZ.
  - apply IndexSet.members_NoDup, (Slots.sl_act _ _ (sw_slots _ Hs)).
  - intros x. rewrite list_elem_of_filter, elem_of_seqZ. split; [by intros [? _]|]. intros Hx. split; [done|].
    pose proof (active_slot s x Hs Hx). lia.
Qed.
(** After [netudp_server_stop] the loop still runs to [max_clients] over freed memory. *)
Lemma stats_after_stop s : 0 < max_clients s -> netudp_server_get_stats (netudp_server_stop s) = None.
Proof.
  intros Hn. unfold netudp_server_get_stats. cbn [netudp_server_stop max_clients].
  destruct (Z.to_nat (max_clients s)) as [|n] eqn:E; [lia|]. done.
Qed.

(** * Random bytes *)

Section Random.
(** [read] on the open random device: what was read, [None] for an error. *)
Context {D : Type} (read : D -> Z -> option bytes * D).
Fixpoint read_loop (fuel : nat) (d : D) (data : bytes) (total len : Z) : option (bytes * D) :=
  if total <? len then
    match fuel with
    | O => None
    | S fuel =>
        match read d (len - total) with
        | (Some ((_ :: _) as r), d) => data ← mwrite data total r; read_loop fuel d data (total + zlen r) len
        | (_, d) => Some (data, d)
        end
    end
  else Some (data, d).
(** [random_bytes] on Linux, with whether the device can be opened. *)
Definition random_bytes (opens : bool) (d : D) (data : bytes) (len : Z) : option (bytes * D) :=
  if len <=? 0 then Some (data, d)
  else if opens then read_loop (Z.to_nat len) d data 0 len else Some (data, d).

(** What a run of reads gives, one after the other. *)
Inductive pulls : D -> bytes -> D -> Prop :=
| pulls_nil d : pulls d [] d
| pulls_cons d n r d1 l d2 : read d n = (Some r, d1) -> pulls d1 l d2 -> pulls d (r ++ l) d2.

Lemma read_loop_fills len : (forall d n, 0 < n -> exists r d', read d n = (Some r, d') /\ 1 <= zlen r <= n) ->
  forall fuel d pre post tail, len - zlen pre <= Z.of_nat fuel -> zlen pre + zlen post = len ->
  exists r d', read_loop fuel d (pre ++ post ++ tail) (zlen pre) len = Some (pre ++ r ++ tail, d') /\
    zlen r = zlen post /\ pulls d r d'.
Proof.
  intros R. induction fuel as [|fuel IH]; intros d pre post tail Hf L; pose proof (zlen_nonneg post); cbn [read_loop].
  - rewrite (proj2 (Z.ltb_ge _ _)) by lia. exists post, d. assert (post = []) as -> by (apply length_zero_iff_nil; unfold zlen in *; lia).
    split_and!; [done|done|constructor].
  - case_if.
    + destruct (R d (len - zlen pre)) as (r & d1 & E1 & L1); [lia|]. rewrite E1. destruct r as [|b r]; [rewrite zlen_nil in L1; lia|].
      remember (b :: r) as r0 eqn:Er. clear Er b r.
      rewrite <- (take_drop (length r0) post), <- app_assoc.
      assert (length (take (length r0) post) = length r0) as LT by (rewrite length_take; unfold zlen in *; lia).
      rewrite mwrite_app by (unfold zlen; lia). rewrite Some_bind, <- zlen_app, app_assoc.
      destruct (IH d1 (pre ++ r0) (drop (length r0) post) tail) as (r & d2 & E2 & L2 & P).
      { rewrite zlen_app. lia. }
      { rewrite zlen_app. unfold zlen in *. rewrite length_drop. lia. }
      exists (r0 ++ r), d2. rewrite E2, <- !app_assoc. split_and!; [done| |by apply (pulls_cons d (len - zlen pre) r0 d1 r d2)].
      rewrite !zlen_app, L2. unfold zlen. lia.
    + exists post, d. assert (post = []) as -> by (apply length_zero_iff_nil; unfold zlen in *; lia).
      split_and!; [done|done|constructor].
Qed.
(** With a device that opens and does not fail the whole array is random, however short
    the single reads are; *)
Lemma random_fills d data len : (forall d n, 0 < n -> exists r d', read d n = (Some r, d') /\ 1 <= zlen r <= n) ->
  0 < len <= zlen data -> exists r d', random_bytes true d data len = Some (r ++ drop (Z.to_nat len) data, d') /\
    zlen r = len /\ pulls d r d'.
Proof.
  intros R L. unfold random_bytes. rewrite (proj2 (Z.leb_gt _ _)) by lia.
  destruct (read_loop_fills len R (Z.to_nat len) d [] (take (Z.to_nat len) data) (drop (Z.to_nat len) data)) as (r & d' & E & Lr & P).
  { change (zlen (@nil Z)) with 0. lia. }
  { change (zlen (@nil Z)) with 0. unfold zlen in *. rewrite length_take. lia. }
  cbn [app] in E. rewrite take_drop in E. exists r, d'. split_and!; [done| |done].
  rewrite Lr. unfold zlen in *. rewrite length_take. lia.
Qed.
(** with one that does not open the array is what it was, and nobody is told. *)
Lemma random_not_opened d data len : random_bytes false d data len = Some (data, d).
Proof. unfold random_bytes. by case_if. Qed.
End Random.
End Api.
