(* ===== verification/Sdk.v ===== *)
(** The C++ wrapper (src/sdk/cpp/netudp.hpp): the protocol id, the generated key, the
    configurations of servers and clients and the tokens they issue, owners of C handles,
    the readers and writers of typed packets and the dispatch table.

    The wrapper adds no protocol of its own: what is worth proving is that owners
    release what they own once, that a reader gives back what a writer wrote, and that
    a message reaches the handler of its type. *)

From stdpp Require Import gmap.
From S2P Require Import Prelude Bytes Double Address PacketCrypto ConnectToken Channel Buffer Server Client.

Module Sdk.

(** * Protocol id and key *)

(** A C string is its characters; [protocol_id] is the 64-bit FNV-1a hash. *)
Definition protocol_id (name : bytes) : Z :=
  foldl (fun hash c => u64 (Z.lxor hash (u8 c) * 1099511628211)) 14695981039346656037 name.
(** The published test vectors of FNV-1a. *)
Example protocol_id_vectors :
  protocol_id [] = 0xcbf29ce484222325 /\ protocol_id [97] = 0xaf63dc4c8601ec8c /\
  protocol_id [102; 111; 111; 98; 97; 114] = 0x85944171f73967e8.
Proof. by vm_compute. Qed.

Definition local_address : list Z := [49; 50; 55; 46; 48; 46; 48; 46; 49; 58; 49].  (** "127.0.0.1:1" *)
(** [Key::generate]: the key is passed to two token calls as their private key, a
    pointer to constant bytes; the random bytes and the clock are those calls'. *)
Definition key_generate (crypto_aead_lock : bytes -> bytes -> bytes -> bytes -> bytes * bytes)
    (c2s s2c nonce : bytes) (now : Z) : option bytes :=
  let k := replicate 32 0 in
  _ ← Token.netudp_generate_connect_token crypto_aead_lock 0 [] 0 0 0 0 k None c2s s2c nonce now [];
  _ ← Token.netudp_generate_connect_token crypto_aead_lock 1 [local_address] 1 1 1 1 k None c2s s2c nonce now (replicate 2048 0);
  Some k.
(** Whatever the random source gives, the generated key is zero. *)
Lemma generated_key_is_zero lock c2s s2c nonce now k :
  key_generate lock c2s s2c nonce now = Some k -> k = replicate 32 0.
Proof.
  unfold key_generate. destruct (Token.netudp_generate_connect_token _ 0 _ _ _ _ _ _ _ _ _ _ _ _); [|done]. rewrite Some_bind.
  destruct (Token.netudp_generate_connect_token _ 1 _ _ _ _ _ _ _ _ _ _ _ _); [|done]. by intros [= <-].
Qed.

(** * Servers and clients *)

(** The four types of a channel, with the values the C API has. *)
Inductive ChannelType : Type := Unreliable | UnreliableSequenced | ReliableOrdered | ReliableUnordered.
Definition channel_value (t : ChannelType) : Z :=
  match t with
  | Unreliable => NETUDP_CHANNEL_UNRELIABLE
  | UnreliableSequenced => NETUDP_CHANNEL_UNRELIABLE_SEQUENCED
  | ReliableOrdered => NETUDP_CHANNEL_RELIABLE_ORDERED
  | ReliableUnordered => NETUDP_CHANNEL_RELIABLE_UNORDERED
  end.
Record ChannelConfig : Type := mkSdkChannel { sdk_type : ChannelType; sdk_priority : Z; sdk_weight : Z; sdk_nagle_ms : Z }.
Definition zero_channel : channel_config := mkChannelConfig 0 0 0 0.
Definition c_channel (ch : ChannelConfig) : channel_config :=
  mkChannelConfig (channel_value (sdk_type ch)) (sdk_priority ch) (sdk_weight ch) (sdk_nagle_ms ch).
(** [for (auto& ch : channels)] with the test of [i] before the store. *)
Fixpoint store_channels (l : list ChannelConfig) (i : Z) (out : list channel_config) : option (Z * list channel_config) :=
  match l with
  | [] => Some (i, out)
  | ch :: l =>
      if 255 <=? i then Some (i, out)
      else _ ← guard_ub (i <? zlen out); store_channels l (i + 1) out.[i <- c_channel ch]
  end.
Definition no_channels : list channel_config := replicate 255 zero_channel.
Definition two_channels : list channel_config :=
  no_channels.[0 <- mkChannelConfig NETUDP_CHANNEL_UNRELIABLE 0 0 0].[1 <- mkChannelConfig NETUDP_CHANNEL_RELIABLE_ORDERED 0 0 0].

(** The configurations the constructors hand to [netudp_server_create] and
    [netudp_client_create]. *)
Definition server_config (game : bytes) (key : bytes) : Server.Config :=
  Server.mkConfig (protocol_id game) key two_channels 2 0 0.
Definition server_config_channels (game key : bytes) (channels : list ChannelConfig) : option Server.Config :=
  '(n, chs) ← store_channels channels 0 no_channels; Some (Server.mkConfig (protocol_id game) key chs n 0 0).
Definition client_config (game : bytes) : Client.Config := Client.mkClientConfig (protocol_id game) two_channels 2.
Definition client_config_channels (game : bytes) (channels : list ChannelConfig) : option Client.Config :=
  '(n, chs) ← store_channels channels 0 no_channels; Some (Client.mkClientConfig (protocol_id game) chs n).

(** [Server::generate_token]: the members [key_] and [protocol_id_] are those of the
    configuration. *)
Definition generate_token (crypto_aead_lock : bytes -> bytes -> bytes -> bytes -> bytes * bytes) (config : Server.Config)
    (addresses : list (list Z)) (client_id expire_seconds timeout_seconds : Z) (c2s s2c nonce : bytes) (now : Z)
    (token_out : bytes) : option (bool * bytes) :=
  '(r, t) ← Token.netudp_generate_connect_token crypto_aead_lock (zlen addresses) addresses expire_seconds timeout_seconds
              client_id (Server.protocol_id config) (Server.private_key config) None c2s s2c nonce now token_out;
  Some (r =? Address.NETUDP_OK, t).

(** The channels are stored in order, the first 255 of them, inside the array. *)
Lemma store_channels_spec l : forall pre post, zlen pre + zlen post = 255 -> exists n chs,
  store_channels l (zlen pre) (pre ++ post) = Some (n, chs) /\ n = Z.min 255 (zlen pre + zlen l) /\
  chs = pre ++ take (length post) (c_channel <$> l) ++ drop (length l) post.
Proof.
  induction l as [|ch l IH]; intros pre post L; cbn [store_channels].
  - exists (zlen pre), (pre ++ post). pose proof (zlen_nonneg post). rewrite zlen_nil. split_and!; [done|lia|].
    cbn. by rewrite take_nil.
  - pose proof (zlen_nonneg l). rewrite (zlen_cons ch l). destruct post as [|x post]; case_if; rewrite ?zlen_nil, ?zlen_cons in L.
    + exists (zlen pre), (pre ++ []). split_and!; [done|lia|]. by rewrite drop_nil.
    + lia.
    + pose proof (zlen_nonneg post). lia.
    + rewrite (proj2 (Z.ltb_lt _ _)) by (rewrite zlen_app, zlen_cons; pose proof (zlen_nonneg post); lia). cbn [guard_ub]. rewrite Some_bind.
      assert ((pre ++ x :: post).[zlen pre <- c_channel ch] = (pre ++ [c_channel ch]) ++ post) as ->.
      { unfold aset, zlen. rewrite Nat2Z.id, insert_app_r_alt, Nat.sub_diag by lia. cbn. by rewrite <- app_assoc. }
      destruct (IH (pre ++ [c_channel ch]) post) as (n & chs & E1 & -> & ->); [rewrite zlen_app; change (zlen [c_channel ch]) with 1; lia|].
      rewrite zlen_app in E1. change (zlen [c_channel ch]) with 1 in E1. rewrite E1. eexists _, _.
      split_and!; [done|lia|]. cbn. by rewrite <- app_assoc.
Qed.
Lemma channels_stored l : exists n chs, store_channels l 0 no_channels = Some (n, chs) /\ n = Z.min 255 (zlen l) /\
  take (Z.to_nat n) chs = take 255 (c_channel <$> l).
Proof.
  destruct (store_channels_spec l [] no_channels ltac:(done)) as (n & chs & E & -> & ->). eexists _, _. split; [exact E|].
  split; [done|]. change (length no_channels) with 255%nat. cbn [app]. change (zlen (@nil channel_config)) with 0. rewrite Z.add_0_l.
  rewrite take_app_le, take_take by (rewrite length_take, length_fmap; unfold zlen; lia).
  destruct (decide (length l <= 255)%nat); [rewrite !take_ge; [done|rewrite length_fmap; unfold zlen; lia..]|].
  f_equal. unfold zlen. lia.
Qed.

(** Server and client of one game have one protocol id; but two servers that generate
    their keys have one configuration, so each accepts what the other issues, and so
    would it from anybody who knows the game's name. *)
Lemma same_game game key : Server.protocol_id (server_config game key) = Client.protocol_id (client_config game).
Proof. done. Qed.
Lemma servers_share_key lock c2s s2c nonce now k lock' c2s' s2c' nonce' now' k' game :
  key_generate lock c2s s2c nonce now = Some k -> key_generate lock' c2s' s2c' nonce' now' = Some k' ->
  server_config game k = server_config game k' /\ server_config game k = server_config game (replicate 32 0).
Proof. intros ->%generated_key_is_zero ->%generated_key_is_zero. done. Qed.

(** * Owners *)

(** [Message], [Server] and [Client] own a C handle each ([raw_], [handle_]) and are
    moved but not copied.  [objs] holds the living objects by address with their
    handles ([None] is the null pointer), [released] the handles given back. *)
Record owners : Type := mkOwners { objs : gmap Z (option Z); released : list Z; acquired : list Z }.
Definition owners0 : owners := mkOwners ∅ [] [].
Definition release (h : option Z) (l : list Z) : list Z := match h with Some h => h :: l | None => l end.

Inductive op : Type := Construct (o : Z) (h : option Z) | MoveConstruct (o src : Z) | MoveAssign (o src : Z) | Destroy (o : Z).
(** An operation on an object that is not there, or a construction over one that is,
    is no program. *)
Definition exec (s : owners) (x : op) : option owners :=
  match x with
  | Construct o h =>
      match objs s !! o with
      | Some _ => None
      | None => Some (mkOwners (<[o := h]> (objs s)) (released s) (release h (acquired s)))
      end
  | MoveConstruct o src =>
      match objs s !! o with
      | Some _ => None
      | None => h ← objs s !! src; Some (mkOwners (<[o := h]> (<[src := None]> (objs s))) (released s) (acquired s))
      end
  | MoveAssign o src =>
      h ← objs s !! o; h' ← objs s !! src;
      if o =? src then Some s
      else Some (mkOwners (<[src := None]> (<[o := h']> (objs s))) (release h (released s)) (acquired s))
  | Destroy o => h ← objs s !! o; Some (mkOwners (delete o (objs s)) (release h (released s)) (acquired s))
  end.
Fixpoint exec_all (s : owners) (l : list op) : option owners :=
  match l with [] => Some s | x :: l => s ← exec s x; exec_all s l end.

(** The handles the living objects own. *)
Definition held (m : gmap Z (option Z)) : list Z := omap snd (map_to_list m).
Lemma held_insert m o h : m !! o = None -> held (<[o := h]> m) ≡ₚ release h (held m).
Proof. intros E. unfold held. rewrite (map_to_list_insert m o h E). by destruct h. Qed.
Lemma held_delete m o h : m !! o = Some h -> held m ≡ₚ release h (held (delete o m)).
Proof. intros E. rewrite <- (insert_delete_id m o h E) at 1. apply held_insert, lookup_delete_eq. Qed.
Lemma held_replace m o h h' : m !! o = Some h -> held (<[o := h']> m) ≡ₚ release h' (held (delete o m)).
Proof. intros E. rewrite <- insert_delete_eq. apply held_insert, lookup_delete_eq. Qed.
Lemma release_app h l l' : release h (l ++ l') = release h l ++ l'.
Proof. by destruct h. Qed.
#[export] Instance release_proper h : Proper ((≡ₚ) ==> (≡ₚ)) (release h).
Proof. intros l l' E. destruct h; [by constructor|done]. Qed.
Lemma release_app_r h l l' : release h (l ++ l') ≡ₚ l ++ release h l'.
Proof. destruct h; [apply Permutation_middle|done]. Qed.

(** Nothing is released twice and nothing is lost. *)
Definition balanced (s : owners) : Prop := acquired s ≡ₚ held (objs s) ++ released s.
Lemma exec_balanced s x s' : balanced s -> exec s x = Some s' -> balanced s'.
Proof.
  unfold balanced. intros B. destruct x as [o h|o src|o src|o]; cbn [exec].
  - destruct (objs s !! o) eqn:E; [done|]. intros [= <-]. cbn. rewrite held_insert by done. by rewrite <- release_app, B.
  - destruct (objs s !! o) eqn:E; [done|]. destruct (objs s !! src) as [h|] eqn:E'; [|done]. rewrite Some_bind. intros [= <-]. cbn.
    assert (o <> src) as Hne by congruence. rewrite held_insert by by rewrite lookup_insert_ne.
    rewrite (held_replace _ _ _ None E'). cbn [release]. rewrite B. f_equiv. by apply held_delete.
  - destruct (objs s !! o) as [h|] eqn:E; [|done]. rewrite Some_bind. destruct (objs s !! src) as [h'|] eqn:E'; [|done]. rewrite Some_bind.
    case_if; intros [= <-]; [done|]. cbn.
    rewrite (held_replace (<[o := h']> (objs s)) src h' None) by by rewrite lookup_insert_ne. cbn [release].
    rewrite delete_insert_ne by done. rewrite (held_replace (delete src (objs s)) o h h') by by rewrite lookup_delete_ne.
    rewrite B. rewrite <- release_app_r, <- release_app, (held_delete _ _ _ E'), (held_delete (delete src (objs s)) o h) by by rewrite lookup_delete_ne.
    by destruct h, h'; cbn; try apply Permutation_swap.
  - destruct (objs s !! o) as [h|] eqn:E; [|done]. rewrite Some_bind. intros [= <-]. cbn. rewrite B, (held_delete _ _ _ E), <- release_app_r.
    by rewrite release_app.
Qed.
Lemma exec_all_balanced l : forall s s', balanced s -> exec_all s l = Some s' -> balanced s'.
Proof.
  induction l as [|x l IH]; intros s s' B; cbn [exec_all]; [by intros [= <-]|].
  destruct (exec s x) as [s1|] eqn:E; [|done]. rewrite Some_bind. intros E'. eapply IH; [|done]. by eapply exec_balanced.
Qed.

(** The wrapper's objects release the C handles they own exactly once.  After any
    program of constructions, moves, move assignments and destructions, if the C calls
    returned different handles, no handle was released twice, none that an object still
    owns was released, no two objects own the same one, and when the last object is gone
    every handle has been released. *)
Theorem handles_released_once l s : exec_all owners0 l = Some s -> NoDup (acquired s) ->
  NoDup (released s) /\ NoDup (held (objs s)) /\ (forall h, h ∈ held (objs s) -> h ∉ released s) /\
  (objs s = ∅ -> released s ≡ₚ acquired s).
Proof.
  intros E N. assert (balanced s) as B by (eapply (exec_all_balanced l owners0); [|exact E]; by vm_compute). unfold balanced in B.
  rewrite B in N. apply list.NoDup_app in N as (N1 & N2 & N3). split_and!; [done..|].
  intros Eo. rewrite B, Eo. done.
Qed.
Definition demo_program : list op :=
  [Construct 1 (Some 100); MoveConstruct 2 1; Construct 3 (Some 101); MoveAssign 3 2; MoveAssign 3 3; Destroy 1; Destroy 2; Destroy 3].
Lemma handles_released_once_witness : exists s, exec_all owners0 demo_program = Some s /\ NoDup (released s) /\ released s ≡ₚ [101; 100].
Proof.
  destruct (exec_all owners0 demo_program) as [s|] eqn:E; [|by vm_compute in E].
  assert (acquired s = [101; 100] /\ objs s = ∅) as [Ea Eo] by (vm_compute in E; by injection E as <-).
  destruct (handles_released_once demo_program s E) as (N & _ & _ & F).
  - rewrite Ea. by repeat constructor; set_solver.
  - exists s. split; [done|]. split; [done|]. by rewrite <- Ea, F.
Defined.

(** ** The context of the callbacks *)

(** [Server] passes its own address to the C server as [callback_context]; the moves
    leave it there.  [context] maps a handle to the object its callbacks reach. *)
Definition exec_context (context : gmap Z Z) (x : op) : gmap Z Z :=
  match x with Construct o (Some h) => <[h := o]> context | _ => context end.
(** A server moved from 1 to 2: 2 owns the handle, its callbacks reach 1, then nobody. *)
Lemma moved_context :
  let l := [Construct 1 (Some 100); MoveConstruct 2 1; Destroy 1] in
  (fun s => (objs s !! 2, objs s !! 1)) <$> exec_all owners0 l = Some (Some (Some 100), None) /\
  foldl exec_context ∅ l !! 100 = Some 1.
Proof. by vm_compute. Qed.

(** * Reading raw bytes *)

Record RawReader : Type := mkRaw { r_data : bytes; r_pos : Z }.
Definition raw_read (n : nat) (r : RawReader) : Z * RawReader :=
  if zlen (r_data r) <? r_pos r + Z.of_nat n then (0, r)
  else (le_value (take n (drop (Z.to_nat (r_pos r)) (r_data r))), mkRaw (r_data r) (r_pos r + Z.of_nat n)).
Definition raw_u8 : RawReader -> Z * RawReader := raw_read 1.
Definition raw_u16 : RawReader -> Z * RawReader := raw_read 2.
Definition raw_u32 : RawReader -> Z * RawReader := raw_read 4.
Definition raw_u64 : RawReader -> Z * RawReader := raw_read 8.
(** Floating-point values are their bits, as in [Buffer]. *)
Definition raw_f32 : RawReader -> Z * RawReader := raw_read 4.
Definition raw_f64 : RawReader -> Z * RawReader := raw_read 8.
Definition remaining (r : RawReader) : Z := zlen (r_data r) - r_pos r.

(** The fields of a typed packet that both [BufferWriter] and [RawReader] have. *)
Definition raw_field (like : Buffer.item) (r : RawReader) : option (Buffer.item * RawReader) :=
  match like with
  | Buffer.U8 _ => let '(v, r) := raw_u8 r in Some (Buffer.U8 v, r)
  | Buffer.U16 _ => let '(v, r) := raw_u16 r in Some (Buffer.U16 v, r)
  | Buffer.U32 _ => let '(v, r) := raw_u32 r in Some (Buffer.U32 v, r)
  | Buffer.U64 _ => let '(v, r) := raw_u64 r in Some (Buffer.U64 v, r)
  | Buffer.F32 _ => let '(v, r) := raw_f32 r in Some (Buffer.F32 v, r)
  | Buffer.F64 _ => let '(v, r) := raw_f64 r in Some (Buffer.F64 v, r)
  | _ => None
  end.
Fixpoint raw_fields (like : list Buffer.item) (r : RawReader) : option (list Buffer.item * RawReader) :=
  match like with
  | [] => Some ([], r)
  | x :: like => '(x, r) ← raw_field x r; '(l, r) ← raw_fields like r; Some (x :: l, r)
  end.
Definition is_field (x : Buffer.item) : bool :=
  match x with Buffer.VarInt _ | Buffer.Blob _ | Buffer.Str _ => false | _ => true end.

Lemma raw_read_next n pre v post : 0 <= v < 2 ^ (8 * Z.of_nat n) ->
  raw_read n (mkRaw (pre ++ le_bytes n v ++ post) (zlen pre)) = (v, mkRaw (pre ++ le_bytes n v ++ post) (zlen (pre ++ le_bytes n v))).
Proof.
  intros Hv. unfold raw_read. cbn [r_data r_pos]. rewrite !zlen_app, zlen_le_bytes. pose proof (zlen_nonneg post).
  rewrite (proj2 (Z.ltb_ge _ _)) by lia. unfold zlen at 1. rewrite Nat2Z.id, drop_app_length.
  rewrite take_app_length' by by rewrite length_le_bytes. by rewrite le_value_bytes_small.
Qed.
(** Past the end a read gives zero and stays where it is. *)
Lemma raw_read_end n r : remaining r < Z.of_nat n -> raw_read n r = (0, r).
Proof. unfold remaining, raw_read. intros Hr. by rewrite (proj2 (Z.ltb_lt _ _)) by lia. Qed.
Lemma raw_field_next x pre post : Buffer.item_ok x -> is_field x = true ->
  raw_field x (mkRaw (pre ++ Buffer.encoding x ++ post) (zlen pre))
  = Some (x, mkRaw (pre ++ Buffer.encoding x ++ post) (zlen (pre ++ Buffer.encoding x))).
Proof.
  intros Hx Hf. destruct x as [v|v|v|v|v|v| | |]; try done; cbn [raw_field Buffer.encoding Buffer.item_ok] in *;
    unfold raw_u8, raw_u16, raw_u32, raw_u64, raw_f32, raw_f64, is_u8, is_u16, is_u32, is_u64 in *.
  { assert ([v] = le_bytes 1 v) as Ev.
    { change (le_bytes 1 v) with [v mod 256]. by rewrite Z.mod_small. }
    rewrite Ev. by rewrite raw_read_next. }
  all: by rewrite raw_read_next.
Qed.
Lemma raw_fields_next l : forall pre post, Forall Buffer.item_ok l -> Forall (fun x => is_field x = true) l ->
  raw_fields l (mkRaw (pre ++ concat (Buffer.encoding <$> l) ++ post) (zlen pre))
  = Some (l, mkRaw (pre ++ concat (Buffer.encoding <$> l) ++ post) (zlen (pre ++ concat (Buffer.encoding <$> l)))).
Proof.
  induction l as [|x l IH]; intros pre post Ho Hf; cbn [raw_fields fmap list_fmap concat]; [by rewrite app_nil_r|].
  apply Forall_cons_1 in Ho as [Hx Ho], Hf as [Fx Hf].
  rewrite <- (app_assoc (Buffer.encoding x)), raw_field_next, Some_bind by done.
  rewrite !(app_assoc pre (Buffer.encoding x)). by rewrite (IH (pre ++ Buffer.encoding x) post Ho Hf).
Qed.

(** * Dispatch *)

Section Dispatch.
Context {Handler : Type}.
Definition on_raw (handlers : gmap Z Handler) (type : Z) (fn : Handler) : gmap Z Handler := <[type := fn]> handlers.
Definition has_handler (handlers : gmap Z Handler) (type : Z) : bool := bool_decide (is_Some (handlers !! type)).
(** [handle]: the handler that is called, with the client and the bytes after the type. *)
Definition handle (handlers : gmap Z Handler) (client : Z) (msg : bytes) : option (Handler * Z * bytes) :=
  match msg with
  | [] => None
  | type :: payload => match handlers !! type with Some h => Some (h, client, payload) | None => None end
  end.
End Dispatch.

(** A typed packet arrives: what [BufferWriter] put into a buffer after the packet's
    type byte, the dispatch table gives to the handler registered last for that type, and
    [RawReader] reads the same fields from it, in order, to the last byte. *)
Theorem typed_packet_arrives {Handler : Type} (handlers : gmap Z Handler) (fn : Handler) (type client : Z) (l : list Buffer.item) b :
  Buffer.wf b -> Buffer.position b = 0 -> is_u8 type -> Forall Buffer.item_ok l -> Forall (fun x => is_field x = true) l ->
  Buffer.all_fit 0 (Buffer.U8 type :: l) ->
  exists b', Buffer.write_items b (Buffer.U8 type :: l) = Some b' /\
    let msg := take (Z.to_nat (Buffer.position b')) (Buffer.data b') in
    exists payload, handle (on_raw handlers type fn) client msg = Some (fn, client, payload) /\
      exists r, raw_fields l (mkRaw payload 0) = Some (l, r) /\ remaining r = 0.
Proof.
  intros Hw Hp Ht Ho Hf Ha.
  destruct (Buffer.write_items_spec (Buffer.U8 type :: l) b Hw) as (b' & E & P & W & Ep & _);
    [by constructor|by rewrite Hp|].
  exists b'. split; [done|]. cbv zeta. rewrite Hp, Z.add_0_l in Ep. remember (concat (Buffer.encoding <$> Buffer.U8 type :: l)) as img eqn:Eimg.
  assert (take (Z.to_nat (Buffer.position b')) (Buffer.data b') = img) as ->.
  { unfold Buffer.put in P. rewrite Hp in P. unfold mwrite in P. case_if_in P; [|done]. rewrite Some_bind in P.
    injection P as <-. cbn [Buffer.position Buffer.data]. rewrite Z.add_0_l. unfold zlen. rewrite Nat2Z.id.
    apply take_app_length. }
  exists (concat (Buffer.encoding <$> l)). subst img. unfold on_raw. cbn [fmap list_fmap concat Buffer.encoding app handle].
  rewrite lookup_insert_eq. split; [done|].
  pose proof (raw_fields_next l [] [] Ho Hf) as R. rewrite !app_nil_r in R. cbn [app] in R.
  eexists. split; [exact R|]. unfold remaining. cbn [r_data r_pos]. lia.
Qed.

Definition empty_buffer : Buffer.buffer := Buffer.mkBuffer (replicate (Z.to_nat NETUDP_MTU) 0) NETUDP_MTU 0.
Definition demo_fields : list Buffer.item := [Buffer.U32 70000; Buffer.F32 1065353216; Buffer.U16 9; Buffer.U64 5].
Lemma typed_packet_arrives_witness : exists b', Buffer.write_items empty_buffer (Buffer.U8 7 :: demo_fields) = Some b' /\
  exists payload, handle (on_raw ∅ 7 tt) 3 (take (Z.to_nat (Buffer.position b')) (Buffer.data b')) = Some (tt, 3, payload).
Proof.
  destruct (typed_packet_arrives ∅ tt 7 3 demo_fields empty_buffer) as (b' & E & payload & Eh & _).
  - split; [by vm_compute|done|cbn; unfold NETUDP_MTU; lia].
  - done.
  - done.
  - repeat constructor; done.
  - repeat constructor; done.
  - by vm_compute.
  - exists b'. split; [exact E|]. exists payload. exact Eh.
Defined.

(** * Quantised fields *)

(** The literals [0.1f], [3.14159265f] and [6.28318530f]. *)
Definition f_tenth : spec_float := flit 1 10.
Definition f_pi : spec_float := S754_finite false 13176795 (-22).
Definition f_2pi : spec_float := S754_finite false 13176795 (-21).
(** The casts to [int16_t] and [uint8_t] truncate; out of range they are undefined. *)
Definition qf32_write (v precision : spec_float) : option Z :=
  q ← d_trunc (fdiv v precision); _ ← guard_ub ((- 2 ^ 15 <=? q) && (q <? 2 ^ 15)); Some (u16 q).
Definition qf32_read (bits : Z) (precision : spec_float) : spec_float := fmul (f_of_Z (i16 bits)) precision.
Definition rot_write (radians : spec_float) : option Z :=
  b ← d_trunc (fmul (fadd radians f_pi) (fdiv (f_of_Z 255) f_2pi)); _ ← guard_ub ((0 <=? b) && (b <? 256)); Some b.
Definition rot_read (b : Z) : spec_float := fsub (fmul (f_of_Z b) (fdiv f_2pi (f_of_Z 255))) f_pi.

(** A coordinate that was read can be written again without change (checked for all
    values up to a hundred at the default precision). *)
Lemma qf32_stable q : -1000 <= q <= 1000 -> qf32_write (qf32_read (u16 q) f_tenth) f_tenth = Some (u16 q).
Proof.
  intros Hq. assert (forallb (fun q => bool_decide (qf32_write (qf32_read (u16 q) f_tenth) f_tenth = Some (u16 q))) (seqZ (-1000) 2001) = true) as A
    by (vm_compute; reflexivity).
  rewrite forallb_forall in A. eapply bool_decide_eq_true_1, A, list_elem_of_In, elem_of_seqZ. lia.
Qed.
(** The first write loses a step where the quotient falls short: 1.3 is stored as 1.2. *)
Lemma qf32_loses : qf32_write (flit 13 10) f_tenth = Some 12.
Proof. by vm_compute. Qed.
(** A rotation that is read and written again loses a step at fourteen of the values. *)
Lemma rot_drifts : filter (fun b => bool_decide (rot_write (rot_read b) = Some b) = false) (seqZ 0 256)
  = [1; 3; 5; 8; 10; 11; 13; 15; 18; 20; 25; 28; 35; 45].
Proof. by vm_compute. Qed.
End Sdk.
